(** * TinyPNG batch compressor: the retry-queue engine, verified

    A shallow embedding of the two programs of the repository:

    - [Cli]: the command-line tool (index.js, version 1.2.0), with its
      normal pass, its failed-files directory and its recovery pass;
    - [Ext]: the VS Code extension (extension.js, version 1.0.0), which has
      the same worker pool and retry loop but no failed-files directory.

    What is modelled and how:

    - paths are absolute POSIX paths, kept as the list of their segments;
      [path_join], [path_relative], [path_dirname], [path_basename] and
      [path_extname] follow Node's [path] module on that representation;
    - the file system is a tree of directories and files; every [fs] call of
      the sources is a function on that tree that returns a value or throws;
    - the three HTTP calls of one compression attempt are the transform
      adapter: an arbitrary function of the file, the attempt number and the
      uploaded bytes (the network is outside the program);
    - [async] functions run cooperatively: a worker runs until its next
      [await], and the event loop picks which suspended worker resumes.  The
      pool is a state machine over the shared queue, the shared result object
      and the file system; the order of resumptions is an arbitrary schedule;
    - every run of the [try] block of [compressImageWorker], every start
      of a scan of a directory tree and every console line is recorded in a
      trace.

    Counters of the configuration ([MAX_RETRIES], [MAX_CONCURRENT]) are
    natural numbers.  Percentages, which the sources compute in floating
    point, and the progress bar are left out. *)

From stdpp Require Import base list strings.
From Equations Require Import Equations.
From Stdlib Require Import Ascii Lia ZArith.
From Stdlib.Strings Require Import Byte.

(** ** Strings *)

(** [String.prototype.toLowerCase] on the ASCII range.  Code units outside
    A..Z are left as they are; none of the supported extensions contains a
    letter that a non-ASCII code unit lowercases to. *)
Definition lower_ascii (c : ascii) : ascii :=
  let n := nat_of_ascii c in
  if Nat.leb 65 n && Nat.leb n 90 then ascii_of_nat (n + 32) else c.

Fixpoint toLowerCase (s : string) : string :=
  match s with
  | EmptyString => EmptyString
  | String c s' => String (lower_ascii c) (toLowerCase s')
  end.

(** [s.startsWith('.')] *)
Definition startsWithDot (s : string) : bool :=
  match s with
  | String "."%char _ => true
  | _ => false
  end.

(** The suffix of [s] that starts at its last dot, if it has a dot. *)
Fixpoint from_last_dot (s : string) : option string :=
  match s with
  | EmptyString => None
  | String c s' =>
      match from_last_dot s' with
      | Some e => Some e
      | None => if decide (c = "."%char) then Some s else None
      end
  end.

(** ** Paths *)

Definition path := list string.

(** [path.extname] of a name without separator: from the last dot to the end;
    empty when there is no dot, when the only dot is the first character, and
    for the name [..]. *)
Definition path_extname (name : string) : string :=
  match name with
  | EmptyString => ""
  | String _ rest =>
      match from_last_dot rest with
      | Some e => if decide (name = "..") then "" else e
      | None => ""
      end
  end.

Definition path_basename (p : path) : string := default "" (last p).

Definition path_dirname (p : path) : path := removelast p.

(** Normal form of a sequence of segments below the root: [.] and empty
    segments vanish, [..] pops a segment (and stays at the root). *)
Fixpoint normalize_onto (stack : list string) (segs : list string) : path :=
  match segs with
  | [] => rev stack
  | s :: rest =>
      if decide (s = "..") then normalize_onto (tail stack) rest
      else if decide (s = "." \/ s = "") then normalize_onto stack rest
      else normalize_onto (s :: stack) rest
  end.

(** [path.join(base, ...rel)] for an absolute [base]. *)
Definition path_join (base : path) (rel : list string) : path :=
  normalize_onto [] (base ++ rel).

(** [path.relative(from, to)] for absolute normal paths: drop the common
    prefix, climb out of what is left of [from], descend into what is left
    of [to]. *)
Fixpoint path_relative (from to : path) : list string :=
  match from, to with
  | f :: from', t :: to' =>
      if decide (f = t) then path_relative from' to'
      else repeat ".." (length from) ++ to
  | [], _ => to
  | _ :: _, [] => repeat ".." (length from)
  end.

(** [path.resolve(p) === path.resolve(q)] for absolute normal paths. *)
Definition same_path (p q : path) : bool := bool_decide (p = q).

(** A directory-entry name: not empty, not [.] nor [..]. *)
Definition proper_name (s : string) : bool :=
  bool_decide (s <> "" /\ s <> "." /\ s <> "..").

Definition proper_path (p : path) : Prop := Forall (fun s => proper_name s = true) p.

(** [q] lies strictly below the directory [d]. *)
Definition under (d q : path) : Prop := exists rel, rel <> [] /\ q = d ++ rel.

(** ** Exceptions *)

(** What a [catch] clause of the sources can receive: an axios error with a
    response, an axios error without one, or any other error with its
    message ([fs] errors, [TypeError], [ReferenceError], [Error]). *)
Inductive JsError :=
| AxiosResponse (status : nat) (apiError : option string)
| AxiosRequest
| Thrown (message : string).

Inductive result (A : Type) :=
| Ok (a : A)
| Throw (e : JsError).
Arguments Ok {A} a.
Arguments Throw {A} e.

Definition rbind {A B} (r : result A) (k : A -> result B) : result B :=
  match r with
  | Ok a => k a
  | Throw e => Throw e
  end.

Notation "'let?' x := c 'in' k" := (rbind c (fun x => k))
  (at level 10, x name, c at level 100, k at level 200).

(** ** File system *)

Definition bytes := list byte.

Local Unset Elimination Schemes.
Inductive node :=
| File (data : bytes)
| Dir (entries : list (string * node)).
Local Set Elimination Schemes.

Module Fs.

Fixpoint assoc (s : string) (es : list (string * node)) : option node :=
  match es with
  | [] => None
  | (k, v) :: es' => if decide (k = s) then Some v else assoc s es'
  end.

(** Replaces the entry [s], or appends it. *)
Fixpoint assoc_set (s : string) (v : node) (es : list (string * node))
  : list (string * node) :=
  match es with
  | [] => [(s, v)]
  | (k, w) :: es' =>
      if decide (k = s) then (k, v) :: es' else (k, w) :: assoc_set s v es'
  end.

Fixpoint assoc_del (s : string) (es : list (string * node))
  : list (string * node) :=
  match es with
  | [] => []
  | (k, w) :: es' =>
      if decide (k = s) then es' else (k, w) :: assoc_del s es'
  end.

Fixpoint lookup (n : node) (p : path) : option node :=
  match p with
  | [] => Some n
  | s :: p' =>
      match n with
      | Dir es =>
          match assoc s es with
          | Some c => lookup c p'
          | None => None
          end
      | File _ => None
      end
  end.

Definition existsSync (fs : node) (p : path) : bool :=
  match lookup fs p with Some _ => true | None => false end.

Definition readdirSync (fs : node) (p : path) : result (list string) :=
  match lookup fs p with
  | Some (Dir es) => Ok (map fst es)
  | Some (File _) => Throw (Thrown "ENOTDIR")
  | None => Throw (Thrown "ENOENT")
  end.

(** [fs.statSync(p).isDirectory()] *)
Definition isDirectory (fs : node) (p : path) : result bool :=
  match lookup fs p with
  | Some (Dir _) => Ok true
  | Some (File _) => Ok false
  | None => Throw (Thrown "ENOENT")
  end.

Definition readFileSync (fs : node) (p : path) : result bytes :=
  match lookup fs p with
  | Some (File d) => Ok d
  | Some (Dir _) => Throw (Thrown "EISDIR")
  | None => Throw (Thrown "ENOENT")
  end.

(** [fs.mkdirSync(p, { recursive: true })] *)
Fixpoint mkdirSync (p : path) (n : node) : result node :=
  match p with
  | [] => match n with
          | Dir _ => Ok n
          | File _ => Throw (Thrown "EEXIST")
          end
  | s :: p' =>
      match n with
      | File _ => Throw (Thrown "ENOTDIR")
      | Dir es =>
          let? c' := mkdirSync p' (default (Dir []) (assoc s es)) in
          Ok (Dir (assoc_set s c' es))
      end
  end.

Fixpoint writeFileSync (p : path) (d : bytes) (n : node) : result node :=
  match p with
  | [] => Throw (Thrown "EISDIR")
  | [s] =>
      match n with
      | File _ => Throw (Thrown "ENOTDIR")
      | Dir es =>
          match assoc s es with
          | Some (Dir _) => Throw (Thrown "EISDIR")
          | _ => Ok (Dir (assoc_set s (File d) es))
          end
      end
  | s :: p' =>
      match n with
      | File _ => Throw (Thrown "ENOTDIR")
      | Dir es =>
          match assoc s es with
          | Some c =>
              let? c' := writeFileSync p' d c in
              Ok (Dir (assoc_set s c' es))
          | None => Throw (Thrown "ENOENT")
          end
      end
  end.

Fixpoint unlinkSync (p : path) (n : node) : result node :=
  match p with
  | [] => Throw (Thrown "EISDIR")
  | [s] =>
      match n with
      | File _ => Throw (Thrown "ENOTDIR")
      | Dir es =>
          match assoc s es with
          | Some (File _) => Ok (Dir (assoc_del s es))
          | Some (Dir _) => Throw (Thrown "EISDIR")
          | None => Throw (Thrown "ENOENT")
          end
      end
  | s :: p' =>
      match n with
      | File _ => Throw (Thrown "ENOTDIR")
      | Dir es =>
          match assoc s es with
          | Some c =>
              let? c' := unlinkSync p' c in
              Ok (Dir (assoc_set s c' es))
          | None => Throw (Thrown "ENOENT")
          end
      end
  end.

Definition copyFileSync (src dst : path) (n : node) : result node :=
  let? d := readFileSync n src in writeFileSync dst d n.

End Fs.

(** ** Trace, results and the transform adapter *)

Inductive LogLevel := Minimal | Normal | Verbose.

Inductive Stream := Stdout | Stderr.

Inductive Scanner := ScanImages | ScanUnsupported.

(** The reason string of a failure record. *)
Inductive ErrorDetails :=
| HttpStatus (status : nat) (text : string)
| NoResponse
| Message (text : string).

(** The console lines of the sources, by what they report. *)
Inductive Msg :=
| MBanner
| MSourceMissing (root : path)
| MNoImages
| MCopiedFailed (src dst : path)
| MCopyFailedWarn (src : path) (why : string)
| MFailedSavedTo (dir : path)
| MRule
| MSuccessCount (n : nat)
| MFailedCount (n : nat)
| MOriginalSize (n : nat)
| MCompressedSize (n : nat)
| MSaved (n : Z)
| MCopyUnsupportedDone
| MFinished (out : path)
| MCopiedUnsupported (src dst : path)
| MProcessing (rel : list string)
| MCompressed (rel : list string) (original compressed : nat)
| MDeletedFromFailed (file : path)
| MDeleteWarn (file : path) (why : string)
| MItemFailed (rel : list string) (why : ErrorDetails)
| MNoFailedDir
| MNothingToRetry
| MRetryStart (n : nat)
| MRetryDone (ok ko : nat)
| MStillFailing
| MAllRecovered
| MRetryOnly
| MFatal (e : JsError).

Inductive Event :=
| Console (s : Stream) (m : Msg)
| Scan (which : Scanner) (root : path)
| Attempt (file : path) (retryCount : nat).

Record World := { fs : node; trace : list Event }.

Definition emit (e : Event) (w : World) : World :=
  {| fs := fs w; trace := trace w ++ [e] |}.

Definition set_fs (n : node) (w : World) : World :=
  {| fs := n; trace := trace w |}.

(** [x || 'Unknown error'] on strings. *)
Definition or_unknown (s : string) : string :=
  if decide (s = "") then "Unknown error" else s.

(** The three-way inspection of a caught error in [compressImageWorker]. *)
Definition errorDetails (err : JsError) : ErrorDetails :=
  match err with
  | AxiosResponse status apiError =>
      HttpStatus status (or_unknown (default "" apiError))
  | AxiosRequest => NoResponse
  | Thrown m => Message (or_unknown m)
  end.

Definition message_of (err : JsError) : string :=
  match err with
  | Thrown m => m
  | _ => ""
  end.

Record Success := {
  s_filePath : path;
  s_outputPath : path;
  s_fileName : string;
  s_originalSize : nat;
  s_compressedSize : nat }.

Record Failure := {
  f_fileName : option string;
  f_filePath : path;
  f_error : ErrorDetails }.

(** What [await compressImageWorker(...)] evaluates to. *)
Inductive Returned :=
| RSuccess (s : Success)
| RFailure (f : Failure)
| RUndefined.

Record Results := { success : list Success; failed : list Failure }.

(** What the remote service does with one attempt: the upload or the
    processing request fails, the download fails, or the compressed bytes
    arrive. *)
Inductive NetOutcome :=
| UploadFailed (e : JsError)
| DownloadFailed (e : JsError)
| Downloaded (data : bytes).

(** file, attempt number, declared MIME type, uploaded bytes *)
Definition Adapter := path -> nat -> string -> bytes -> NetOutcome.

Definition SUPPORTED_FORMATS : list string := [".jpg"; ".jpeg"; ".png"; ".webp"].

(** [SUPPORTED_FORMATS.includes(path.extname(file).toLowerCase())] *)
Definition supported (file : string) : bool :=
  bool_decide (toLowerCase (path_extname file) ∈ SUPPORTED_FORMATS).

(** ** compressImageWorker *)

(** The parameters [compressImageWorker] reads: from [CONFIG] in the
    command-line tool, from its arguments in the extension. *)
Record Env := {
  env_sourceRoot : path;
  env_maxRetries : nat;
  env_preserve : bool }.

Definition fileTypeOf (filePath : path) : string :=
  let ext := toLowerCase (path_extname (path_basename filePath)) in
  if decide (ext = ".png") then "image/png"
  else if decide (ext = ".webp") then "image/webp"
  else "image/jpeg".

(** Step 6 of the [try] block. *)
Definition outputPathOf (env : Env) (outputRoot filePath : path) : path :=
  let fileName := path_basename filePath in
  if env_preserve env then
    let relativePath := path_relative (env_sourceRoot env) (path_dirname filePath) in
    path_join outputRoot (relativePath ++ [fileName])
  else path_join outputRoot [fileName].

(** The [try] block up to its first [await]: the source file is read. *)
Definition attempt_send (filePath : path) (retryCount : nat) (w : World)
  : result bytes * World :=
  let w := emit (Attempt filePath retryCount) w in
  (Fs.readFileSync (fs w) filePath, w).

(** The rest of the [try] block, once the service has answered.  The
    directory of the output file, which the source creates between the
    processing request and the download, is created here with the write. *)
Definition attempt_receive (env : Env) (outputRoot filePath : path)
    (fileSize : nat) (o : NetOutcome) (w : World) : result Success * World :=
  match o with
  | UploadFailed e => (Throw e, w)
  | _ =>
      let outputPath := outputPathOf env outputRoot filePath in
      let outputDir := path_dirname outputPath in
      match (if Fs.existsSync (fs w) outputDir then Ok (fs w)
             else Fs.mkdirSync outputDir (fs w)) with
      | Throw e => (Throw e, w)
      | Ok fs1 =>
          match o with
          | Downloaded d =>
              match Fs.writeFileSync outputPath d fs1 with
              | Throw e => (Throw e, set_fs fs1 w)
              | Ok fs2 =>
                  (Ok {| s_filePath := filePath;
                         s_outputPath := outputPath;
                         s_fileName := path_basename filePath;
                         s_originalSize := fileSize;
                         s_compressedSize := length d |}, set_fs fs2 w)
              end
          | DownloadFailed e => (Throw e, set_fs fs1 w)
          | UploadFailed e => (Throw e, w)
          end
      end
  end.

(** One run of the [try] block, with nothing else running in between. *)
Definition attempt (env : Env) (adapter : Adapter) (outputRoot filePath : path)
    (retryCount : nat) (w : World) : result Success * World :=
  match attempt_send filePath retryCount w with
  | (Throw e, w1) => (Throw e, w1)
  | (Ok fileData, w1) =>
      attempt_receive env outputRoot filePath (length fileData)
        (adapter filePath retryCount (fileTypeOf filePath) fileData) w1
  end.

(** The [catch] block, after [retryCount++]: the failure record when the
    retries are used up. *)
Definition exhausted (env : Env) (filePath : path) (retryCount : nat)
    (err : JsError) : option Failure :=
  if decide (env_maxRetries env < retryCount) then
    Some {| f_fileName := Some (path_basename filePath);
            f_filePath := filePath;
            f_error := errorDetails err |}
  else None.

(** The [while] loop, entered with the given [retryCount]. *)
Equations? retry_loop (env : Env) (adapter : Adapter) (outputRoot filePath : path)
    (retryCount : nat) (w : World) : Returned * World
  by wf (S (env_maxRetries env) - retryCount) lt :=
  retry_loop env adapter outputRoot filePath retryCount w
    with decide (retryCount <= env_maxRetries env) => {
    | right _ := (RUndefined, w);
    | left _ with attempt env adapter outputRoot filePath retryCount w => {
      | (Ok s, w1) := (RSuccess s, w1);
      | (Throw e, w1) with exhausted env filePath (S retryCount) e => {
        | Some f := (RFailure f, w1);
        | None := retry_loop env adapter outputRoot filePath (S retryCount) w1 } } }.
Proof. lia. Qed.

Definition compressImageWorker (env : Env) (adapter : Adapter)
    (outputRoot filePath : path) (w : World) : Returned * World :=
  retry_loop env adapter outputRoot filePath 0 w.

(** ** The worker pool *)

(** A worker between two of its [await]s. *)
Inductive Worker :=
| AwaitNet (file : path) (retryCount : nat) (fileData : bytes)
| AwaitBackoff (file : path) (retryCount : nat)
| AwaitTaskDelay
| Exited
| Rejected (e : JsError).

(** A pending call of [compressImageWorker]: suspended at an [await], or
    returned. *)
Inductive CallState :=
| Suspended (wk : Worker)
| Finished (r : Returned).

Definition caught (env : Env) (file : path) (retryCount : nat) (e : JsError)
  : CallState :=
  match exhausted env file (S retryCount) e with
  | Some f => Finished (RFailure f)
  | None => Suspended (AwaitBackoff file (S retryCount))
  end.

(** From the loop test of [compressImageWorker] to the next [await]. *)
Definition enter_loop (env : Env) (file : path) (retryCount : nat) (w : World)
  : CallState * World :=
  if decide (retryCount <= env_maxRetries env) then
    match attempt_send file retryCount w with
    | (Ok fileData, w1) => (Suspended (AwaitNet file retryCount fileData), w1)
    | (Throw e, w1) => (caught env file retryCount e, w1)
    end
  else (Finished RUndefined, w).

(** The service has answered the attempt the worker was waiting for. *)
Definition after_net (env : Env) (adapter : Adapter) (outputRoot file : path)
    (retryCount : nat) (fileData : bytes) (w : World) : CallState * World :=
  match attempt_receive env outputRoot file (length fileData)
          (adapter file retryCount (fileTypeOf file) fileData) w with
  | (Ok s, w1) => (Finished (RSuccess s), w1)
  | (Throw e, w1) => (caught env file retryCount e, w1)
  end.

(** What the workers of one pass share: the [files] array, the [results]
    object, and the world. *)
Record Shared := { world : World; queue : list path; results : Results }.

Definition set_world (w : World) (sh : Shared) : Shared :=
  {| world := w; queue := queue sh; results := results sh |}.

Definition set_queue (q : list path) (sh : Shared) : Shared :=
  {| world := world sh; queue := q; results := results sh |}.

Definition push_success (s : Success) (sh : Shared) : Shared :=
  {| world := world sh; queue := queue sh;
     results := {| success := success (results sh) ++ [s];
                   failed := failed (results sh) |} |}.

Definition push_failed (f : Failure) (sh : Shared) : Shared :=
  {| world := world sh; queue := queue sh;
     results := {| success := success (results sh);
                   failed := failed (results sh) ++ [f] |} |}.

Definition say (s : Stream) (m : Msg) (sh : Shared) : Shared :=
  set_world (emit (Console s m) (world sh)) sh.

Record Pool := { shared : Shared; workers : list Worker }.

Definition pending (wk : Worker) : bool :=
  match wk with
  | Exited | Rejected _ => false
  | _ => true
  end.

Fixpoint pending_from (i : nat) (ws : list Worker) : list nat :=
  match ws with
  | [] => []
  | wk :: ws' =>
      if pending wk then i :: pending_from (S i) ws' else pending_from (S i) ws'
  end.

Fixpoint first_rejection (ws : list Worker) : option JsError :=
  match ws with
  | [] => None
  | Rejected e :: _ => Some e
  | _ :: ws' => first_rejection ws'
  end.

Section Pool.

(** A worker function of the sources: [start] is the call
    [processWorker(...)] up to its first [await]; [resume] continues a
    suspended worker up to its next [await]. *)
Variable start : Shared -> Worker * Shared.
Variable resume : Worker -> Shared -> Worker * Shared.

(** [for (i = 0; i < n; i++) workers.push(processWorker(...))] *)
Fixpoint spawn (n : nat) (p : Pool) : Pool :=
  match n with
  | 0 => p
  | S k =>
      let (wk, sh) := start (shared p) in
      spawn k {| shared := sh; workers := workers p ++ [wk] |}
  end.

Definition step (i : nat) (p : Pool) : Pool :=
  match workers p !! i with
  | Some wk =>
      let (wk', sh) := resume wk (shared p) in
      {| shared := sh; workers := <[i := wk']> (workers p) |}
  | None => p
  end.

(** The event loop: while some worker is suspended, the schedule picks the
    one that resumes.  With [early] the loop stops as soon as a worker has
    rejected, which is when [Promise.all] settles. *)
Fixpoint run (early : bool) (sched : nat -> nat) (t : nat) (fuel : nat) (p : Pool)
  : Pool :=
  match fuel with
  | 0 => p
  | S fuel' =>
      match (if early then first_rejection (workers p) else None) with
      | Some _ => p
      | None =>
          match pending_from 0 (workers p) with
          | [] => p
          | i0 :: rest =>
              let i := nth (sched t mod length (i0 :: rest)) (i0 :: rest) i0 in
              run early sched (S t) fuel' (step i p)
          end
      end
  end.

End Pool.

(** An upper bound on the resumptions a worker still needs before its next
    task delay, and on those a queued file needs. *)
Definition worker_weight (maxRetries : nat) (wk : Worker) : nat :=
  match wk with
  | AwaitNet _ rc _ => 2 * (maxRetries - rc) + 2
  | AwaitBackoff _ rc => 2 * (maxRetries - rc) + 3
  | AwaitTaskDelay => 1
  | Exited | Rejected _ => 0
  end.

Definition file_weight (maxRetries : nat) : nat := 2 * maxRetries + 3.

Definition pool_weight (maxRetries : nat) (p : Pool) : nat :=
  length (queue (shared p)) * file_weight maxRetries
  + list_sum (map (worker_weight maxRetries) (workers p)).

(** [await Promise.all(workers)]: the suspended workers are resumed, in the
    order of the schedule, until none is left or one has rejected; the
    promise then resolves or rejects. *)
Definition await_all
    (resume : Worker -> Shared -> Worker * Shared) (maxRetries : nat)
    (sched : nat -> nat) (p : Pool) : result unit * Pool :=
  let p' := run resume true sched 0 (pool_weight maxRetries p) p in
  match first_rejection (workers p') with
  | Some e => (Throw e, p')
  | None => (Ok tt, p')
  end.

(** The workers that are still suspended when [Promise.all] has rejected go
    on until they come to rest. *)
Definition drain
    (resume : Worker -> Shared -> Worker * Shared) (maxRetries : nat)
    (sched : nat -> nat) (p : Pool) : Pool :=
  run resume false sched 0 (pool_weight maxRetries p) p.

(** What one pass needs from outside the program: the behaviour of the
    service, the order in which suspended workers resume, and the room on
    the call stack. *)
Record Pass := {
  pass_adapter : Adapter;
  pass_sched : nat -> nat;
  pass_stack : nat }.

(** ** The command-line tool (index.js) *)

Module Cli.

(** The [CONFIG] object.  [TASK_DELAY] and [TIMEOUT] are durations and
    [SUPPORTED_FORMATS] is the constant above. *)
Record Config := {
  SOURCE_ROOT : path;
  OUTPUT_ROOT : path;
  MAX_CONCURRENT : nat;
  MAX_RETRIES : nat;
  LOG_LEVEL : LogLevel;
  PRESERVE_DIR_STRUCTURE : bool;
  SKIP_HIDDEN_DIRS : bool;
  COPY_UNSUPPORTED_TO_OUTPUT : bool;
  SAVE_FAILED_TO : path }.

(** [CONFIG] as shipped, for the directory of the script and the number
    of CPUs of the machine. *)
Definition CONFIG (dirname : path) (cpus : nat) : Config := {|
  SOURCE_ROOT := path_join dirname ["static"];
  OUTPUT_ROOT := path_join dirname ["compressed_results"];
  MAX_CONCURRENT := Nat.max 1 (cpus - 1);
  MAX_RETRIES := 2;
  LOG_LEVEL := Normal;
  PRESERVE_DIR_STRUCTURE := true;
  SKIP_HIDDEN_DIRS := true;
  COPY_UNSUPPORTED_TO_OUTPUT := true;
  SAVE_FAILED_TO := path_join dirname ["failed_images"] |}.

Definition env_of (cfg : Config) : Env := {|
  env_sourceRoot := SOURCE_ROOT cfg;
  env_maxRetries := MAX_RETRIES cfg;
  env_preserve := PRESERVE_DIR_STRUCTURE cfg |}.

Definition is_verbose (cfg : Config) : bool :=
  match LOG_LEVEL cfg with Verbose => true | _ => false end.

Definition is_minimal (cfg : Config) : bool :=
  match LOG_LEVEL cfg with Minimal => true | _ => false end.

Definition say_if (b : bool) (s : Stream) (m : Msg) (sh : Shared) : Shared :=
  if b then say s m sh else sh.

(** [getAllImageFiles(dir)], where [n] is what the file system holds at
    [dir]; the entries of a directory are what [fs.readdirSync] lists and
    [fs.statSync] inspects. *)
Fixpoint getAllImageFiles (cfg : Config) (dir : path) (n : node)
  : result (list path) :=
  if SKIP_HIDDEN_DIRS cfg && startsWithDot (path_basename dir) then Ok []
  else if same_path dir (SAVE_FAILED_TO cfg) then Ok []
  else
    match n with
    | File _ => Throw (Thrown "ENOTDIR")
    | Dir es =>
        (fix each (es : list (string * node)) : result (list path) :=
           match es with
           | [] => Ok []
           | (file, child) :: es' =>
               let fullPath := path_join dir [file] in
               match child with
               | Dir _ =>
                   let? sub := getAllImageFiles cfg fullPath child in
                   let? rest := each es' in
                   Ok (sub ++ rest)
               | File _ =>
                   let? rest := each es' in
                   Ok (if supported file then fullPath :: rest else rest)
               end
           end) es
    end.

(** [processWorker], from [if (result.success)] to [bar.tick()]. *)
Definition record (cfg : Config) (isRetry : bool) (file : path)
    (r : Returned) (sh : Shared) : Shared :=
  let relativePath := path_relative (SOURCE_ROOT cfg) file in
  match r with
  | RSuccess s =>
      let sh := push_success s sh in
      let sh := say_if (is_verbose cfg) Stdout
                  (MCompressed relativePath (s_originalSize s) (s_compressedSize s)) sh in
      if isRetry then
        match Fs.unlinkSync file (fs (world sh)) with
        | Ok fs' =>
            say_if (is_verbose cfg) Stdout (MDeletedFromFailed file)
              (set_world (set_fs fs' (world sh)) sh)
        | Throw e => say Stderr (MDeleteWarn file (message_of e)) sh
        end
      else sh
  | RFailure f =>
      let sh := push_failed f sh in
      say_if (negb (is_minimal cfg)) Stdout (MItemFailed relativePath (f_error f)) sh
  | RUndefined =>
      (* [result.success] on [undefined] throws a TypeError, which the
         [catch] of [processWorker] receives *)
      let err := Thrown "Cannot read properties of undefined (reading 'success')" in
      let sh := push_failed {| f_fileName := None; f_filePath := file;
                               f_error := Message (or_unknown (message_of err)) |} sh in
      say_if (negb (is_minimal cfg)) Stdout
        (MItemFailed relativePath (Message (message_of err))) sh
  end.

Definition continue (cfg : Config) (isRetry : bool) (file : path)
    (c : CallState * World) (sh : Shared) : Worker * Shared :=
  match c with
  | (Suspended wk, w) => (wk, set_world w sh)
  | (Finished r, w) => (AwaitTaskDelay, record cfg isRetry file r (set_world w sh))
  end.

(** [processWorker] at the test of its [while] loop. *)
Definition loop_head (cfg : Config) (isRetry : bool) (sh : Shared)
  : Worker * Shared :=
  match queue sh with
  | [] => (Exited, sh)
  | file :: rest =>
      let sh := set_queue rest sh in
      let sh := say_if (is_verbose cfg) Stdout
                  (MProcessing (path_relative (SOURCE_ROOT cfg) file)) sh in
      continue cfg isRetry file (enter_loop (env_of cfg) file 0 (world sh)) sh
  end.

Definition resume (cfg : Config) (adapter : Adapter) (outputRoot : path)
    (isRetry : bool) (wk : Worker) (sh : Shared) : Worker * Shared :=
  match wk with
  | AwaitNet file rc fileData =>
      continue cfg isRetry file
        (after_net (env_of cfg) adapter outputRoot file rc fileData (world sh)) sh
  | AwaitBackoff file rc =>
      continue cfg isRetry file (enter_loop (env_of cfg) file rc (world sh)) sh
  | AwaitTaskDelay => loop_head cfg isRetry sh
  | Exited | Rejected _ => (wk, sh)
  end.

(** From [const results = ...] to [await Promise.all(workers)]. *)
Definition run_workers (cfg : Config) (adapter : Adapter) (sched : nat -> nat)
    (outputRoot : path) (isRetry : bool) (files : list path) (w : World)
  : result unit * Pool :=
  let p0 := {| shared := {| world := w; queue := files;
                            results := {| success := []; failed := [] |} |};
               workers := [] |} in
  let p1 := spawn (loop_head cfg isRetry)
              (Nat.min (length files) (MAX_CONCURRENT cfg)) p0 in
  await_all (resume cfg adapter outputRoot isRetry) (MAX_RETRIES cfg) sched p1.

(** The loop of step 5 of [compressFolder]. *)
Fixpoint copy_failed (cfg : Config) (fl : list Failure) (w : World) : World :=
  match fl with
  | [] => w
  | f :: fl' =>
      let targetPath := path_join (SAVE_FAILED_TO cfg) [path_basename (f_filePath f)] in
      match Fs.copyFileSync (f_filePath f) targetPath (fs w) with
      | Ok fs' =>
          let w := set_fs fs' w in
          copy_failed cfg fl'
            (if is_verbose cfg
             then emit (Console Stdout (MCopiedFailed (f_filePath f) targetPath)) w
             else w)
      | Throw e =>
          copy_failed cfg fl'
            (emit (Console Stderr (MCopyFailedWarn (f_filePath f) (message_of e))) w)
      end
  end.

(** Step 5 of [compressFolder]. *)
Definition save_failed (cfg : Config) (res : Results) (w : World)
  : result unit * World :=
  match failed res with
  | [] => (Ok tt, w)
  | _ :: _ =>
      match (if Fs.existsSync (fs w) (SAVE_FAILED_TO cfg) then Ok (fs w)
             else Fs.mkdirSync (SAVE_FAILED_TO cfg) (fs w)) with
      | Throw e => (Throw e, w)
      | Ok fs1 =>
          let w := copy_failed cfg (failed res) (set_fs fs1 w) in
          (Ok tt, emit (Console Stdout (MFailedSavedTo (SAVE_FAILED_TO cfg))) w)
      end
  end.

(** Step 6 of [compressFolder].  [totalSaved] is a difference of two
    numbers and is negative when the service returned more bytes than it
    was sent. *)
Definition report (res : Results) (w : World) : World :=
  let totalOriginal := list_sum (map s_originalSize (success res)) in
  let totalCompressed := list_sum (map s_compressedSize (success res)) in
  let w := emit (Console Stdout MRule) w in
  let w := emit (Console Stdout (MSuccessCount (length (success res)))) w in
  let w := emit (Console Stdout (MFailedCount (length (failed res)))) w in
  let w := emit (Console Stdout (MOriginalSize totalOriginal)) w in
  let w := emit (Console Stdout (MCompressedSize totalCompressed)) w in
  let totalSaved := (Z.of_nat totalOriginal - Z.of_nat totalCompressed)%Z in
  emit (Console Stdout (MSaved totalSaved)) w.

(** [copyUnsupportedFiles(dir, outputRoot)], which reads the directories
    as they are when it reaches them; [depth] is the room left on the call
    stack. *)
Fixpoint copyUnsupportedFiles (depth : nat) (cfg : Config)
    (dir outputRoot : path) (w : World) : result unit * World :=
  match depth with
  | 0 => (Throw (Thrown "Maximum call stack size exceeded"), w)
  | S depth' =>
      if SKIP_HIDDEN_DIRS cfg && startsWithDot (path_basename dir) then (Ok tt, w)
      else if same_path dir (SAVE_FAILED_TO cfg) then (Ok tt, w)
      else
        match Fs.readdirSync (fs w) dir with
        | Throw e => (Throw e, w)
        | Ok files =>
            (fix each (files : list string) (w : World) : result unit * World :=
               match files with
               | [] => (Ok tt, w)
               | file :: files' =>
                   let fullPath := path_join dir [file] in
                   match Fs.isDirectory (fs w) fullPath with
                   | Throw e => (Throw e, w)
                   | Ok true =>
                       match copyUnsupportedFiles depth' cfg fullPath outputRoot w with
                       | (Ok _, w1) => each files' w1
                       | (Throw e, w1) => (Throw e, w1)
                       end
                   | Ok false =>
                       if supported file then each files' w
                       else
                         let outputPath :=
                           if PRESERVE_DIR_STRUCTURE cfg then
                             path_join outputRoot
                               (path_relative (SOURCE_ROOT cfg) (path_dirname fullPath)
                                ++ [file])
                           else path_join outputRoot [file] in
                         let outputDir := path_dirname outputPath in
                         match (if Fs.existsSync (fs w) outputDir then Ok (fs w)
                                else Fs.mkdirSync outputDir (fs w)) with
                         | Throw e => (Throw e, w)
                         | Ok fs1 =>
                             match Fs.copyFileSync fullPath outputPath fs1 with
                             | Throw e => (Throw e, set_fs fs1 w)
                             | Ok fs2 =>
                                 let w := set_fs fs2 w in
                                 each files'
                                   (if is_verbose cfg
                                    then emit (Console Stdout
                                                 (MCopiedUnsupported fullPath outputPath)) w
                                    else w)
                             end
                         end
                   end
               end) files w
        end
  end.

(** Steps 2 to 6 of [compressFolder], for a non-empty [allFiles]. *)
Definition compress_images (cfg : Config) (ps : Pass) (allFiles : list path)
    (w : World) : result Results * World :=
  match (if Fs.existsSync (fs w) (OUTPUT_ROOT cfg) then Ok (fs w)
         else Fs.mkdirSync (OUTPUT_ROOT cfg) (fs w)) with
  | Throw e => (Throw e, w)
  | Ok fs1 =>
      match run_workers cfg (pass_adapter ps) (pass_sched ps) (OUTPUT_ROOT cfg) false
              allFiles (set_fs fs1 w) with
      | (Throw e, p) => (Throw e, world (shared p))
      | (Ok _, p) =>
          let res := results (shared p) in
          match save_failed cfg res (world (shared p)) with
          | (Throw e, w1) => (Throw e, w1)
          | (Ok _, w1) => (Ok res, report res w1)
          end
      end
  end.

(** [compressFolder()].  The value returned next to the world is the
    [results] object of the pass, when the pass created one. *)
Definition compressFolder (cfg : Config) (ps : Pass) (w : World)
  : result (option Results) * World :=
  let w := emit (Console Stdout MBanner) w in
  match Fs.lookup (fs w) (SOURCE_ROOT cfg) with
  | None => (Ok None, emit (Console Stderr (MSourceMissing (SOURCE_ROOT cfg))) w)
  | Some n =>
      let w := emit (Scan ScanImages (SOURCE_ROOT cfg)) w in
      match getAllImageFiles cfg (SOURCE_ROOT cfg) n with
      | Throw e => (Throw e, w)
      | Ok allFiles =>
          match (match allFiles with
                 | [] => (Ok None, emit (Console Stdout MNoImages) w)
                 | _ :: _ =>
                     match compress_images cfg ps allFiles w with
                     | (Ok res, w1) => (Ok (Some res), w1)
                     | (Throw e, w1) => (Throw e, w1)
                     end
                 end) with
          | (Throw e, w1) => (Throw e, w1)
          | (Ok res, w1) =>
              match (if COPY_UNSUPPORTED_TO_OUTPUT cfg then
                       copyUnsupportedFiles (pass_stack ps) cfg (SOURCE_ROOT cfg)
                         (OUTPUT_ROOT cfg)
                         (emit (Scan ScanUnsupported (SOURCE_ROOT cfg)) w1)
                     else (Ok tt, w1)) with
              | (Throw e, w2) => (Throw e, w2)
              | (Ok _, w2) =>
                  let w2 := emit (Console Stdout MCopyUnsupportedDone) w2 in
                  (Ok res, emit (Console Stdout (MFinished (OUTPUT_ROOT cfg))) w2)
              end
          end
      end
  end.

(** The files of the failed-files directory that the recovery pass takes. *)
Definition failedFiles (cfg : Config) (names : list string) : list path :=
  map (fun f => path_join (SAVE_FAILED_TO cfg) [f]) (filter (fun f => supported f = true) names).

(** [retryFailedFolder()] *)
Definition retryFailedFolder (cfg : Config) (ps : Pass) (w : World)
  : result (option Results) * World :=
  let retrySource := SAVE_FAILED_TO cfg in
  let retryOutput := OUTPUT_ROOT cfg in
  if negb (Fs.existsSync (fs w) retrySource) then
    (Ok None, emit (Console Stdout MNoFailedDir) w)
  else
    match Fs.readdirSync (fs w) retrySource with
    | Throw e => (Throw e, w)
    | Ok names =>
        match failedFiles cfg names with
        | [] => (Ok None, emit (Console Stdout MNothingToRetry) w)
        | (_ :: _) as files =>
            let w := emit (Console Stdout (MRetryStart (length files))) w in
            match run_workers cfg (pass_adapter ps) (pass_sched ps) retryOutput true files w with
            | (Throw e, p) => (Throw e, world (shared p))
            | (Ok _, p) =>
                let res := results (shared p) in
                let w := world (shared p) in
                let w := emit (Console Stdout
                                 (MRetryDone (length (success res)) (length (failed res)))) w in
                (Ok (Some res),
                 emit (Console Stdout
                         (match failed res with
                          | [] => MAllRecovered
                          | _ :: _ => MStillFailing
                          end)) w)
            end
        end
    end.

(** [try { ... } catch (err) { console.error(..., err) }] around the body
    of the entry point. *)
Definition guarded {A} (r : result A * World) : World :=
  match r with
  | (Ok _, w') => w'
  | (Throw e, w') => emit (Console Stderr (MFatal e)) w'
  end.

(** The entry point: [retryOnly] is [args.includes('--retry-failed')]. *)
Definition main (retryOnly : bool) (cfg : Config) (normal recovery : Pass)
    (w : World) : World :=
  guarded
    (if retryOnly then
       retryFailedFolder cfg recovery (emit (Console Stdout MRetryOnly) w)
     else
       match compressFolder cfg normal w with
       | (Throw e, w1) => (Throw e, w1)
       | (Ok _, w1) => retryFailedFolder cfg recovery w1
       end).

End Cli.

(** ** The VS Code extension (extension.js) *)

Module Ext.

(** What [getConfig()] returns; [taskDelay] and [timeout] are durations.
    The console lines of the extension are not recorded; its notifications
    are what [command] returns. *)
Record Config := {
  maxConcurrent : nat;
  maxRetries : nat;
  preserveStructure : bool;
  copyUnsupported : bool;
  outputSuffix : string }.

Definition defaults : Config := {|
  maxConcurrent := 3;
  maxRetries := 2;
  preserveStructure := true;
  copyUnsupported := true;
  outputSuffix := "_compressed" |}.

Definition env_of (config : Config) (sourceRoot : path) : Env := {|
  env_sourceRoot := sourceRoot;
  env_maxRetries := maxRetries config;
  env_preserve := preserveStructure config |}.

(** [sourceDir + config.outputSuffix], for a suffix without separator. *)
Definition add_suffix (sourceDir : path) (suffix : string) : path :=
  match last sourceDir with
  | Some s => removelast sourceDir ++ [s +:+ suffix]
  | None => [suffix]
  end.

(** [getAllImageFiles(dir, outputDir)]; [outputDir] is [None] for the
    empty string.  The [catch] receives the error of [fs.readdirSync] and
    returns what was collected, which is nothing. *)
Fixpoint getAllImageFiles (dir : path) (outputDir : option path) (n : node)
  : list path :=
  if startsWithDot (path_basename dir) then []
  else if match outputDir with
          | Some o => same_path dir o
          | None => false
          end then []
  else
    match n with
    | File _ => []
    | Dir es =>
        (fix each (es : list (string * node)) : list path :=
           match es with
           | [] => []
           | (file, child) :: es' =>
               let fullPath := path_join dir [file] in
               match child with
               | Dir _ => getAllImageFiles fullPath outputDir child ++ each es'
               | File _ =>
                   if supported file then fullPath :: each es' else each es'
               end
           end) es
    end.

(** [processWorker], from [if (result.success)] to the end of the
    [try ... catch]. *)
Definition record (file : path) (r : Returned) (sh : Shared) : Shared :=
  match r with
  | RSuccess s => push_success s sh
  | RFailure f => push_failed f sh
  | RUndefined =>
      push_failed {| f_fileName := None; f_filePath := file;
                     f_error := Message "Cannot read properties of undefined (reading 'success')" |} sh
  end.

(** After the [try ... catch], [processWorker] evaluates
    [progressCallback(relativePath, result?.success || false)].  [result]
    is declared with [const] inside the [try] block and no other binding
    of that name is in scope, so evaluating the argument throws a
    ReferenceError; nothing catches it and the worker's promise rejects. *)
Definition continue (hasCallback : bool) (file : path)
    (c : CallState * World) (sh : Shared) : Worker * Shared :=
  match c with
  | (Suspended wk, w) => (wk, set_world w sh)
  | (Finished r, w) =>
      let sh := record file r (set_world w sh) in
      if hasCallback then (Rejected (Thrown "result is not defined"), sh)
      else (AwaitTaskDelay, sh)
  end.

Definition loop_head (config : Config) (sourceRoot : path) (hasCallback : bool)
    (sh : Shared) : Worker * Shared :=
  match queue sh with
  | [] => (Exited, sh)
  | file :: rest =>
      let sh := set_queue rest sh in
      continue hasCallback file
        (enter_loop (env_of config sourceRoot) file 0 (world sh)) sh
  end.

Definition resume (config : Config) (adapter : Adapter)
    (sourceRoot outputRoot : path) (hasCallback : bool)
    (wk : Worker) (sh : Shared) : Worker * Shared :=
  match wk with
  | AwaitNet file rc fileData =>
      continue hasCallback file
        (after_net (env_of config sourceRoot) adapter outputRoot file rc fileData
           (world sh)) sh
  | AwaitBackoff file rc =>
      continue hasCallback file
        (enter_loop (env_of config sourceRoot) file rc (world sh)) sh
  | AwaitTaskDelay => loop_head config sourceRoot hasCallback sh
  | Exited | Rejected _ => (wk, sh)
  end.

(** Step 3 of [compressFolder]; the callback it passes is a function. *)
Definition run_workers (config : Config) (adapter : Adapter) (sched : nat -> nat)
    (sourceDir outputDir : path) (files : list path) (w : World)
  : result unit * Pool :=
  let p0 := {| shared := {| world := w; queue := files;
                            results := {| success := []; failed := [] |} |};
               workers := [] |} in
  let workerCount := Nat.min (length files) (maxConcurrent config) in
  let p1 := spawn (loop_head config sourceDir true) workerCount p0 in
  await_all (resume config adapter sourceDir outputDir true) (maxRetries config)
    sched p1.

(** [copyUnsupportedFiles(dir, sourceRoot, outputRoot, config)]; an error
    inside the [try] ends the loop of that call only. *)
Fixpoint copyUnsupportedFiles (depth : nat) (config : Config)
    (dir sourceRoot outputRoot : path) (w : World) : result unit * World :=
  match depth with
  | 0 => (Throw (Thrown "Maximum call stack size exceeded"), w)
  | S depth' =>
      if startsWithDot (path_basename dir) then (Ok tt, w)
      else if same_path dir outputRoot then (Ok tt, w)
      else
        match Fs.readdirSync (fs w) dir with
        | Throw e => (Ok tt, w)
        | Ok files =>
            (fix each (files : list string) (w : World) : result unit * World :=
               match files with
               | [] => (Ok tt, w)
               | file :: files' =>
                   let fullPath := path_join dir [file] in
                   match Fs.isDirectory (fs w) fullPath with
                   | Throw e => (Ok tt, w)
                   | Ok true =>
                       match copyUnsupportedFiles depth' config fullPath sourceRoot
                               outputRoot w with
                       | (Ok _, w1) => each files' w1
                       | (Throw e, w1) => (Ok tt, w1)
                       end
                   | Ok false =>
                       if supported file then each files' w
                       else
                         let outputPath :=
                           if preserveStructure config then
                             path_join outputRoot
                               (path_relative sourceRoot (path_dirname fullPath)
                                ++ [file])
                           else path_join outputRoot [file] in
                         let outputDir := path_dirname outputPath in
                         match (if Fs.existsSync (fs w) outputDir then Ok (fs w)
                                else Fs.mkdirSync outputDir (fs w)) with
                         | Throw e => (Ok tt, w)
                         | Ok fs1 =>
                             match Fs.copyFileSync fullPath outputPath fs1 with
                             | Throw e => (Ok tt, set_fs fs1 w)
                             | Ok fs2 => each files' (set_fs fs2 w)
                             end
                         end
                   end
               end) files w
        end
  end.

(** What [compressFolder] returns. *)
Inductive Report :=
| NothingFound
| Compressed (res : Results) (outputDir : path) (totalOriginal totalCompressed : nat).

(** [compressFolder(sourceDir)] with the configuration [getConfig()]
    returned. *)
Definition compressFolder (config : Config) (ps : Pass) (sourceDir : path)
    (w : World) : result Report * World :=
  match Fs.lookup (fs w) sourceDir with
  | None => (Throw (Thrown "source directory does not exist"), w)
  | Some _ =>
      let outputDir := add_suffix sourceDir (outputSuffix config) in
      match (if Fs.existsSync (fs w) outputDir then Ok (fs w)
             else Fs.mkdirSync outputDir (fs w)) with
      | Throw e => (Throw e, w)
      | Ok fs1 =>
          let w := emit (Scan ScanImages sourceDir) (set_fs fs1 w) in
          match getAllImageFiles sourceDir (Some outputDir)
                  (default (Dir []) (Fs.lookup (fs w) sourceDir)) with
          | [] => (Ok NothingFound, w)
          | (_ :: _) as allFiles =>
              match run_workers config (pass_adapter ps) (pass_sched ps)
                      sourceDir outputDir allFiles w with
              | (Throw e, p) => (Throw e, world (shared p))
              | (Ok _, p) =>
                  let res := results (shared p) in
                  let w1 := world (shared p) in
                  match (if copyUnsupported config then
                           copyUnsupportedFiles (pass_stack ps) config sourceDir
                             sourceDir outputDir
                             (emit (Scan ScanUnsupported sourceDir) w1)
                         else (Ok tt, w1)) with
                  | (Throw e, w2) => (Throw e, w2)
                  | (Ok _, w2) =>
                      (Ok (Compressed res outputDir
                             (list_sum (map s_originalSize (success res)))
                             (list_sum (map s_compressedSize (success res)))), w2)
                  end
              end
          end
      end
  end.

(** What the command shows the user: the messages of
    [vscode.window.show...Message] and the reports to the progress bar, by
    what they say.  The summary is given by the statistics its text is
    computed from, the list of failures by base name and reason. *)
Inductive Notice :=
| NSelectFolder
| NNotAFolder
| NStart (folder : string)
| NProgress (increment : nat)
| NNothingFound
| NSummary (successCount failedCount totalOriginal totalCompressed : nat)
    (outputDir : string)
| NSomeFailed (count : nat) (details : list (string * ErrorDetails))
| NFailed (message : string).

(** The handler of the command [tinypng-compressor.compressFolder] that
    [activate] registers.  [uri] is [None] when the command is run without
    a resource or with one whose [fsPath] is empty. *)
Definition command (config : Config) (ps : Pass) (uri : option path) (w : World)
  : list Notice * World :=
  match uri with
  | None => ([NSelectFolder], w)
  | Some folderPath =>
      match Fs.isDirectory (fs w) folderPath with
      | Throw e => ([NFailed (message_of e)], w)
      | Ok false => ([NNotAFolder], w)
      | Ok true =>
          let started := [NStart (path_basename folderPath); NProgress 0] in
          match compressFolder config ps folderPath w with
          | (Throw e, w') => (started ++ [NFailed (message_of e)], w')
          | (Ok result, w') =>
              (started ++ [NProgress 100]
               ++ match result with
                  | NothingFound => [NNothingFound]
                  | Compressed res outputDir totalOriginal totalCompressed =>
                      match success res, failed res with
                      | [], [] => [NNothingFound]
                      | _, _ =>
                          NSummary (length (success res)) (length (failed res))
                            totalOriginal totalCompressed (path_basename outputDir)
                          :: match failed res with
                             | [] => []
                             | _ :: _ =>
                                 [NSomeFailed (length (failed res))
                                    (map (fun f => (path_basename (f_filePath f),
                                                    f_error f)) (failed res))]
                             end
                      end
                  end, w')
          end
      end
  end.

End Ext.

(** ** Vocabulary of the properties *)

(** Every entry of the tree has a name a directory can hold. *)
Fixpoint proper_tree (n : node) : bool :=
  match n with
  | File _ => true
  | Dir es =>
      (fix all (es : list (string * node)) : bool :=
         match es with
         | [] => true
         | (s, c) :: es' => proper_name s && proper_tree c && all es'
         end) es
  end.

(** The directories on the way from [dir] down to [dir ++ rel], both
    included. *)
Fixpoint chain (dir : path) (rel : list string) : list path :=
  dir :: match rel with
         | [] => []
         | x :: rel' => chain (dir ++ [x]) rel'
         end.

(** [f] is a file with a supported extension that the scan started at [dir]
    reaches through directories that all satisfy [ok]. *)
Definition reached_through (ok : path -> Prop) (dir f : path) : Prop :=
  exists rel name,
    f = dir ++ rel ++ [name] /\ supported name = true /\ Forall ok (chain dir rel).

(** A directory the scan of the command-line tool does not turn away. *)
Definition cli_ok (cfg : Cli.Config) (d : path) : Prop :=
  (Cli.SKIP_HIDDEN_DIRS cfg = true -> startsWithDot (path_basename d) = false)
  /\ d <> Cli.SAVE_FAILED_TO cfg.

(** A directory the scan of the extension does not turn away. *)
Definition ext_ok (outputDir : path) (d : path) : Prop :=
  startsWithDot (path_basename d) = false /\ d <> outputDir.

(** What a path holds, as far as reading a file can tell: the bytes of a
    file, a directory, or nothing. *)
Definition holds (n : node) (q : path) : option (option bytes) :=
  match Fs.lookup n q with
  | Some (File d) => Some (Some d)
  | Some (Dir _) => Some None
  | None => None
  end.

(** The file a suspended worker is working on. *)
Definition in_flight (wk : Worker) : list path :=
  match wk with
  | AwaitNet file _ _ | AwaitBackoff file _ => [file]
  | _ => []
  end.

(** The files that have a record in the result object. *)
Definition recorded (r : Results) : list path :=
  map s_filePath (success r) ++ map f_filePath (failed r).

(** Every file of a pass is in exactly one place: still queued, held by a
    suspended worker, or recorded. *)
Definition accounted (sh : Shared) (ws : list Worker) : list path :=
  queue sh ++ concat (map in_flight ws) ++ recorded (results sh).

Definition cs_weight (maxRetries : nat) (c : CallState) : nat :=
  match c with
  | Suspended wk => worker_weight maxRetries wk
  | Finished _ => 1
  end.

(** The file a pending call is about. *)
Definition call_for (file : path) (c : CallState) : Prop :=
  match c with
  | Suspended wk => in_flight wk = [file]
  | Finished (RSuccess s) => s_filePath s = file
  | Finished (RFailure f) => f_filePath f = file
  | Finished RUndefined => True
  end.

(** In a pass of the command-line tool over [files]: every file is in one
    place, no worker has rejected, and a worker has left only if the queue
    is empty. *)
Definition cli_inv (files : list path) (p : Pool) : Prop :=
  accounted (shared p) (workers p) ≡ₚ files
  /\ Forall (fun wk => forall e, wk <> Rejected e) (workers p)
  /\ (In Exited (workers p) -> queue (shared p) = []).

(** The states a worker of the extension goes through once it holds a file. *)
Definition ext_worker_ok (wk : Worker) : Prop :=
  match wk with
  | AwaitNet _ _ _ | AwaitBackoff _ _ => True
  | Rejected e => e = Thrown "result is not defined"
  | AwaitTaskDelay | Exited => False
  end.

(** In a pass of the extension over [files] with [n] workers: every file is
    in one place, and the queue is what the spawning left of it. *)
Definition ext_inv (files : list path) (n : nat) (p : Pool) : Prop :=
  accounted (shared p) (workers p) ≡ₚ files
  /\ Forall ext_worker_ok (workers p)
  /\ queue (shared p) = drop n files.

Definition is_scan (e : Event) : bool :=
  match e with
  | Scan _ _ => true
  | _ => false
  end.

(** The world [w'] comes after [w] and no directory scan started in
    between. *)
Definition no_scan_since (w w' : World) : Prop :=
  exists evs, trace w' = trace w ++ evs /\ Forall (fun e => is_scan e = false) evs.

(** No directory of the tree lists a name twice. *)
Fixpoint distinct_names (n : node) : bool :=
  match n with
  | File _ => true
  | Dir es =>
      bool_decide (NoDup (map fst es))
      && (fix all (es : list (string * node)) : bool :=
            match es with
            | [] => true
            | (_, c) :: es' => distinct_names c && all es'
            end) es
  end.

(** The two paths part ways: after a common start they go on with
    different names. *)
Fixpoint diverge (p q : path) : bool :=
  match p, q with
  | a :: p', b :: q' => if decide (a = b) then diverge p' q' else true
  | _, _ => false
  end.

(** The two tests at the head of [getAllImageFiles] and of
    [copyUnsupportedFiles] in the command-line tool. *)
Definition cli_turns_away (cfg : Cli.Config) (dir : path) : bool :=
  Cli.SKIP_HIDDEN_DIRS cfg && startsWithDot (path_basename dir)
  || same_path dir (Cli.SAVE_FAILED_TO cfg).

(** The loop of [getAllImageFiles] of the command-line tool over the
    entries of [dir]. *)
Fixpoint cli_entries (cfg : Cli.Config) (dir : path) (es : list (string * node))
  : result (list path) :=
  match es with
  | [] => Ok []
  | (file, child) :: es' =>
      let fullPath := path_join dir [file] in
      match child with
      | Dir _ =>
          let? sub := Cli.getAllImageFiles cfg fullPath child in
          let? rest := cli_entries cfg dir es' in
          Ok (sub ++ rest)
      | File _ =>
          let? rest := cli_entries cfg dir es' in
          Ok (if supported file then fullPath :: rest else rest)
      end
  end.

(** The two tests at the head of the scan of the extension. *)
Definition ext_turns_away (outputDir : option path) (dir : path) : bool :=
  startsWithDot (path_basename dir)
  || match outputDir with
     | Some o => same_path dir o
     | None => false
     end.

(** The loop of [getAllImageFiles] of the extension over the entries of
    [dir]. *)
Fixpoint ext_entries (dir : path) (outputDir : option path)
    (es : list (string * node)) : list path :=
  match es with
  | [] => []
  | (file, child) :: es' =>
      let fullPath := path_join dir [file] in
      match child with
      | Dir _ => Ext.getAllImageFiles fullPath outputDir child ++ ext_entries dir outputDir es'
      | File _ =>
          if supported file then fullPath :: ext_entries dir outputDir es'
          else ext_entries dir outputDir es'
      end
  end.

(** [f] is a regular file with a supported extension of the tree [n] that
    sits at [dir], below directories that all satisfy [ok]. *)
Definition found_in (ok : path -> Prop) (dir : path) (n : node) (f : path) : Prop :=
  exists rel name d,
    f = dir ++ rel ++ [name]
    /\ Fs.lookup n (rel ++ [name]) = Some (File d)
    /\ supported name = true
    /\ Forall ok (chain dir rel).

(** From [n] to [n'] directories may have been created, and nothing else
    has changed: every file and directory of [n] is in [n'], and every file
    of [n'] is in [n]. *)
Definition only_new_directories (n n' : node) : Prop :=
  (forall q x, holds n q = Some x -> holds n' q = Some x)
  /\ (forall q d, holds n' q = Some (Some d) -> holds n q = Some (Some d)).

(** [f] is a path below [sourceRoot] whose segments are names a directory
    can hold and whose last segment has a supported extension. *)
Definition image_below (sourceRoot f : path) : Prop :=
  exists rel name,
    f = sourceRoot ++ rel ++ [name]
    /\ proper_path (rel ++ [name])
    /\ supported name = true.

(** Nothing has changed at the paths that part ways with [root]. *)
Definition same_outside (root : path) (n n' : node) : Prop :=
  forall q, diverge root q = true -> Fs.lookup n' q = Fs.lookup n q.

(** The artifact of the success record [s] is in [n]: below the output
    root, where the source file is below the source root, is a file of the
    recorded compressed size. *)
Definition artifact_present (sourceRoot outputRoot : path) (n : node) (s : Success)
  : Prop :=
  exists rel name data,
    s_filePath s = sourceRoot ++ rel ++ [name]
    /\ s_outputPath s = outputRoot ++ rel ++ [name]
    /\ supported name = true
    /\ s_compressedSize s = length data
    /\ Fs.readFileSync n (s_outputPath s) = Ok data.

(** The body of the loop of [copyUnsupportedFiles] of the command-line
    tool for an entry that is not a directory. *)
Definition cli_copy_file (cfg : Cli.Config) (dir outputRoot : path) (file : string)
    (w : World) : result unit * World :=
  let fullPath := path_join dir [file] in
  if supported file then (Ok tt, w)
  else
    let outputPath :=
      if Cli.PRESERVE_DIR_STRUCTURE cfg then
        path_join outputRoot
          (path_relative (Cli.SOURCE_ROOT cfg) (path_dirname fullPath) ++ [file])
      else path_join outputRoot [file] in
    let outputDir := path_dirname outputPath in
    match (if Fs.existsSync (fs w) outputDir then Ok (fs w)
           else Fs.mkdirSync outputDir (fs w)) with
    | Throw e => (Throw e, w)
    | Ok fs1 =>
        match Fs.copyFileSync fullPath outputPath fs1 with
        | Throw e => (Throw e, set_fs fs1 w)
        | Ok fs2 =>
            let w := set_fs fs2 w in
            (Ok tt,
             if Cli.is_verbose cfg
             then emit (Console Stdout (MCopiedUnsupported fullPath outputPath)) w
             else w)
        end
    end.

(** The loop of [copyUnsupportedFiles] of the command-line tool over the
    names [files] of the entries of [dir]. *)
Fixpoint cli_copy_entries (depth : nat) (cfg : Cli.Config) (dir outputRoot : path)
    (files : list string) (w : World) : result unit * World :=
  match files with
  | [] => (Ok tt, w)
  | file :: files' =>
      match Fs.isDirectory (fs w) (path_join dir [file]) with
      | Throw e => (Throw e, w)
      | Ok true =>
          match Cli.copyUnsupportedFiles depth cfg (path_join dir [file]) outputRoot w with
          | (Ok _, w1) => cli_copy_entries depth cfg dir outputRoot files' w1
          | (Throw e, w1) => (Throw e, w1)
          end
      | Ok false =>
          match cli_copy_file cfg dir outputRoot file w with
          | (Ok _, w1) => cli_copy_entries depth cfg dir outputRoot files' w1
          | (Throw e, w1) => (Throw e, w1)
          end
      end
  end.

(** The file system when [processWorker] has recorded a success for
    [file]: in a recovery pass the file has been unlinked, if it could be. *)
Definition after_record (isRetry : bool) (file : path) (n : node) : node :=
  if isRetry then
    match Fs.unlinkSync file n with
    | Ok n' => n'
    | Throw _ => n
    end
  else n.

(** A recovery pass over the files [names] of the directory [holding]
    whose output paths are the quarantined files themselves, seen at some
    moment: nothing has changed outside the directory, the directory lists
    no name twice, the files without a success record hold what they held
    in [fs0], and the files with one are gone. *)
Definition recovered_in_place (holding : path) (names : list string) (fs0 n : node)
    (succ : list Success) : Prop :=
  same_outside holding fs0 n
  /\ (exists es, Fs.lookup n holding = Some (Dir es) /\ NoDup (map fst es))
  /\ (forall name x,
        In name names -> ~ In (holding ++ [name]) (map s_filePath succ) ->
        holds fs0 (holding ++ [name]) = Some x -> holds n (holding ++ [name]) = Some x)
  /\ (forall s, In s succ ->
        s_outputPath s = s_filePath s
        /\ holds n (s_filePath s) = None
        /\ exists name, In name names /\ s_filePath s = holding ++ [name]).

(** A recovery pass without directory structure over the files [names] of
    the directory [holding], seen at some moment: nothing has changed at the
    paths that part ways with both [holding] and [outputRoot], [holding]
    lists no name twice, the files without a success record hold what they
    held in [fs0], and for each success record the artifact is in
    [outputRoot] under the name of the file, while the file, if it was a
    regular file in [fs0], is gone. *)
Definition recovered_flat (holding outputRoot : path) (names : list string)
    (fs0 n : node) (succ : list Success) : Prop :=
  (forall q, diverge holding q = true -> diverge outputRoot q = true ->
             Fs.lookup n q = Fs.lookup fs0 q)
  /\ (exists es, Fs.lookup n holding = Some (Dir es) /\ NoDup (map fst es))
  /\ (forall name,
        In name names -> ~ In (holding ++ [name]) (map s_filePath succ) ->
        holds n (holding ++ [name]) = holds fs0 (holding ++ [name]))
  /\ (forall s, In s succ ->
        exists name data,
          In name names
          /\ s_filePath s = holding ++ [name]
          /\ s_outputPath s = outputRoot ++ [name]
          /\ s_compressedSize s = length data
          /\ Fs.readFileSync n (outputRoot ++ [name]) = Ok data
          /\ (forall d, holds fs0 (holding ++ [name]) = Some (Some d) ->
                        holds n (holding ++ [name]) = None)).

(** The event is the start of a walk of [copyUnsupportedFiles]. *)
Definition is_copy_scan (e : Event) : bool :=
  match e with
  | Scan ScanUnsupported _ => true
  | _ => false
  end.

(** From [n] to [n'] directories may have been created and files may have
    been written at paths that satisfy [W], and nothing else has happened:
    a path outside [W] holds a file in [n'] exactly when it holds that file
    in [n]; what is a directory in [n] is a directory in [n']; what is a
    file in [n] is a file in [n']. *)
Definition written_only (W : path -> Prop) (n n' : node) : Prop :=
  (forall q d, ~ W q -> (holds n q = Some (Some d) <-> holds n' q = Some (Some d)))
  /\ (forall q, holds n q = Some None -> holds n' q = Some None)
  /\ (forall q d, holds n q = Some (Some d) -> exists d', holds n' q = Some (Some d')).

(** Induction on trees, with the hypothesis for every entry of a
    directory. *)
Fixpoint node_ind' (P : node -> Prop)
    (HF : forall d, P (File d))
    (HD : forall es, (forall s c, In (s, c) es -> P c) -> P (Dir es))
    (n : node) : P n :=
  match n with
  | File d => HF d
  | Dir es =>
      HD es
        ((fix all (es : list (string * node)) : forall s c, In (s, c) es -> P c :=
            match es with
            | [] => fun _ _ H => match H with end
            | (s0, c0) :: es' => fun s c H =>
                match H with
                | or_introl Heq =>
                    eq_ind c0 P (node_ind' P HF HD c0) c (f_equal snd Heq)
                | or_intror Hin => all es' s c Hin
                end
            end) es)
  end.
(** * Properties *)

(** ** Paths *)

Lemma normalize_onto_proper (l stack : list string) :
  proper_path l -> normalize_onto stack l = rev stack ++ l.
Proof.
  revert stack. induction l as [|s l IH]; intros stack Hp; simpl.
  - by rewrite app_nil_r.
  - inversion Hp as [|? ? Hs Hl]; subst.
    unfold proper_name in Hs. apply bool_decide_eq_true in Hs.
    destruct Hs as (H1 & H2 & H3).
    destruct (decide (s = "..")) as [->|_]; [done|].
    destruct (decide (s = "." \/ s = "")) as [[->| ->]|_]; [done|done|].
    rewrite IH by done. simpl. by rewrite <- app_assoc.
Qed.

Lemma path_join_proper (dir : path) (file : string) :
  proper_path dir -> proper_name file = true -> path_join dir [file] = dir ++ [file].
Proof.
  intros Hd Hf. unfold path_join. rewrite normalize_onto_proper; [done|].
  apply Forall_app; split; [done|]. by constructor.
Qed.

Lemma proper_path_snoc (dir : path) (file : string) :
  proper_path dir -> proper_name file = true -> proper_path (dir ++ [file]).
Proof. intros Hd Hf. apply Forall_app; split; [done|]. by constructor. Qed.

Lemma proper_tree_entry (es : list (string * node)) (s : string) (c : node) :
  proper_tree (Dir es) = true -> In (s, c) es ->
  proper_name s = true /\ proper_tree c = true.
Proof.
  induction es as [|[s0 c0] es IH]; simpl; intros Hp Hin; [done|].
  apply andb_prop in Hp as [Hp Hrest]. apply andb_prop in Hp as [Hs Hc].
  destruct Hin as [Heq|Hin].
  - injection Heq as <- <-. done.
  - by apply IH.
Qed.

Lemma reached_through_down (ok : path -> Prop) (dir : path) (x : string) (f : path) :
  ok dir -> reached_through ok (dir ++ [x]) f -> reached_through ok dir f.
Proof.
  intros Hok (rel & name & -> & Hs & Hc).
  exists (x :: rel), name. split; [by rewrite <- !app_assoc|].
  split; [done|]. simpl. by constructor.
Qed.

(** ** Discovery *)

Section CliScan.

Variable cfg : Cli.Config.

Lemma cli_scan_sound (n : node) :
  forall dir files,
    proper_path dir -> proper_tree n = true ->
    Cli.getAllImageFiles cfg dir n = Ok files ->
    forall f, In f files -> reached_through (cli_ok cfg) dir f.
Proof.
  induction n as [d|es IH] using node_ind'; intros dir files Hdir Hn Hscan f Hf.
  - simpl in Hscan.
    destruct (Cli.SKIP_HIDDEN_DIRS cfg && startsWithDot (path_basename dir));
      [injection Hscan as <-; destruct Hf|].
    destruct (same_path dir (Cli.SAVE_FAILED_TO cfg));
      [injection Hscan as <-; destruct Hf|done].
  - simpl in Hscan.
    destruct (Cli.SKIP_HIDDEN_DIRS cfg && startsWithDot (path_basename dir)) eqn:Hhid;
      [injection Hscan as <-; destruct Hf|].
    destruct (same_path dir (Cli.SAVE_FAILED_TO cfg)) eqn:Hsame;
      [injection Hscan as <-; destruct Hf|].
    assert (Hok : cli_ok cfg dir).
    { split.
      - intros Hskip. rewrite Hskip in Hhid. exact Hhid.
      - unfold same_path in Hsame. by apply bool_decide_eq_false in Hsame. }
    clear Hhid Hsame.
    assert (Hent : forall s c, In (s, c) es ->
              proper_name s = true /\ proper_tree c = true)
      by (intros; by eapply proper_tree_entry).
    clear Hn. revert files Hscan f Hf.
    induction es as [|[file child] es IHes]; intros files Hscan f Hf.
    + injection Hscan as <-. destruct Hf.
    + destruct (Hent file child (or_introl eq_refl)) as [Hname Hchild].
      rewrite path_join_proper in Hscan by done.
      assert (IHrest : forall files, _ = Ok files -> forall f, In f files -> _) by
        (apply IHes; [intros; eapply IH; eauto; by right | intros; apply Hent; by right]).
      clear IHes.
      destruct child as [d|sub].
      * destruct (_ es) as [rest|] eqn:Hrest in Hscan; [|done].
        simpl in Hscan. injection Hscan as <-.
        assert (Hcase : f = dir ++ [file] /\ supported file = true \/ In f rest).
        { destruct (supported file); [destruct Hf as [<-|]; auto|auto]. }
        destruct Hcase as [[-> Hsup]|Hin].
        -- exists [], file. split; [done|]. split; [done|]. simpl. by constructor.
        -- by eapply IHrest.
      * destruct (Cli.getAllImageFiles cfg (dir ++ [file]) (Dir sub)) as [subfiles|] eqn:Hsub;
          [|done].
        simpl in Hscan.
        destruct (_ es) as [rest|] eqn:Hrest in Hscan; [|done].
        simpl in Hscan. injection Hscan as <-.
        apply in_app_or in Hf as [Hin|Hin].
        -- apply (reached_through_down _ _ file); [done|].
           eapply (IH file (Dir sub)); eauto; [by left|by apply proper_path_snoc].
        -- by eapply IHrest.
Qed.

End CliScan.

Section ExtScan.

Variable outputDir : path.

Lemma ext_scan_sound (n : node) :
  forall dir,
    proper_path dir -> proper_tree n = true ->
    forall f, In f (Ext.getAllImageFiles dir (Some outputDir) n) ->
              reached_through (ext_ok outputDir) dir f.
Proof.
  induction n as [d|es IH] using node_ind'; intros dir Hdir Hn f Hf.
  - simpl in Hf.
    destruct (startsWithDot (path_basename dir)); [destruct Hf|].
    destruct (same_path dir outputDir); destruct Hf.
  - simpl in Hf.
    destruct (startsWithDot (path_basename dir)) eqn:Hhid; [destruct Hf|].
    destruct (same_path dir outputDir) eqn:Hsame; [destruct Hf|].
    assert (Hok : ext_ok outputDir dir).
    { split; [done|]. unfold same_path in Hsame.
      by apply bool_decide_eq_false in Hsame. }
    clear Hhid Hsame.
    assert (Hent : forall s c, In (s, c) es ->
              proper_name s = true /\ proper_tree c = true)
      by (intros; by eapply proper_tree_entry).
    clear Hn. revert f Hf.
    induction es as [|[file child] es IHes]; intros f Hf; [destruct Hf|].
    destruct (Hent file child (or_introl eq_refl)) as [Hname Hchild].
    rewrite path_join_proper in Hf by done.
    assert (IHrest : forall f, In f _ -> _) by
      (apply IHes; [intros; eapply IH; eauto; by right | intros; apply Hent; by right]).
    clear IHes.
    destruct child as [d|sub].
    + assert (Hcase : f = dir ++ [file] /\ supported file = true
                      \/ In f ((fix each (es0 : list (string * node)) : list path :=
                                  match es0 with
                                  | [] => []
                                  | (file0, child) :: es' =>
                                      match child with
                                      | File _ =>
                                          if supported file0
                                          then path_join dir [file0] :: each es'
                                          else each es'
                                      | Dir _ =>
                                          Ext.getAllImageFiles (path_join dir [file0])
                                            (Some outputDir) child ++ each es'
                                      end
                                  end) es)).
      { destruct (supported file); [destruct Hf as [<-|]; auto|auto]. }
      destruct Hcase as [[-> Hsup]|Hin].
      * exists [], file. split; [done|]. split; [done|]. simpl. by constructor.
      * by apply IHrest.
    + apply in_app_or in Hf as [Hin|Hin].
      * apply (reached_through_down _ _ file); [done|].
        eapply (IH file (Dir sub)); eauto; [by left|by apply proper_path_snoc].
      * by apply IHrest.
Qed.

End ExtScan.

Lemma chain_prefix (rel r : list string) (dir : path) :
  r `prefix_of` rel -> In (dir ++ r) (chain dir rel).
Proof.
  revert dir r. induction rel as [|x rel IH]; intros dir r Hpre.
  - apply prefix_nil_inv in Hpre as ->. rewrite app_nil_r. by left.
  - destruct r as [|y r].
    + rewrite app_nil_r. by left.
    + apply prefix_cons_inv_1 in Hpre as Hxy. subst y.
      apply prefix_cons_inv_2 in Hpre.
      simpl. right. specialize (IH (dir ++ [x]) r Hpre).
      by rewrite <- app_assoc in IH.
Qed.

(** A file reached through directories that all satisfy [ok] lies under a
    directory that does not only when the start of the scan does. *)
Lemma reached_through_under (ok : path -> Prop) (dir f d : path) :
  reached_through ok dir f -> under d f -> ~ ok d -> under d dir.
Proof.
  intros (rel & name & -> & _ & Hall) (r2 & Hr2 & Heq) Hnok.
  assert (Hd : d `prefix_of` dir ++ rel ++ [name]) by (exists r2; done).
  assert (Hdir : dir `prefix_of` dir ++ rel ++ [name]) by (by exists (rel ++ [name])).
  destruct (prefix_weak_total _ _ _ Hd Hdir) as [[r Hr]|[r Hr]].
  - destruct r as [|x r].
    + rewrite app_nil_r in Hr. subst d. exfalso. apply Hnok.
      rewrite List.Forall_forall in Hall. apply Hall. destruct rel; by left.
    + exists (x :: r). split; [done|done].
  - exfalso. apply Hnok. subst d.
    rewrite List.Forall_forall in Hall. apply Hall. apply chain_prefix.
    rewrite <- app_assoc in Heq. apply app_inv_head in Heq.
    destruct r2 as [|z r2' _] using rev_ind; [done|].
    rewrite app_assoc in Heq. apply app_inj_tail in Heq as [-> _].
    by exists r2'.
Qed.

Lemma reached_through_basename (ok : path -> Prop) (dir f : path) :
  reached_through ok dir f -> supported (path_basename f) = true.
Proof.
  intros (rel & name & -> & Hs & _).
  unfold path_basename. by rewrite app_assoc, last_snoc.
Qed.

Lemma supported_spec (name : string) :
  supported name = true <->
  In (toLowerCase (path_extname name)) [".jpg"; ".jpeg"; ".png"; ".webp"].
Proof.
  unfold supported, SUPPORTED_FORMATS.
  rewrite bool_decide_eq_true. apply list_elem_of_In.
Qed.

Lemma cli_scan_complete (cfg : Cli.Config) (dir : path) (es : list (string * node))
    (name : string) (d : bytes) (files : list path) :
  proper_path dir -> proper_tree (Dir es) = true -> cli_ok cfg dir ->
  Cli.getAllImageFiles cfg dir (Dir es) = Ok files ->
  In (name, File d) es -> supported name = true ->
  In (dir ++ [name]) files.
Proof.
  intros Hdir Hn [Hhid Hne] Hscan Hin Hsup. simpl in Hscan.
  assert (Hh : Cli.SKIP_HIDDEN_DIRS cfg && startsWithDot (path_basename dir) = false).
  { destruct (Cli.SKIP_HIDDEN_DIRS cfg); [by rewrite Hhid|done]. }
  rewrite Hh in Hscan.
  assert (Hs : same_path dir (Cli.SAVE_FAILED_TO cfg) = false)
    by (by apply bool_decide_eq_false).
  rewrite Hs in Hscan. clear Hh Hs Hhid Hne.
  assert (Hent : forall s c, In (s, c) es ->
            proper_name s = true /\ proper_tree c = true)
    by (intros; by eapply proper_tree_entry).
  clear Hn. revert files Hscan.
  induction es as [|[file child] es IHes]; intros files Hscan; [destruct Hin|].
  destruct (Hent file child (or_introl eq_refl)) as [Hname _].
  rewrite path_join_proper in Hscan by done.
  assert (IHrest : In (name, File d) es -> forall files, _ = Ok files -> _)
    by (intros Hin'; apply IHes; [done|intros; apply Hent; by right]).
  clear IHes.
  destruct child as [d'|sub].
  - destruct (_ es) as [rest|] eqn:Hrest in Hscan; [|done].
    simpl in Hscan. injection Hscan as <-.
    destruct Hin as [Heq|Hin].
    + injection Heq as -> ->. rewrite Hsup. by left.
    + specialize (IHrest Hin rest Hrest).
      destruct (supported file); [by right|done].
  - destruct (Cli.getAllImageFiles cfg (dir ++ [file]) (Dir sub)) as [subfiles|];
      [|done].
    simpl in Hscan.
    destruct (_ es) as [rest|] eqn:Hrest in Hscan; [|done].
    simpl in Hscan. injection Hscan as <-.
    destruct Hin as [Heq|Hin]; [done|].
    apply in_or_app. right. by apply IHrest.
Qed.

Lemma reached_through_entry (ok : path -> Prop) (dir : path) (name : string) :
  reached_through ok dir (dir ++ [name]) -> supported name = true.
Proof.
  intros (rel & name' & Heq & Hs & _).
  rewrite app_assoc in Heq. apply app_inj_tail in Heq as [_ ->]. done.
Qed.

Lemma failedFiles_spec (cfg : Cli.Config) (names : list string) (name : string) :
  proper_path (Cli.SAVE_FAILED_TO cfg) ->
  Forall (fun s => proper_name s = true) names -> proper_name name = true ->
  In (path_join (Cli.SAVE_FAILED_TO cfg) [name]) (Cli.failedFiles cfg names)
  <-> In name names /\ supported name = true.
Proof.
  intros Hh Hnames Hname. unfold Cli.failedFiles.
  rewrite in_map_iff. split.
  - intros (x & Heq & Hx).
    apply list_elem_of_In, list_elem_of_filter in Hx as [Hsup Hx].
    apply list_elem_of_In in Hx.
    assert (Hpx : proper_name x = true)
      by (rewrite List.Forall_forall in Hnames; by apply Hnames).
    rewrite !path_join_proper in Heq by done.
    apply app_inj_tail in Heq as [_ ->]. done.
  - intros [Hin Hsup]. exists name. split; [done|].
    apply list_elem_of_In, list_elem_of_filter. split; [done|].
    by apply list_elem_of_In.
Qed.

(** ** The pool, whatever the worker function *)

Lemma pending_from_spec (ws : list Worker) (k i : nat) :
  In i (pending_from k ws) ->
  k <= i /\ exists wk, ws !! (i - k) = Some wk /\ pending wk = true.
Proof.
  revert k. induction ws as [|wk ws IH]; intros k Hin; [destruct Hin|].
  simpl in Hin. destruct (pending wk) eqn:Hp.
  - destruct Hin as [<-|Hin].
    + split; [lia|]. exists wk. by rewrite Nat.sub_diag.
    + apply IH in Hin as (Hle & wk' & Hl & Hp'). split; [lia|].
      exists wk'. split; [|done]. by replace (i - k) with (S (i - S k)) by lia.
  - apply IH in Hin as (Hle & wk' & Hl & Hp'). split; [lia|].
    exists wk'. split; [|done]. by replace (i - k) with (S (i - S k)) by lia.
Qed.

Lemma pending_from_nil (ws : list Worker) (k : nat) :
  pending_from k ws = [] <-> Forall (fun wk => pending wk = false) ws.
Proof.
  revert k. induction ws as [|wk ws IH]; intros k; simpl.
  - split; [constructor|done].
  - destruct (pending wk) eqn:Hp.
    + split; [done|]. intros H. inversion H; congruence.
    + rewrite IH. split; [by constructor|]. intros H. by inversion H.
Qed.

Lemma picked_is_pending (ws : list Worker) (c i0 : nat) (rest : list nat) :
  pending_from 0 ws = i0 :: rest ->
  exists wk, ws !! nth (c mod length (i0 :: rest)) (i0 :: rest) i0 = Some wk
             /\ pending wk = true.
Proof.
  intros Hpf.
  assert (Hin : In (nth (c mod length (i0 :: rest)) (i0 :: rest) i0) (pending_from 0 ws)).
  { rewrite Hpf. apply nth_In. apply Nat.mod_upper_bound. done. }
  apply pending_from_spec in Hin as (_ & wk & Hl & Hp).
  rewrite Nat.sub_0_r in Hl. eauto.
Qed.

Lemma list_sum_insert (f : Worker -> nat) (ws : list Worker) (i : nat) (wk wk' : Worker) :
  ws !! i = Some wk ->
  list_sum (map f (<[i := wk']> ws)) + f wk = list_sum (map f ws) + f wk'.
Proof.
  revert i. induction ws as [|x ws IH]; intros [|i] Hl; simpl in *; try done.
  - injection Hl as ->. lia.
  - specialize (IH i Hl). lia.
Qed.

Lemma in_flight_insert (ws : list Worker) (i : nat) (wk wk' : Worker) :
  ws !! i = Some wk ->
  in_flight wk ++ concat (map in_flight (<[i := wk']> ws))
  ≡ₚ in_flight wk' ++ concat (map in_flight ws).
Proof.
  revert i. induction ws as [|x ws IH]; intros [|i] Hl; simpl in *; try done.
  - injection Hl as ->. by rewrite !app_assoc, (Permutation_app_comm (in_flight wk)).
  - specialize (IH i Hl).
    rewrite !app_assoc.
    rewrite (Permutation_app_comm (in_flight wk)), (Permutation_app_comm (in_flight wk')).
    rewrite <- !app_assoc. by rewrite IH.
Qed.

Lemma in_insert_inv (ws : list Worker) (i : nat) (wk x : Worker) :
  In x (<[i := wk]> ws) -> x = wk \/ In x ws.
Proof.
  revert i. induction ws as [|y ws IH]; intros [|i] Hin; simpl in *; try tauto.
  - destruct Hin as [<-|Hin]; auto.
  - destruct Hin as [<-|Hin]; auto. apply IH in Hin. tauto.
Qed.

Section PoolProperties.

Variable resume : Worker -> Shared -> Worker * Shared.
Variable maxRetries : nat.

Hypothesis resume_decreases : forall wk sh,
  pending wk = true ->
  length (queue (resume wk sh).2) * file_weight maxRetries
  + worker_weight maxRetries (resume wk sh).1
  < length (queue sh) * file_weight maxRetries + worker_weight maxRetries wk.

Lemma step_decreases (i : nat) (p : Pool) (wk : Worker) :
  workers p !! i = Some wk -> pending wk = true ->
  pool_weight maxRetries (step resume i p) < pool_weight maxRetries p.
Proof.
  intros Hl Hp. unfold step, pool_weight. rewrite Hl.
  specialize (resume_decreases wk (shared p) Hp).
  destruct (resume wk (shared p)) as [wk' sh']. simpl in *.
  pose proof (list_sum_insert (worker_weight maxRetries) _ _ _ wk' Hl). lia.
Qed.

Lemma weight_zero_settled (p : Pool) :
  pool_weight maxRetries p = 0 -> pending_from 0 (workers p) = [].
Proof.
  unfold pool_weight. intros H. apply pending_from_nil.
  assert (Hs : list_sum (map (worker_weight maxRetries) (workers p)) = 0) by lia.
  clear H. induction (workers p) as [|wk ws IH]; [constructor|].
  simpl in Hs. constructor.
  - destruct wk; simpl in *; try done; lia.
  - apply IH. lia.
Qed.

(** The pool comes to rest within the fuel [await_all] gives it, unless
    the loop was to stop at a rejection and did. *)
Lemma run_settles (early : bool) (sched : nat -> nat) (fuel t : nat) (p : Pool) :
  pool_weight maxRetries p <= fuel ->
  pending_from 0 (workers (run resume early sched t fuel p)) = []
  \/ (early = true
      /\ first_rejection (workers (run resume early sched t fuel p)) <> None).
Proof.
  revert t p. induction fuel as [|fuel IH]; intros t p Hw; cbn [run].
  - left. apply weight_zero_settled. lia.
  - destruct (if early then first_rejection (workers p) else None) eqn:Hrej.
    + right. destruct early; [|done]. split; [done|]. by rewrite Hrej.
    + destruct (pending_from 0 (workers p)) as [|i0 rest] eqn:Hpf; [by left|].
      destruct (picked_is_pending _ (sched t) _ _ Hpf) as (wk & Hl & Hp).
      apply IH. pose proof (step_decreases _ _ _ Hl Hp). lia.
Qed.

Variable I : Pool -> Prop.

Hypothesis step_preserves : forall i p wk,
  workers p !! i = Some wk -> pending wk = true -> I p -> I (step resume i p).

Lemma run_preserves (early : bool) (sched : nat -> nat) (fuel t : nat) (p : Pool) :
  I p -> I (run resume early sched t fuel p).
Proof.
  revert t p. induction fuel as [|fuel IH]; intros t p Hi; cbn [run]; [done|].
  destruct (if early then first_rejection (workers p) else None); [done|].
  destruct (pending_from 0 (workers p)) as [|i0 rest] eqn:Hpf; [done|].
  destruct (picked_is_pending _ (sched t) _ _ Hpf) as (wk & Hl & Hp).
  apply IH. by eapply step_preserves.
Qed.

End PoolProperties.

(** ** One call of compressImageWorker inside a worker *)

Lemma caught_spec (env : Env) (file : path) (rc : nat) (e : JsError) :
  call_for file (caught env file rc e)
  /\ cs_weight (env_maxRetries env) (caught env file rc e)
     <= 2 * (env_maxRetries env - rc) + 1.
Proof.
  unfold caught, exhausted.
  destruct (decide (env_maxRetries env < S rc)); simpl; [split; [done|lia]|].
  split; [done|lia].
Qed.

Lemma enter_loop_spec (env : Env) (file : path) (rc : nat) (w : World) :
  call_for file (enter_loop env file rc w).1
  /\ cs_weight (env_maxRetries env) (enter_loop env file rc w).1
     <= 2 * (env_maxRetries env - rc) + 2.
Proof.
  unfold enter_loop.
  destruct (decide (rc <= env_maxRetries env)); simpl; [|split; [done|lia]].
  destruct (Fs.readFileSync _ _); simpl.
  - split; [done|lia].
  - pose proof (caught_spec env file rc e) as [? ?]. split; [done|lia].
Qed.

Lemma after_net_spec (env : Env) (adapter : Adapter) (outputRoot file : path)
    (rc : nat) (data : bytes) (w : World) :
  call_for file (after_net env adapter outputRoot file rc data w).1
  /\ cs_weight (env_maxRetries env) (after_net env adapter outputRoot file rc data w).1
     <= 2 * (env_maxRetries env - rc) + 1.
Proof.
  unfold after_net.
  destruct (attempt_receive _ _ _ _ _ _) as [[s|e] w1] eqn:Hr; simpl.
  - split; [|lia].
    unfold attempt_receive in Hr.
    repeat match type of Hr with
           | context [match ?x with _ => _ end] => destruct x; try done
           end.
    by injection Hr as <- _.
  - apply caught_spec.
Qed.

(** ** The worker of the command-line tool *)

Section CliWorker.

Variable cfg : Cli.Config.
Variable adapter : Adapter.
Variable outputRoot : path.
Variable isRetry : bool.

Let MAX := Cli.MAX_RETRIES cfg.

Lemma say_if_queue b s m sh : queue (Cli.say_if b s m sh) = queue sh.
Proof. by destruct b. Qed.

Lemma say_if_results b s m sh : results (Cli.say_if b s m sh) = results sh.
Proof. by destruct b. Qed.

Lemma cli_record_spec (file : path) (r : Returned) (sh : Shared) :
  call_for file (Finished r) ->
  queue (Cli.record cfg isRetry file r sh) = queue sh
  /\ recorded (results (Cli.record cfg isRetry file r sh))
     ≡ₚ file :: recorded (results sh).
Proof.
  intros Hc. unfold Cli.record. destruct r as [s|f|]; simpl in Hc.
  - assert (H : forall sh', queue sh' = queue sh ->
                results sh' = results (push_success s sh) ->
                queue sh' = queue sh
                /\ recorded (results sh') ≡ₚ file :: recorded (results sh)).
    { intros sh' Hq Hr. split; [done|]. rewrite Hr. unfold recorded. simpl.
      rewrite map_app. simpl. rewrite Hc.
      rewrite <- app_assoc. simpl. by rewrite <- Permutation_middle. }
    destruct isRetry; [|apply H; by rewrite ?say_if_queue, ?say_if_results].
    destruct (Fs.unlinkSync _ _); apply H;
      rewrite ?say_if_queue, ?say_if_results; simpl;
      by rewrite ?say_if_queue, ?say_if_results.
  - rewrite say_if_queue, say_if_results. split; [done|].
    unfold recorded. simpl. rewrite map_app. simpl. rewrite Hc.
    rewrite app_assoc. by rewrite <- Permutation_cons_append.
  - rewrite say_if_queue, say_if_results. split; [done|].
    unfold recorded. simpl. rewrite map_app. simpl.
    rewrite app_assoc. by rewrite <- Permutation_cons_append.
Qed.

Lemma cli_continue_spec (file : path) (c : CallState) (w : World) (sh : Shared) :
  call_for file c ->
  let r := Cli.continue cfg isRetry file (c, w) sh in
  queue r.2 = queue sh
  /\ in_flight r.1 ++ recorded (results r.2) ≡ₚ file :: recorded (results sh)
  /\ pending r.1 = true
  /\ worker_weight MAX r.1 = cs_weight MAX c.
Proof.
  intros Hc. destruct c as [wk|r]; simpl in *.
  - rewrite Hc. repeat split; [done|].
    by destruct wk.
  - destruct (cli_record_spec file r (set_world w sh) Hc) as [Hq Hr].
    repeat split; done.
Qed.

(** What one resumption of a suspended worker does to the shared state. *)
Lemma cli_resume_spec (wk : Worker) (sh : Shared) :
  pending wk = true ->
  let r := Cli.resume cfg adapter outputRoot isRetry wk sh in
  queue r.2 ++ in_flight r.1 ++ recorded (results r.2)
    ≡ₚ queue sh ++ in_flight wk ++ recorded (results sh)
  /\ (forall e, r.1 <> Rejected e)
  /\ (r.1 = Exited -> wk = AwaitTaskDelay /\ queue sh = [])
  /\ queue r.2 = match wk with
                 | AwaitTaskDelay => tail (queue sh)
                 | _ => queue sh
                 end
  /\ length (queue r.2) * file_weight MAX + worker_weight MAX r.1
     < length (queue sh) * file_weight MAX + worker_weight MAX wk.
Proof.
  intros Hp. cbv zeta.
  assert (Hcont : forall file c w1 sh1 bound,
            call_for file c -> cs_weight MAX c <= bound ->
            let r := Cli.continue cfg isRetry file (c, w1) sh1 in
            queue r.2 ++ in_flight r.1 ++ recorded (results r.2)
              ≡ₚ queue sh1 ++ file :: recorded (results sh1)
            /\ (forall e, r.1 <> Rejected e)
            /\ r.1 <> Exited
            /\ queue r.2 = queue sh1
            /\ length (queue r.2) * file_weight MAX + worker_weight MAX r.1
               <= length (queue sh1) * file_weight MAX + bound).
  { intros file c w1 sh1 bound Hc Hw.
    destruct (cli_continue_spec file c w1 sh1 Hc) as (Hq & Hperm & Hpend & Hwt).
    cbv zeta. destruct (Cli.continue _ _ _ _ _) as [wk' sh']. cbn [fst snd] in *.
    rewrite Hq, Hperm, Hwt. repeat split; try done.
    - intros e ->. done.
    - intros ->. done.
    - lia. }
  destruct wk as [file rc data|file rc| | |]; try done; cbn [Cli.resume].
  - pose proof (after_net_spec (Cli.env_of cfg) adapter outputRoot file rc data (world sh))
      as [Hc Hw].
    destruct (after_net _ _ _ _ _ _ _) as [c w1]. cbn [fst snd] in *.
    destruct (Hcont file c w1 sh _ Hc Hw) as (H1 & H2 & H3 & H4 & H5).
    repeat split; try done. cbn [worker_weight in_flight].
    unfold MAX in *. cbn [env_maxRetries Cli.env_of] in *. lia.
  - pose proof (enter_loop_spec (Cli.env_of cfg) file rc (world sh)) as [Hc Hw].
    destruct (enter_loop _ _ _ _) as [c w1]. cbn [fst snd] in *.
    destruct (Hcont file c w1 sh _ Hc Hw) as (H1 & H2 & H3 & H4 & H5).
    repeat split; try done. cbn [worker_weight in_flight].
    unfold MAX in *. cbn [env_maxRetries Cli.env_of] in *. lia.
  - unfold Cli.loop_head. destruct (queue sh) as [|file rest] eqn:Hqueue.
    + cbn [fst snd]. rewrite Hqueue. repeat split; try done. simpl. lia.
    + set (sh1 := Cli.say_if _ _ _ _).
      assert (Hq1 : queue sh1 = rest) by (unfold sh1; by rewrite say_if_queue).
      assert (Hr1 : results sh1 = results sh) by (unfold sh1; by rewrite say_if_results).
      pose proof (enter_loop_spec (Cli.env_of cfg) file 0 (world sh1)) as [Hc Hw].
      destruct (enter_loop _ _ _ _) as [c w1]. cbn [fst snd] in *.
      destruct (Hcont file c w1 sh1 _ Hc Hw) as (H1 & H2 & H3 & H4 & H5).
      rewrite Hq1, Hr1 in *. repeat split; try done.
      * rewrite H1. cbn [in_flight app]. by rewrite Permutation_middle.
      * cbn [worker_weight length]. unfold file_weight, MAX in *.
        cbn [env_maxRetries Cli.env_of] in *. lia.
Qed.

End CliWorker.

(** ** A pass of the command-line tool *)

Lemma spawn_length (start : Shared -> Worker * Shared) (n : nat) (p : Pool) :
  length (workers (spawn start n p)) = length (workers p) + n.
Proof.
  revert p. induction n as [|n IH]; intros p; simpl; [lia|].
  destruct (start (shared p)) as [wk sh]. rewrite IH. simpl.
  rewrite length_app. simpl. lia.
Qed.

Lemma step_length (resume : Worker -> Shared -> Worker * Shared) (i : nat) (p : Pool) :
  length (workers (step resume i p)) = length (workers p).
Proof.
  unfold step. destruct (workers p !! i); [|done].
  destruct (resume _ _). simpl. apply length_insert.
Qed.

Lemma run_length (resume : Worker -> Shared -> Worker * Shared) (early : bool)
    (sched : nat -> nat) (fuel t : nat) (p : Pool) :
  length (workers (run resume early sched t fuel p)) = length (workers p).
Proof.
  revert t p. induction fuel as [|fuel IH]; intros t p; cbn [run]; [done|].
  destruct (if early then first_rejection (workers p) else None); [done|].
  destruct (pending_from 0 (workers p)); [done|].
  by rewrite IH, step_length.
Qed.

Lemma settled_exited (ws : list Worker) :
  pending_from 0 ws = [] -> first_rejection ws = None ->
  Forall (fun wk => wk = Exited) ws.
Proof.
  intros Hp Hr. apply pending_from_nil in Hp.
  induction ws as [|wk ws IH]; [constructor|].
  inversion Hp as [|? ? Hwk Hws]; subst.
  destruct wk; try done. constructor; [done|]. by apply IH.
Qed.

Lemma no_rejection (ws : list Worker) :
  Forall (fun wk => forall e, wk <> Rejected e) ws -> first_rejection ws = None.
Proof.
  induction 1 as [|wk ws Hwk _ IH]; [done|].
  destruct wk; try done. by destruct (Hwk e).
Qed.

Section CliPass.

Variable cfg : Cli.Config.
Variable adapter : Adapter.
Variable outputRoot : path.
Variable isRetry : bool.
Variable files : list path.

Let resume := Cli.resume cfg adapter outputRoot isRetry.

Lemma cli_step_inv (i : nat) (p : Pool) (wk : Worker) :
  workers p !! i = Some wk -> pending wk = true ->
  cli_inv files p -> cli_inv files (step resume i p).
Proof.
  intros Hl Hp (Hacc & Hrej & Hex). unfold step. rewrite Hl.
  pose proof (cli_resume_spec cfg adapter outputRoot isRetry wk (shared p) Hp)
    as (H1 & H2 & H3 & H4 & _).
  fold resume in H1, H2, H3, H4.
  destruct (resume wk (shared p)) as [wk' sh']. cbn [fst snd] in *.
  unfold cli_inv. cbn [shared workers]. split; [|split].
  - rewrite <- Hacc. unfold accounted.
    apply (Permutation_app_inv_l (in_flight wk)).
    pose proof (in_flight_insert _ _ _ wk' Hl) as Hins.
    transitivity (queue sh' ++ (in_flight wk ++ concat (map in_flight (<[i:=wk']> (workers p))))
                  ++ recorded (results sh')).
    { rewrite !app_assoc. apply Permutation_app_tail.
      rewrite <- !app_assoc. rewrite (app_assoc (in_flight wk)).
      rewrite (Permutation_app_comm (in_flight wk) (queue sh')).
      by rewrite <- app_assoc. }
    rewrite Hins.
    transitivity (concat (map in_flight (workers p))
                  ++ (queue sh' ++ in_flight wk' ++ recorded (results sh'))).
    { rewrite <- !app_assoc. rewrite (app_assoc (queue sh')), (app_assoc _ (concat _)).
      rewrite (Permutation_app_comm (queue sh' ++ in_flight wk') (concat _)).
      by rewrite <- !app_assoc. }
    rewrite H1.
    rewrite !app_assoc. apply Permutation_app_tail.
    rewrite (Permutation_app_comm (in_flight wk)).
    rewrite <- !app_assoc. rewrite (app_assoc (concat _)).
    rewrite (Permutation_app_comm (concat _) (queue (shared p))).
    rewrite <- !app_assoc. apply Permutation_app_head.
    apply Permutation_app_comm.
  - apply Forall_insert; done.
  - intros Hin.
    assert (Hq : queue (shared p) = [] -> queue sh' = []).
    { intros Hq. rewrite H4, Hq. by destruct wk. }
    apply in_insert_inv in Hin as [Heq|Hin].
    + destruct (H3 (eq_sym Heq)) as [-> Hq0]. by apply Hq.
    + by apply Hq, Hex.
Qed.

Lemma cli_spawn_spec (n : nat) (p : Pool) :
  n <= length (queue (shared p)) ->
  accounted (shared p) (workers p) ≡ₚ files ->
  Forall (fun wk => pending wk = true) (workers p) ->
  accounted (shared (spawn (Cli.loop_head cfg isRetry) n p))
            (workers (spawn (Cli.loop_head cfg isRetry) n p)) ≡ₚ files
  /\ Forall (fun wk => pending wk = true)
       (workers (spawn (Cli.loop_head cfg isRetry) n p)).
Proof.
  revert p. induction n as [|n IH]; intros p Hn Hacc Hpend; [done|].
  cbn [spawn].
  pose proof (cli_resume_spec cfg adapter outputRoot isRetry AwaitTaskDelay (shared p) eq_refl)
    as (H1 & H2 & H3 & H4 & _).
  cbn [Cli.resume] in *.
  destruct (Cli.loop_head cfg isRetry (shared p)) as [wk sh]. cbn [fst snd] in *.
  apply IH; cbn [shared workers].
  - rewrite H4. destruct (queue (shared p)); simpl in *; lia.
  - rewrite <- Hacc. unfold accounted.
    rewrite map_app, concat_app. simpl. rewrite app_nil_r.
    cbn [in_flight app] in H1.
    transitivity (concat (map in_flight (workers p))
                  ++ (queue sh ++ in_flight wk ++ recorded (results sh)));
      [solve_Permutation|].
    rewrite H1. solve_Permutation.
  - apply Forall_app. split; [done|]. constructor; [|done].
    destruct wk; try done.
    + destruct (H3 eq_refl) as [_ Hq]. rewrite Hq in Hn. simpl in Hn. lia.
    + by destruct (H2 e).
Qed.

(** A pass of the command-line tool ends with every worker out of its
    loop. *)
Lemma cli_run_workers_join (sched : nat -> nat) (w : World) :
  let r := Cli.run_workers cfg adapter sched outputRoot isRetry files w in
  r.1 = Ok tt
  /\ length (workers r.2) = Nat.min (length files) (Cli.MAX_CONCURRENT cfg)
  /\ Forall (fun wk => wk = Exited) (workers r.2)
  /\ cli_inv files r.2.
Proof.
  unfold Cli.run_workers, await_all. cbv zeta.
  set (p0 := {| shared := _; workers := [] |}).
  set (p1 := spawn _ _ p0).
  set (p2 := run _ _ _ _ _ p1).
  destruct (cli_spawn_spec (Nat.min (length files) (Cli.MAX_CONCURRENT cfg)) p0)
    as [Hacc1 Hpend1]; [simpl; lia|unfold accounted; simpl; by rewrite app_nil_r|done|].
  fold p1 in Hacc1, Hpend1.
  assert (Hinv1 : cli_inv files p1).
  { split; [done|]. split.
    - eapply Forall_impl; [exact Hpend1|]. intros wk Hp e ->. done.
    - intros Hin. rewrite List.Forall_forall in Hpend1. by apply Hpend1 in Hin. }
  assert (Hinv2 : cli_inv files p2).
  { apply run_preserves; [|done]. intros i p wk. apply cli_step_inv. }
  pose proof Hinv2 as (Hacc2 & Hrej2 & Hex2).
  assert (Hset : pending_from 0 (workers p2) = []).
  { destruct (run_settles (Cli.resume cfg adapter outputRoot isRetry) (Cli.MAX_RETRIES cfg)
                (fun wk sh Hp => proj2 (proj2 (proj2 (proj2
                   (cli_resume_spec cfg adapter outputRoot isRetry wk sh Hp)))))
                true sched (pool_weight (Cli.MAX_RETRIES cfg) p1) 0 p1 (le_n _))
      as [H|[_ H]]; [done|].
    change (first_rejection (workers p2) <> None) in H.
    by rewrite (no_rejection _ Hrej2) in H. }
  rewrite (no_rejection _ Hrej2). cbn [fst snd].
  repeat split; try done.
  - unfold p2. rewrite run_length. unfold p1. by rewrite spawn_length.
  - apply settled_exited; [done|by apply no_rejection].
Qed.

(** With at least one worker allowed, it ends with the queue empty and one
    record per file. *)
Lemma cli_run_workers_spec (sched : nat -> nat) (w : World) :
  1 <= Cli.MAX_CONCURRENT cfg ->
  let r := Cli.run_workers cfg adapter sched outputRoot isRetry files w in
  r.1 = Ok tt
  /\ length (workers r.2) = Nat.min (length files) (Cli.MAX_CONCURRENT cfg)
  /\ Forall (fun wk => wk = Exited) (workers r.2)
  /\ queue (shared r.2) = []
  /\ recorded (results (shared r.2)) ≡ₚ files.
Proof.
  intros Hmax. cbv zeta.
  destruct (cli_run_workers_join sched w) as (H1 & Hlen & Hall & Hacc2 & _ & Hex2).
  set (p2 := (Cli.run_workers cfg adapter sched outputRoot isRetry files w).2) in *.
  assert (Hq : queue (shared p2) = []).
  { destruct (workers p2) as [|wk ws] eqn:Hws.
    - simpl in Hlen.
      assert (Hnil : files = []) by (apply nil_length_inv; lia).
      unfold accounted in Hacc2. rewrite Hnil in Hacc2.
      apply Permutation_nil_r in Hacc2. by apply app_eq_nil in Hacc2 as [? _].
    - apply Hex2. inversion Hall; subst. by left. }
  repeat split; try done.
  rewrite <- Hacc2. unfold accounted. rewrite Hq. simpl.
  assert (Hnone : concat (map in_flight (workers p2)) = []).
  { clear -Hall. induction Hall as [|wk ws -> _ IH]; [done|]. by simpl. }
  by rewrite Hnone.
Qed.

End CliPass.

(** ** The worker and the pass of the extension *)

Lemma tail_drop {A} (l : list A) (k : nat) : tail (drop k l) = drop (S k) l.
Proof.
  revert l. induction k as [|k IH]; intros [|x l]; simpl; done.
Qed.

Section ExtPass.

Variable config : Ext.Config.
Variable adapter : Adapter.
Variable sourceDir outputDir : path.
Variable files : list path.

Let MAX := Ext.maxRetries config.
Let resume := Ext.resume config adapter sourceDir outputDir true.

Lemma ext_record_spec (file : path) (r : Returned) (sh : Shared) :
  call_for file (Finished r) ->
  queue (Ext.record file r sh) = queue sh
  /\ recorded (results (Ext.record file r sh)) ≡ₚ file :: recorded (results sh).
Proof.
  intros Hc. destruct r as [s|f|]; cbn [call_for] in Hc; (split; [done|]);
    unfold Ext.record, push_success, push_failed, recorded;
    cbn [results success failed]; rewrite map_app; cbn [map];
    rewrite ?Hc; cbn [f_filePath]; solve_Permutation.
Qed.

Lemma ext_continue_spec (file : path) (c : CallState) (w : World) (sh : Shared) :
  call_for file c ->
  let r := Ext.continue true file (c, w) sh in
  queue r.2 = queue sh
  /\ in_flight r.1 ++ recorded (results r.2) ≡ₚ file :: recorded (results sh)
  /\ ext_worker_ok r.1
  /\ worker_weight MAX r.1 <= cs_weight MAX c.
Proof.
  intros Hc. destruct c as [wk|r]; simpl in *.
  - rewrite Hc. repeat split; [done| |done]. by destruct wk.
  - destruct (ext_record_spec file r (set_world w sh) Hc) as [Hq Hr].
    repeat split; try done. lia.
Qed.

Lemma ext_resume_spec (wk : Worker) (sh : Shared) :
  pending wk = true ->
  let r := resume wk sh in
  queue r.2 ++ in_flight r.1 ++ recorded (results r.2)
    ≡ₚ queue sh ++ in_flight wk ++ recorded (results sh)
  /\ (ext_worker_ok r.1 \/ wk = AwaitTaskDelay /\ queue sh = [] /\ r.1 = Exited)
  /\ queue r.2 = match wk with
                 | AwaitTaskDelay => tail (queue sh)
                 | _ => queue sh
                 end
  /\ length (queue r.2) * file_weight MAX + worker_weight MAX r.1
     < length (queue sh) * file_weight MAX + worker_weight MAX wk.
Proof.
  intros Hp. cbv zeta. unfold resume.
  assert (Hcont : forall file c w1 sh1 bound,
            call_for file c -> cs_weight MAX c <= bound ->
            let r := Ext.continue true file (c, w1) sh1 in
            queue r.2 ++ in_flight r.1 ++ recorded (results r.2)
              ≡ₚ queue sh1 ++ file :: recorded (results sh1)
            /\ ext_worker_ok r.1
            /\ queue r.2 = queue sh1
            /\ length (queue r.2) * file_weight MAX + worker_weight MAX r.1
               <= length (queue sh1) * file_weight MAX + bound).
  { intros file c w1 sh1 bound Hc Hw.
    destruct (ext_continue_spec file c w1 sh1 Hc) as (Hq & Hperm & Hok & Hwt).
    cbv zeta. destruct (Ext.continue _ _ _ _) as [wk' sh']. cbn [fst snd] in *.
    rewrite Hq, Hperm. repeat split; try done. lia. }
  destruct wk as [file rc data|file rc| | |]; try done; cbn [Ext.resume].
  - pose proof (after_net_spec (Ext.env_of config sourceDir) adapter outputDir file rc
                  data (world sh)) as [Hc Hw].
    destruct (after_net _ _ _ _ _ _ _) as [c w1]. cbn [fst snd] in *.
    destruct (Hcont file c w1 sh _ Hc Hw) as (H1 & H2 & H3 & H4).
    repeat split; try done; [by left|]. cbn [worker_weight in_flight].
    unfold MAX in *. cbn [env_maxRetries Ext.env_of] in *. lia.
  - pose proof (enter_loop_spec (Ext.env_of config sourceDir) file rc (world sh))
      as [Hc Hw].
    destruct (enter_loop _ _ _ _) as [c w1]. cbn [fst snd] in *.
    destruct (Hcont file c w1 sh _ Hc Hw) as (H1 & H2 & H3 & H4).
    repeat split; try done; [by left|]. cbn [worker_weight in_flight].
    unfold MAX in *. cbn [env_maxRetries Ext.env_of] in *. lia.
  - unfold Ext.loop_head. destruct (queue sh) as [|file rest] eqn:Hqueue.
    + cbn [fst snd]. rewrite Hqueue. repeat split; try done; [by right|]. simpl. lia.
    + pose proof (enter_loop_spec (Ext.env_of config sourceDir) file 0
                    (world (set_queue rest sh))) as [Hc Hw].
      destruct (enter_loop _ _ _ _) as [c w1]. cbn [fst snd] in *.
      destruct (Hcont file c w1 (set_queue rest sh) _ Hc Hw) as (H1 & H2 & H3 & H4).
      cbn [queue results set_queue] in *. repeat split; try done.
      * rewrite H1. cbn [in_flight app]. by rewrite Permutation_middle.
      * by left.
      * cbn [worker_weight length]. unfold file_weight, MAX in *.
        cbn [env_maxRetries Ext.env_of] in *. lia.
Qed.

Lemma ext_step_inv (n i : nat) (p : Pool) (wk : Worker) :
  workers p !! i = Some wk -> pending wk = true ->
  ext_inv files n p -> ext_inv files n (step resume i p).
Proof.
  intros Hl Hp (Hacc & Hok & Hq). unfold step. rewrite Hl.
  pose proof (ext_resume_spec wk (shared p) Hp) as (H1 & H2 & H3 & _).
  destruct (resume wk (shared p)) as [wk' sh']. cbn [fst snd] in *.
  assert (Hwk : ext_worker_ok wk).
  { rewrite List.Forall_forall in Hok. apply Hok.
    apply list_elem_of_In, list_elem_of_lookup. eauto. }
  unfold ext_inv. cbn [shared workers]. split; [|split].
  - rewrite <- Hacc. unfold accounted.
    apply (Permutation_app_inv_l (in_flight wk)).
    pose proof (in_flight_insert _ _ _ wk' Hl) as Hins.
    transitivity (queue sh' ++ (in_flight wk ++ concat (map in_flight (<[i:=wk']> (workers p))))
                  ++ recorded (results sh')); [solve_Permutation|].
    rewrite Hins.
    transitivity (concat (map in_flight (workers p))
                  ++ (queue sh' ++ in_flight wk' ++ recorded (results sh')));
      [solve_Permutation|].
    rewrite H1. solve_Permutation.
  - apply Forall_insert; [done|].
    destruct H2 as [H2|(-> & _)]; [done|done].
  - rewrite H3, <- Hq. by destruct wk.
Qed.

Lemma ext_spawn_spec (n : nat) (p : Pool) (k : nat) :
  n <= length (queue (shared p)) ->
  ext_inv files k p ->
  ext_inv files (k + n) (spawn (Ext.loop_head config sourceDir true) n p).
Proof.
  revert p k. induction n as [|n IH]; intros p k Hn Hinv.
  { by rewrite Nat.add_0_r. }
  destruct Hinv as (Hacc & Hok & Hq).
  cbn [spawn].
  pose proof (ext_resume_spec AwaitTaskDelay (shared p) eq_refl) as (H1 & H2 & H3 & _).
  unfold resume in *. cbn [Ext.resume] in *.
  destruct (Ext.loop_head config sourceDir true (shared p)) as [wk sh].
  cbn [fst snd] in *.
  replace (k + S n) with (S k + n) by lia.
  apply IH; cbn [shared workers].
  - rewrite H3. destruct (queue (shared p)); simpl in *; lia.
  - unfold ext_inv. cbn [shared workers]. split; [|split].
    + rewrite <- Hacc. unfold accounted.
      rewrite map_app, concat_app. simpl. rewrite app_nil_r.
      cbn [in_flight app] in H1.
      transitivity (concat (map in_flight (workers p))
                    ++ (queue sh ++ in_flight wk ++ recorded (results sh)));
        [solve_Permutation|].
      rewrite H1. solve_Permutation.
    + apply Forall_app. split; [done|]. constructor; [|done].
      destruct H2 as [H2|(_ & Hnil & _)]; [done|].
      rewrite Hnil in Hn. simpl in Hn. lia.
    + rewrite H3, Hq. apply tail_drop.
Qed.

Lemma ext_first_rejection (ws : list Worker) :
  Forall ext_worker_ok ws ->
  first_rejection ws = None
  \/ first_rejection ws = Some (Thrown "result is not defined").
Proof.
  induction 1 as [|wk ws Hwk _ IH]; [by left|].
  destruct wk; simpl in *; try done. right. by rewrite Hwk.
Qed.

Lemma ext_settled (ws : list Worker) :
  Forall ext_worker_ok ws -> pending_from 0 ws = [] ->
  Forall (fun wk => wk = Rejected (Thrown "result is not defined")) ws.
Proof.
  intros Hok Hset. apply pending_from_nil in Hset.
  induction Hok as [|wk ws Hwk _ IH]; [constructor|].
  inversion Hset; subst. constructor; [|by apply IH].
  destruct wk; try done. simpl in Hwk. by subst.
Qed.

Lemma ext_resume_decreases (wk : Worker) (sh : Shared) :
  pending wk = true ->
  length (queue (resume wk sh).2) * file_weight MAX + worker_weight MAX (resume wk sh).1
  < length (queue sh) * file_weight MAX + worker_weight MAX wk.
Proof. intros Hp. apply (ext_resume_spec wk sh Hp). Qed.

(** A pass of the extension: the pool has its workers, each holding one
    file; [Promise.all] rejects with the ReferenceError as soon as there is
    a worker at all; the files the spawning left in the queue are still
    there. *)
Lemma ext_run_workers_spec (sched : nat -> nat) (w : World) :
  let n := Nat.min (length files) (Ext.maxConcurrent config) in
  let r := Ext.run_workers config adapter sched sourceDir outputDir files w in
  length (workers r.2) = n
  /\ ext_inv files n r.2
  /\ r.1 = match n with
           | 0 => Ok tt
           | S _ => Throw (Thrown "result is not defined")
           end.
Proof.
  cbv zeta. unfold Ext.run_workers, await_all. cbv zeta.
  set (n := Nat.min _ _).
  set (p0 := {| shared := _; workers := [] |}).
  set (p1 := spawn _ _ p0).
  set (p2 := run _ _ _ _ _ p1).
  assert (Hinv1 : ext_inv files n p1).
  { apply (ext_spawn_spec n p0 0); [simpl; unfold n; lia|].
    split; [|split]; [|done|done].
    unfold accounted. simpl. by rewrite app_nil_r. }
  assert (Hinv2 : ext_inv files n p2).
  { apply run_preserves; [|done]. intros i p wk. apply ext_step_inv. }
  assert (Hlen : length (workers p2) = n).
  { unfold p2. rewrite run_length. unfold p1. by rewrite spawn_length. }
  pose proof Hinv2 as (_ & Hok2 & _).
  assert (Hfr : first_rejection (workers p2)
                = match n with
                  | 0 => None
                  | S _ => Some (Thrown "result is not defined")
                  end).
  { destruct (run_settles resume MAX ext_resume_decreases true sched
                (pool_weight MAX p1) 0 p1 (le_n _)) as [Hset|[_ Hrej]];
      [change (pending_from 0 (workers p2) = []) in Hset
      |change (first_rejection (workers p2) <> None) in Hrej].
    - pose proof (ext_settled _ Hok2 Hset) as Hall.
      destruct (workers p2) as [|wk ws] eqn:Hws.
      + simpl in Hlen. by rewrite <- Hlen.
      + inversion Hall; subst. simpl. by rewrite <- Hlen.
    - destruct (ext_first_rejection _ Hok2) as [Hnone|Hsome]; [done|].
      rewrite Hsome. destruct (workers p2) as [|wk ws] eqn:Hws; [done|].
      simpl in Hlen. by rewrite <- Hlen. }
  rewrite Hfr. clear Hfr.
  destruct n; cbn [fst snd]; (split; [done|]); (split; [done|]); done.
Qed.

(** Once the workers of such a pass have all come to rest, every one of them
    has rejected, the files they held have a record each, and the rest of
    the queue is untouched. *)
Lemma ext_drain_spec (n : nat) (sched : nat -> nat) (p : Pool) :
  ext_inv files n p ->
  let p' := drain resume MAX sched p in
  Forall (fun wk => wk = Rejected (Thrown "result is not defined")) (workers p')
  /\ queue (shared p') = drop n files
  /\ recorded (results (shared p')) ≡ₚ take n files.
Proof.
  intros Hinv. cbv zeta. unfold drain.
  set (p' := run _ _ _ _ _ p).
  assert (Hinv' : ext_inv files n p').
  { apply run_preserves; [|done]. intros i q wk. apply ext_step_inv. }
  destruct Hinv' as (Hacc & Hok & Hq).
  assert (Hall : Forall (fun wk => wk = Rejected (Thrown "result is not defined"))
                   (workers p')).
  { apply ext_settled; [done|].
    destruct (run_settles resume MAX ext_resume_decreases false sched
                (pool_weight MAX p) 0 p (le_n _)) as [Hset|[Hf _]]; [|done].
    exact Hset. }
  repeat split; try done.
  unfold accounted in Hacc. rewrite Hq in Hacc.
  assert (Hnone : concat (map in_flight (workers p')) = []).
  { clear -Hall. induction Hall as [|wk ws -> _ IH]; [done|]. by simpl. }
  rewrite Hnone in Hacc. simpl in Hacc.
  apply (Permutation_app_inv_l (drop n files)). rewrite Hacc.
  rewrite <- (take_drop n files) at 1. apply Permutation_app_comm.
Qed.

End ExtPass.

(** ** The retry loop *)

Lemma attempt_receive_trace (env : Env) (outputRoot filePath : path) (size : nat)
    (o : NetOutcome) (w : World) :
  trace (attempt_receive env outputRoot filePath size o w).2 = trace w.
Proof.
  unfold attempt_receive.
  repeat match goal with
         | |- context [match ?x with _ => _ end] => destruct x; try done
         end.
Qed.

Lemma attempt_trace (env : Env) (adapter : Adapter) (outputRoot filePath : path)
    (rc : nat) (w : World) :
  trace (attempt env adapter outputRoot filePath rc w).2
  = trace w ++ [Attempt filePath rc].
Proof.
  unfold attempt, attempt_send.
  destruct (Fs.readFileSync _ _); [|done].
  by rewrite attempt_receive_trace.
Qed.


(** ** The file system *)

Lemma assoc_set_eq (s : string) (v : node) (es : list (string * node)) :
  Fs.assoc s (Fs.assoc_set s v es) = Some v.
Proof.
  induction es as [|[k w] es IH]; simpl.
  - by destruct (decide (s = s)).
  - destruct (decide (k = s)) as [->|Hne]; simpl.
    + by destruct (decide (s = s)).
    + by destruct (decide (k = s)).
Qed.

Lemma assoc_set_ne (s t : string) (v : node) (es : list (string * node)) :
  t <> s -> Fs.assoc t (Fs.assoc_set s v es) = Fs.assoc t es.
Proof.
  intros Hne. induction es as [|[k w] es IH]; simpl.
  - destruct (decide (s = t)); [congruence|done].
  - destruct (decide (k = s)) as [->|Hks]; simpl.
    + destruct (decide (s = t)); [congruence|done].
    + destruct (decide (k = t)); [done|apply IH].
Qed.

Lemma holds_cons_eq (es : list (string * node)) (s : string) (q : path) (c : node) :
  Fs.assoc s es = Some c -> holds (Dir es) (s :: q) = holds c q.
Proof. intros H. unfold holds. simpl. by rewrite H. Qed.

Lemma holds_cons_none (es : list (string * node)) (s : string) (q : path) :
  Fs.assoc s es = None -> holds (Dir es) (s :: q) = None.
Proof. intros H. unfold holds. simpl. by rewrite H. Qed.

Lemma holds_file (d : bytes) (q : path) :
  q <> [] -> holds (File d) q = None.
Proof. by destruct q. Qed.

(** A write changes what its own path holds and nothing else. *)
Lemma write_holds (p : path) :
  forall (d : bytes) (n n' : node) (q : path),
    Fs.writeFileSync p d n = Ok n' ->
    holds n' q = if decide (q = p) then Some (Some d) else holds n q.
Proof.
  induction p as [|s p IH]; intros d n n' q Hw; [done|].
  destruct n as [d0|es]; [destruct p; simpl in Hw; done|].
  destruct p as [|s' p'].
  - simpl in Hw.
    assert (Hn' : n' = Dir (Fs.assoc_set s (File d) es)
                  /\ holds (Dir es) [s] <> Some None).
    { unfold holds. simpl.
      destruct (Fs.assoc s es) as [[d1|es1]|]; [| done |];
        injection Hw as <-; done. }
    destruct Hn' as [-> Hnd].
    destruct q as [|t q'].
    + rewrite decide_False by done. reflexivity.
    + destruct (decide (t = s)) as [->|Hts].
      * rewrite (holds_cons_eq _ _ _ (File d)) by apply assoc_set_eq.
        destruct q' as [|u q'']; [by rewrite decide_True by done|].
        rewrite holds_file by done.
        rewrite decide_False by done.
        unfold holds in *. simpl in *.
        destruct (Fs.assoc s es) as [[d1|es1]|]; simpl in *; congruence.
      * rewrite decide_False by congruence.
        unfold holds. simpl. by rewrite assoc_set_ne.
  - change (match Fs.assoc s es with
            | Some c =>
                rbind (Fs.writeFileSync (s' :: p') d c)
                  (fun c' => Ok (Dir (Fs.assoc_set s c' es)))
            | None => Throw (Thrown "ENOENT")
            end = Ok n') in Hw.
    destruct (Fs.assoc s es) as [c|] eqn:Hc; [|done].
    destruct (Fs.writeFileSync (s' :: p') d c) as [c'|] eqn:Hwc; [|done].
    cbn [rbind] in Hw. injection Hw as <-.
    destruct q as [|t q'].
    + destruct (decide ([] = s :: s' :: p')) as [Heq|_];
        [discriminate Heq|reflexivity].
    + destruct (decide (t = s)) as [->|Hts].
      * rewrite (holds_cons_eq _ _ _ c') by apply assoc_set_eq.
        rewrite (holds_cons_eq _ _ _ c) by done.
        rewrite (IH d c c' q' Hwc).
        destruct (decide (q' = s' :: p')) as [->|Hne].
        -- by rewrite !decide_True by done.
        -- by rewrite !decide_False by congruence.
      * rewrite decide_False by congruence.
        unfold holds. simpl. by rewrite assoc_set_ne.
Qed.

(** A write succeeds when the directory exists and the name is not that of
    a directory. *)
Lemma write_succeeds (dir : path) :
  forall (b : string) (d : bytes) (n : node),
    holds n dir = Some None -> holds n (dir ++ [b]) <> Some None ->
    exists n', Fs.writeFileSync (dir ++ [b]) d n = Ok n'.
Proof.
  induction dir as [|s dir IH]; intros b d n Hdir Hnot.
  - destruct n as [d0|es]; [done|]. simpl.
    unfold holds in Hnot. simpl in Hnot.
    destruct (Fs.assoc b es) as [[d1|es1]|]; [eauto|done|eauto].
  - destruct n as [d0|es]; [done|].
    unfold holds in Hdir, Hnot. simpl in Hdir, Hnot.
    destruct (Fs.assoc s es) as [c|] eqn:Hc; [|done].
    destruct (IH b d c Hdir Hnot) as [c' Hc'].
    exists (Dir (Fs.assoc_set s c' es)).
    change ((s :: dir) ++ [b]) with (s :: (dir ++ [b])).
    destruct (dir ++ [b]) as [|x rest] eqn:Hdb; [by destruct dir|].
    change (match Fs.assoc s es with
            | Some c =>
                rbind (Fs.writeFileSync (x :: rest) d c)
                  (fun c' => Ok (Dir (Fs.assoc_set s c' es)))
            | None => Throw (Thrown "ENOENT")
            end = Ok (Dir (Fs.assoc_set s c' es))).
    rewrite Hc, Hc'. done.
Qed.

Lemma read_holds (n : node) (q : path) (d : bytes) :
  Fs.readFileSync n q = Ok d <-> holds n q = Some (Some d).
Proof.
  unfold Fs.readFileSync, holds.
  destruct (Fs.lookup n q) as [[d0|es]|]; split; intros H; try done;
    by injection H as ->.
Qed.

(** ** Saving the failed files *)

Lemma proper_basename (p : path) :
  p <> [] -> proper_path p -> proper_name (path_basename p) = true.
Proof.
  intros Hne Hp. unfold path_basename.
  destruct p as [|x p _] using rev_ind; [done|].
  rewrite last_snoc. simpl.
  apply Forall_app in Hp as [_ Hx]. by inversion Hx.
Qed.

Lemma copy_failed_app (cfg : Cli.Config) (l1 l2 : list Failure) (w : World) :
  Cli.copy_failed cfg (l1 ++ l2) w = Cli.copy_failed cfg l2 (Cli.copy_failed cfg l1 w).
Proof.
  revert w. induction l1 as [|f l1 IH]; intros w; [done|].
  simpl. destruct (Fs.copyFileSync _ _ _); apply IH.
Qed.

(** One copy: the target gets the bytes of the source when the copy goes
    through, and every other path holds what it held. *)
Lemma copy_failed_one (cfg : Cli.Config) (f : Failure) (w : World) (q : path) :
  let target := path_join (Cli.SAVE_FAILED_TO cfg) [path_basename (f_filePath f)] in
  holds (fs (Cli.copy_failed cfg [f] w)) q
  = match Fs.copyFileSync (f_filePath f) target (fs w) with
    | Ok _ => if decide (q = target) then holds (fs w) (f_filePath f)
              else holds (fs w) q
    | Throw _ => holds (fs w) q
    end.
Proof.
  cbv zeta. cbn [Cli.copy_failed].
  destruct (Fs.copyFileSync _ _ _) as [fs'|e] eqn:Hcopy; [|done].
  unfold Fs.copyFileSync in Hcopy.
  destruct (Fs.readFileSync (fs w) (f_filePath f)) as [d|] eqn:Hread; [|done].
  cbn [rbind] in Hcopy.
  apply read_holds in Hread. rewrite Hread.
  rewrite <- (write_holds _ _ _ _ q Hcopy).
  by destruct (Cli.is_verbose cfg).
Qed.

Lemma copy_failed_frame (cfg : Cli.Config) (fl : list Failure) (w : World) (q : path) :
  Forall (fun g => q <> path_join (Cli.SAVE_FAILED_TO cfg) [path_basename (f_filePath g)]) fl ->
  holds (fs (Cli.copy_failed cfg fl w)) q = holds (fs w) q.
Proof.
  revert w. induction fl as [|f fl IH]; intros w Hall; [done|].
  inversion Hall as [|? ? Hf Hfl]; subst.
  change (f :: fl) with ([f] ++ fl). rewrite copy_failed_app, IH by done.
  rewrite copy_failed_one.
  destruct (Fs.copyFileSync _ _ _); [|done]. by rewrite decide_False.
Qed.

(** No copy turns a directory into a file or a file into a directory. *)
Lemma copy_failed_dirs (cfg : Cli.Config) (fl : list Failure) (w : World) (q : path) :
  holds (fs (Cli.copy_failed cfg fl w)) q = Some None <-> holds (fs w) q = Some None.
Proof.
  revert w. induction fl as [|f fl IH]; intros w; [done|].
  change (f :: fl) with ([f] ++ fl). rewrite copy_failed_app, IH.
  rewrite copy_failed_one.
  destruct (Fs.copyFileSync _ _ _) as [fs'|e] eqn:Hcopy; [|done].
  destruct (decide (q = _)) as [->|]; [|done].
  unfold Fs.copyFileSync in Hcopy.
  destruct (Fs.readFileSync (fs w) (f_filePath f)) as [d|] eqn:Hread; [|done].
  cbn [rbind] in Hcopy.
  pose proof (write_holds _ _ _ _
                (path_join (Cli.SAVE_FAILED_TO cfg) [path_basename (f_filePath f)]) Hcopy)
    as Hafter.
  rewrite decide_True in Hafter by done.
  apply read_holds in Hread. rewrite Hread.
  split; [done|].
  (* the target was a directory: the write cannot have succeeded *)
  intros Hdir. exfalso.
  clear -Hcopy Hdir.
  set (p := path_join _ _) in *. clearbody p. revert Hcopy Hdir.
  generalize (fs w). clear. intros n. revert n fs'.
  induction p as [|s p IH]; intros n fs' Hw Hdir; [done|].
  destruct n as [d0|es]; [done|].
  unfold holds in Hdir. simpl in Hdir.
  destruct (Fs.assoc s es) as [c|] eqn:Hc; [|done].
  destruct p as [|s' p'].
  - simpl in Hw. rewrite Hc in Hw. simpl in Hdir. by destruct c.
  - change (match Fs.assoc s es with
            | Some c =>
                rbind (Fs.writeFileSync (s' :: p') d c)
                  (fun c' => Ok (Dir (Fs.assoc_set s c' es)))
            | None => Throw (Thrown "ENOENT")
            end = Ok fs') in Hw.
    rewrite Hc in Hw.
    destruct (Fs.writeFileSync (s' :: p') d c) as [c'|] eqn:Hwc; [|done].
    by apply (IH c c').
Qed.

(** ** What a recovery pass leaves in the trace *)

Lemma no_scan_refl (w w' : World) : trace w' = trace w -> no_scan_since w w'.
Proof. intros H. exists []. by rewrite app_nil_r. Qed.

Lemma no_scan_trans (w1 w2 w3 : World) :
  no_scan_since w1 w2 -> no_scan_since w2 w3 -> no_scan_since w1 w3.
Proof.
  intros (e1 & H1 & F1) (e2 & H2 & F2). exists (e1 ++ e2).
  split; [by rewrite H2, H1, app_assoc|by apply Forall_app].
Qed.

Lemma no_scan_emit (w : World) (e : Event) :
  is_scan e = false -> no_scan_since w (emit e w).
Proof. intros H. exists [e]. split; [done|by constructor]. Qed.

Lemma no_scan_say_if (b : bool) (s : Stream) (m : Msg) (sh : Shared) :
  no_scan_since (world sh) (world (Cli.say_if b s m sh)).
Proof. destruct b; [by apply no_scan_emit|by apply no_scan_refl]. Qed.

Lemma enter_loop_no_scan (env : Env) (file : path) (rc : nat) (w : World) :
  no_scan_since w (enter_loop env file rc w).2.
Proof.
  unfold enter_loop. destruct (decide _); [|by apply no_scan_refl].
  unfold attempt_send. destruct (Fs.readFileSync _ _); by apply no_scan_emit.
Qed.

Lemma after_net_no_scan (env : Env) (adapter : Adapter) (outputRoot file : path)
    (rc : nat) (data : bytes) (w : World) :
  no_scan_since w (after_net env adapter outputRoot file rc data w).2.
Proof.
  unfold after_net.
  pose proof (attempt_receive_trace env outputRoot file (length data)
                (adapter file rc (fileTypeOf file) data) w) as Ht.
  destruct (attempt_receive _ _ _ _ _ _) as [[s|e] w1]; by apply no_scan_refl.
Qed.

Section CliTrace.

Variable cfg : Cli.Config.
Variable adapter : Adapter.
Variable outputRoot : path.
Variable isRetry : bool.

Lemma cli_record_no_scan (file : path) (r : Returned) (sh : Shared) :
no_scan_since (world sh) (world (Cli.record cfg isRetry file r sh)).
Proof.
unfold Cli.record. destruct r as [s|f|].
- eapply no_scan_trans;
    [apply (no_scan_say_if (Cli.is_verbose cfg) Stdout
              (MCompressed (path_relative (Cli.SOURCE_ROOT cfg) file)
                 (s_originalSize s) (s_compressedSize s)) (push_success s sh))|].
  destruct isRetry; [|by apply no_scan_refl].
  destruct (Fs.unlinkSync _ _).
  + eapply no_scan_trans; [|apply no_scan_say_if]. by apply no_scan_refl.
  + by apply no_scan_emit.
- apply (no_scan_say_if _ _ _ (push_failed f sh)).
- match goal with
  | |- context [Cli.say_if ?b ?s ?m (push_failed ?f sh)] =>
      apply (no_scan_say_if b s m (push_failed f sh))
  end.
Qed.

Lemma cli_continue_no_scan (file : path) (c : CallState * World) (sh : Shared) :
no_scan_since (world sh) c.2 ->
no_scan_since (world sh) (world (Cli.continue cfg isRetry file c sh).2).
Proof.
intros Hc. destruct c as [[wk|r] w1]; simpl in *; [done|].
eapply no_scan_trans; [exact Hc|].
apply (cli_record_no_scan file r (set_world w1 sh)).
Qed.

Lemma cli_resume_no_scan (wk : Worker) (sh : Shared) :
no_scan_since (world sh)
  (world (Cli.resume cfg adapter outputRoot isRetry wk sh).2).
Proof.
destruct wk as [file rc data|file rc| | |]; cbn [Cli.resume];
  try (by apply no_scan_refl).
- apply cli_continue_no_scan, after_net_no_scan.
- apply cli_continue_no_scan, enter_loop_no_scan.
- unfold Cli.loop_head. destruct (queue sh) as [|file rest]; [by apply no_scan_refl|].
  set (sh1 := Cli.say_if _ _ _ _).
  assert (H1 : no_scan_since (world sh) (world sh1))
    by apply (no_scan_say_if _ _ _ (set_queue rest sh)).
  eapply no_scan_trans; [exact H1|].
  apply cli_continue_no_scan, enter_loop_no_scan.
Qed.

Lemma cli_run_workers_no_scan (sched : nat -> nat) (files : list path) (w : World) :
no_scan_since w
  (world (shared (Cli.run_workers cfg adapter sched outputRoot isRetry files w).2)).
Proof.
unfold Cli.run_workers, await_all. cbv zeta.
set (p0 := {| shared := _; workers := [] |}).
set (I := fun p : Pool => no_scan_since w (world (shared p))).
assert (H0 : I p0) by (by apply no_scan_refl).
assert (Hspawn : forall n p, I p -> I (spawn (Cli.loop_head cfg isRetry) n p)).
{ induction n as [|n IH]; intros p Hp; [done|]. cbn [spawn].
  pose proof (cli_resume_no_scan AwaitTaskDelay (shared p)) as Hs.
  cbn [Cli.resume] in Hs.
  destruct (Cli.loop_head cfg isRetry (shared p)) as [wk sh]. apply IH.
  unfold I in *. simpl in *. by eapply no_scan_trans. }
assert (Hrun : forall p, I p ->
          I (run (Cli.resume cfg adapter outputRoot isRetry) true sched 0
               (pool_weight (Cli.MAX_RETRIES cfg) p) p)).
{ intros p Hp. apply run_preserves; [|done].
  intros i q wk Hl _ Hq. unfold step. rewrite Hl.
  pose proof (cli_resume_no_scan wk (shared q)) as Hs.
  destruct (Cli.resume _ _ _ _ _ _) as [wk' sh']. unfold I in *. simpl in *.
  by eapply no_scan_trans. }
destruct (first_rejection _); simpl; by apply Hrun, Hspawn.
Qed.

End CliTrace.

Lemma retryFailedFolder_no_scan (cfg : Cli.Config) (ps : Pass) (w : World) :
  no_scan_since w (Cli.retryFailedFolder cfg ps w).2.
Proof.
  unfold Cli.retryFailedFolder. cbv zeta.
  destruct (negb _); [cbn [snd]; by apply no_scan_emit|].
  destruct (Fs.readdirSync _ _) as [names|]; [|by apply no_scan_refl].
  destruct (Cli.failedFiles cfg names) as [|f0 fl] eqn:Hfiles;
    [cbn [snd]; by apply no_scan_emit|].
  set (w1 := emit _ w).
  pose proof (cli_run_workers_no_scan cfg (pass_adapter ps) (Cli.OUTPUT_ROOT cfg) true
                (pass_sched ps) (f0 :: fl) w1) as Hrun.
  assert (H1 : no_scan_since w w1) by (by apply no_scan_emit).
  destruct (Cli.run_workers _ _ _ _ _ _ _) as [[[]|e] p]; cbn [fst snd] in *.
  - apply (no_scan_trans _ _ _ H1).
    apply (no_scan_trans _ _ _ Hrun).
    eapply no_scan_trans; by apply no_scan_emit.
  - apply (no_scan_trans _ _ _ H1). exact Hrun.
Qed.

(** ** The claims *)

(** In a pass of the command-line tool with at least one worker allowed,
    the files recorded in the result object are the files of the pass,
    each once. *)
Lemma cli_pass_one_record_per_file (cfg : Cli.Config) (adapter : Adapter)
    (sched : nat -> nat) (outputRoot : path) (isRetry : bool)
    (files : list path) (w : World) :
  1 <= Cli.MAX_CONCURRENT cfg ->
  let r := Cli.run_workers cfg adapter sched outputRoot isRetry files w in
  r.1 = Ok tt
  /\ queue (shared r.2) = []
  /\ recorded (results (shared r.2)) ≡ₚ files
  /\ length (success (results (shared r.2))) + length (failed (results (shared r.2)))
     = length files.
Proof.
  intros Hmax.
  destruct (cli_run_workers_spec cfg adapter outputRoot isRetry files sched w Hmax)
    as (H1 & _ & _ & H4 & H5).
  cbv zeta. repeat split; try done.
  apply Permutation_length in H5. unfold recorded in H5.
  by rewrite length_app, !length_map in H5.
Qed.

(** C1 (defect of the extension): a folder with four images and the default
    configuration (three workers).  Whatever the service answers and in
    whatever order the workers resume, the pass is rejected with the
    ReferenceError of the first worker that finishes a file; once the
    workers have all come to rest each has rejected, three files have a
    record and the fourth is still in the queue. *)
Theorem C1_extension_pass_loses_files (adapter : Adapter) (sched later : nat -> nat)
    (w : World) :
  let files := [["w"; "a.png"]; ["w"; "b.png"]; ["w"; "c.png"]; ["w"; "d.png"]] in
  let r := Ext.run_workers Ext.defaults adapter sched ["w"] ["w_compressed"] files w in
  let rest := drain (Ext.resume Ext.defaults adapter ["w"] ["w_compressed"] true)
                (Ext.maxRetries Ext.defaults) later r.2 in
  r.1 = Throw (Thrown "result is not defined")
  /\ Forall (fun wk => wk = Rejected (Thrown "result is not defined")) (workers rest)
  /\ queue (shared rest) = [["w"; "d.png"]]
  /\ length (success (results (shared rest))) + length (failed (results (shared rest)))
     = 3.
Proof.
  intros files r rest.
  destruct (ext_run_workers_spec Ext.defaults adapter ["w"] ["w_compressed"] files sched w)
    as (_ & Hinv & Hres).
  fold r in Hinv, Hres.
  destruct (ext_drain_spec Ext.defaults adapter ["w"] ["w_compressed"] files _ later _ Hinv)
    as (Hall & Hq & Hrec).
  fold rest in Hall, Hq, Hrec. repeat split; try done.
  apply Permutation_length in Hrec. unfold recorded in Hrec.
  by rewrite length_app, !length_map in Hrec.
Qed.

Lemma normalize_onto_app_proper (l rest stack : list string) :
  proper_path l -> normalize_onto stack (l ++ rest) = normalize_onto (rev l ++ stack) rest.
Proof.
  revert stack. induction l as [|s l IH]; intros stack Hp; [done|].
  inversion Hp as [|? ? Hs Hl]; subst. simpl.
  unfold proper_name in Hs. apply bool_decide_eq_true in Hs as (H1 & H2 & H3).
  rewrite decide_False by done.
  destruct (decide (s = "." \/ s = "")) as [[->| ->]|_]; [done|done|].
  rewrite IH by done. by rewrite <- app_assoc.
Qed.

Lemma path_relative_common (d a b : path) :
  path_relative (d ++ a) (d ++ b) = path_relative a b.
Proof. induction d as [|s d IH]; [done|]. simpl. by rewrite decide_True. Qed.

(** With the configuration as shipped, the output path the recovery pass
    computes for a file of the failed-files directory is that file itself. *)
Lemma shipped_recovery_output_path (dirname : path) (cpus : nat) (name : string) :
  proper_path dirname -> proper_name name = true ->
  let cfg := Cli.CONFIG dirname cpus in
  outputPathOf (Cli.env_of cfg) (Cli.OUTPUT_ROOT cfg)
    (path_join (Cli.SAVE_FAILED_TO cfg) [name])
  = path_join (Cli.SAVE_FAILED_TO cfg) [name].
Proof.
  intros Hd Hn. cbv zeta. unfold outputPathOf, Cli.CONFIG. simpl.
  rewrite !(path_join_proper dirname) by done.
  assert (Hh : proper_path (dirname ++ ["failed_images"]))
    by (by apply proper_path_snoc).
  rewrite (path_join_proper _ name) by done.
  unfold path_basename, path_dirname.
  rewrite last_snoc, removelast_last. simpl.
  rewrite path_relative_common. simpl.
  unfold path_join. rewrite <- !app_assoc.
  rewrite normalize_onto_app_proper by done. simpl.
  unfold proper_name in Hn. apply bool_decide_eq_true in Hn as (H1 & H2 & H3).
  rewrite decide_False by done.
  rewrite decide_False by (intros [?|?]; done).
  rewrite app_nil_r, rev_involutive. by rewrite <- !app_assoc.
Qed.

(** C2 (defect of the command-line tool): the configuration as shipped, one
    file in the failed-files directory, a service that answers.  The
    recovery pass records a success whose output path is the quarantined
    file itself; the compressed bytes are written over it and the file is
    then deleted: at the end the failed-files directory is empty and the
    output root holds nothing. *)
Theorem C2_recovered_artifact_is_not_kept :
  let cfg := Cli.CONFIG ["app"] 4 in
  let tree (failed : list (string * node)) :=
    Dir [("app", Dir [("static", Dir []);
                      ("compressed_results", Dir []);
                      ("failed_images", Dir failed)])] in
  let w := {| fs := tree [("a.png", File [x01; x02; x03])]; trace := [] |} in
  let ps := {| pass_adapter := fun _ _ _ _ => Downloaded [x09];
               pass_sched := fun _ => 0;
               pass_stack := 0 |} in
  let r := Cli.retryFailedFolder cfg ps w in
  r.1 = Ok (Some {| success := [{| s_filePath := ["app"; "failed_images"; "a.png"];
                                   s_outputPath := ["app"; "failed_images"; "a.png"];
                                   s_fileName := "a.png";
                                   s_originalSize := 3;
                                   s_compressedSize := 1 |}];
                    failed := [] |})
  /\ fs r.2 = tree []
  /\ Fs.readdirSync (fs r.2) (Cli.OUTPUT_ROOT cfg) = Ok [].
Proof. vm_compute. done. Qed.


(** C5 (the claim as stated fails): the command-line tool started without
    a source root.  The normal pass does not fail: it returns, without a
    result object, and the program goes on to the recovery pass, which
    takes the file of the failed-files directory; nothing reaches the
    [catch] of the entry point. *)
Lemma C5_cli_reports_and_goes_on :
  let cfg := Cli.CONFIG ["app"] 4 in
  let ps := {| pass_adapter := fun _ _ _ _ => Downloaded [x09];
               pass_sched := fun _ => 0; pass_stack := 8 |} in
  let w := {| fs := Dir [("app", Dir [("failed_images", Dir [("a.png", File [x01])])])];
              trace := [] |} in
  Fs.existsSync (fs w) (Cli.SOURCE_ROOT cfg) = false
  /\ (Cli.compressFolder cfg ps w).1 = Ok None
  /\ trace (Cli.main false cfg ps ps w)
     = [Console Stdout MBanner;
        Console Stderr (MSourceMissing ["app"; "static"]);
        Console Stdout (MRetryStart 1);
        Attempt ["app"; "failed_images"; "a.png"] 0;
        Console Stdout (MRetryDone 1 0);
        Console Stdout MAllRecovered].
Proof. vm_compute. done. Qed.

(** C5 (amended): when the source root does not exist the full pass stops
    before any file is looked at, without a result object, and leaves the
    file system as it was.  In the extension [compressFolder] throws.  In
    the command-line tool it prints the banner and the error (on the error
    stream) and returns normally, and the entry point goes on with the
    recovery pass. *)
Theorem C5_missing_source_root_stops_the_pass (cfg : Cli.Config) (config : Ext.Config)
    (normal recovery : Pass) (sourceDir : path) (w : World) :
  Fs.existsSync (fs w) (Cli.SOURCE_ROOT cfg) = false ->
  Fs.existsSync (fs w) sourceDir = false ->
  let w1 := {| fs := fs w;
               trace := trace w ++ [Console Stdout MBanner;
                                    Console Stderr (MSourceMissing (Cli.SOURCE_ROOT cfg))] |} in
  Cli.compressFolder cfg normal w = (Ok None, w1)
  /\ Cli.main false cfg normal recovery w
     = Cli.guarded (Cli.retryFailedFolder cfg recovery w1)
  /\ Ext.compressFolder config normal sourceDir w
     = (Throw (Thrown "source directory does not exist"), w).
Proof.
  intros Hc He w1.
  assert (Hcli : Cli.compressFolder cfg normal w = (Ok None, w1)).
  { unfold Fs.existsSync, Cli.compressFolder in *. cbn [fs emit].
    destruct (Fs.lookup (fs w) (Cli.SOURCE_ROOT cfg)); [done|].
    unfold w1, emit. simpl. by rewrite <- app_assoc. }
  split; [done|]. split.
  - unfold Cli.main. by rewrite Hcli.
  - unfold Fs.existsSync, Ext.compressFolder in *.
    by destruct (Fs.lookup (fs w) sourceDir).
Qed.

Lemma C5_missing_source_root_witness :
  let cfg := Cli.CONFIG ["app"] 4 in
  let ps := {| pass_adapter := fun _ _ _ _ => Downloaded [];
               pass_sched := fun _ => 0; pass_stack := 8 |} in
  let w := {| fs := Dir [("app", Dir [])]; trace := [] |} in
  let w1 := {| fs := fs w;
               trace := [Console Stdout MBanner;
                         Console Stderr (MSourceMissing ["app"; "static"])] |} in
  Cli.compressFolder cfg ps w = (Ok None, w1)
  /\ Cli.main false cfg ps ps w = Cli.guarded (Cli.retryFailedFolder cfg ps w1)
  /\ Ext.compressFolder Ext.defaults ps ["app"; "static"] w
     = (Throw (Thrown "source directory does not exist"), w).
Proof.
  intros cfg ps w w1.
  apply (C5_missing_source_root_stops_the_pass cfg Ext.defaults ps ps ["app"; "static"] w);
    reflexivity.
Defined.

(** C6: the recovery pass over a failed-files directory that does not
    exist or is empty prints one line on the standard output, returns
    without a result object and without an error, and leaves the file
    system as it was; no attempt is made. *)
Theorem C6_recovery_without_failed_files_is_a_no_op (cfg : Cli.Config) (ps : Pass)
    (w : World) :
  Fs.lookup (fs w) (Cli.SAVE_FAILED_TO cfg) = None
  \/ Fs.lookup (fs w) (Cli.SAVE_FAILED_TO cfg) = Some (Dir []) ->
  exists m,
    (m = MNoFailedDir \/ m = MNothingToRetry)
    /\ Cli.retryFailedFolder cfg ps w
       = (Ok None, {| fs := fs w; trace := trace w ++ [Console Stdout m] |}).
Proof.
  intros [H|H]; unfold Cli.retryFailedFolder, Fs.existsSync, Fs.readdirSync;
    cbv zeta; rewrite H; simpl.
  - exists MNoFailedDir. by split; [left|].
  - exists MNothingToRetry. by split; [right|].
Qed.

Lemma C6_recovery_witness :
  let cfg := Cli.CONFIG ["app"] 4 in
  let ps := {| pass_adapter := fun _ _ _ _ => Downloaded [];
               pass_sched := fun _ => 0; pass_stack := 8 |} in
  let w := {| fs := Dir [("app", Dir [("failed_images", Dir [])])]; trace := [] |} in
  exists m,
    (m = MNoFailedDir \/ m = MNothingToRetry)
    /\ Cli.retryFailedFolder cfg ps w
       = (Ok None, {| fs := fs w; trace := trace w ++ [Console Stdout m] |}).
Proof.
  intros cfg ps w.
  apply (C6_recovery_without_failed_files_is_a_no_op cfg ps w).
  right. reflexivity.
Defined.

(** The pool of the command-line tool has [min(itemCount, maxConcurrent)]
    workers, all on the one queue and the one result object of the pass;
    [await Promise.all(workers)] resolves, and when it does every worker has
    left its loop.  With three workers allowed and two files there are two
    workers. *)
Lemma cli_pool_size_and_join (cfg : Cli.Config) (adapter : Adapter)
    (sched : nat -> nat) (outputRoot dirname : path) (isRetry : bool)
    (files : list path) (f1 f2 : path) (w : World) :
  let r := Cli.run_workers cfg adapter sched outputRoot isRetry files w in
  let two := Cli.run_workers (Cli.CONFIG dirname 4) adapter sched outputRoot isRetry
               [f1; f2] w in
  (length (workers r.2) = Nat.min (length files) (Cli.MAX_CONCURRENT cfg)
   /\ r.1 = Ok tt
   /\ Forall (fun wk => wk = Exited) (workers r.2))
  /\ (Cli.MAX_CONCURRENT (Cli.CONFIG dirname 4) = 3 /\ length (workers two.2) = 2).
Proof.
  cbv zeta. split.
  - destruct (cli_run_workers_join cfg adapter outputRoot isRetry files sched w)
      as (H1 & H2 & H3 & _). done.
  - split; [done|].
    destruct (cli_run_workers_join (Cli.CONFIG dirname 4) adapter outputRoot isRetry
                [f1; f2] sched w) as (_ & H2 & _). exact H2.
Qed.

(** C7 (defect of the extension): a folder with two images and the default
    configuration (three workers allowed).  Two workers are started, as the
    claim says, but the pass does not wait for them: whatever the service
    answers and in whatever order the workers resume,
    [await Promise.all(workers)] rejects with the ReferenceError of the
    first worker that finishes its file, and no worker has left its loop
    when it does.  With a service that answers and the workers resumed in
    turn, the second worker is still waiting for the service at that
    moment. *)
Theorem C7_extension_join_does_not_wait (adapter : Adapter) (sched : nat -> nat)
    (w : World) :
  let files := [["w"; "a.png"]; ["w"; "b.png"]] in
  let x := Ext.run_workers Ext.defaults adapter sched ["w"] ["w_compressed"] files w in
  let w0 := {| fs := Dir [("w", Dir [("a.png", File [x01]); ("b.png", File [x02])])];
               trace := [] |} in
  let x0 := Ext.run_workers Ext.defaults (fun _ _ _ _ => Downloaded [x09]) (fun t => t)
              ["w"] ["w_compressed"] files w0 in
  (Ext.maxConcurrent Ext.defaults = 3 /\ length (workers x.2) = 2)
  /\ x.1 = Throw (Thrown "result is not defined")
  /\ Forall (fun wk => wk <> Exited) (workers x.2)
  /\ workers x0.2 = [Rejected (Thrown "result is not defined");
                     AwaitNet ["w"; "b.png"] 0 [x02]].
Proof.
  cbv zeta.
  destruct (ext_run_workers_spec Ext.defaults adapter ["w"] ["w_compressed"]
              [["w"; "a.png"]; ["w"; "b.png"]] sched w) as (Hlen & (_ & Hok & _) & Hres).
  split; [split; [done|exact Hlen]|]. split; [exact Hres|]. split.
  - eapply Forall_impl; [exact Hok|]. intros wk Hwk ->. exact Hwk.
  - vm_compute. reflexivity.
Qed.
(** C8 (the claim as stated fails), in every way it does.  The scan of the
    command-line tool returns a file under the output directory when the
    output root is configured inside the source root; it returns a file
    under a hidden directory when [SKIP_HIDDEN_DIRS] is off; both scans
    return files under a hidden directory when the scanned directory
    itself lies under one; and they return files under the failed-files
    directory (command-line tool) or the output directory (extension) when
    the scanned directory itself lies under it. *)
Lemma C8_scan_returns_files_under_excluded_directories :
  let cfg (skip : bool) (dirname : path) (out holding : list string) :=
    {| Cli.SOURCE_ROOT := dirname ++ ["static"];
       Cli.OUTPUT_ROOT := dirname ++ out;
       Cli.MAX_CONCURRENT := 3;
       Cli.MAX_RETRIES := 2;
       Cli.LOG_LEVEL := Normal;
       Cli.PRESERVE_DIR_STRUCTURE := true;
       Cli.SKIP_HIDDEN_DIRS := skip;
       Cli.COPY_UNSUPPORTED_TO_OUTPUT := true;
       Cli.SAVE_FAILED_TO := dirname ++ holding |} in
  (let c := cfg true ["app"] ["static"; "out"] ["failed_images"] in
   Cli.getAllImageFiles c (Cli.SOURCE_ROOT c) (Dir [("out", Dir [("a.png", File [x01])])])
   = Ok [Cli.OUTPUT_ROOT c ++ ["a.png"]]
   /\ under (Cli.OUTPUT_ROOT c) (Cli.OUTPUT_ROOT c ++ ["a.png"]))
  /\ (let c := cfg false ["app"] ["compressed_results"] ["failed_images"] in
      Cli.getAllImageFiles c (Cli.SOURCE_ROOT c) (Dir [(".git", Dir [("b.png", File [x02])])])
      = Ok [["app"; "static"; ".git"; "b.png"]]
      /\ startsWithDot (path_basename ["app"; "static"; ".git"]) = true
      /\ under ["app"; "static"; ".git"] ["app"; "static"; ".git"; "b.png"])
  /\ (let c := cfg true ["home"; ".cfg"] ["compressed_results"] ["failed_images"] in
      Cli.getAllImageFiles c (Cli.SOURCE_ROOT c) (Dir [("a.png", File [x01])])
      = Ok [["home"; ".cfg"; "static"; "a.png"]]
      /\ Ext.getAllImageFiles ["home"; ".cfg"; "static"]
           (Some ["home"; ".cfg"; "static_compressed"]) (Dir [("a.png", File [x01])])
         = [["home"; ".cfg"; "static"; "a.png"]]
      /\ startsWithDot (path_basename ["home"; ".cfg"]) = true
      /\ under ["home"; ".cfg"] ["home"; ".cfg"; "static"; "a.png"])
  /\ (let c := cfg true ["app"] ["compressed_results"] [] in
      Cli.getAllImageFiles c (Cli.SOURCE_ROOT c) (Dir [("a.png", File [x01])])
      = Ok [["app"; "static"; "a.png"]]
      /\ under (Cli.SAVE_FAILED_TO c) ["app"; "static"; "a.png"])
  /\ (Ext.getAllImageFiles ["app"; "static"] (Some ["app"]) (Dir [("a.png", File [x01])])
      = [["app"; "static"; "a.png"]]
      /\ under ["app"] ["app"; "static"; "a.png"]).
Proof.
  cbv zeta. repeat split; try reflexivity.
  - by exists ["a.png"].
  - by exists ["b.png"].
  - by exists ["static"; "a.png"].
  - by exists ["static"; "a.png"].
  - by exists ["static"; "a.png"].
Qed.

(** C8 (amended): every file a scan returns has a supported extension.  A
    file the scan of the command-line tool returns lies under the
    failed-files directory only if the scanned directory itself lies under
    it, and, when hidden directories are skipped ([SKIP_HIDDEN_DIRS], on
    as shipped), under a hidden directory only if the scanned directory
    itself lies under it.  A file the scan of the extension returns lies
    under a hidden directory or under the output directory only if the
    scanned directory itself lies under it.  The scan of the command-line
    tool does not look at the output directory, and the extension has no
    failed-files directory. *)
Theorem C8_discovery_filters (cfg : Cli.Config) (outputDir dir : path) (n : node)
    (f : path) :
  proper_path dir -> proper_tree n = true ->
  (forall files,
     Cli.getAllImageFiles cfg dir n = Ok files -> In f files ->
     supported (path_basename f) = true
     /\ (under (Cli.SAVE_FAILED_TO cfg) f -> under (Cli.SAVE_FAILED_TO cfg) dir)
     /\ (Cli.SKIP_HIDDEN_DIRS cfg = true ->
         forall d, under d f -> startsWithDot (path_basename d) = true ->
                   under d dir))
  /\ (In f (Ext.getAllImageFiles dir (Some outputDir) n) ->
      supported (path_basename f) = true
      /\ (under outputDir f -> under outputDir dir)
      /\ (forall d, under d f -> startsWithDot (path_basename d) = true ->
                    under d dir)).
Proof.
  intros Hdir Hn. split.
  - intros files Hscan Hf.
    pose proof (cli_scan_sound cfg n dir files Hdir Hn Hscan f Hf) as Hr.
    split; [by eapply reached_through_basename|]. split.
    + intros Hu. eapply reached_through_under; [exact Hr|exact Hu|].
      by intros [_ Hne].
    + intros Hskip d Hu Hh. eapply reached_through_under; [exact Hr|exact Hu|].
      intros [Hhid _]. rewrite (Hhid Hskip) in Hh. done.
  - intros Hf.
    pose proof (ext_scan_sound outputDir n dir Hdir Hn f Hf) as Hr.
    split; [by eapply reached_through_basename|]. split.
    + intros Hu. eapply reached_through_under; [exact Hr|exact Hu|].
      by intros [_ Hne].
    + intros d Hu Hh. eapply reached_through_under; [exact Hr|exact Hu|].
      intros [Hhid _]. rewrite Hhid in Hh. done.
Qed.

Lemma C8_discovery_witness :
  let cfg := Cli.CONFIG ["app"] 4 in
  let dir := ["app"; "static"] in
  let n := Dir [("a.PNG", File [x01]);
                (".git", Dir [("b.png", File [x02])]);
                ("sub", Dir [("c.jpeg", File [x03]); ("notes.txt", File [x04])])] in
  let f := ["app"; "static"; "sub"; "c.jpeg"] in
  (Cli.getAllImageFiles cfg dir n = Ok [["app"; "static"; "a.PNG"]; f]
   /\ Ext.getAllImageFiles dir (Some ["app"; "static_compressed"]) n
      = [["app"; "static"; "a.PNG"]; f])
  /\ supported (path_basename f) = true
  /\ (under (Cli.SAVE_FAILED_TO cfg) f -> under (Cli.SAVE_FAILED_TO cfg) dir)
  /\ (Cli.SKIP_HIDDEN_DIRS cfg = true ->
      forall d, under d f -> startsWithDot (path_basename d) = true -> under d dir).
Proof.
  intros cfg dir n f. split; [split; reflexivity|].
  apply (proj1 (C8_discovery_filters cfg ["app"; "static_compressed"] dir n f
                  ltac:(repeat constructor) eq_refl)
           [["app"; "static"; "a.PNG"]; f]).
  - reflexivity.
  - right. by left.
Defined.

(** C9 (the claim as stated fails): the source root exists but is a file.
    Without the flag the normal pass throws, the error is logged, and the
    recovery pass does not run, although the failed-files directory holds a
    file that a recovery pass would take. *)
Lemma C9_failed_normal_pass_skips_recovery :
  let cfg := Cli.CONFIG ["app"] 4 in
  let ps := {| pass_adapter := fun _ _ _ _ => Downloaded [x09];
               pass_sched := fun _ => 0; pass_stack := 8 |} in
  let w := {| fs := Dir [("app", Dir [("static", File []);
                                      ("failed_images", Dir [("a.png", File [x01])])])];
              trace := [] |} in
  Cli.main false cfg ps ps w
  = {| fs := fs w;
       trace := [Console Stdout MBanner;
                 Scan ScanImages ["app"; "static"];
                 Console Stderr (MFatal (Thrown "ENOTDIR"))] |}
  /\ In (Attempt ["app"; "failed_images"; "a.png"] 0) (trace (Cli.main true cfg ps ps w)).
Proof. vm_compute. split; [done|]. right. right. by left. Qed.

(** C9 (amended): without the flag the program runs the normal pass and,
    when that pass returns, the recovery pass on the state it left; when the
    normal pass throws, the error is logged and the invocation ends.  With
    the flag it runs the recovery pass only, and no directory scan starts. *)
Theorem C9_mode_dispatch (cfg : Cli.Config) (normal recovery : Pass) (w : World) :
  Cli.main false cfg normal recovery w
  = match Cli.compressFolder cfg normal w with
    | (Ok _, w1) => Cli.guarded (Cli.retryFailedFolder cfg recovery w1)
    | (Throw e, w1) => emit (Console Stderr (MFatal e)) w1
    end
  /\ Cli.main true cfg normal recovery w
     = Cli.guarded (Cli.retryFailedFolder cfg recovery (emit (Console Stdout MRetryOnly) w))
  /\ forall which root,
       In (Scan which root) (trace (Cli.main true cfg normal recovery w)) ->
       In (Scan which root) (trace w).
Proof.
  split; [|split].
  - unfold Cli.main. by destruct (Cli.compressFolder cfg normal w) as [[?|?] ?].
  - done.
  - intros which root. unfold Cli.main, Cli.guarded.
    pose proof (retryFailedFolder_no_scan cfg recovery (emit (Console Stdout MRetryOnly) w))
      as (evs & Htr & Hevs).
    assert (Hin : forall l, In (Scan which root) (trace w ++ l) ->
              Forall (fun e => is_scan e = false) l -> In (Scan which root) (trace w)).
    { intros l Hin Hl. apply in_app_or in Hin as [|Hin]; [done|].
      rewrite List.Forall_forall in Hl. by apply Hl in Hin. }
    destruct (Cli.retryFailedFolder _ _ _) as [[?|e] w']; cbn [snd] in Htr.
    + rewrite Htr. cbn [emit trace]. rewrite <- app_assoc. intros H.
      apply (Hin _ H). by constructor.
    + cbn [emit trace]. rewrite Htr. cbn [emit trace]. rewrite <- !app_assoc. intros H.
      apply (Hin _ H). constructor; [done|]. apply Forall_app. split; [done|].
      by constructor.
Qed.

(** C10: a file of a scanned directory is returned by the discovery of the
    normal pass, and a name listed in the failed-files directory is taken by
    the recovery pass, exactly when its extension, in lower case, is one of
    [.jpg], [.jpeg], [.png], [.webp]. *)
Theorem C10_selected_iff_extension_supported (cfg : Cli.Config) (dir : path)
    (es : list (string * node)) (name : string) (d : bytes) (files : list path)
    (names : list string) :
  proper_path dir -> proper_tree (Dir es) = true -> cli_ok cfg dir ->
  Cli.getAllImageFiles cfg dir (Dir es) = Ok files -> In (name, File d) es ->
  proper_path (Cli.SAVE_FAILED_TO cfg) ->
  Forall (fun s => proper_name s = true) names -> In name names ->
  let wanted := In (toLowerCase (path_extname name)) [".jpg"; ".jpeg"; ".png"; ".webp"] in
  (In (path_join dir [name]) files <-> wanted)
  /\ (In (path_join (Cli.SAVE_FAILED_TO cfg) [name]) (Cli.failedFiles cfg names)
      <-> wanted).
Proof.
  intros Hdir Hn Hok Hscan Hin Hh Hnames Hname wanted. unfold wanted.
  destruct (proper_tree_entry es name (File d) Hn Hin) as [Hp _].
  rewrite <- supported_spec. split.
  - rewrite path_join_proper by done. split.
    + intros Hf. apply (reached_through_entry (cli_ok cfg) dir name).
      apply (cli_scan_sound cfg (Dir es) dir files Hdir Hn Hscan _ Hf).
    + intros Hs. apply (cli_scan_complete cfg dir es name d files); done.
  - rewrite failedFiles_spec by done. tauto.
Qed.

Lemma C10_selection_witness :
  let cfg := Cli.CONFIG ["app"] 4 in
  let dir := ["app"; "static"] in
  let es := [("photo.JPG", File [x01]); ("icon.svg", File [x02]); (".png", File [x03])] in
  let wanted := In (toLowerCase (path_extname "photo.JPG"))
                  [".jpg"; ".jpeg"; ".png"; ".webp"] in
  wanted
  /\ (In (path_join dir ["photo.JPG"]) [["app"; "static"; "photo.JPG"]] <-> wanted)
  /\ (In (path_join (Cli.SAVE_FAILED_TO cfg) ["photo.JPG"])
        (Cli.failedFiles cfg ["photo.JPG"; "icon.svg"]) <-> wanted).
Proof.
  intros cfg dir es wanted. split; [by left|].
  apply (C10_selected_iff_extension_supported cfg dir es "photo.JPG" [x01]
           [["app"; "static"; "photo.JPG"]] ["photo.JPG"; "icon.svg"]).
  - repeat constructor.
  - reflexivity.
  - split; [reflexivity|]. intros H. discriminate H.
  - reflexivity.
  - by left.
  - repeat constructor.
  - repeat constructor.
  - by left.
Defined.

Lemma cli_pass_one_record_witness :
  let cfg := Cli.CONFIG ["app"] 4 in
  let files := [["app"; "static"; "a.png"]; ["app"; "static"; "b.png"]] in
  let w := {| fs := Dir []; trace := [] |} in
  let r := Cli.run_workers cfg (fun _ _ _ _ => Downloaded []) (fun t => t)
             (Cli.OUTPUT_ROOT cfg) false files w in
  r.1 = Ok tt
  /\ queue (shared r.2) = []
  /\ recorded (results (shared r.2)) ≡ₚ files
  /\ length (success (results (shared r.2))) + length (failed (results (shared r.2)))
     = length files.
Proof.
  intros cfg files w.
  apply (cli_pass_one_record_per_file cfg (fun _ _ _ _ => Downloaded []) (fun t => t)
           (Cli.OUTPUT_ROOT cfg) false files w).
  simpl. lia.
Defined.

Lemma shipped_recovery_output_witness :
  let cfg := Cli.CONFIG ["home"; "me"; "tool"] 8 in
  outputPathOf (Cli.env_of cfg) (Cli.OUTPUT_ROOT cfg)
    (path_join (Cli.SAVE_FAILED_TO cfg) ["a.png"])
  = path_join (Cli.SAVE_FAILED_TO cfg) ["a.png"].
Proof.
  intros cfg.
  apply (shipped_recovery_output_path ["home"; "me"; "tool"] 8 "a.png").
  - repeat constructor.
  - reflexivity.
Defined.

(** ** Discovery, entry by entry *)

Lemma cli_turns_away_ok (cfg : Cli.Config) (dir : path) :
  cli_turns_away cfg dir = false <-> cli_ok cfg dir.
Proof.
  unfold cli_turns_away, cli_ok, same_path. split.
  - intros H. apply orb_false_elim in H as [Hh Hs].
    apply bool_decide_eq_false in Hs. split; [|done].
    intros Hskip. by rewrite Hskip in Hh.
  - intros [Hh Hs]. apply orb_false_intro; [|by apply bool_decide_eq_false].
    destruct (Cli.SKIP_HIDDEN_DIRS cfg); [by rewrite Hh|done].
Qed.

Lemma cli_scan_dir (cfg : Cli.Config) (dir : path) (es : list (string * node)) :
  Cli.getAllImageFiles cfg dir (Dir es)
  = if cli_turns_away cfg dir then Ok [] else cli_entries cfg dir es.
Proof.
  unfold cli_turns_away. simpl.
  destruct (Cli.SKIP_HIDDEN_DIRS cfg && startsWithDot (path_basename dir)); [done|].
  destruct (same_path dir (Cli.SAVE_FAILED_TO cfg)); [done|]. simpl.
  induction es as [|[file child] es IH]; [done|].
  simpl. rewrite IH. done.
Qed.

Lemma ext_scan_dir (dir : path) (outputDir : option path) (es : list (string * node)) :
  Ext.getAllImageFiles dir outputDir (Dir es)
  = if ext_turns_away outputDir dir then [] else ext_entries dir outputDir es.
Proof.
  unfold ext_turns_away. simpl.
  destruct (startsWithDot (path_basename dir)); [done|].
  destruct (match outputDir with Some o => same_path dir o | None => false end);
    [done|]. simpl.
  induction es as [|[file child] es IH]; [done|].
  simpl. rewrite IH. done.
Qed.

Lemma distinct_names_entry (es : list (string * node)) (s : string) (c : node) :
  distinct_names (Dir es) = true -> In (s, c) es ->
  Fs.assoc s es = Some c /\ distinct_names c = true.
Proof.
  simpl. intros H Hin. apply andb_prop in H as [Hnd Hall].
  apply bool_decide_eq_true in Hnd.
  induction es as [|[k v] es IH]; [destruct Hin|].
  simpl in *. apply andb_prop in Hall as [Hv Hall].
  apply NoDup_cons in Hnd as [Hk Hnd].
  destruct Hin as [Heq|Hin].
  - injection Heq as -> ->. by rewrite decide_True.
  - destruct (decide (k = s)) as [->|Hne]; [|by apply IH].
    exfalso. apply Hk. apply list_elem_of_In.
    change s with (fst (s, c)). by apply in_map.
Qed.

Lemma assoc_In (s : string) (es : list (string * node)) (c : node) :
  Fs.assoc s es = Some c -> In (s, c) es.
Proof.
  induction es as [|[k v] es IH]; [done|]. simpl.
  destruct (decide (k = s)) as [->|Hne].
  - intros [= ->]. by left.
  - intros H. right. by apply IH.
Qed.

Lemma lookup_app (n : node) (p q : path) :
  Fs.lookup n (p ++ q)
  = match Fs.lookup n p with
    | Some c => Fs.lookup c q
    | None => None
    end.
Proof.
  revert n. induction p as [|s p IH]; intros n; [done|].
  simpl. destruct n as [d|es]; [done|].
  destruct (Fs.assoc s es) as [c|]; [apply IH|done].
Qed.

Lemma lookup_proper (n : node) (p : path) (c : node) :
  proper_tree n = true -> Fs.lookup n p = Some c ->
  proper_path p /\ proper_tree c = true.
Proof.
  revert n. induction p as [|s p IH]; intros n Hn Hl.
  - injection Hl as <-. split; [constructor|done].
  - destruct n as [d|es]; [done|]. simpl in Hl.
    destruct (Fs.assoc s es) as [c0|] eqn:Hc; [|done].
    apply assoc_In in Hc.
    destruct (proper_tree_entry es s c0 Hn Hc) as [Hs Hc0].
    destruct (IH c0 Hc0 Hl) as [Hp Hcc]. split; [by constructor|done].
Qed.

Lemma lookup_distinct (n : node) (p : path) (c : node) :
  distinct_names n = true -> Fs.lookup n p = Some c -> distinct_names c = true.
Proof.
  revert n. induction p as [|s p IH]; intros n Hn Hl.
  - by injection Hl as <-.
  - destruct n as [d|es]; [done|]. simpl in Hl.
    destruct (Fs.assoc s es) as [c0|] eqn:Hc; [|done].
    apply assoc_In in Hc.
    destruct (distinct_names_entry es s c0 Hn Hc) as [_ Hc0].
    by apply (IH c0).
Qed.

(** The scan of the command-line tool with hidden directories skipped is
    the scan of the extension that leaves out the failed-files directory. *)
Lemma scanners_agree_node (cfg : Cli.Config) (n : node) :
  Cli.SKIP_HIDDEN_DIRS cfg = true ->
  forall dir es, n = Dir es ->
    Cli.getAllImageFiles cfg dir n
    = Ok (Ext.getAllImageFiles dir (Some (Cli.SAVE_FAILED_TO cfg)) n).
Proof.
  intros Hskip.
  induction n as [d|es IH] using node_ind'; intros dir es0 Heq; [done|].
  clear es0 Heq.
  rewrite cli_scan_dir, ext_scan_dir. unfold cli_turns_away, ext_turns_away.
  rewrite Hskip. cbn [andb].
  destruct (startsWithDot (path_basename dir) || same_path dir (Cli.SAVE_FAILED_TO cfg));
    [done|].
  induction es as [|[file child] es IHes]; [done|].
  assert (IHrest : cli_entries cfg dir es
                   = Ok (ext_entries dir (Some (Cli.SAVE_FAILED_TO cfg)) es))
    by (apply IHes; intros s c Hin; apply (IH s c); by right).
  clear IHes. cbn [cli_entries ext_entries]. cbv zeta.
  destruct child as [d|sub].
  - rewrite IHrest. cbn [rbind]. by destruct (supported file).
  - rewrite (IH file (Dir sub) (or_introl eq_refl) _ sub eq_refl).
    cbn [rbind]. rewrite IHrest. done.
Qed.

Lemma found_in_down (ok : path -> Prop) (dir : path) (es sub : list (string * node))
    (x : string) (f : path) :
  ok dir -> Fs.assoc x es = Some (Dir sub) ->
  found_in ok (dir ++ [x]) (Dir sub) f -> found_in ok dir (Dir es) f.
Proof.
  intros Hok Hx (rel & name & d & -> & Hl & Hs & Hc).
  exists (x :: rel), name, d. split; [by rewrite <- !app_assoc|].
  split; [simpl; by rewrite Hx|].
  split; [done|]. simpl. by constructor.
Qed.

Section CliFound.

Variable cfg : Cli.Config.

Lemma cli_scan_found (n : node) :
  forall dir files,
    proper_path dir -> proper_tree n = true -> distinct_names n = true ->
    Cli.getAllImageFiles cfg dir n = Ok files ->
    forall f, In f files -> found_in (cli_ok cfg) dir n f.
Proof.
  induction n as [d|es IH] using node_ind'; intros dir files Hdir Hn Hd Hscan f Hf.
  - simpl in Hscan.
    destruct (Cli.SKIP_HIDDEN_DIRS cfg && startsWithDot (path_basename dir));
      [injection Hscan as <-; destruct Hf|].
    destruct (same_path dir (Cli.SAVE_FAILED_TO cfg));
      [injection Hscan as <-; destruct Hf|done].
  - rewrite cli_scan_dir in Hscan.
    destruct (cli_turns_away cfg dir) eqn:Hta; [injection Hscan as <-; destruct Hf|].
    apply cli_turns_away_ok in Hta.
    assert (Hgen : forall es',
              (forall s c, In (s, c) es' -> In (s, c) es) ->
              forall files, cli_entries cfg dir es' = Ok files ->
              forall f, In f files -> found_in (cli_ok cfg) dir (Dir es) f);
      [|by apply (Hgen es (fun _ _ H => H) files Hscan)].
    clear files Hscan f Hf.
    induction es' as [|[file child] es' IHes]; intros Hsub files Hscan f Hf.
    + injection Hscan as <-. destruct Hf.
    + assert (Hin : In (file, child) es) by (apply Hsub; by left).
      destruct (proper_tree_entry es file child Hn Hin) as [Hname Hchild].
      destruct (distinct_names_entry es file child Hd Hin) as [Hassoc Hdc].
      cbn [cli_entries] in Hscan. cbv zeta in Hscan.
      rewrite path_join_proper in Hscan by done.
      assert (IHrest : forall files, cli_entries cfg dir es' = Ok files ->
                forall f, In f files -> found_in (cli_ok cfg) dir (Dir es) f)
        by (apply IHes; intros; apply Hsub; by right).
      clear IHes.
      destruct child as [d|sub].
      * destruct (cli_entries cfg dir es') as [rest|] eqn:Hrest; [|done].
        cbn [rbind] in Hscan. injection Hscan as <-.
        assert (Hcase : f = dir ++ [file] /\ supported file = true \/ In f rest).
        { destruct (supported file); [destruct Hf as [<-|]; auto|auto]. }
        destruct Hcase as [[-> Hsup]|Hin'].
        -- exists [], file, d. split; [done|]. split; [simpl; by rewrite Hassoc|].
           split; [done|]. simpl. by constructor.
        -- by eapply IHrest.
      * destruct (Cli.getAllImageFiles cfg (dir ++ [file]) (Dir sub))
          as [subfiles|] eqn:Hsubf; [|done].
        cbn [rbind] in Hscan.
        destruct (cli_entries cfg dir es') as [rest|] eqn:Hrest; [|done].
        cbn [rbind] in Hscan. injection Hscan as <-.
        apply in_app_or in Hf as [Hin'|Hin'].
        -- apply (found_in_down _ _ es sub file); [done|done|].
           eapply (IH file (Dir sub)); eauto. by apply proper_path_snoc.
        -- by eapply IHrest.
Qed.

Lemma cli_entries_sub (dir : path) (es : list (string * node)) (files : list path)
    (x : string) (sub : list (string * node)) :
  cli_entries cfg dir es = Ok files -> In (x, Dir sub) es ->
  exists subfiles,
    Cli.getAllImageFiles cfg (path_join dir [x]) (Dir sub) = Ok subfiles
    /\ incl subfiles files.
Proof.
  revert files. induction es as [|[file child] es IH]; intros files Hscan Hin;
    [destruct Hin|].
  cbn [cli_entries] in Hscan. cbv zeta in Hscan.
  destruct child as [d|sub'].
  - destruct (cli_entries cfg dir es) as [rest|] eqn:Hrest; [|done].
    cbn [rbind] in Hscan. injection Hscan as <-.
    destruct Hin as [Heq|Hin]; [done|].
    destruct (IH rest eq_refl Hin) as (subfiles & Hs & Hincl).
    exists subfiles. split; [done|]. intros f Hf. apply Hincl in Hf.
    destruct (supported file); [by right|done].
  - destruct (Cli.getAllImageFiles cfg (path_join dir [file]) (Dir sub'))
      as [subfiles|] eqn:Hsubf; [|done].
    cbn [rbind] in Hscan.
    destruct (cli_entries cfg dir es) as [rest|] eqn:Hrest; [|done].
    cbn [rbind] in Hscan. injection Hscan as <-.
    destruct Hin as [Heq|Hin].
    + injection Heq as -> ->. exists subfiles. split; [done|].
      intros f Hf. apply in_or_app. by left.
    + destruct (IH rest eq_refl Hin) as (subfiles' & Hs & Hincl).
      exists subfiles'. split; [done|]. intros f Hf. apply in_or_app. right. by apply Hincl.
Qed.

Lemma cli_entries_file (dir : path) (es : list (string * node)) (files : list path)
    (x : string) (d : bytes) :
  cli_entries cfg dir es = Ok files -> In (x, File d) es -> supported x = true ->
  In (path_join dir [x]) files.
Proof.
  revert files. induction es as [|[file child] es IH]; intros files Hscan Hin Hsup;
    [destruct Hin|].
  cbn [cli_entries] in Hscan. cbv zeta in Hscan.
  destruct child as [d'|sub'].
  - destruct (cli_entries cfg dir es) as [rest|] eqn:Hrest; [|done].
    cbn [rbind] in Hscan. injection Hscan as <-.
    destruct Hin as [Heq|Hin].
    + injection Heq as -> ->. rewrite Hsup. by left.
    + specialize (IH rest eq_refl Hin Hsup).
      destruct (supported file); [by right|done].
  - destruct (Cli.getAllImageFiles cfg (path_join dir [file]) (Dir sub'))
      as [subfiles|] eqn:Hsubf; [|done].
    cbn [rbind] in Hscan.
    destruct (cli_entries cfg dir es) as [rest|] eqn:Hrest; [|done].
    cbn [rbind] in Hscan. injection Hscan as <-.
    destruct Hin as [Heq|Hin]; [done|].
    apply in_or_app. right. by apply IH.
Qed.

Lemma cli_scan_finds (rel : list string) :
  forall (n : node) (dir : path) (files : list path) (name : string) (d : bytes),
    proper_path dir -> proper_tree n = true ->
    Cli.getAllImageFiles cfg dir n = Ok files ->
    Fs.lookup n (rel ++ [name]) = Some (File d) -> supported name = true ->
    Forall (cli_ok cfg) (chain dir rel) ->
    In (dir ++ rel ++ [name]) files.
Proof.
  induction rel as [|x rel IH]; intros n dir files name d Hdir Hn Hscan Hl Hsup Hc.
  - destruct n as [d0|es]; [done|].
    rewrite cli_scan_dir in Hscan.
    inversion Hc as [|? ? Hok _]; subst.
    apply cli_turns_away_ok in Hok. rewrite Hok in Hscan.
    simpl in Hl. destruct (Fs.assoc name es) as [c|] eqn:Hassoc; [|done].
    injection Hl as ->. apply assoc_In in Hassoc.
    destruct (proper_tree_entry es name (File d) Hn Hassoc) as [Hname _].
    change (dir ++ [] ++ [name]) with (dir ++ [name]).
    rewrite <- (path_join_proper dir name) by done.
    by eapply cli_entries_file.
  - destruct n as [d0|es]; [done|].
    rewrite cli_scan_dir in Hscan.
    simpl in Hc. inversion Hc as [|? ? Hok Hc']; subst.
    apply cli_turns_away_ok in Hok. rewrite Hok in Hscan.
    simpl in Hl. destruct (Fs.assoc x es) as [c|] eqn:Hassoc; [|done].
    apply assoc_In in Hassoc.
    destruct (proper_tree_entry es x c Hn Hassoc) as [Hx Hcp].
    destruct c as [d0|sub]; [by destruct rel|].
    destruct (cli_entries_sub dir es files x sub Hscan Hassoc) as (subfiles & Hs & Hincl).
    rewrite path_join_proper in Hs by done.
    apply Hincl.
    replace (dir ++ (x :: rel) ++ [name]) with ((dir ++ [x]) ++ rel ++ [name])
      by (by rewrite <- !app_assoc).
    eapply (IH (Dir sub)); eauto. by apply proper_path_snoc.
Qed.

Lemma cli_entries_heads (dir : path) (es : list (string * node)) (files : list path) :
  proper_path dir ->
  (forall s c, In (s, c) es -> proper_name s = true /\ proper_tree c = true) ->
  cli_entries cfg dir es = Ok files ->
  forall f, In f files -> exists s r, In s (map fst es) /\ f = dir ++ s :: r.
Proof.
  intros Hdir. revert files.
  induction es as [|[file child] es IH]; intros files Hent Hscan f Hf.
  - injection Hscan as <-. destruct Hf.
  - destruct (Hent file child (or_introl eq_refl)) as [Hname Hchild].
    cbn [cli_entries] in Hscan. cbv zeta in Hscan.
    rewrite path_join_proper in Hscan by done.
    assert (IHrest : forall files, cli_entries cfg dir es = Ok files ->
              forall f, In f files -> exists s r, In s (map fst es) /\ f = dir ++ s :: r)
      by (intros files' Hs'; apply IH; [intros; apply Hent; by right|done]).
    clear IH.
    assert (Hlift : (exists s r, In s (map fst es) /\ f = dir ++ s :: r) ->
              exists s r, In s (map fst ((file, child) :: es)) /\ f = dir ++ s :: r).
    { intros (s0 & r & Hs0 & ->). exists s0, r. split; [by right|done]. }
    destruct child as [d|sub].
    + destruct (cli_entries cfg dir es) as [rest|] eqn:Hrest; [|done].
      cbn [rbind] in Hscan. injection Hscan as <-.
      assert (Hcase : f = dir ++ [file] \/ In f rest).
      { destruct (supported file); [destruct Hf as [<-|]; auto|auto]. }
      destruct Hcase as [->|Hin].
      * exists file, []. split; [by left|done].
      * apply Hlift. by eapply IHrest.
    + destruct (Cli.getAllImageFiles cfg (dir ++ [file]) (Dir sub))
        as [subfiles|] eqn:Hsubf; [|done].
      cbn [rbind] in Hscan.
      destruct (cli_entries cfg dir es) as [rest|] eqn:Hrest; [|done].
      cbn [rbind] in Hscan. injection Hscan as <-.
      apply in_app_or in Hf as [Hin|Hin].
      * destruct (cli_scan_sound cfg (Dir sub) (dir ++ [file]) subfiles
                    (proper_path_snoc _ _ Hdir Hname) Hchild Hsubf f Hin)
          as (rel & name & -> & _).
        exists file, (rel ++ [name]). split; [by left|].
        by rewrite <- !app_assoc.
      * apply Hlift. by eapply IHrest.
Qed.

Lemma cli_scan_nodup (n : node) :
  forall dir files,
    proper_path dir -> proper_tree n = true -> distinct_names n = true ->
    Cli.getAllImageFiles cfg dir n = Ok files -> NoDup files.
Proof.
  induction n as [d|es IH] using node_ind'; intros dir files Hdir Hn Hd Hscan.
  - simpl in Hscan.
    destruct (Cli.SKIP_HIDDEN_DIRS cfg && startsWithDot (path_basename dir));
      [injection Hscan as <-; constructor|].
    destruct (same_path dir (Cli.SAVE_FAILED_TO cfg));
      [injection Hscan as <-; constructor|done].
  - rewrite cli_scan_dir in Hscan.
    destruct (cli_turns_away cfg dir); [injection Hscan as <-; constructor|].
    assert (Hnd : NoDup (map fst es)).
    { simpl in Hd. apply andb_prop in Hd as [Hd _]. by apply bool_decide_eq_true in Hd. }
    assert (Hgen : forall es',
              (forall s c, In (s, c) es' -> In (s, c) es) -> NoDup (map fst es') ->
              forall files, cli_entries cfg dir es' = Ok files -> NoDup files);
      [|by apply (Hgen es (fun _ _ H => H) Hnd files Hscan)].
    clear files Hscan Hnd.
    induction es' as [|[file child] es' IHes]; intros Hsub Hnd files Hscan.
    + injection Hscan as <-. constructor.
    + assert (Hin : In (file, child) es) by (apply Hsub; by left).
      destruct (proper_tree_entry es file child Hn Hin) as [Hname Hchild].
      destruct (distinct_names_entry es file child Hd Hin) as [_ Hdc].
      simpl in Hnd. apply NoDup_cons in Hnd as [Hfresh Hnd].
      assert (Hent : forall s c, In (s, c) es' ->
                proper_name s = true /\ proper_tree c = true)
        by (intros s c Hsc; apply (proper_tree_entry es s c Hn); apply Hsub; by right).
      assert (Hother : forall rest, cli_entries cfg dir es' = Ok rest ->
                forall r, ~ In (dir ++ file :: r) rest).
      { intros rest Hrest r Hr.
        destruct (cli_entries_heads dir es' rest Hdir Hent Hrest _ Hr)
          as (s0 & r0 & Hs0 & Heq).
        apply app_inv_head in Heq. injection Heq as -> _.
        apply Hfresh. by apply list_elem_of_In. }
      cbn [cli_entries] in Hscan. cbv zeta in Hscan.
      rewrite path_join_proper in Hscan by done.
      assert (IHrest : forall files, cli_entries cfg dir es' = Ok files -> NoDup files)
        by (apply IHes; [intros; apply Hsub; by right|done]).
      clear IHes.
      destruct child as [d|sub].
      * destruct (cli_entries cfg dir es') as [rest|] eqn:Hrest; [|done].
        cbn [rbind] in Hscan. injection Hscan as <-.
        destruct (supported file); [|by apply IHrest].
        apply NoDup_cons. split; [|by apply IHrest].
        intros Hx. apply list_elem_of_In in Hx. by apply (Hother rest eq_refl []).
      * destruct (Cli.getAllImageFiles cfg (dir ++ [file]) (Dir sub))
          as [subfiles|] eqn:Hsubf; [|done].
        cbn [rbind] in Hscan.
        destruct (cli_entries cfg dir es') as [rest|] eqn:Hrest; [|done].
        cbn [rbind] in Hscan. injection Hscan as <-.
        apply NoDup_app. split; [|split; [|by apply IHrest]].
        -- apply (IH file (Dir sub) Hin (dir ++ [file]) subfiles);
             [by apply proper_path_snoc|done|done|done].
        -- intros x Hx1 Hx2. apply list_elem_of_In in Hx1, Hx2.
           destruct (cli_scan_sound cfg (Dir sub) (dir ++ [file]) subfiles
                       (proper_path_snoc _ _ Hdir Hname) Hchild Hsubf x Hx1)
             as (rel & name & -> & _).
           rewrite <- app_assoc in Hx2. by apply (Hother rest eq_refl (rel ++ [name])).
Qed.

End CliFound.

Lemma found_in_ok (ok ok' : path -> Prop) (dir : path) (n : node) (f : path) :
  (forall d, ok d -> ok' d) -> found_in ok dir n f -> found_in ok' dir n f.
Proof.
  intros Himp (rel & name & d & Hf & Hl & Hs & Hc).
  exists rel, name, d. repeat split; try done.
  eapply Forall_impl; [exact Hc|]. done.
Qed.

(** The scan of the extension, as a scan of the command-line tool. *)
Lemma ext_scan_as_cli (outputDir dir : path) (es : list (string * node)) :
  exists cfg,
    Cli.getAllImageFiles cfg dir (Dir es)
    = Ok (Ext.getAllImageFiles dir (Some outputDir) (Dir es))
    /\ forall d, cli_ok cfg d <-> ext_ok outputDir d.
Proof.
  set (cfg := {| Cli.SOURCE_ROOT := dir; Cli.OUTPUT_ROOT := outputDir;
                 Cli.MAX_CONCURRENT := 1; Cli.MAX_RETRIES := 0; Cli.LOG_LEVEL := Normal;
                 Cli.PRESERVE_DIR_STRUCTURE := true; Cli.SKIP_HIDDEN_DIRS := true;
                 Cli.COPY_UNSUPPORTED_TO_OUTPUT := true;
                 Cli.SAVE_FAILED_TO := outputDir |}).
  exists cfg. split.
  - exact (scanners_agree_node cfg (Dir es) eq_refl dir es eq_refl).
  - intros d. unfold cli_ok, ext_ok. simpl. split.
    + intros [H1 H2]. split; [by apply H1|done].
    + intros [H1 H2]. split; [done|done].
Qed.

(** ** Further properties: discovery *)

(** With hidden directories skipped, the scan of the command-line tool over
    a directory returns what the scan of the extension returns when the
    failed-files directory is given as its output directory.  Over a
    regular file the first throws, unless the path is one it turns away,
    and the second returns nothing. *)
Theorem discovery_agrees_between_programs (cfg : Cli.Config) (dir : path)
    (es : list (string * node)) (d : bytes) :
  Cli.SKIP_HIDDEN_DIRS cfg = true ->
  Cli.getAllImageFiles cfg dir (Dir es)
  = Ok (Ext.getAllImageFiles dir (Some (Cli.SAVE_FAILED_TO cfg)) (Dir es))
  /\ Cli.getAllImageFiles cfg dir (File d)
     = (if cli_turns_away cfg dir then Ok [] else Throw (Thrown "ENOTDIR"))
  /\ Ext.getAllImageFiles dir (Some (Cli.SAVE_FAILED_TO cfg)) (File d) = [].
Proof.
  intros Hskip. split; [|split].
  - by apply (scanners_agree_node cfg (Dir es) Hskip dir es).
  - unfold cli_turns_away. simpl.
    destruct (Cli.SKIP_HIDDEN_DIRS cfg && startsWithDot (path_basename dir)); [done|].
    by destruct (same_path dir (Cli.SAVE_FAILED_TO cfg)).
  - simpl. destruct (startsWithDot (path_basename dir)); [done|].
    by destruct (same_path dir (Cli.SAVE_FAILED_TO cfg)).
Qed.

Lemma discovery_agrees_witness :
  let cfg := Cli.CONFIG ["app"] 4 in
  let dir := ["app"; "static"] in
  let es := [("a.png", File [x01]);
             ("sub", Dir [("b.JPG", File [x02]); ("c.txt", File [x03])]);
             (".cache", Dir [("d.png", File [x04])])] in
  Cli.getAllImageFiles cfg dir (Dir es)
  = Ok (Ext.getAllImageFiles dir (Some (Cli.SAVE_FAILED_TO cfg)) (Dir es))
  /\ Cli.getAllImageFiles cfg dir (File [x05])
     = (if cli_turns_away cfg dir then Ok [] else Throw (Thrown "ENOTDIR"))
  /\ Ext.getAllImageFiles dir (Some (Cli.SAVE_FAILED_TO cfg)) (File [x05]) = [].
Proof.
  intros cfg dir es.
  apply (discovery_agrees_between_programs cfg dir es [x05]). reflexivity.
Defined.

(** Over a tree whose directories list no name twice, neither scan returns
    a file twice. *)
Theorem discovery_lists_no_file_twice (cfg : Cli.Config) (outputDir dir : path)
    (n : node) :
  proper_path dir -> proper_tree n = true -> distinct_names n = true ->
  (forall files, Cli.getAllImageFiles cfg dir n = Ok files -> NoDup files)
  /\ NoDup (Ext.getAllImageFiles dir (Some outputDir) n).
Proof.
  intros Hdir Hn Hd. split.
  - intros files Hscan. by eapply cli_scan_nodup.
  - destruct n as [d|es].
    + simpl. destruct (startsWithDot (path_basename dir)); [constructor|].
      destruct (same_path dir outputDir); constructor.
    + destruct (ext_scan_as_cli outputDir dir es) as (cfg' & Hscan & _).
      by eapply cli_scan_nodup.
Qed.

Lemma discovery_no_file_twice_witness :
  let cfg := Cli.CONFIG ["app"] 4 in
  let dir := ["app"; "static"] in
  let n := Dir [("a.png", File [x01]);
                ("sub", Dir [("a.png", File [x02]); ("b.webp", File [x03])])] in
  (forall files, Cli.getAllImageFiles cfg dir n = Ok files -> NoDup files)
  /\ NoDup (Ext.getAllImageFiles dir (Some ["app"; "static_compressed"]) n).
Proof.
  intros cfg dir n.
  apply (discovery_lists_no_file_twice cfg ["app"; "static_compressed"] dir n).
  - repeat constructor.
  - reflexivity.
  - vm_compute. reflexivity.
Defined.

(** What discovery returns, exactly: over a tree whose directories list no
    name twice, a path is returned if and only if it is a regular file of
    the tree with a supported extension that sits below directories none of
    which the scan turns away. *)
Theorem discovery_returns_exactly_the_images (cfg : Cli.Config)
    (outputDir dir : path) (n : node) (f : path) :
  proper_path dir -> proper_tree n = true -> distinct_names n = true ->
  (forall files, Cli.getAllImageFiles cfg dir n = Ok files ->
     (In f files <-> found_in (cli_ok cfg) dir n f))
  /\ (In f (Ext.getAllImageFiles dir (Some outputDir) n)
      <-> found_in (ext_ok outputDir) dir n f).
Proof.
  intros Hdir Hn Hd.
  assert (Hcli : forall cfg files, Cli.getAllImageFiles cfg dir n = Ok files ->
            (In f files <-> found_in (cli_ok cfg) dir n f)).
  { intros cfg0 files Hscan. split.
    - intros Hf. by eapply cli_scan_found.
    - intros (rel & name & d & -> & Hl & Hs & Hc). by eapply cli_scan_finds. }
  split; [apply Hcli|].
  destruct n as [d|es].
  - split.
    + simpl. destruct (startsWithDot (path_basename dir)); [done|].
      by destruct (same_path dir outputDir).
    + intros (rel & name & d0 & _ & Hl & _). by destruct rel.
  - destruct (ext_scan_as_cli outputDir dir es) as (cfg' & Hscan & Hok).
    rewrite (Hcli cfg' _ Hscan). split; apply found_in_ok; intros d0; apply Hok.
Qed.

Lemma discovery_exact_witness :
  let cfg := Cli.CONFIG ["app"] 4 in
  let dir := ["app"; "static"] in
  let n := Dir [("a.png", File [x01]);
                ("sub", Dir [("b.JPG", File [x02]); ("c.txt", File [x03])]);
                (".cache", Dir [("d.png", File [x04])])] in
  let f := ["app"; "static"; "sub"; "b.JPG"] in
  (forall files, Cli.getAllImageFiles cfg dir n = Ok files ->
     (In f files <-> found_in (cli_ok cfg) dir n f))
  /\ (In f (Ext.getAllImageFiles dir (Some ["app"; "static_compressed"]) n)
      <-> found_in (ext_ok ["app"; "static_compressed"]) dir n f).
Proof.
  intros cfg dir n f.
  apply (discovery_returns_exactly_the_images cfg ["app"; "static_compressed"] dir n f).
  - repeat constructor.
  - reflexivity.
  - vm_compute. reflexivity.
Defined.

(** ** The file system: what an operation leaves alone *)

Lemma assoc_del_ne (s t : string) (es : list (string * node)) :
  t <> s -> Fs.assoc t (Fs.assoc_del s es) = Fs.assoc t es.
Proof.
  intros Hne. induction es as [|[k w] es IH]; simpl; [done|].
  destruct (decide (k = s)) as [->|Hks]; simpl.
  - destruct (decide (s = t)); [congruence|done].
  - destruct (decide (k = t)); [done|apply IH].
Qed.

Lemma diverge_not_prefix (p q : path) :
  diverge p q = true -> ~ q `prefix_of` p.
Proof.
  revert q. induction p as [|a p IH]; intros q Hd Hpre; [done|].
  destruct q as [|b q]; [done|]. simpl in Hd.
  apply prefix_cons_inv_1 in Hpre as Hab. subst b.
  apply prefix_cons_inv_2 in Hpre.
  rewrite decide_True in Hd by done. by apply (IH q).
Qed.

Lemma diverge_sym (p q : path) : diverge p q = diverge q p.
Proof.
  revert q. induction p as [|a p IH]; intros [|b q]; simpl; try done.
  destruct (decide (a = b)) as [->|Hne].
  - rewrite decide_True by done. apply IH.
  - rewrite decide_False by congruence. done.
Qed.

Lemma diverge_app_l (p q x : path) :
  diverge p q = true -> diverge (p ++ x) q = true.
Proof.
  revert q. induction p as [|a p IH]; intros q Hd; [done|].
  destruct q as [|b q]; [done|]. simpl in *.
  destruct (decide (a = b)); [by apply IH|done].
Qed.

Lemma diverge_app_r (p q y : path) :
  diverge p q = true -> diverge p (q ++ y) = true.
Proof. rewrite !(diverge_sym p). apply diverge_app_l. Qed.

Lemma prefix_removelast (q p : path) :
  q `prefix_of` removelast p -> q `prefix_of` p.
Proof.
  intros Hq. destruct (decide (p = [])) as [->|Hne]; [done|].
  rewrite (app_removelast_last "" Hne). by apply prefix_app_r.
Qed.

(** Creating directories changes what is found at the ancestors of the
    path, and nowhere else. *)
Lemma mkdir_frame (p : path) :
  forall (n n' : node) (q : path),
    Fs.mkdirSync p n = Ok n' -> ~ q `prefix_of` p ->
    Fs.lookup n' q = Fs.lookup n q.
Proof.
  induction p as [|s p IH]; intros n n' q Hm Hq.
  - simpl in Hm. destruct n; [done|]. by injection Hm as <-.
  - destruct n as [d|es]; [done|]. simpl in Hm.
    destruct (Fs.mkdirSync p (default (Dir []) (Fs.assoc s es))) as [c'|] eqn:Hc;
      [|done].
    cbn [rbind] in Hm. injection Hm as <-.
    destruct q as [|t q]; [exfalso; apply Hq; apply prefix_nil|].
    simpl. destruct (decide (t = s)) as [->|Hts].
    + rewrite assoc_set_eq.
      assert (Hq' : ~ q `prefix_of` p)
        by (intros H; apply Hq; by apply prefix_cons).
      rewrite (IH _ _ q Hc Hq').
      destruct (Fs.assoc s es) as [c|]; [done|]. simpl.
      destruct q as [|u q]; [exfalso; apply Hq'; apply prefix_nil|done].
    + by rewrite assoc_set_ne.
Qed.

Lemma write_frame (p : path) :
  forall (d : bytes) (n n' : node) (q : path),
    Fs.writeFileSync p d n = Ok n' -> ~ q `prefix_of` p ->
    Fs.lookup n' q = Fs.lookup n q.
Proof.
  induction p as [|s p IH]; intros d n n' q Hw Hq; [done|].
  destruct n as [d0|es]; [destruct p; simpl in Hw; done|].
  destruct q as [|t q]; [exfalso; apply Hq; apply prefix_nil|].
  destruct p as [|s' p'].
  - simpl in Hw.
    assert (Hn' : n' = Dir (Fs.assoc_set s (File d) es)
                  /\ (forall es1, Fs.assoc s es <> Some (Dir es1))).
    { destruct (Fs.assoc s es) as [[d1|es1]|]; [| done |];
        injection Hw as <-; done. }
    destruct Hn' as [-> Hnd]. simpl.
    destruct (decide (t = s)) as [->|Hts]; [|by rewrite assoc_set_ne].
    rewrite assoc_set_eq.
    destruct q as [|u q]; [exfalso; apply Hq; done|].
    simpl. destruct (Fs.assoc s es) as [[d1|es1]|]; [done| |done].
    by destruct (Hnd es1).
  - change (match Fs.assoc s es with
            | Some c =>
                rbind (Fs.writeFileSync (s' :: p') d c)
                  (fun c' => Ok (Dir (Fs.assoc_set s c' es)))
            | None => Throw (Thrown "ENOENT")
            end = Ok n') in Hw.
    destruct (Fs.assoc s es) as [c|] eqn:Hc; [|done].
    destruct (Fs.writeFileSync (s' :: p') d c) as [c'|] eqn:Hwc; [|done].
    cbn [rbind] in Hw. injection Hw as <-. simpl.
    destruct (decide (t = s)) as [->|Hts]; [|by rewrite assoc_set_ne].
    rewrite assoc_set_eq, Hc. apply (IH d c c' q Hwc).
    intros H. apply Hq. by apply prefix_cons.
Qed.

Lemma unlink_frame (p : path) :
  forall (n n' : node) (q : path),
    Fs.unlinkSync p n = Ok n' -> ~ q `prefix_of` p -> ~ p `prefix_of` q ->
    Fs.lookup n' q = Fs.lookup n q.
Proof.
  induction p as [|s p IH]; intros n n' q Hw Hq Hp; [done|].
  destruct n as [d0|es]; [destruct p; simpl in Hw; done|].
  destruct q as [|t q]; [exfalso; apply Hq; apply prefix_nil|].
  destruct p as [|s' p'].
  - simpl in Hw.
    destruct (Fs.assoc s es) as [[d1|es1]|] eqn:Hs; [|done|done].
    injection Hw as <-. simpl.
    destruct (decide (t = s)) as [->|Hts]; [|by rewrite assoc_del_ne].
    exfalso. apply Hp. apply prefix_cons. apply prefix_nil.
  - change (match Fs.assoc s es with
            | Some c =>
                rbind (Fs.unlinkSync (s' :: p') c)
                  (fun c' => Ok (Dir (Fs.assoc_set s c' es)))
            | None => Throw (Thrown "ENOENT")
            end = Ok n') in Hw.
    destruct (Fs.assoc s es) as [c|] eqn:Hc; [|done].
    destruct (Fs.unlinkSync (s' :: p') c) as [c'|] eqn:Hwc; [|done].
    cbn [rbind] in Hw. injection Hw as <-. simpl.
    destruct (decide (t = s)) as [->|Hts]; [|by rewrite assoc_set_ne].
    rewrite assoc_set_eq, Hc. apply (IH c c' q Hwc).
    + intros H. apply Hq. by apply prefix_cons.
    + intros H. apply Hp. by apply prefix_cons.
Qed.

(** Creating directories keeps every file and every directory, and makes
    no file. *)
Lemma mkdir_keeps (p : path) :
  forall (n n' : node) (q : path) (x : option bytes),
    Fs.mkdirSync p n = Ok n' -> holds n q = Some x -> holds n' q = Some x.
Proof.
  induction p as [|s p IH]; intros n n' q x Hm Hq.
  - simpl in Hm. destruct n; [done|]. by injection Hm as <-.
  - destruct n as [d|es]; [done|]. simpl in Hm.
    destruct (Fs.mkdirSync p (default (Dir []) (Fs.assoc s es))) as [c'|] eqn:Hc;
      [|done].
    cbn [rbind] in Hm. injection Hm as <-.
    destruct q as [|t q]; [done|].
    unfold holds in *. simpl in *.
    destruct (decide (t = s)) as [->|Hts]; [|by rewrite assoc_set_ne].
    rewrite assoc_set_eq.
    destruct (Fs.assoc s es) as [c|]; [|done].
    apply (IH _ _ q x Hc Hq).
Qed.

Lemma mkdir_no_new_file (p : path) :
  forall (n n' : node) (q : path) (d : bytes),
    Fs.mkdirSync p n = Ok n' -> holds n' q = Some (Some d) -> holds n q = Some (Some d).
Proof.
  induction p as [|s p IH]; intros n n' q d Hm Hq.
  - simpl in Hm. destruct n; [done|]. by injection Hm as <-.
  - destruct n as [d0|es]; [done|]. simpl in Hm.
    destruct (Fs.mkdirSync p (default (Dir []) (Fs.assoc s es))) as [c'|] eqn:Hc;
      [|done].
    cbn [rbind] in Hm. injection Hm as <-.
    destruct q as [|t q]; [done|].
    unfold holds in *. simpl in *.
    destruct (decide (t = s)) as [->|Hts]; [|by rewrite assoc_set_ne in Hq].
    rewrite assoc_set_eq in Hq.
    specialize (IH _ _ q d Hc Hq).
    destruct (Fs.assoc s es) as [c|]; [done|].
    simpl in IH. by destruct q.
Qed.

Lemma mkdir_makes (p : path) :
  forall (n n' : node), Fs.mkdirSync p n = Ok n' -> holds n' p = Some None.
Proof.
  induction p as [|s p IH]; intros n n' Hm.
  - simpl in Hm. destruct n; [done|]. by injection Hm as <-.
  - destruct n as [d0|es]; [done|]. simpl in Hm.
    destruct (Fs.mkdirSync p (default (Dir []) (Fs.assoc s es))) as [c'|] eqn:Hc;
      [|done].
    cbn [rbind] in Hm. injection Hm as <-.
    rewrite (holds_cons_eq _ _ _ c') by apply assoc_set_eq.
    by apply (IH _ _ Hc).
Qed.

Lemma holds_lookup (n n' : node) (q : path) :
  Fs.lookup n' q = Fs.lookup n q -> holds n' q = holds n q.
Proof. unfold holds. by intros ->. Qed.

(** ** Output paths *)

Lemma basename_snoc (p : path) (name : string) : path_basename (p ++ [name]) = name.
Proof. unfold path_basename. by rewrite last_snoc. Qed.

Lemma dirname_snoc (p : path) (name : string) : path_dirname (p ++ [name]) = p.
Proof. unfold path_dirname. by rewrite removelast_last. Qed.

Lemma path_relative_below (d rel : path) : path_relative d (d ++ rel) = rel.
Proof.
  rewrite <- (app_nil_r d) at 1. rewrite path_relative_common. by destruct rel.
Qed.

Lemma path_join_proper_app (base rel : path) :
  proper_path base -> proper_path rel -> path_join base rel = base ++ rel.
Proof.
  intros Hb Hr. unfold path_join. rewrite normalize_onto_proper; [done|].
  by apply Forall_app.
Qed.

Lemma output_path_below (env : Env) (outputRoot : path) (rel : list string)
    (name : string) :
  proper_path outputRoot -> proper_path (rel ++ [name]) ->
  outputPathOf env outputRoot (env_sourceRoot env ++ rel ++ [name])
  = if env_preserve env then outputRoot ++ rel ++ [name] else outputRoot ++ [name].
Proof.
  intros Ho Hr. unfold outputPathOf.
  rewrite !app_assoc, basename_snoc, dirname_snoc, path_relative_below.
  apply Forall_app in Hr as Hr'. destruct Hr' as [Hrel Hname].
  destruct (env_preserve env).
  - rewrite <- app_assoc. by apply path_join_proper_app.
  - by apply path_join_proper_app.
Qed.

(** ** One call of compressImageWorker *)

Lemma retry_loop_step (env : Env) (adapter : Adapter) (outputRoot filePath : path)
    (rc : nat) (w : World) :
  rc <= env_maxRetries env ->
  retry_loop env adapter outputRoot filePath rc w
  = match attempt env adapter outputRoot filePath rc w with
    | (Ok s, w1) => (RSuccess s, w1)
    | (Throw e, w1) =>
        if decide (rc < env_maxRetries env)
        then retry_loop env adapter outputRoot filePath (S rc) w1
        else (RFailure {| f_fileName := Some (path_basename filePath);
                          f_filePath := filePath;
                          f_error := errorDetails e |}, w1)
    end.
Proof.
  funelim (retry_loop env adapter outputRoot filePath rc w); intros Hle; try lia.
  - match goal with Ha : attempt _ _ _ _ _ _ = _ |- _ => by rewrite Ha end.
  - match goal with Ha : attempt _ _ _ _ _ _ = _ |- _ => rewrite Ha end.
    match goal with Hg : exhausted _ _ _ _ = Some _ |- _ => rename Hg into Hgive end.
    unfold exhausted in Hgive.
    destruct (decide (env_maxRetries env < S retryCount)) as [Hlt|]; [|done].
    injection Hgive as <-. rewrite decide_False by lia. done.
  - match goal with Ha : attempt _ _ _ _ _ _ = _ |- _ => rewrite Ha end.
    match goal with Hg : exhausted _ _ _ _ = None |- _ => rename Hg into Hgive end.
    unfold exhausted in Hgive.
    destruct (decide (env_maxRetries env < S retryCount)) as [|Hge]; [done|].
    rewrite decide_True by lia. done.
Qed.

(** What holds before the loop and is kept by every failed attempt holds
    when the loop returns a failure; what a successful attempt establishes
    holds when it returns a success. *)
Lemma retry_loop_rule (env : Env) (adapter : Adapter) (outputRoot filePath : path)
    (I : World -> Prop) (Q : Success -> World -> Prop) :
  (forall rc w e w1, I w ->
     attempt env adapter outputRoot filePath rc w = (Throw e, w1) -> I w1) ->
  (forall rc w s w1, I w -> rc <= env_maxRetries env ->
     attempt env adapter outputRoot filePath rc w = (Ok s, w1) -> Q s w1) ->
  forall k rc w, env_maxRetries env - rc <= k -> rc <= env_maxRetries env -> I w ->
    match retry_loop env adapter outputRoot filePath rc w with
    | (RSuccess s, w') => Q s w'
    | (RFailure f, w') =>
        I w' /\ f_fileName f = Some (path_basename filePath) /\ f_filePath f = filePath
    | (RUndefined, _) => False
    end.
Proof.
  intros Hfail Hok. induction k as [|k IH]; intros rc w Hk Hle HI;
    rewrite retry_loop_step by done;
    destruct (attempt env adapter outputRoot filePath rc w) as [[s|e] w1] eqn:Ha;
    try (by eapply Hok).
  - rewrite decide_False by lia. split; [by eapply Hfail|done].
  - destruct (decide (rc < env_maxRetries env)) as [Hlt|Hge].
    + apply IH; [lia|lia|by eapply Hfail].
    + split; [by eapply Hfail|done].
Qed.

Lemma only_new_directories_refl (n : node) : only_new_directories n n.
Proof. by split. Qed.

Lemma only_new_directories_trans (n1 n2 n3 : node) :
  only_new_directories n1 n2 -> only_new_directories n2 n3 ->
  only_new_directories n1 n3.
Proof.
  intros [H1 H2] [H3 H4]. split.
  - intros q x Hq. by apply H3, H1.
  - intros q d Hq. by apply H2, H4.
Qed.

Lemma mkdir_only_new_directories (p : path) (n n' : node) :
  Fs.mkdirSync p n = Ok n' -> only_new_directories n n'.
Proof.
  intros Hm. split.
  - intros q x. by apply (mkdir_keeps p).
  - intros q d. by apply (mkdir_no_new_file p).
Qed.

(** The directory of the output file, as step 7 of the [try] block leaves
    it. *)
Lemma ensure_dir_only_new_directories (dir : path) (n n' : node) :
  (if Fs.existsSync n dir then Ok n else Fs.mkdirSync dir n) = Ok n' ->
  only_new_directories n n'.
Proof.
  destruct (Fs.existsSync n dir).
  - intros [= <-]. apply only_new_directories_refl.
  - apply mkdir_only_new_directories.
Qed.

Lemma ensure_dir_frame (dir : path) (n n' : node) (q : path) :
  (if Fs.existsSync n dir then Ok n else Fs.mkdirSync dir n) = Ok n' ->
  ~ q `prefix_of` dir -> Fs.lookup n' q = Fs.lookup n q.
Proof.
  destruct (Fs.existsSync n dir).
  - by intros [= <-].
  - apply mkdir_frame.
Qed.

(** The two ways an attempt ends. *)
Lemma attempt_fails (env : Env) (adapter : Adapter) (outputRoot filePath : path)
    (rc : nat) (w : World) (e : JsError) (w1 : World) :
  attempt env adapter outputRoot filePath rc w = (Throw e, w1) ->
  trace w1 = trace w ++ [Attempt filePath rc]
  /\ only_new_directories (fs w) (fs w1)
  /\ forall q, ~ q `prefix_of` path_dirname (outputPathOf env outputRoot filePath) ->
       Fs.lookup (fs w1) q = Fs.lookup (fs w) q.
Proof.
  intros Ha.
  pose proof (attempt_trace env adapter outputRoot filePath rc w) as Ht.
  rewrite Ha in Ht. split; [done|]. clear Ht.
  unfold attempt, attempt_send in Ha. cbn [fs emit] in Ha.
  destruct (Fs.readFileSync (fs w) filePath) as [src|e0];
    [|injection Ha as _ <-; split; [apply only_new_directories_refl|done]].
  unfold attempt_receive in Ha. cbn [fs emit] in Ha.
  destruct (adapter filePath rc (fileTypeOf filePath) src) as [e1|e1|data];
    [injection Ha as _ <-; split; [apply only_new_directories_refl|done]| |].
  - destruct (if Fs.existsSync (fs w) _ then _ else _) as [fs1|e2] eqn:Hd;
      [|injection Ha as _ <-; split; [apply only_new_directories_refl|done]].
    injection Ha as _ <-. cbn [fs set_fs emit]. split.
    + by eapply ensure_dir_only_new_directories.
    + intros q Hq. by eapply ensure_dir_frame.
  - destruct (if Fs.existsSync (fs w) _ then _ else _) as [fs1|e2] eqn:Hd;
      [|injection Ha as _ <-; split; [apply only_new_directories_refl|done]].
    destruct (Fs.writeFileSync _ data fs1) as [fs2|e3]; [done|].
    injection Ha as _ <-. cbn [fs set_fs emit]. split.
    + by eapply ensure_dir_only_new_directories.
    + intros q Hq. by eapply ensure_dir_frame.
Qed.

Lemma attempt_succeeds (env : Env) (adapter : Adapter) (outputRoot filePath : path)
    (rc : nat) (w : World) (s : Success) (w1 : World) :
  attempt env adapter outputRoot filePath rc w = (Ok s, w1) ->
  exists src data fs1,
    Fs.readFileSync (fs w) filePath = Ok src
    /\ adapter filePath rc (fileTypeOf filePath) src = Downloaded data
    /\ only_new_directories (fs w) fs1
    /\ (forall q, ~ q `prefix_of` path_dirname (outputPathOf env outputRoot filePath) ->
          Fs.lookup fs1 q = Fs.lookup (fs w) q)
    /\ Fs.writeFileSync (outputPathOf env outputRoot filePath) data fs1 = Ok (fs w1)
    /\ s = {| s_filePath := filePath;
              s_outputPath := outputPathOf env outputRoot filePath;
              s_fileName := path_basename filePath;
              s_originalSize := length src;
              s_compressedSize := length data |}.
Proof.
  intros Ha.
  unfold attempt, attempt_send in Ha. cbn [fs emit] in Ha.
  destruct (Fs.readFileSync (fs w) filePath) as [src|e0]; [|done].
  unfold attempt_receive in Ha. cbn [fs emit] in Ha.
  destruct (adapter filePath rc (fileTypeOf filePath) src) as [e1|e1|data] eqn:Had;
    [done| |].
  - destruct (if Fs.existsSync (fs w) _ then _ else _) as [fs1|e2]; done.
  - destruct (if Fs.existsSync (fs w) _ then _ else _) as [fs1|e2] eqn:Hd; [|done].
    destruct (Fs.writeFileSync _ data fs1) as [fs2|e3] eqn:Hw; [|done].
    injection Ha as <- <-. cbn [fs set_fs emit].
    exists src, data, fs1.
    split; [done|]. split; [done|].
    split; [by eapply ensure_dir_only_new_directories|].
    split; [intros q Hq; by eapply ensure_dir_frame|].
    split; done.
Qed.

(** ** Further properties: output paths and single files *)

(** The output path of a file below the source root: with the directory
    structure preserved it is the same relative path below the output
    root, so two files have the same output path only if they are the same
    file; without, it is the base name directly below the output root, so
    files with the same name in different directories share their output
    path. *)
Theorem output_paths_mirror_the_source_tree (env : Env) (outputRoot : path)
    (rel1 rel2 : list string) (name1 name2 : string) :
  proper_path outputRoot ->
  proper_path (rel1 ++ [name1]) -> proper_path (rel2 ++ [name2]) ->
  let out rel name := outputPathOf env outputRoot (env_sourceRoot env ++ rel ++ [name]) in
  out rel1 name1
  = (if env_preserve env then outputRoot ++ rel1 ++ [name1] else outputRoot ++ [name1])
  /\ (out rel1 name1 = out rel2 name2
      <-> if env_preserve env then rel1 ++ [name1] = rel2 ++ [name2]
          else name1 = name2).
Proof.
  intros Ho H1 H2 out. unfold out.
  rewrite !output_path_below by done. split; [done|].
  destruct (env_preserve env).
  - split; [apply app_inv_head|by intros ->].
  - split; [|by intros ->]. intros H. apply app_inv_head in H. by injection H.
Qed.

Lemma output_paths_witness :
  let env := {| env_sourceRoot := ["app"; "static"]; env_maxRetries := 2;
                env_preserve := false |} in
  let out rel name :=
    outputPathOf env ["app"; "out"] (env_sourceRoot env ++ rel ++ [name]) in
  out ["icons"] "a.png" = ["app"; "out"; "a.png"]
  /\ (out ["icons"] "a.png" = out ["photos"; "2024"] "a.png" <-> "a.png" = "a.png").
Proof.
  intros env.
  apply (output_paths_mirror_the_source_tree env ["app"; "out"]
           ["icons"] ["photos"; "2024"] "a.png" "a.png");
    repeat constructor.
Defined.

(** A call of [compressImageWorker] that returns a success has written the
    bytes the service sent for the content of the source file to the output
    path, where they can be read back; the record carries the two lengths;
    and every other path holds what it held. *)
Theorem successful_compression_writes_the_artifact (env : Env) (adapter : Adapter)
    (outputRoot filePath : path) (w : World) (src : bytes) (s : Success) (w' : World) :
  Fs.readFileSync (fs w) filePath = Ok src ->
  compressImageWorker env adapter outputRoot filePath w = (RSuccess s, w') ->
  s_filePath s = filePath
  /\ s_fileName s = path_basename filePath
  /\ s_outputPath s = outputPathOf env outputRoot filePath
  /\ s_originalSize s = length src
  /\ (exists k data,
        k <= env_maxRetries env
        /\ adapter filePath k (fileTypeOf filePath) src = Downloaded data
        /\ s_compressedSize s = length data
        /\ Fs.readFileSync (fs w') (s_outputPath s) = Ok data)
  /\ (forall q x, q <> s_outputPath s ->
        holds (fs w) q = Some x -> holds (fs w') q = Some x).
Proof.
  intros Hsrc Hrun. unfold compressImageWorker in Hrun.
  apply read_holds in Hsrc.
  pose proof (retry_loop_rule env adapter outputRoot filePath
                (fun w1 => only_new_directories (fs w) (fs w1))
                (fun s w1 =>
                   s_filePath s = filePath
                   /\ s_fileName s = path_basename filePath
                   /\ s_outputPath s = outputPathOf env outputRoot filePath
                   /\ s_originalSize s = length src
                   /\ (exists k data,
                         k <= env_maxRetries env
                         /\ adapter filePath k (fileTypeOf filePath) src = Downloaded data
                         /\ s_compressedSize s = length data
                         /\ Fs.readFileSync (fs w1) (s_outputPath s) = Ok data)
                   /\ (forall q x, q <> s_outputPath s ->
                         holds (fs w) q = Some x -> holds (fs w1) q = Some x)))
    as Hrule.
  assert (Hfail : forall rc w0 e w1,
            only_new_directories (fs w) (fs w0) ->
            attempt env adapter outputRoot filePath rc w0 = (Throw e, w1) ->
            only_new_directories (fs w) (fs w1)).
  { intros rc w0 e w1 HI Ha. apply attempt_fails in Ha as (_ & Hd & _).
    exact (only_new_directories_trans _ _ _ HI Hd). }
  specialize (Hrule Hfail).
  assert (Hok : forall rc w0 s0 w1,
            only_new_directories (fs w) (fs w0) -> rc <= env_maxRetries env ->
            attempt env adapter outputRoot filePath rc w0 = (Ok s0, w1) ->
            s_filePath s0 = filePath
            /\ s_fileName s0 = path_basename filePath
            /\ s_outputPath s0 = outputPathOf env outputRoot filePath
            /\ s_originalSize s0 = length src
            /\ (exists k data,
                  k <= env_maxRetries env
                  /\ adapter filePath k (fileTypeOf filePath) src = Downloaded data
                  /\ s_compressedSize s0 = length data
                  /\ Fs.readFileSync (fs w1) (s_outputPath s0) = Ok data)
            /\ (forall q x, q <> s_outputPath s0 ->
                  holds (fs w) q = Some x -> holds (fs w1) q = Some x)).
  { intros rc w0 s0 w1 HI Hle Ha.
    apply attempt_succeeds in Ha
      as (src' & data & fs1 & Hread & Had & Hd & _ & Hw & ->).
    cbn [s_filePath s_fileName s_outputPath s_originalSize s_compressedSize].
    apply read_holds in Hread.
    destruct HI as [Hkeep _]. rewrite (Hkeep _ _ Hsrc) in Hread.
    injection Hread as <-.
    split; [done|]. split; [done|]. split; [done|]. split; [done|]. split.
    - exists rc, data. split; [done|]. split; [done|]. split; [done|].
      apply read_holds. rewrite (write_holds _ _ _ _ _ Hw). by rewrite decide_True.
    - intros q x Hq Hx. rewrite (write_holds _ _ _ _ _ Hw).
      rewrite decide_False by done. destruct Hd as [Hd _]. by apply Hd, Hkeep. }
  specialize (Hrule Hok (env_maxRetries env) 0 w ltac:(lia) ltac:(lia)
                (only_new_directories_refl _)).
  by rewrite Hrun in Hrule.
Qed.

Lemma successful_compression_witness :
  let env := {| env_sourceRoot := ["app"; "static"]; env_maxRetries := 2;
                env_preserve := true |} in
  let adapter : Adapter := fun _ rc _ src =>
    if decide (rc = 0) then UploadFailed AxiosRequest else Downloaded (take 1 src) in
  let w := {| fs := Dir [("app", Dir [("static", Dir [("a.png", File [x01; x02])])])];
              trace := [] |} in
  let r := compressImageWorker env adapter ["app"; "out"] ["app"; "static"; "a.png"] w in
  exists s,
    r.1 = RSuccess s
    /\ s_filePath s = ["app"; "static"; "a.png"]
    /\ s_fileName s = "a.png"
    /\ s_outputPath s = ["app"; "out"; "a.png"]
    /\ s_originalSize s = 2
    /\ (exists k data,
          k <= 2
          /\ adapter ["app"; "static"; "a.png"] k "image/png" [x01; x02] = Downloaded data
          /\ s_compressedSize s = length data
          /\ Fs.readFileSync (fs r.2) (s_outputPath s) = Ok data)
    /\ (forall q x, q <> s_outputPath s ->
          holds (fs w) q = Some x -> holds (fs r.2) q = Some x).
Proof.
  intros env adapter w r.
  destruct r as [ret w'] eqn:Hr.
  assert (Hret : exists s, ret = RSuccess s)
    by (vm_compute in Hr; injection Hr as <- _; eauto).
  destruct Hret as [s ->]. exists s. split; [done|].
  exact (successful_compression_writes_the_artifact env adapter ["app"; "out"]
           ["app"; "static"; "a.png"] w [x01; x02] s w' eq_refl Hr).
Defined.

(** A call of [compressImageWorker] always returns a record (never
    [undefined]), and one that returns a failure has created, changed and
    removed no file: directories may have been created for the output, and
    nothing else differs. *)
Theorem failed_compression_changes_no_file (env : Env) (adapter : Adapter)
    (outputRoot filePath : path) (w : World) :
  match compressImageWorker env adapter outputRoot filePath w with
  | (RSuccess s, _) => s_filePath s = filePath
  | (RFailure f, w') =>
      only_new_directories (fs w) (fs w')
      /\ f_fileName f = Some (path_basename filePath)
      /\ f_filePath f = filePath
  | (RUndefined, _) => False
  end.
Proof.
  unfold compressImageWorker.
  apply (retry_loop_rule env adapter outputRoot filePath
           (fun w1 => only_new_directories (fs w) (fs w1))
           (fun s w1 => s_filePath s = filePath)) with (k := env_maxRetries env).
  - intros rc w0 e w1 HI Ha. apply attempt_fails in Ha as (_ & Hd & _).
    exact (only_new_directories_trans _ _ _ HI Hd).
  - intros rc w0 s w1 _ _ Ha.
    apply attempt_succeeds in Ha as (src & data & fs1 & _ & _ & _ & _ & _ & ->).
    done.
  - lia.
  - lia.
  - apply only_new_directories_refl.
Qed.

Lemma retry_loop_unreadable (env : Env) (adapter : Adapter) (outputRoot filePath : path)
    (e : JsError) (k : nat) :
  forall rc w,
    env_maxRetries env - rc <= k -> rc <= env_maxRetries env ->
    Fs.readFileSync (fs w) filePath = Throw e ->
    retry_loop env adapter outputRoot filePath rc w
    = (RFailure {| f_fileName := Some (path_basename filePath);
                   f_filePath := filePath;
                   f_error := errorDetails e |},
       {| fs := fs w;
          trace := trace w
                   ++ map (Attempt filePath) (seq rc (S (env_maxRetries env) - rc)) |}).
Proof.
  induction k as [|k IH]; intros rc w Hk Hle Hread;
    rewrite retry_loop_step by done;
    unfold attempt, attempt_send; cbn [fs emit]; rewrite Hread.
  - rewrite decide_False by lia.
    replace (S (env_maxRetries env) - rc) with 1 by lia. done.
  - destruct (decide (rc < env_maxRetries env)) as [Hlt|Hge].
    + rewrite IH by (done || lia || cbn; lia). cbn [fs trace emit].
      replace (S (env_maxRetries env) - rc)
        with (S (S (env_maxRetries env) - S rc)) by lia.
      cbn [seq map]. by rewrite <- app_assoc.
    + replace (S (env_maxRetries env) - rc) with 1 by lia. done.
Qed.

(** When the source file cannot be read (it is gone, or it is a directory),
    [compressImageWorker] makes all its [maxRetries + 1] attempts, each of
    which stops at the read, and returns a failure with the reason of the
    read error; the file system is as before and the answers of the service
    play no part. *)
Theorem unreadable_source_fails_after_all_attempts (env : Env) (adapter : Adapter)
    (outputRoot filePath : path) (w : World) (e : JsError) :
  Fs.readFileSync (fs w) filePath = Throw e ->
  compressImageWorker env adapter outputRoot filePath w
  = (RFailure {| f_fileName := Some (path_basename filePath);
                 f_filePath := filePath;
                 f_error := errorDetails e |},
     {| fs := fs w;
        trace := trace w
                 ++ map (Attempt filePath) (seq 0 (env_maxRetries env + 1)) |}).
Proof.
  intros Hread. unfold compressImageWorker.
  rewrite (retry_loop_unreadable env adapter outputRoot filePath e (env_maxRetries env))
    by (done || lia).
  replace (S (env_maxRetries env) - 0) with (env_maxRetries env + 1) by lia. done.
Qed.

Lemma unreadable_source_witness :
  let env := {| env_sourceRoot := ["app"; "static"]; env_maxRetries := 2;
                env_preserve := true |} in
  let w := {| fs := Dir [("app", Dir [("static", Dir [])])]; trace := [] |} in
  let file := ["app"; "static"; "gone.png"] in
  compressImageWorker env (fun _ _ _ _ => Downloaded [x01]) ["app"; "out"] file w
  = (RFailure {| f_fileName := Some "gone.png";
                 f_filePath := file;
                 f_error := Message "ENOENT" |},
     {| fs := fs w;
        trace := [Attempt file 0; Attempt file 1; Attempt file 2] |}).
Proof.
  intros env w file.
  exact (unreadable_source_fails_after_all_attempts env (fun _ _ _ _ => Downloaded [x01])
           ["app"; "out"] file w (Thrown "ENOENT") eq_refl).
Defined.

(** ** What a worker of the normal pass does to the file system *)

Lemma same_outside_refl (root : path) (n : node) : same_outside root n n.
Proof. by intros q _. Qed.

Lemma same_outside_trans (root : path) (n1 n2 n3 : node) :
  same_outside root n1 n2 -> same_outside root n2 n3 -> same_outside root n1 n3.
Proof. intros H1 H2 q Hq. by rewrite (H2 q Hq), (H1 q Hq). Qed.

Lemma diverge_below (root rel q : path) :
  diverge root q = true -> ~ q `prefix_of` root ++ rel.
Proof. intros Hd. apply diverge_not_prefix. by apply diverge_app_l. Qed.

Lemma attempt_receive_writes (env : Env) (outputRoot filePath : path) (size : nat)
    (o : NetOutcome) (w : World) :
  let r := attempt_receive env outputRoot filePath size o w in
  let outputPath := outputPathOf env outputRoot filePath in
  (forall q, ~ q `prefix_of` outputPath -> Fs.lookup (fs r.2) q = Fs.lookup (fs w) q)
  /\ (forall q x, q <> outputPath -> holds (fs w) q = Some x -> holds (fs r.2) q = Some x)
  /\ match r.1 with
     | Ok s =>
         exists data,
           o = Downloaded data
           /\ s = {| s_filePath := filePath;
                     s_outputPath := outputPath;
                     s_fileName := path_basename filePath;
                     s_originalSize := size;
                     s_compressedSize := length data |}
           /\ Fs.readFileSync (fs r.2) outputPath = Ok data
     | Throw _ => only_new_directories (fs w) (fs r.2)
     end.
Proof.
  cbv zeta. unfold attempt_receive.
  set (outputPath := outputPathOf env outputRoot filePath).
  assert (Hdirframe : forall fs1,
            (if Fs.existsSync (fs w) (path_dirname outputPath) then Ok (fs w)
             else Fs.mkdirSync (path_dirname outputPath) (fs w)) = Ok fs1 ->
            (forall q, ~ q `prefix_of` outputPath -> Fs.lookup fs1 q = Fs.lookup (fs w) q)
            /\ only_new_directories (fs w) fs1).
  { intros fs1 Hd. split; [|by eapply ensure_dir_only_new_directories].
    intros q Hq. eapply ensure_dir_frame; [exact Hd|].
    intros Hpre. apply Hq. by apply prefix_removelast. }
  destruct o as [e|e|data].
  - cbn [fst snd]. split; [done|]. split; [done|]. apply only_new_directories_refl.
  - destruct (if Fs.existsSync (fs w) _ then _ else _) as [fs1|e2] eqn:Hd;
      cbn [fst snd fs set_fs].
    + destruct (Hdirframe fs1 eq_refl) as [Hf Hk].
      split; [done|]. split; [|done]. intros q x _. apply Hk.
    + split; [done|]. split; [done|]. apply only_new_directories_refl.
  - destruct (if Fs.existsSync (fs w) _ then _ else _) as [fs1|e2] eqn:Hd;
      cbn [fst snd fs set_fs].
    + destruct (Hdirframe fs1 eq_refl) as [Hf Hk].
      destruct (Fs.writeFileSync outputPath data fs1) as [fs2|e3] eqn:Hw;
        cbn [fst snd fs set_fs].
      * split; [|split].
        -- intros q Hq. rewrite (write_frame _ _ _ _ q Hw Hq). by apply Hf.
        -- intros q x Hq Hx. rewrite (write_holds _ _ _ _ q Hw).
           rewrite decide_False by done. by apply Hk.
        -- exists data. split; [done|]. split; [done|].
           apply read_holds. rewrite (write_holds _ _ _ _ _ Hw). by rewrite decide_True.
      * split; [done|]. split; [|done]. intros q x _. apply Hk.
    + split; [done|]. split; [done|]. apply only_new_directories_refl.
Qed.

Lemma enter_loop_fs (env : Env) (file : path) (rc : nat) (w : World) :
  fs (enter_loop env file rc w).2 = fs w
  /\ forall s, (enter_loop env file rc w).1 <> Finished (RSuccess s).
Proof.
  unfold enter_loop, attempt_send, caught.
  destruct (decide (rc <= env_maxRetries env)); [|done]. cbn [fs emit].
  destruct (Fs.readFileSync (fs w) file); cbn [fst snd fs]; [done|].
  split; [done|]. intros s. by destruct (exhausted env file (S rc) e).
Qed.

Lemma say_if_fs (b : bool) (s : Stream) (m : Msg) (sh : Shared) :
  fs (world (Cli.say_if b s m sh)) = fs (world sh).
Proof. by destruct b. Qed.

Lemma say_if_success (b : bool) (s : Stream) (m : Msg) (sh : Shared) :
  success (results (Cli.say_if b s m sh)) = success (results sh).
Proof. by destruct b. Qed.

Section CliNormalWorker.

Variable cfg : Cli.Config.
Variable adapter : Adapter.
Variable outputRoot : path.

Lemma cli_continue_effect (file : path) (c : CallState) (w : World) (sh : Shared) :
  let r := Cli.continue cfg false file (c, w) sh in
  fs (world r.2) = fs w
  /\ success (results r.2)
     = match c with
       | Finished (RSuccess s) => success (results sh) ++ [s]
       | _ => success (results sh)
       end.
Proof.
  cbv zeta. destruct c as [wk|[s|f|]]; cbn [Cli.continue Cli.record fst snd];
    rewrite ?say_if_fs, ?say_if_success; done.
Qed.

(** One resumption of a worker of the normal pass: only the answer of the
    service leads to a change of the file system or to a success record. *)
Lemma cli_resume_effect (wk : Worker) (sh : Shared) :
  let r := Cli.resume cfg adapter outputRoot false wk sh in
  match wk with
  | AwaitNet file rc data =>
      let a := attempt_receive (Cli.env_of cfg) outputRoot file (length data)
                 (adapter file rc (fileTypeOf file) data) (world sh) in
      fs (world r.2) = fs a.2
      /\ success (results r.2)
         = match a.1 with
           | Ok s => success (results sh) ++ [s]
           | Throw _ => success (results sh)
           end
  | _ => fs (world r.2) = fs (world sh)
         /\ success (results r.2) = success (results sh)
  end.
Proof.
  cbv zeta. destruct wk as [file rc data|file rc| | |]; cbn [Cli.resume]; try done.
  - unfold after_net.
    destruct (attempt_receive _ _ _ _ _ _) as [[s|e] w1]; cbn [fst snd].
    + apply (cli_continue_effect file (Finished (RSuccess s)) w1 sh).
    + destruct (cli_continue_effect file (caught (Cli.env_of cfg) file rc e) w1 sh)
        as [H1 H2].
      split; [done|]. rewrite H2. unfold caught.
      by destruct (exhausted _ _ _ _).
  - destruct (enter_loop_fs (Cli.env_of cfg) file rc (world sh)) as [Hfs Hns].
    destruct (enter_loop _ _ _ _) as [c w1]. cbn [fst snd] in *.
    destruct (cli_continue_effect file c w1 sh) as [H1 H2].
    split; [congruence|]. rewrite H2.
    destruct c as [|[s| |]]; try done. by destruct (Hns s).
  - unfold Cli.loop_head. destruct (queue sh) as [|file rest]; [done|].
    set (sh1 := Cli.say_if _ _ _ _).
    assert (Hf1 : fs (world sh1) = fs (world sh)) by (unfold sh1; by rewrite say_if_fs).
    assert (Hs1 : success (results sh1) = success (results sh))
      by (unfold sh1; by rewrite say_if_success).
    destruct (enter_loop_fs (Cli.env_of cfg) file 0 (world sh1)) as [Hfs Hns].
    destruct (enter_loop _ _ _ _) as [c w1]. cbn [fst snd] in *.
    destruct (cli_continue_effect file c w1 sh1) as [H1 H2].
    split; [congruence|]. rewrite H2, Hs1.
    destruct c as [|[s| |]]; try done. by destruct (Hns s).
Qed.
End CliNormalWorker.

Lemma in_flight_in_concat (ws : list Worker) (i : nat) (wk : Worker) (file : path) :
  ws !! i = Some wk -> In file (in_flight wk) -> In file (concat (map in_flight ws)).
Proof.
  revert i. induction ws as [|w0 ws IH]; intros i Hl Hin; [done|].
  simpl. apply in_or_app. destruct i as [|i].
  - injection Hl as ->. by left.
  - right. by eapply IH.
Qed.

(** ** Invariants of the normal pass *)

Section CliNormalRun.

Variable cfg : Cli.Config.
Variable adapter : Adapter.
Variable outputRoot : path.
Variable files : list path.

Hypothesis files_distinct : NoDup files.

(** A property of the file system and of the success records that every
    answer of the service keeps, for a file of the pass that has no record
    yet. *)
Variable P : node -> list Success -> Prop.

Hypothesis answer_keeps : forall w0 succ file size o,
  In file files -> ~ In file (map s_filePath succ) -> P (fs w0) succ ->
  P (fs (attempt_receive (Cli.env_of cfg) outputRoot file size o w0).2)
    (match (attempt_receive (Cli.env_of cfg) outputRoot file size o w0).1 with
     | Ok s => succ ++ [s]
     | Throw _ => succ
     end).

Lemma cli_normal_step (i : nat) (p : Pool) (wk : Worker) :
  workers p !! i = Some wk -> pending wk = true -> cli_inv files p ->
  P (fs (world (shared p))) (success (results (shared p))) ->
  P (fs (world (shared (step (Cli.resume cfg adapter outputRoot false) i p))))
    (success (results (shared (step (Cli.resume cfg adapter outputRoot false) i p)))).
Proof.
  intros Hl Hp (Hacc & _ & _) HP. unfold step. rewrite Hl.
  pose proof (cli_resume_effect cfg adapter outputRoot wk (shared p)) as Heff.
  destruct (Cli.resume cfg adapter outputRoot false wk (shared p)) as [wk' sh'].
  cbn [fst snd shared] in *.
  destruct wk as [file rc data|file rc| | |];
    try (destruct Heff as [-> ->]; exact HP).
  cbv zeta in Heff. destruct Heff as [-> ->].
  assert (Hin : In file (concat (map in_flight (workers p))))
    by (eapply in_flight_in_concat; [exact Hl|by left]).
  assert (Hnd : NoDup (accounted (shared p) (workers p))) by (by rewrite Hacc).
  unfold accounted, recorded in Hnd, Hacc.
  apply answer_keeps; [| |done].
  - apply list_elem_of_In. rewrite <- Hacc. apply list_elem_of_In.
    apply in_or_app. right. apply in_or_app. by left.
  - intros Hrec.
    apply NoDup_app in Hnd as (_ & _ & Hnd).
    apply NoDup_app in Hnd as (_ & Hdisj & _).
    apply (Hdisj file); [by apply list_elem_of_In|].
    apply list_elem_of_In. apply in_or_app. by left.
Qed.

Lemma cli_normal_spawn (n : nat) (p : Pool) :
  fs (world (shared (spawn (Cli.loop_head cfg false) n p))) = fs (world (shared p))
  /\ success (results (shared (spawn (Cli.loop_head cfg false) n p)))
     = success (results (shared p)).
Proof.
  revert p. induction n as [|n IH]; intros p; [done|].
  cbn [spawn].
  pose proof (cli_resume_effect cfg adapter outputRoot AwaitTaskDelay (shared p)) as Heff.
  cbn [Cli.resume] in Heff.
  destruct (Cli.loop_head cfg false (shared p)) as [wk sh]. cbn [fst snd] in Heff.
  destruct Heff as [H1 H2].
  destruct (IH {| shared := sh; workers := workers p ++ [wk] |}) as [H3 H4].
  cbn [shared] in *. split; congruence.
Qed.

Lemma cli_normal_run_rule (sched : nat -> nat) (w : World) :
  P (fs w) [] ->
  let r := Cli.run_workers cfg adapter sched outputRoot false files w in
  P (fs (world (shared r.2))) (success (results (shared r.2))).
Proof.
  intros HP. unfold Cli.run_workers, await_all. cbv zeta.
  set (p0 := {| shared := _; workers := [] |}).
  set (p1 := spawn _ _ p0).
  set (p2 := run _ _ _ _ _ p1).
  destruct (cli_spawn_spec cfg adapter outputRoot false files
              (Nat.min (length files) (Cli.MAX_CONCURRENT cfg)) p0)
    as [Hacc1 Hpend1]; [simpl; lia|unfold accounted; simpl; by rewrite app_nil_r|done|].
  fold p1 in Hacc1, Hpend1.
  assert (Hinv1 : cli_inv files p1).
  { split; [done|]. split.
    - eapply Forall_impl; [exact Hpend1|]. intros wk Hp e ->. done.
    - intros Hin. rewrite List.Forall_forall in Hpend1. by apply Hpend1 in Hin. }
  destruct (cli_normal_spawn (Nat.min (length files) (Cli.MAX_CONCURRENT cfg)) p0)
    as [Hfs1 Hs1].
  fold p1 in Hfs1, Hs1. simpl in Hfs1, Hs1.
  assert (Hinv2 : cli_inv files p2
                  /\ P (fs (world (shared p2))) (success (results (shared p2)))).
  { apply (run_preserves (Cli.resume cfg adapter outputRoot false)
             (fun p => cli_inv files p
                       /\ P (fs (world (shared p))) (success (results (shared p))))).
    - intros i p wk Hl Hp [Hinv HPp]. split.
      + by eapply cli_step_inv.
      + by eapply cli_normal_step.
    - split; [done|]. by rewrite Hfs1, Hs1. }
  destruct Hinv2 as [_ HP2].
  by destruct (first_rejection (workers p2)).
Qed.

End CliNormalRun.

(** ** The copy of the files that are not compressed *)

Lemma cli_copy_dir (depth : nat) (cfg : Cli.Config) (dir outputRoot : path) (w : World) :
  Cli.copyUnsupportedFiles (S depth) cfg dir outputRoot w
  = if cli_turns_away cfg dir then (Ok tt, w)
    else match Fs.readdirSync (fs w) dir with
         | Throw e => (Throw e, w)
         | Ok files => cli_copy_entries depth cfg dir outputRoot files w
         end.
Proof.
  unfold cli_turns_away. cbn [Cli.copyUnsupportedFiles].
  destruct (Cli.SKIP_HIDDEN_DIRS cfg && startsWithDot (path_basename dir)); [done|].
  destruct (same_path dir (Cli.SAVE_FAILED_TO cfg)); [done|]. cbn [orb].
  destruct (Fs.readdirSync (fs w) dir) as [files|e]; [|done].
  revert w. induction files as [|file files IH]; intros w; [done|].
  cbn [cli_copy_entries].
  destruct (Fs.isDirectory (fs w) (path_join dir [file])) as [[|]|e]; [| |done].
  - destruct (Cli.copyUnsupportedFiles depth cfg (path_join dir [file]) outputRoot w)
      as [[u|e] w1]; [apply IH|done].
  - unfold cli_copy_file. destruct (supported file); [apply IH|].
    cbv zeta.
    destruct (if Fs.existsSync (fs w) _ then _ else _) as [fs1|e]; [|done].
    destruct (Fs.copyFileSync _ _ fs1) as [fs2|e]; [|done].
    apply IH.
Qed.

(** One file copied: the only path written is the place of the file below
    the output root. *)
Lemma cli_copy_file_effect (cfg : Cli.Config) (rel0 : list string) (file : string)
    (w : World) :
  proper_path (Cli.SOURCE_ROOT cfg) -> proper_path (Cli.OUTPUT_ROOT cfg) ->
  proper_path (rel0 ++ [file]) ->
  let r := cli_copy_file cfg (Cli.SOURCE_ROOT cfg ++ rel0) (Cli.OUTPUT_ROOT cfg) file w in
  let outputPath :=
    if Cli.PRESERVE_DIR_STRUCTURE cfg then Cli.OUTPUT_ROOT cfg ++ rel0 ++ [file]
    else Cli.OUTPUT_ROOT cfg ++ [file] in
  (forall q, ~ q `prefix_of` outputPath -> Fs.lookup (fs r.2) q = Fs.lookup (fs w) q)
  /\ (forall q x, q <> outputPath -> holds (fs w) q = Some x -> holds (fs r.2) q = Some x)
  /\ (supported file = true -> fs r.2 = fs w)
  /\ match r.1 with
     | Ok _ =>
         supported file = false ->
         exists d,
           holds (fs w) (Cli.SOURCE_ROOT cfg ++ rel0 ++ [file]) = Some (Some d)
           /\ holds (fs r.2) outputPath = Some (Some d)
     | Throw _ => only_new_directories (fs w) (fs r.2)
     end.
Proof.
  intros HS HO Hrel. cbv zeta.
  apply Forall_app in Hrel as Hrel'. destruct Hrel' as [Hrel0 Hfile].
  inversion Hfile as [|? ? Hname _]; subst.
  unfold cli_copy_file. cbv zeta.
  rewrite path_join_proper by (done || by apply Forall_app).
  destruct (supported file) eqn:Hsup; cbn [fst snd].
  { split; [done|]. split; [done|]. split; done. }
  rewrite dirname_snoc, path_relative_below.
  rewrite <- (app_assoc (Cli.SOURCE_ROOT cfg) rel0 [file]).
  set (outputPath := if Cli.PRESERVE_DIR_STRUCTURE cfg
                     then Cli.OUTPUT_ROOT cfg ++ rel0 ++ [file]
                     else Cli.OUTPUT_ROOT cfg ++ [file]).
  assert (Hout : (if Cli.PRESERVE_DIR_STRUCTURE cfg
                  then path_join (Cli.OUTPUT_ROOT cfg) (rel0 ++ [file])
                  else path_join (Cli.OUTPUT_ROOT cfg) [file]) = outputPath).
  { unfold outputPath. destruct (Cli.PRESERVE_DIR_STRUCTURE cfg);
      by rewrite path_join_proper_app. }
  rewrite Hout. clear Hout.
  destruct (if Fs.existsSync (fs w) _ then _ else _) as [fs1|e] eqn:Hd;
    cbn [fst snd];
    [|split; [done|]; split; [done|]; split; [done|apply only_new_directories_refl]].
  assert (Hf1 : forall q, ~ q `prefix_of` outputPath ->
                  Fs.lookup fs1 q = Fs.lookup (fs w) q).
  { intros q Hq. eapply ensure_dir_frame; [exact Hd|].
    intros Hpre. apply Hq. by apply prefix_removelast. }
  pose proof (ensure_dir_only_new_directories _ _ _ Hd) as Hk1.
  unfold Fs.copyFileSync.
  destruct (Fs.readFileSync fs1 (Cli.SOURCE_ROOT cfg ++ rel0 ++ [file]))
    as [d|e] eqn:Hread; cbn [rbind fst snd fs set_fs];
    [|split; [exact Hf1|]; split; [intros q x _; apply Hk1|]; split; done].
  destruct (Fs.writeFileSync outputPath d fs1) as [fs2|e] eqn:Hw;
    cbn [fst snd fs set_fs];
    [|split; [exact Hf1|]; split; [intros q x _; apply Hk1|]; split; done].
  assert (Hfs : fs (if Cli.is_verbose cfg
                    then emit (Console Stdout
                                 (MCopiedUnsupported (Cli.SOURCE_ROOT cfg ++ rel0 ++ [file])
                                    outputPath)) (set_fs fs2 w)
                    else set_fs fs2 w) = fs2)
    by (by destruct (Cli.is_verbose cfg)).
  rewrite Hfs. split; [|split; [|split; [done|]]].
  - intros q Hq. rewrite (write_frame _ _ _ _ q Hw Hq). by apply Hf1.
  - intros q x Hq Hx. rewrite (write_holds _ _ _ _ q Hw).
    rewrite decide_False by done. by apply Hk1.
  - intros _. exists d. split.
    + apply read_holds in Hread. by apply Hk1.
    + rewrite (write_holds _ _ _ _ _ Hw). by rewrite decide_True.
Qed.

Lemma lookup_below (n tree : node) (root rel : path) :
  Fs.lookup n root = Some tree -> Fs.lookup n (root ++ rel) = Fs.lookup tree rel.
Proof. intros H. by rewrite lookup_app, H. Qed.

Section CliCopyWalk.

Variable cfg : Cli.Config.
Variable tree : node.

Hypothesis source_proper : proper_path (Cli.SOURCE_ROOT cfg).
Hypothesis output_proper : proper_path (Cli.OUTPUT_ROOT cfg).
Hypothesis apart : diverge (Cli.OUTPUT_ROOT cfg) (Cli.SOURCE_ROOT cfg) = true.
Hypothesis tree_proper : proper_tree tree = true.

(** A property of the file system that the copy of one file of the source
    tree keeps. *)
Variable Q : node -> Prop.

Hypothesis copy_keeps : forall rel0 file d w,
  proper_path (rel0 ++ [file]) -> supported file = false ->
  Fs.lookup (fs w) (Cli.SOURCE_ROOT cfg) = Some tree ->
  Fs.lookup tree (rel0 ++ [file]) = Some (File d) ->
  Q (fs w) ->
  Q (fs (cli_copy_file cfg (Cli.SOURCE_ROOT cfg ++ rel0) (Cli.OUTPUT_ROOT cfg) file w).2).

Lemma cli_copy_file_source (rel0 : list string) (file : string) (w : World) :
  proper_path (rel0 ++ [file]) ->
  Fs.lookup (fs w) (Cli.SOURCE_ROOT cfg) = Some tree ->
  Fs.lookup
    (fs (cli_copy_file cfg (Cli.SOURCE_ROOT cfg ++ rel0) (Cli.OUTPUT_ROOT cfg) file w).2)
    (Cli.SOURCE_ROOT cfg) = Some tree.
Proof.
  intros Hrel Hinv.
  destruct (cli_copy_file_effect cfg rel0 file w source_proper output_proper Hrel)
    as (Hframe & _).
  rewrite Hframe; [done|].
  destruct (Cli.PRESERVE_DIR_STRUCTURE cfg); by apply diverge_below.
Qed.

Lemma cli_copy_entries_rule (depth : nat) :
  (forall rel0 w,
     proper_path rel0 -> Fs.lookup (fs w) (Cli.SOURCE_ROOT cfg) = Some tree -> Q (fs w) ->
     let r := Cli.copyUnsupportedFiles depth cfg (Cli.SOURCE_ROOT cfg ++ rel0)
                (Cli.OUTPUT_ROOT cfg) w in
     Fs.lookup (fs r.2) (Cli.SOURCE_ROOT cfg) = Some tree /\ Q (fs r.2)) ->
  forall rel0 names w,
    proper_path rel0 -> Forall (fun s => proper_name s = true) names ->
    Fs.lookup (fs w) (Cli.SOURCE_ROOT cfg) = Some tree -> Q (fs w) ->
    let r := cli_copy_entries depth cfg (Cli.SOURCE_ROOT cfg ++ rel0)
               (Cli.OUTPUT_ROOT cfg) names w in
    Fs.lookup (fs r.2) (Cli.SOURCE_ROOT cfg) = Some tree /\ Q (fs r.2).
Proof.
  intros Hwalk rel0 names. induction names as [|file names IH];
    intros w Hrel0 Hnames Hinv HQ; [done|].
  inversion Hnames as [|? ? Hname Hnames']; subst.
  assert (Hrel : proper_path (rel0 ++ [file])) by (by apply proper_path_snoc).
  cbv zeta. cbn [cli_copy_entries].
  rewrite path_join_proper by (done || by apply Forall_app).
  rewrite <- (app_assoc (Cli.SOURCE_ROOT cfg) rel0 [file]).
  unfold Fs.isDirectory. rewrite (lookup_below _ tree) by done.
  destruct (Fs.lookup tree (rel0 ++ [file])) as [[d|es]|] eqn:Hl; [| |done].
  - pose proof (copy_keeps rel0 file d w Hrel) as Hkeep.
    pose proof (cli_copy_file_source rel0 file w Hrel Hinv) as Hinv1.
    destruct (cli_copy_file_effect cfg rel0 file w source_proper output_proper Hrel)
      as (_ & _ & Hsame & _).
    assert (HQ1 : Q (fs (cli_copy_file cfg (Cli.SOURCE_ROOT cfg ++ rel0)
                           (Cli.OUTPUT_ROOT cfg) file w).2)).
    { destruct (supported file) eqn:Hsup; [by rewrite Hsame|by apply Hkeep]. }
    destruct (cli_copy_file _ _ _ _ _) as [[u|e] w1]; cbn [fst snd] in *; [|done].
    by apply IH.
  - destruct (Hwalk (rel0 ++ [file]) w Hrel Hinv HQ) as [Hinv1 HQ1].
    destruct (Cli.copyUnsupportedFiles _ _ _ _ _) as [[u|e] w1]; cbn [fst snd] in *;
      [|done].
    by apply IH.
Qed.

Lemma cli_copy_walk_rule (depth : nat) :
  forall rel0 w,
    proper_path rel0 -> Fs.lookup (fs w) (Cli.SOURCE_ROOT cfg) = Some tree -> Q (fs w) ->
    let r := Cli.copyUnsupportedFiles depth cfg (Cli.SOURCE_ROOT cfg ++ rel0)
               (Cli.OUTPUT_ROOT cfg) w in
    Fs.lookup (fs r.2) (Cli.SOURCE_ROOT cfg) = Some tree /\ Q (fs r.2).
Proof.
  induction depth as [|depth IH]; intros rel0 w Hrel0 Hinv HQ; [done|].
  cbv zeta. rewrite cli_copy_dir.
  destruct (cli_turns_away cfg _); [done|].
  unfold Fs.readdirSync. rewrite (lookup_below _ tree) by done.
  destruct (Fs.lookup tree rel0) as [[d|es]|] eqn:Hl; [done| |done].
  apply (cli_copy_entries_rule depth IH); try done.
  destruct (lookup_proper tree rel0 (Dir es) tree_proper Hl) as [_ Hes].
  apply List.Forall_forall. intros name Hin.
  apply in_map_iff in Hin as ([name' c] & <- & Hin).
  by destruct (proper_tree_entry es name' c Hes Hin).
Qed.

End CliCopyWalk.

Section CliCopyTarget.

Variable cfg : Cli.Config.
Variable tree : node.

Hypothesis source_proper : proper_path (Cli.SOURCE_ROOT cfg).
Hypothesis output_proper : proper_path (Cli.OUTPUT_ROOT cfg).
Hypothesis apart : diverge (Cli.OUTPUT_ROOT cfg) (Cli.SOURCE_ROOT cfg) = true.
Hypothesis tree_proper : proper_tree tree = true.
Hypothesis preserve : Cli.PRESERVE_DIR_STRUCTURE cfg = true.

(** One file of the source tree that is not compressed. *)
Variable relT : list string.
Variable nameT : string.
Variable dT : bytes.

Hypothesis target_file : Fs.lookup tree (relT ++ [nameT]) = Some (File dT).
Hypothesis target_kind : supported nameT = false.

Let copied (n : node) : Prop :=
  holds n (Cli.OUTPUT_ROOT cfg ++ relT ++ [nameT]) = Some (Some dT).

Lemma cli_copy_file_target (rel0 : list string) (file : string) (d : bytes) (w : World) :
  proper_path (rel0 ++ [file]) -> supported file = false ->
  Fs.lookup (fs w) (Cli.SOURCE_ROOT cfg) = Some tree ->
  Fs.lookup tree (rel0 ++ [file]) = Some (File d) ->
  let r := cli_copy_file cfg (Cli.SOURCE_ROOT cfg ++ rel0) (Cli.OUTPUT_ROOT cfg) file w in
  (copied (fs w) -> copied (fs r.2))
  /\ (rel0 ++ [file] = relT ++ [nameT] -> forall u, r.1 = Ok u -> copied (fs r.2)).
Proof.
  intros Hrel Hsup Hinv Hl. cbv zeta.
  destruct (cli_copy_file_effect cfg rel0 file w source_proper output_proper Hrel)
    as (_ & Hkeep & _ & Hres).
  rewrite preserve in Hkeep, Hres.
  assert (Hsrc : holds (fs w) (Cli.SOURCE_ROOT cfg ++ rel0 ++ [file]) = Some (Some d)).
  { unfold holds. by rewrite (lookup_below _ tree), Hl. }
  assert (Hdone : rel0 ++ [file] = relT ++ [nameT] ->
            forall u, (cli_copy_file cfg (Cli.SOURCE_ROOT cfg ++ rel0)
                         (Cli.OUTPUT_ROOT cfg) file w).1 = Ok u ->
            copied (fs (cli_copy_file cfg (Cli.SOURCE_ROOT cfg ++ rel0)
                          (Cli.OUTPUT_ROOT cfg) file w).2)).
  { intros Heq u Hu. rewrite Hu in Hres.
    destruct (Hres Hsup) as (d' & Hd' & Hout).
    rewrite Hsrc in Hd'. injection Hd' as <-.
    rewrite Heq in Hl. rewrite target_file in Hl. injection Hl as ->.
    unfold copied. by rewrite <- Heq. }
  split; [|exact Hdone].
  intros Hc.
  destruct (decide (rel0 ++ [file] = relT ++ [nameT])) as [Heq|Hne].
  - destruct (cli_copy_file _ _ _ _ _).1 as [u|e] eqn:Hr.
    + by apply (Hdone Heq u).
    + destruct Hres as [Hk _]. by apply Hk.
  - apply Hkeep; [|done]. intros H. apply app_inv_head in H. by apply Hne.
Qed.

Lemma cli_copy_walk_target (depth : nat) (rel0 : list string) (w : World) :
  proper_path rel0 -> Fs.lookup (fs w) (Cli.SOURCE_ROOT cfg) = Some tree ->
  copied (fs w) ->
  let r := Cli.copyUnsupportedFiles depth cfg (Cli.SOURCE_ROOT cfg ++ rel0)
             (Cli.OUTPUT_ROOT cfg) w in
  Fs.lookup (fs r.2) (Cli.SOURCE_ROOT cfg) = Some tree /\ copied (fs r.2).
Proof.
  apply (cli_copy_walk_rule cfg tree source_proper output_proper apart tree_proper copied).
  intros r0 file d w0 Hrel Hsup Hinv Hl Hc.
  by apply (cli_copy_file_target r0 file d w0 Hrel Hsup Hinv Hl).
Qed.

Lemma cli_copy_entries_target (depth : nat) (rel0 : list string) (names : list string)
    (w : World) :
  proper_path rel0 -> Forall (fun s => proper_name s = true) names ->
  Fs.lookup (fs w) (Cli.SOURCE_ROOT cfg) = Some tree -> copied (fs w) ->
  let r := cli_copy_entries depth cfg (Cli.SOURCE_ROOT cfg ++ rel0)
             (Cli.OUTPUT_ROOT cfg) names w in
  Fs.lookup (fs r.2) (Cli.SOURCE_ROOT cfg) = Some tree /\ copied (fs r.2).
Proof.
  apply (cli_copy_entries_rule cfg tree source_proper output_proper apart copied).
  - intros r0 file d w0 Hrel Hsup Hinv Hl Hc.
    by apply (cli_copy_file_target r0 file d w0 Hrel Hsup Hinv Hl).
  - intros r0 w0. apply cli_copy_walk_target.
Qed.

Lemma cli_copy_walk_source (depth : nat) (rel0 : list string) (w : World) :
  proper_path rel0 -> Fs.lookup (fs w) (Cli.SOURCE_ROOT cfg) = Some tree ->
  Fs.lookup (fs (Cli.copyUnsupportedFiles depth cfg (Cli.SOURCE_ROOT cfg ++ rel0)
                   (Cli.OUTPUT_ROOT cfg) w).2) (Cli.SOURCE_ROOT cfg) = Some tree.
Proof.
  intros Hrel Hinv.
  by apply (cli_copy_walk_rule cfg tree source_proper output_proper apart tree_proper
              (fun _ => True)).
Qed.

Lemma lookup_through_dir (n : node) (p q : path) (c : node) :
  Fs.lookup n (p ++ q) = Some c -> q <> [] ->
  exists es, Fs.lookup n p = Some (Dir es) /\ Fs.lookup (Dir es) q = Some c.
Proof.
  intros Hl Hq. rewrite lookup_app in Hl.
  destruct (Fs.lookup n p) as [[d|es]|]; [by destruct q| |done].
  by exists es.
Qed.

(** Where the walk has to go next to reach the file: its own name in the
    directory that holds it, the name of the next directory above. *)
Lemma target_next (rel0 rel1 : list string) :
  relT = rel0 ++ rel1 ->
  match rel1 with
  | [] => Fs.lookup tree (rel0 ++ [nameT]) = Some (File dT)
  | x :: r => exists es, Fs.lookup tree (rel0 ++ [x]) = Some (Dir es)
  end.
Proof.
  intros Heq. pose proof target_file as Ht. rewrite Heq in Ht.
  destruct rel1 as [|x r].
  - by rewrite app_nil_r in Ht.
  - replace ((rel0 ++ x :: r) ++ [nameT]) with ((rel0 ++ [x]) ++ (r ++ [nameT])) in Ht
      by (by rewrite <- !app_assoc).
    apply lookup_through_dir in Ht as (es & Hes & _); [by exists es|by destruct r].
Qed.

Lemma cli_copy_entries_reach (depth : nat) :
  (forall rel0 rel1 w w',
     relT = rel0 ++ rel1 -> proper_path rel0 ->
     Fs.lookup (fs w) (Cli.SOURCE_ROOT cfg) = Some tree ->
     Forall (cli_ok cfg) (chain (Cli.SOURCE_ROOT cfg ++ rel0) rel1) ->
     Cli.copyUnsupportedFiles depth cfg (Cli.SOURCE_ROOT cfg ++ rel0)
       (Cli.OUTPUT_ROOT cfg) w = (Ok tt, w') ->
     copied (fs w')) ->
  forall rel0 rel1 names w w',
    relT = rel0 ++ rel1 -> proper_path rel0 ->
    Forall (fun s => proper_name s = true) names ->
    Fs.lookup (fs w) (Cli.SOURCE_ROOT cfg) = Some tree ->
    Forall (cli_ok cfg)
      (match rel1 with
       | [] => []
       | x :: r => chain (Cli.SOURCE_ROOT cfg ++ (rel0 ++ [x])) r
       end) ->
    In (match rel1 with [] => nameT | x :: _ => x end) names ->
    cli_copy_entries depth cfg (Cli.SOURCE_ROOT cfg ++ rel0) (Cli.OUTPUT_ROOT cfg)
      names w = (Ok tt, w') ->
    copied (fs w').
Proof.
  intros Hwalk rel0 rel1 names. induction names as [|file names IH];
    intros w w' Heq Hrel0 Hnames Hinv Hchain Hin Hrun; [destruct Hin|].
  apply Forall_cons in Hnames as [Hname Hnames'].
  assert (Hrel : proper_path (rel0 ++ [file])) by (by apply proper_path_snoc).
  pose proof (target_next rel0 rel1 Heq) as Hnext.
  cbn [cli_copy_entries] in Hrun.
  rewrite path_join_proper in Hrun by (done || by apply Forall_app).
  rewrite <- (app_assoc (Cli.SOURCE_ROOT cfg) rel0 [file]) in Hrun.
  unfold Fs.isDirectory in Hrun. rewrite (lookup_below _ tree) in Hrun by done.
  destruct (Fs.lookup tree (rel0 ++ [file])) as [[d|es]|] eqn:Hl; [| |done].
  - (* a regular file *)
    pose proof (cli_copy_file_source cfg tree source_proper output_proper apart
                  rel0 file w Hrel Hinv) as Hinv1.
    destruct (supported file) eqn:Hsup.
    + (* compressed, not copied *)
      assert (Hsame : cli_copy_file cfg (Cli.SOURCE_ROOT cfg ++ rel0)
                        (Cli.OUTPUT_ROOT cfg) file w = (Ok tt, w))
        by (unfold cli_copy_file; by rewrite Hsup).
      rewrite Hsame in Hrun.
      apply (IH w w' Heq Hrel0 Hnames' Hinv Hchain); [|done].
      destruct Hin as [Hfile|Hin]; [|done]. exfalso.
      destruct rel1 as [|x r].
      * subst file. by rewrite target_kind in Hsup.
      * subst file. destruct Hnext as [es Hes]. by rewrite Hes in Hl.
    + destruct (cli_copy_file_target rel0 file d w Hrel Hsup Hinv Hl) as [Hstab Hdone].
      destruct (cli_copy_file cfg (Cli.SOURCE_ROOT cfg ++ rel0) (Cli.OUTPUT_ROOT cfg)
                  file w) as [[u|e] w1] eqn:Hcopy; [|done].
      cbn [fst snd] in *.
      destruct Hin as [Hfile|Hin].
      * destruct rel1 as [|x r];
          [|subst file; destruct Hnext as [es Hes]; by rewrite Hes in Hl].
        subst file. rewrite app_nil_r in Heq. subst rel0.
        assert (Hc1 : copied (fs w1)) by (by apply (Hdone eq_refl u)).
        pose proof (cli_copy_entries_target depth relT names w1 Hrel0 Hnames' Hinv1 Hc1)
          as [_ Hc']. by rewrite Hrun in Hc'.
      * by apply (IH w1 w' Heq Hrel0 Hnames' Hinv1 Hchain).
  - (* a directory *)
    pose proof (cli_copy_walk_source depth (rel0 ++ [file]) w Hrel Hinv) as Hinv1.
    destruct (Cli.copyUnsupportedFiles depth cfg (Cli.SOURCE_ROOT cfg ++ rel0 ++ [file])
                (Cli.OUTPUT_ROOT cfg) w) as [[u|e] w1] eqn:Hsub; [|done].
    cbn [fst snd] in *.
    destruct Hin as [Hfile|Hin]; [|by apply (IH w1 w' Heq Hrel0 Hnames' Hinv1 Hchain)].
    destruct rel1 as [|x r]; [subst file; by rewrite Hnext in Hl|].
    subst file. destruct u.
    assert (Hc1 : copied (fs w1)).
    { apply (Hwalk (rel0 ++ [x]) r w w1); try done.
      by rewrite <- app_assoc. }
    pose proof (cli_copy_entries_target depth rel0 names w1 Hrel0 Hnames' Hinv1 Hc1)
      as [_ Hc']. by rewrite Hrun in Hc'.
Qed.

Lemma cli_copy_walk_reach (depth : nat) :
  forall rel0 rel1 w w',
    relT = rel0 ++ rel1 -> proper_path rel0 ->
    Fs.lookup (fs w) (Cli.SOURCE_ROOT cfg) = Some tree ->
    Forall (cli_ok cfg) (chain (Cli.SOURCE_ROOT cfg ++ rel0) rel1) ->
    Cli.copyUnsupportedFiles depth cfg (Cli.SOURCE_ROOT cfg ++ rel0)
      (Cli.OUTPUT_ROOT cfg) w = (Ok tt, w') ->
    copied (fs w').
Proof.
  induction depth as [|depth IH]; intros rel0 rel1 w w' Heq Hrel0 Hinv Hchain Hrun;
    [done|].
  rewrite cli_copy_dir in Hrun.
  assert (Hok : cli_ok cfg (Cli.SOURCE_ROOT cfg ++ rel0))
    by (destruct rel1; by inversion Hchain).
  apply cli_turns_away_ok in Hok. rewrite Hok in Hrun.
  unfold Fs.readdirSync in Hrun. rewrite (lookup_below _ tree) in Hrun by done.
  pose proof target_file as Ht. rewrite Heq, <- app_assoc in Ht.
  apply lookup_through_dir in Ht as (es & Hes & Hbelow); [|by destruct rel1].
  rewrite Hes in Hrun.
  destruct (lookup_proper tree rel0 (Dir es) tree_proper Hes) as [_ Hesp].
  apply (cli_copy_entries_reach depth IH rel0 rel1 (map fst es) w w'); try done.
  - apply List.Forall_forall. intros name Hin.
    apply in_map_iff in Hin as ([name' c] & <- & Hin).
    by destruct (proper_tree_entry es name' c Hesp Hin).
  - destruct rel1 as [|x r]; [constructor|].
    simpl in Hchain. inversion Hchain as [|? ? _ Hc]; subst.
    by rewrite <- app_assoc in Hc.
  - destruct rel1 as [|x r]; simpl in Hbelow.
    + destruct (Fs.assoc nameT es) as [c|] eqn:Ha; [|done].
      apply assoc_In in Ha. change nameT with (fst (nameT, c)). by apply in_map.
    + destruct (Fs.assoc x es) as [c|] eqn:Ha; [|done].
      apply assoc_In in Ha. change x with (fst (x, c)). by apply in_map.
Qed.

End CliCopyTarget.

Lemma cli_copy_walk_quiet (cfg : Cli.Config) (tree : node) (depth : nat) (w : World) :
  proper_path (Cli.SOURCE_ROOT cfg) -> proper_path (Cli.OUTPUT_ROOT cfg) ->
  diverge (Cli.OUTPUT_ROOT cfg) (Cli.SOURCE_ROOT cfg) = true ->
  proper_tree tree = true ->
  Fs.lookup (fs w) (Cli.SOURCE_ROOT cfg) = Some tree ->
  let r := Cli.copyUnsupportedFiles depth cfg (Cli.SOURCE_ROOT cfg)
             (Cli.OUTPUT_ROOT cfg) w in
  same_outside (Cli.OUTPUT_ROOT cfg) (fs w) (fs r.2)
  /\ (forall q x, supported (path_basename q) = true ->
        holds (fs w) q = Some x -> holds (fs r.2) q = Some x).
Proof.
  intros HS HO Hapart Htree Hinv. cbv zeta.
  pose proof (cli_copy_walk_rule cfg tree HS HO Hapart Htree
                (fun n => same_outside (Cli.OUTPUT_ROOT cfg) (fs w) n
                          /\ forall q x, supported (path_basename q) = true ->
                               holds (fs w) q = Some x -> holds n q = Some x))
    as Hrule.
  assert (Hquiet : let r := Cli.copyUnsupportedFiles depth cfg (Cli.SOURCE_ROOT cfg ++ [])
                              (Cli.OUTPUT_ROOT cfg) w in
            Fs.lookup (fs r.2) (Cli.SOURCE_ROOT cfg) = Some tree
            /\ same_outside (Cli.OUTPUT_ROOT cfg) (fs w) (fs r.2)
               /\ forall q x, supported (path_basename q) = true ->
                    holds (fs w) q = Some x -> holds (fs r.2) q = Some x);
    [|rewrite app_nil_r in Hquiet; exact (proj2 Hquiet)].
  apply Hrule; [|constructor|done|split; [apply same_outside_refl|done]].
  clear Hrule. intros rel0 file d w0 Hrel Hsup Hinv0 Hl [Hout Hkeep].
  destruct (cli_copy_file_effect cfg rel0 file w0 HS HO Hrel) as (Hframe & Hk & _).
  split.
  - intros q Hq. rewrite Hframe; [by apply Hout|].
    destruct (Cli.PRESERVE_DIR_STRUCTURE cfg); by apply diverge_below.
  - intros q x Hq Hx. apply Hk; [|by apply Hkeep].
    intros ->. destruct (Cli.PRESERVE_DIR_STRUCTURE cfg);
      rewrite ?app_assoc, basename_snoc in Hq; by rewrite Hq in Hsup.
Qed.

(** ** Further properties: the copy of the files that are not compressed *)

(** With the directory structure preserved and the output root apart from
    the source root, a call of [copyUnsupportedFiles] on the source root
    that returns has copied every regular file of the source tree whose
    extension is not supported, and that sits below directories none of
    which the walk turns away, to the same relative path below the output
    root, with its content. *)
Theorem copy_step_mirrors_the_other_files (cfg : Cli.Config) (tree : node)
    (depth : nat) (w w' : World) (rel : list string) (name : string) (d : bytes) :
  proper_path (Cli.SOURCE_ROOT cfg) -> proper_path (Cli.OUTPUT_ROOT cfg) ->
  diverge (Cli.OUTPUT_ROOT cfg) (Cli.SOURCE_ROOT cfg) = true ->
  Cli.PRESERVE_DIR_STRUCTURE cfg = true ->
  Fs.lookup (fs w) (Cli.SOURCE_ROOT cfg) = Some tree -> proper_tree tree = true ->
  Cli.copyUnsupportedFiles depth cfg (Cli.SOURCE_ROOT cfg) (Cli.OUTPUT_ROOT cfg) w
  = (Ok tt, w') ->
  Fs.lookup tree (rel ++ [name]) = Some (File d) -> supported name = false ->
  Forall (cli_ok cfg) (chain (Cli.SOURCE_ROOT cfg) rel) ->
  Fs.readFileSync (fs w') (Cli.OUTPUT_ROOT cfg ++ rel ++ [name]) = Ok d
  /\ Fs.lookup (fs w') (Cli.SOURCE_ROOT cfg) = Some tree.
Proof.
  intros HS HO Hapart Hpres Hinv Htree Hrun Hl Hsup Hchain.
  pose proof (cli_copy_walk_source cfg tree HS HO Hapart Htree depth [] w
                ltac:(constructor) Hinv) as Hsrc.
  rewrite <- (app_nil_r (Cli.SOURCE_ROOT cfg)) in Hrun, Hchain.
  rewrite Hrun in Hsrc. split; [|done].
  apply read_holds.
  apply (cli_copy_walk_reach cfg tree HS HO Hapart Htree Hpres rel name d Hl Hsup
           depth [] rel w w'); try done. constructor.
Qed.

Lemma copy_step_witness :
  let cfg := Cli.CONFIG ["app"] 4 in
  let tree := Dir [("a.png", File [x01]);
                   ("logo.svg", File [x02]);
                   ("docs", Dir [("notes.txt", File [x03; x04])])] in
  let w := {| fs := Dir [("app", Dir [("static", tree)])]; trace := [] |} in
  let r := Cli.copyUnsupportedFiles 5 cfg (Cli.SOURCE_ROOT cfg) (Cli.OUTPUT_ROOT cfg) w in
  Fs.readFileSync (fs r.2) (Cli.OUTPUT_ROOT cfg ++ ["docs"] ++ ["notes.txt"])
  = Ok [x03; x04]
  /\ Fs.lookup (fs r.2) (Cli.SOURCE_ROOT cfg) = Some tree.
Proof.
  intros cfg tree w r.
  apply (copy_step_mirrors_the_other_files cfg tree 5 w r.2 ["docs"] "notes.txt" [x03; x04]).
  - repeat constructor.
  - repeat constructor.
  - reflexivity.
  - reflexivity.
  - reflexivity.
  - reflexivity.
  - vm_compute. reflexivity.
  - reflexivity.
  - reflexivity.
  - repeat constructor; try done; by vm_compute.
Defined.


(** ** The normal pass, step by step *)

Lemma diverge_irrefl (p : path) : diverge p p = false.
Proof. induction p as [|a p IH]; [done|]. simpl. by rewrite decide_True. Qed.

Lemma diverge_neq (p q : path) : diverge p q = true -> p <> q.
Proof. intros Hd ->. by rewrite diverge_irrefl in Hd. Qed.

Lemma copy_failed_outside (cfg : Cli.Config) (fl : list Failure) (w : World) (q : path) :
  Forall (fun g => ~ q `prefix_of`
                     path_join (Cli.SAVE_FAILED_TO cfg) [path_basename (f_filePath g)]) fl ->
  Fs.lookup (fs (Cli.copy_failed cfg fl w)) q = Fs.lookup (fs w) q.
Proof.
  revert w. induction fl as [|f fl IH]; intros w Hall; [done|].
  apply Forall_cons in Hall as [Hf Hfl].
  cbn [Cli.copy_failed]. cbv zeta.
  destruct (Fs.copyFileSync _ _ _) as [fs'|e] eqn:Hcopy; rewrite IH by done.
  - unfold Fs.copyFileSync in Hcopy.
    destruct (Fs.readFileSync (fs w) (f_filePath f)) as [d|]; [|done].
    cbn [rbind] in Hcopy.
    assert (Hfs : fs (if Cli.is_verbose cfg
                      then emit (Console Stdout
                                   (MCopiedFailed (f_filePath f)
                                      (path_join (Cli.SAVE_FAILED_TO cfg)
                                         [path_basename (f_filePath f)])))
                             (set_fs fs' w)
                      else set_fs fs' w) = fs')
      by (by destruct (Cli.is_verbose cfg)).
    rewrite Hfs. by apply (write_frame _ _ _ _ q Hcopy).
  - done.
Qed.

Lemma image_below_basename (root f : path) :
  image_below root f -> f <> [] /\ proper_name (path_basename f) = true
                        /\ supported (path_basename f) = true.
Proof.
  intros (rel & name & -> & Hp & Hs).
  rewrite !app_assoc, basename_snoc.
  apply Forall_app in Hp as [_ Hn]. inversion Hn; subst.
  split; [|done]. by destruct (root ++ rel).
Qed.

(** Step 5 of [compressFolder]: the failed-files directory is created and
    the failed files are copied into it; nothing changes at the paths that
    part ways with that directory. *)
Lemma save_failed_outside (cfg : Cli.Config) (res : Results) (w : World)
    (files : list path) :
  proper_path (Cli.SAVE_FAILED_TO cfg) ->
  Forall (image_below (Cli.SOURCE_ROOT cfg)) files ->
  (forall g, In g (failed res) -> In (f_filePath g) files) ->
  same_outside (Cli.SAVE_FAILED_TO cfg) (fs w) (fs (Cli.save_failed cfg res w).2).
Proof.
  intros HF Hfiles Hin q Hq. unfold Cli.save_failed.
  destruct (failed res) as [|g0 fl] eqn:Hfl; [done|].
  destruct (if Fs.existsSync (fs w) _ then _ else _) as [fs1|e] eqn:Hd; [|done].
  cbn [snd fs emit].
  rewrite copy_failed_outside.
  - cbn [fs set_fs]. eapply ensure_dir_frame; [exact Hd|].
    by apply diverge_not_prefix.
  - apply List.Forall_forall. intros g Hg.
    rewrite List.Forall_forall in Hfiles.
    destruct (image_below_basename _ _ (Hfiles _ (Hin g Hg))) as (_ & Hb & _).
    rewrite path_join_proper by done. by apply diverge_below.
Qed.

(** The files step 5 writes are below the failed-files directory; every
    other path holds what it held. *)
Lemma save_failed_keeps (cfg : Cli.Config) (res : Results) (w : World)
    (files : list path) (q : path) (x : option bytes) :
  proper_path (Cli.SAVE_FAILED_TO cfg) ->
  Forall (image_below (Cli.SOURCE_ROOT cfg)) files ->
  (forall g, In g (failed res) -> In (f_filePath g) files) ->
  diverge q (Cli.SAVE_FAILED_TO cfg) = true ->
  holds (fs w) q = Some x -> holds (fs (Cli.save_failed cfg res w).2) q = Some x.
Proof.
  intros HF Hfiles Hin Hq Hx. unfold Cli.save_failed.
  destruct (failed res) as [|g0 fl] eqn:Hfl; [done|].
  destruct (if Fs.existsSync (fs w) _ then _ else _) as [fs1|e] eqn:Hd; [|done].
  cbn [snd fs emit].
  rewrite copy_failed_frame.
  - cbn [fs set_fs]. by apply (ensure_dir_only_new_directories _ _ _ Hd).
  - apply List.Forall_forall. intros g Hg.
    rewrite List.Forall_forall in Hfiles.
    destruct (image_below_basename _ _ (Hfiles _ (Hin g Hg))) as (_ & Hb & _).
    rewrite path_join_proper by done.
    apply diverge_neq. by apply diverge_app_r.
Qed.

Lemma cli_run_workers_failed_in (cfg : Cli.Config) (adapter : Adapter)
    (sched : nat -> nat) (outputRoot : path) (isRetry : bool) (files : list path)
    (w : World) (g : Failure) :
  In g (failed (results (shared
          (Cli.run_workers cfg adapter sched outputRoot isRetry files w).2))) ->
  In (f_filePath g) files.
Proof.
  intros Hg.
  destruct (cli_run_workers_join cfg adapter outputRoot isRetry files sched w)
    as (_ & _ & _ & Hacc & _).
  apply list_elem_of_In. rewrite <- Hacc. apply list_elem_of_In.
  unfold accounted, recorded. apply in_or_app. right. apply in_or_app. right.
  apply in_or_app. right. by apply in_map.
Qed.

Lemma report_fs (res : Results) (w : World) : fs (Cli.report res w) = fs w.
Proof. done. Qed.

Section CliNormalPass.

Variable cfg : Cli.Config.
Variable ps : Pass.
Variable w : World.
Variable tree : node.

Hypothesis source_tree : Fs.lookup (fs w) (Cli.SOURCE_ROOT cfg) = Some tree.

(** A property of the file system and of the success records that every
    step of the normal pass keeps. *)
Variable T : node -> list Success -> Prop.

Hypothesis T_start : T (fs w) [].

Hypothesis T_mkdir : forall n n',
  T n [] ->
  (if Fs.existsSync n (Cli.OUTPUT_ROOT cfg) then Ok n
   else Fs.mkdirSync (Cli.OUTPUT_ROOT cfg) n) = Ok n' ->
  T n' [].

Hypothesis T_run : forall allFiles w1,
  Cli.getAllImageFiles cfg (Cli.SOURCE_ROOT cfg) tree = Ok allFiles ->
  T (fs w1) [] ->
  let r := Cli.run_workers cfg (pass_adapter ps) (pass_sched ps) (Cli.OUTPUT_ROOT cfg)
             false allFiles w1 in
  T (fs (world (shared r.2))) (success (results (shared r.2))).

Hypothesis T_save : forall allFiles res w1,
  Cli.getAllImageFiles cfg (Cli.SOURCE_ROOT cfg) tree = Ok allFiles ->
  (forall g, In g (failed res) -> In (f_filePath g) allFiles) ->
  T (fs w1) (success res) ->
  T (fs (Cli.save_failed cfg res w1).2) (success res).

Hypothesis T_copy : forall succ w1,
  T (fs w1) succ ->
  T (fs (Cli.copyUnsupportedFiles (pass_stack ps) cfg (Cli.SOURCE_ROOT cfg)
           (Cli.OUTPUT_ROOT cfg) w1).2) succ.

Lemma cli_compressFolder_rule :
  match Cli.compressFolder cfg ps w with
  | (Ok (Some res), w') => T (fs w') (success res)
  | (_, w') => exists succ, T (fs w') succ
  end.
Proof.
  unfold Cli.compressFolder. cbv zeta. cbn [fs emit]. rewrite source_tree.
  destruct (Cli.getAllImageFiles cfg (Cli.SOURCE_ROOT cfg) tree) as [allFiles|e] eqn:Hscan;
    [|by exists []].
  set (w1 := emit (Scan ScanImages _) _).
  assert (Hcopy : forall (res : option Results) w2 succ,
            T (fs w2) succ ->
            (forall r, res = Some r -> succ = success r) ->
            match (match (if Cli.COPY_UNSUPPORTED_TO_OUTPUT cfg
                          then Cli.copyUnsupportedFiles (pass_stack ps) cfg
                                 (Cli.SOURCE_ROOT cfg) (Cli.OUTPUT_ROOT cfg)
                                 (emit (Scan ScanUnsupported (Cli.SOURCE_ROOT cfg)) w2)
                          else (Ok tt, w2)) with
                   | (Ok _, w3) =>
                       (Ok res, emit (Console Stdout (MFinished (Cli.OUTPUT_ROOT cfg)))
                                  (emit (Console Stdout MCopyUnsupportedDone) w3))
                   | (Throw e, w3) => (Throw e, w3)
                   end) with
            | (Ok (Some r), w') => T (fs w') (success r)
            | (_, w') => exists succ, T (fs w') succ
            end).
  { intros res w2 succ HT Hres.
    assert (HT3 : T (fs (if Cli.COPY_UNSUPPORTED_TO_OUTPUT cfg
                         then Cli.copyUnsupportedFiles (pass_stack ps) cfg
                                (Cli.SOURCE_ROOT cfg) (Cli.OUTPUT_ROOT cfg)
                                (emit (Scan ScanUnsupported (Cli.SOURCE_ROOT cfg)) w2)
                         else (Ok tt, w2)).2) succ).
    { destruct (Cli.COPY_UNSUPPORTED_TO_OUTPUT cfg); [|done].
      by apply (T_copy succ (emit (Scan ScanUnsupported (Cli.SOURCE_ROOT cfg)) w2)). }
    destruct (if Cli.COPY_UNSUPPORTED_TO_OUTPUT cfg then _ else _) as [[u|e] w3];
      cbn [fst snd fs emit] in *; [|by exists succ].
    destruct res as [r|]; [|by exists succ]. by rewrite <- (Hres r eq_refl). }
  destruct allFiles as [|f0 fl].
  { apply (Hcopy None _ []); [done|done]. }
  unfold Cli.compress_images.
  destruct (if Fs.existsSync (fs w1) _ then _ else _) as [fs1|e] eqn:Hd;
    [|by exists []].
  assert (HT1 : T fs1 []) by (by apply (T_mkdir (fs w1) fs1)).
  pose proof (T_run (f0 :: fl) (set_fs fs1 w1) eq_refl HT1) as HT2. cbv zeta in HT2.
  pose proof (cli_run_workers_failed_in cfg (pass_adapter ps) (pass_sched ps)
                (Cli.OUTPUT_ROOT cfg) false (f0 :: fl) (set_fs fs1 w1)) as Hfailed.
  destruct (Cli.run_workers cfg (pass_adapter ps) (pass_sched ps) (Cli.OUTPUT_ROOT cfg)
              false (f0 :: fl) (set_fs fs1 w1)) as [[u|e] p];
    cbn [fst snd] in *; [|by eexists].
  pose proof (T_save (f0 :: fl) (results (shared p)) (world (shared p)) eq_refl Hfailed HT2)
    as HT3.
  destruct (Cli.save_failed cfg (results (shared p)) (world (shared p))) as [[u'|e] w2];
    cbn [fst snd] in *; [|by eexists].
  apply (Hcopy (Some (results (shared p))) _ (success (results (shared p)))).
  - by rewrite report_fs.
  - by intros r [= <-].
Qed.

End CliNormalPass.

Lemma cli_scan_images_below (cfg : Cli.Config) (tree : node) (allFiles : list path) :
  proper_path (Cli.SOURCE_ROOT cfg) -> proper_tree tree = true ->
  distinct_names tree = true ->
  Cli.getAllImageFiles cfg (Cli.SOURCE_ROOT cfg) tree = Ok allFiles ->
  NoDup allFiles /\ Forall (image_below (Cli.SOURCE_ROOT cfg)) allFiles.
Proof.
  intros HS Htree Hd Hscan. split; [by eapply cli_scan_nodup|].
  apply List.Forall_forall. intros f Hf.
  destruct (cli_scan_found cfg tree _ _ HS Htree Hd Hscan f Hf)
    as (rel & name & d & -> & Hl & Hsup & _).
  exists rel, name. split; [done|]. split; [|done].
  by destruct (lookup_proper tree _ _ Htree Hl).
Qed.

Lemma answer_outside (cfg : Cli.Config) (files : list path) (file : path) (size : nat)
    (o : NetOutcome) (w0 : World) (q : path) :
  proper_path (Cli.OUTPUT_ROOT cfg) ->
  Forall (image_below (Cli.SOURCE_ROOT cfg)) files -> In file files ->
  diverge (Cli.OUTPUT_ROOT cfg) q = true ->
  Fs.lookup (fs (attempt_receive (Cli.env_of cfg) (Cli.OUTPUT_ROOT cfg) file size o w0).2) q
  = Fs.lookup (fs w0) q.
Proof.
  intros HO Hfiles Hin Hq.
  rewrite List.Forall_forall in Hfiles.
  destruct (Hfiles _ Hin) as (rel & name & -> & Hp & _).
  destruct (attempt_receive_writes (Cli.env_of cfg) (Cli.OUTPUT_ROOT cfg)
              (Cli.SOURCE_ROOT cfg ++ rel ++ [name]) size o w0) as (Hframe & _).
  apply Hframe.
  change (Cli.SOURCE_ROOT cfg) with (env_sourceRoot (Cli.env_of cfg)).
  rewrite output_path_below by done.
  destruct (env_preserve (Cli.env_of cfg)); by apply diverge_below.
Qed.

(** ** Further properties: the normal pass as a whole *)


Lemma artifact_present_keeps (sourceRoot outputRoot : path) (n n' : node) (s : Success) :
  (forall d, holds n (s_outputPath s) = Some (Some d) ->
             holds n' (s_outputPath s) = Some (Some d)) ->
  artifact_present sourceRoot outputRoot n s ->
  artifact_present sourceRoot outputRoot n' s.
Proof.
  intros Hk (rel & name & data & H1 & H2 & H3 & H4 & H5).
  exists rel, name, data. repeat split; try done.
  apply read_holds. apply Hk. by apply read_holds.
Qed.

(** With the directory structure preserved and the source root, the output
    root and the failed-files directory apart from each other, a normal
    pass that returns leaves, for every success it reports, the artifact
    in place: at the relative path of the source file below the output
    root there is a file of the recorded compressed size.  Neither the
    other workers, nor the copy of the failed files, nor the copy of the
    files that are not compressed write over it. *)
Theorem normal_pass_keeps_every_artifact (cfg : Cli.Config) (ps : Pass)
    (w : World) (tree : node) (res : Results) (w' : World) :
  proper_path (Cli.SOURCE_ROOT cfg) -> proper_path (Cli.OUTPUT_ROOT cfg) ->
  proper_path (Cli.SAVE_FAILED_TO cfg) ->
  diverge (Cli.OUTPUT_ROOT cfg) (Cli.SOURCE_ROOT cfg) = true ->
  diverge (Cli.SAVE_FAILED_TO cfg) (Cli.SOURCE_ROOT cfg) = true ->
  diverge (Cli.OUTPUT_ROOT cfg) (Cli.SAVE_FAILED_TO cfg) = true ->
  Cli.PRESERVE_DIR_STRUCTURE cfg = true ->
  Fs.lookup (fs w) (Cli.SOURCE_ROOT cfg) = Some tree ->
  proper_tree tree = true -> distinct_names tree = true ->
  Cli.compressFolder cfg ps w = (Ok (Some res), w') ->
  Forall (artifact_present (Cli.SOURCE_ROOT cfg) (Cli.OUTPUT_ROOT cfg) (fs w'))
    (success res).
Proof.
  intros HS HO HF HOS HFS HOF Hpres Hsrc Htree Hdist Hrun.
  set (T := fun (n : node) (succ : list Success) =>
              Fs.lookup n (Cli.SOURCE_ROOT cfg) = Some tree
              /\ Forall (artifact_present (Cli.SOURCE_ROOT cfg) (Cli.OUTPUT_ROOT cfg) n)
                   succ).
  pose proof (cli_compressFolder_rule cfg ps w tree Hsrc T) as Hrule.
  assert (Hgoal : match Cli.compressFolder cfg ps w with
                  | (Ok (Some res), w') => T (fs w') (success res)
                  | (_, w') => exists succ, T (fs w') succ
                  end); [|rewrite Hrun in Hgoal; exact (proj2 Hgoal)].
  apply Hrule; clear Hrule.
  - by split.
  - intros n n' [HT _] Hd. split; [|constructor]. rewrite <- HT.
    eapply ensure_dir_frame; [exact Hd|]. by apply diverge_not_prefix.
  - intros allFiles w1 Hscan HT.
    destruct (cli_scan_images_below cfg tree allFiles HS Htree Hdist Hscan)
      as [Hnd Himg].
    apply (cli_normal_run_rule cfg (pass_adapter ps) (Cli.OUTPUT_ROOT cfg) allFiles
             Hnd T); [|done].
    intros w0 succ file size o Hin Hfresh [HT0 Hart]. split.
    + rewrite <- HT0. by eapply answer_outside.
    + pose proof Himg as Himg'. rewrite List.Forall_forall in Himg'.
      destruct (Himg' _ Hin) as (rel & name & -> & Hp & Hsup).
      destruct (attempt_receive_writes (Cli.env_of cfg) (Cli.OUTPUT_ROOT cfg)
                  (Cli.SOURCE_ROOT cfg ++ rel ++ [name]) size o w0)
        as (_ & Hkeep & Hres).
      assert (Hout : outputPathOf (Cli.env_of cfg) (Cli.OUTPUT_ROOT cfg)
                       (Cli.SOURCE_ROOT cfg ++ rel ++ [name])
                     = Cli.OUTPUT_ROOT cfg ++ rel ++ [name]).
      { change (Cli.SOURCE_ROOT cfg) with (env_sourceRoot (Cli.env_of cfg)).
        rewrite output_path_below by done.
        change (env_preserve (Cli.env_of cfg)) with (Cli.PRESERVE_DIR_STRUCTURE cfg).
        by rewrite Hpres. }
      rewrite Hout in Hkeep, Hres.
      assert (Hold : Forall (artifact_present (Cli.SOURCE_ROOT cfg) (Cli.OUTPUT_ROOT cfg)
                               (fs (attempt_receive (Cli.env_of cfg) (Cli.OUTPUT_ROOT cfg)
                                      (Cli.SOURCE_ROOT cfg ++ rel ++ [name]) size o w0).2))
                      succ).
      { apply List.Forall_forall. intros s Hs.
        rewrite List.Forall_forall in Hart. specialize (Hart s Hs).
        eapply artifact_present_keeps; [|exact Hart].
        intros d Hd. apply Hkeep; [|done].
        destruct Hart as (rel' & name' & _ & Hfile & Hpath & _).
        rewrite Hpath. intros Heq. apply app_inv_head in Heq.
        apply Hfresh. apply in_map_iff. exists s. split; [|done].
        by rewrite Hfile, Heq. }
      destruct (attempt_receive _ _ _ _ _ _).1 as [s'|e]; [|done].
      apply Forall_app. split; [done|]. constructor; [|constructor].
      destruct Hres as (data & _ & -> & Hread).
      exists rel, name, data. by repeat split.
  - intros allFiles res0 w1 Hscan Hfailed [HT Hart].
    destruct (cli_scan_images_below cfg tree allFiles HS Htree Hdist Hscan)
      as [_ Himg].
    split.
    + rewrite <- HT. by apply (save_failed_outside cfg res0 w1 allFiles).
    + eapply Forall_impl; [exact Hart|]. intros s Hs.
      eapply artifact_present_keeps; [|exact Hs].
      intros d Hd. apply (save_failed_keeps cfg res0 w1 allFiles); try done.
      destruct Hs as (rel' & name' & _ & _ & -> & _).
      by apply diverge_app_l.
  - intros succ w1 [HT Hart].
    destruct (cli_copy_walk_quiet cfg tree (pass_stack ps) w1 HS HO HOS Htree HT)
      as [Hout Hkeep].
    split; [by rewrite (Hout _ HOS)|].
    eapply Forall_impl; [exact Hart|]. intros s Hs.
    eapply artifact_present_keeps; [|exact Hs].
    intros d Hd. apply Hkeep; [|done].
    destruct Hs as (rel' & name' & _ & _ & -> & Hsup & _).
    by rewrite !app_assoc, basename_snoc.
Qed.

Lemma normal_pass_artifacts_witness :
  let cfg := Cli.CONFIG ["app"] 4 in
  let tree := Dir [("a.png", File [x01; x02]);
                   ("b.jpg", File [x03]);
                   ("sub", Dir [("a.png", File [x06; x07; x08])]);
                   ("logo.svg", File [x04])] in
  let w := {| fs := Dir [("app", Dir [("static", tree)])]; trace := [] |} in
  let ps := {| pass_adapter := fun file _ _ src =>
                 if decide (path_basename file = "b.jpg") then UploadFailed AxiosRequest
                 else Downloaded (take 1 src);
               pass_sched := fun t => t;
               pass_stack := 8 |} in
  let r := Cli.compressFolder cfg ps w in
  exists res,
    r.1 = Ok (Some res)
    /\ length (success res) = 2
    /\ Forall (artifact_present (Cli.SOURCE_ROOT cfg) (Cli.OUTPUT_ROOT cfg) (fs r.2))
         (success res).
Proof.
  intros cfg tree w ps r.
  destruct r as [ret w'] eqn:Hr.
  assert (Hret : exists res, ret = Ok (Some res) /\ length (success res) = 2)
    by (vm_compute in Hr; injection Hr as <- _; eauto).
  destruct Hret as (res & -> & Hlen). exists res. split; [done|]. split; [done|].
  apply (normal_pass_keeps_every_artifact cfg ps w tree res w').
  - repeat constructor.
  - repeat constructor.
  - repeat constructor.
  - reflexivity.
  - reflexivity.
  - reflexivity.
  - reflexivity.
  - reflexivity.
  - reflexivity.
  - vm_compute. reflexivity.
  - exact Hr.
Defined.

(** ** compressFolder of the extension *)

Lemma ext_compressFolder_cases (config : Ext.Config) (ps : Pass) (sourceDir : path)
    (w : World) :
  1 <= Ext.maxConcurrent config ->
  let outputDir := Ext.add_suffix sourceDir (Ext.outputSuffix config) in
  let r := Ext.compressFolder config ps sourceDir w in
  (r.1 = Ok Ext.NothingFound \/ exists e, r.1 = Throw e)
  /\ forall fs1 f0 fl,
       Fs.existsSync (fs w) sourceDir = true ->
       (if Fs.existsSync (fs w) outputDir then Ok (fs w)
        else Fs.mkdirSync outputDir (fs w)) = Ok fs1 ->
       Ext.getAllImageFiles sourceDir (Some outputDir)
         (default (Dir []) (Fs.lookup fs1 sourceDir)) = f0 :: fl ->
       r.1 = Throw (Thrown "result is not defined").
Proof.
  intros Hmax. cbv zeta. unfold Ext.compressFolder, Fs.existsSync.
  destruct (Fs.lookup (fs w) sourceDir) as [n|];
    [|split; [right; eauto|done]].
  destruct (if match Fs.lookup (fs w) (Ext.add_suffix sourceDir (Ext.outputSuffix config))
               with Some _ => true | None => false end
            then Ok (fs w)
            else Fs.mkdirSync (Ext.add_suffix sourceDir (Ext.outputSuffix config)) (fs w))
    as [fs1|e] eqn:Hd; [|split; [right; eauto|done]].
  cbv zeta. cbn [fs emit set_fs].
  destruct (Ext.getAllImageFiles sourceDir _ _) as [|f0 fl] eqn:Hscan.
  { split; [by left|]. intros fs1' f0' fl' _ [= <-] Hs. by rewrite Hscan in Hs. }
  pose proof (ext_run_workers_spec config (pass_adapter ps) sourceDir
                (Ext.add_suffix sourceDir (Ext.outputSuffix config)) (f0 :: fl)
                (pass_sched ps)
                (emit (Scan ScanImages sourceDir) (set_fs fs1 w))) as (_ & _ & Hres).
  assert (Hn : exists m, Nat.min (length (f0 :: fl)) (Ext.maxConcurrent config) = S m).
  { destruct (Ext.maxConcurrent config) as [|c]; [lia|]. simpl. eauto. }
  destruct Hn as [m Hm]. rewrite Hm in Hres.
  destruct (Ext.run_workers _ _ _ _ _ _ _) as [[u|e] p]; cbn [fst snd] in *; [done|].
  injection Hres as ->. split; [right; eauto|done].
Qed.

(** ** Further properties: the extension *)

(** A pass of the extension over any files, with any number of workers
    allowed: as many workers are started as there are files, up to that
    number; each takes one file, records it and rejects, so that
    [Promise.all] rejects unless no worker was started; when all workers
    have come to rest, the files that have a record are the first ones of
    the queue, one per worker, and all the others are still queued. *)
Theorem extension_pool_records_one_file_per_worker (config : Ext.Config)
    (adapter : Adapter) (sched later : nat -> nat) (sourceDir outputDir : path)
    (files : list path) (w : World) :
  let k := Nat.min (length files) (Ext.maxConcurrent config) in
  let r := Ext.run_workers config adapter sched sourceDir outputDir files w in
  let rest := drain (Ext.resume config adapter sourceDir outputDir true)
                (Ext.maxRetries config) later r.2 in
  length (workers r.2) = k
  /\ r.1 = (if decide (k = 0) then Ok tt else Throw (Thrown "result is not defined"))
  /\ Forall (fun wk => wk = Rejected (Thrown "result is not defined")) (workers rest)
  /\ queue (shared rest) = drop k files
  /\ recorded (results (shared rest)) ≡ₚ take k files.
Proof.
  cbv zeta.
  destruct (ext_run_workers_spec config adapter sourceDir outputDir files sched w)
    as (Hlen & Hinv & Hres).
  destruct (ext_drain_spec config adapter sourceDir outputDir files _ later _ Hinv)
    as (Hall & Hq & Hrec).
  split; [done|]. split; [|done].
  rewrite Hres. by destruct (Nat.min (length files) (Ext.maxConcurrent config)).
Qed.

(** With at least one worker allowed, the command of the extension never
    shows a compression summary, nor the list of failed files: whatever is
    selected, it ends with the warning that no image was found or with an
    error message.  When the selected folder holds at least one image that
    discovery returns, and its output directory exists or can be created,
    the user is told that the compression starts and then that it failed
    with "result is not defined". *)
Theorem extension_command_never_reports_a_compression (config : Ext.Config)
    (ps : Pass) (uri : option path) (w : World) :
  1 <= Ext.maxConcurrent config ->
  let r := Ext.command config ps uri w in
  (forall n, In n r.1 ->
     match n with
     | Ext.NSummary _ _ _ _ _ | Ext.NSomeFailed _ _ => False
     | _ => True
     end)
  /\ forall folder fs1 f0 fl,
       uri = Some folder ->
       Fs.isDirectory (fs w) folder = Ok true ->
       (let outputDir := Ext.add_suffix folder (Ext.outputSuffix config) in
        (if Fs.existsSync (fs w) outputDir then Ok (fs w)
         else Fs.mkdirSync outputDir (fs w)) = Ok fs1
        /\ Ext.getAllImageFiles folder (Some outputDir)
             (default (Dir []) (Fs.lookup fs1 folder)) = f0 :: fl) ->
       r.1 = [Ext.NStart (path_basename folder); Ext.NProgress 0;
              Ext.NFailed "result is not defined"].
Proof.
  intros Hmax. cbv zeta. unfold Ext.command.
  destruct uri as [folder|]; [|split; [intros n [<-|[]]; done|done]].
  destruct (Fs.isDirectory (fs w) folder) as [[|]|e] eqn:Hdir;
    [| split; [intros n [<-|[]]; done|intros ? ? ? ? [= <-] Hd'; by rewrite Hdir in Hd']
     | split; [intros n [<-|[]]; done|intros ? ? ? ? [= <-] Hd'; by rewrite Hdir in Hd']].
  destruct (ext_compressFolder_cases config ps folder w Hmax) as [Hcases Hrej].
  split.
  - destruct (Ext.compressFolder config ps folder w) as [[result|e] w'];
      cbn [fst snd] in *.
    + destruct Hcases as [[= ->]|[e He]]; [|done].
      intros n [<-|[<-|[<-|[<-|[]]]]]; done.
    + intros n [<-|[<-|[<-|[]]]]; done.
  - intros folder' fs1 f0 fl [= <-] _ [Hd Hscan].
    assert (Hex : Fs.existsSync (fs w) folder = true).
    { unfold Fs.existsSync, Fs.isDirectory in *.
      by destruct (Fs.lookup (fs w) folder) as [[|]|]. }
    specialize (Hrej fs1 f0 fl Hex Hd Hscan).
    destruct (Ext.compressFolder config ps folder w) as [[result|e] w'];
      cbn [fst snd] in *; [done|].
    by injection Hrej as ->.
Qed.

Lemma extension_command_witness :
  let ps := {| pass_adapter := fun _ _ _ src => Downloaded (take 1 src);
               pass_sched := fun t => t; pass_stack := 8 |} in
  let w := {| fs := Dir [("w", Dir [("a.png", File [x01; x02]);
                                    ("b.svg", File [x03])])];
              trace := [] |} in
  let r := Ext.command Ext.defaults ps (Some ["w"]) w in
  (forall n, In n r.1 ->
     match n with
     | Ext.NSummary _ _ _ _ _ | Ext.NSomeFailed _ _ => False
     | _ => True
     end)
  /\ r.1 = [Ext.NStart "w"; Ext.NProgress 0; Ext.NFailed "result is not defined"].
Proof.
  intros ps w r.
  destruct (extension_command_never_reports_a_compression Ext.defaults ps (Some ["w"]) w)
    as [Hnever Hfails]; [simpl; lia|].
  split; [exact Hnever|].
  apply (Hfails ["w"] (Dir [("w", Dir [("a.png", File [x01; x02]);
                                      ("b.svg", File [x03])]);
                            ("w_compressed", Dir [])])
           ["w"; "a.png"] []); [reflexivity|reflexivity|split; reflexivity].
Defined.

(** ** The file system: one directory *)

Lemma assoc_set_keys (s : string) (v : node) (es : list (string * node)) :
  NoDup (map fst es) -> NoDup (map fst (Fs.assoc_set s v es)).
Proof.
  induction es as [|[k w] es IH]; simpl; intros Hnd.
  - apply NoDup_singleton.
  - apply NoDup_cons in Hnd as [Hk Hnd].
    destruct (decide (k = s)) as [->|Hne]; simpl.
    + by apply NoDup_cons.
    + apply NoDup_cons. split; [|by apply IH].
      intros Hin. apply Hk. clear -Hin Hne.
      induction es as [|[k' w'] es IH]; simpl in *.
      * apply list_elem_of_singleton in Hin. by subst.
      * destruct (decide (k' = s)) as [->|Hne']; simpl in *; [done|].
        apply elem_of_cons in Hin as [->|Hin]; [by left|right; by apply IH].
Qed.

Lemma assoc_del_keys (s : string) (es : list (string * node)) :
  NoDup (map fst es) ->
  NoDup (map fst (Fs.assoc_del s es)) /\ Fs.assoc s (Fs.assoc_del s es) = None.
Proof.
  induction es as [|[k w] es IH]; simpl; intros Hnd; [done|].
  apply NoDup_cons in Hnd as [Hk Hnd].
  destruct (decide (k = s)) as [->|Hne]; simpl.
  - split; [done|].
    clear -Hk. induction es as [|[k' w'] es IH]; simpl in *; [done|].
    apply not_elem_of_cons in Hk as [Hne Hk].
    rewrite decide_False by done. by apply IH.
  - destruct (IH Hnd) as [H1 H2]. rewrite decide_False by done.
    split; [|done]. apply NoDup_cons. split; [|done].
    intros Hin. apply Hk. clear -Hin.
    induction es as [|[k' w'] es IH]; simpl in *; [done|].
    destruct (decide (k' = s)) as [->|Hne']; simpl in *; [by right|].
    apply elem_of_cons in Hin as [->|Hin]; [by left|right; by apply IH].
Qed.

(** A write into a directory replaces or adds one entry of it. *)
Lemma write_dir_entries (dir : path) :
  forall (s : string) (d : bytes) (n n' : node) (es : list (string * node)),
    Fs.lookup n dir = Some (Dir es) ->
    Fs.writeFileSync (dir ++ [s]) d n = Ok n' ->
    Fs.lookup n' dir = Some (Dir (Fs.assoc_set s (File d) es)).
Proof.
  induction dir as [|t dir IH]; intros s d n n' es Hl Hw.
  - injection Hl as ->. simpl in Hw.
    destruct (Fs.assoc s es) as [[d1|es1]|]; [|done|]; by injection Hw as <-.
  - destruct n as [d0|es0]; [done|]. simpl in Hl.
    destruct (Fs.assoc t es0) as [c|] eqn:Hc; [|done].
    change ((t :: dir) ++ [s]) with (t :: (dir ++ [s])) in Hw.
    destruct (dir ++ [s]) as [|x rest] eqn:Hds; [by destruct dir|].
    change (match Fs.assoc t es0 with
            | Some c =>
                rbind (Fs.writeFileSync (x :: rest) d c)
                  (fun c' => Ok (Dir (Fs.assoc_set t c' es0)))
            | None => Throw (Thrown "ENOENT")
            end = Ok n') in Hw.
    rewrite Hc in Hw.
    destruct (Fs.writeFileSync (x :: rest) d c) as [c'|] eqn:Hwc; [|done].
    cbn [rbind] in Hw. injection Hw as <-.
    simpl. rewrite assoc_set_eq. rewrite <- Hds in Hwc. by apply (IH s d c c').
Qed.

(** An unlink removes one entry of the directory. *)
Lemma unlink_dir_entries (dir : path) :
  forall (s : string) (n n' : node) (es : list (string * node)),
    Fs.lookup n dir = Some (Dir es) ->
    Fs.unlinkSync (dir ++ [s]) n = Ok n' ->
    Fs.lookup n' dir = Some (Dir (Fs.assoc_del s es)).
Proof.
  induction dir as [|t dir IH]; intros s n n' es Hl Hw.
  - injection Hl as ->. simpl in Hw.
    destruct (Fs.assoc s es) as [[d1|es1]|]; [|done|done]. by injection Hw as <-.
  - destruct n as [d0|es0]; [done|]. simpl in Hl.
    destruct (Fs.assoc t es0) as [c|] eqn:Hc; [|done].
    change ((t :: dir) ++ [s]) with (t :: (dir ++ [s])) in Hw.
    destruct (dir ++ [s]) as [|x rest] eqn:Hds; [by destruct dir|].
    change (match Fs.assoc t es0 with
            | Some c =>
                rbind (Fs.unlinkSync (x :: rest) c)
                  (fun c' => Ok (Dir (Fs.assoc_set t c' es0)))
            | None => Throw (Thrown "ENOENT")
            end = Ok n') in Hw.
    rewrite Hc in Hw.
    destruct (Fs.unlinkSync (x :: rest) c) as [c'|] eqn:Hwc; [|done].
    cbn [rbind] in Hw. injection Hw as <-.
    simpl. rewrite assoc_set_eq. rewrite <- Hds in Hwc. by apply (IH s c c').
Qed.

(** A file that has just been written can be unlinked. *)
Lemma unlink_succeeds (p : path) :
  forall (n : node) (d : bytes),
    p <> [] -> holds n p = Some (Some d) -> exists n', Fs.unlinkSync p n = Ok n'.
Proof.
  induction p as [|s p IH]; intros n d Hne Hh; [done|]. clear Hne.
  - destruct n as [d0|es]; [done|].
    unfold holds in Hh. simpl in Hh.
    destruct (Fs.assoc s es) as [c|] eqn:Hc; [|done].
    destruct p as [|s' p'].
    + simpl in Hh. destruct c as [d1|es1]; [|done]. simpl. rewrite Hc. eauto.
    + destruct (IH c d ltac:(done) Hh) as [c' Hc'].
      exists (Dir (Fs.assoc_set s c' es)).
      change (match Fs.assoc s es with
              | Some c =>
                  rbind (Fs.unlinkSync (s' :: p') c)
                    (fun c' => Ok (Dir (Fs.assoc_set s c' es)))
              | None => Throw (Thrown "ENOENT")
              end = Ok (Dir (Fs.assoc_set s c' es))).
      by rewrite Hc, Hc'.
Qed.

(** ** What a worker does to the file system, in either kind of pass *)

Section CliAnyWorker.

Variable cfg : Cli.Config.
Variable adapter : Adapter.
Variable outputRoot : path.
Variable isRetry : bool.

Lemma cli_record_success_fs (file : path) (s : Success) (sh : Shared) :
  fs (world (Cli.record cfg isRetry file (RSuccess s) sh))
  = after_record isRetry file (fs (world sh))
  /\ success (results (Cli.record cfg isRetry file (RSuccess s) sh))
     = success (results sh) ++ [s].
Proof.
  unfold Cli.record, after_record. cbv zeta.
  set (sh1 := Cli.say_if _ _ _ (push_success s sh)).
  assert (Hf1 : fs (world sh1) = fs (world sh)) by (unfold sh1; by rewrite say_if_fs).
  assert (Hs1 : success (results sh1) = success (results sh) ++ [s])
    by (unfold sh1; by rewrite say_if_success).
  destruct isRetry; [|done].
  rewrite Hf1. destruct (Fs.unlinkSync file (fs (world sh))) as [fs'|e].
  - by rewrite say_if_fs, say_if_success.
  - done.
Qed.

Lemma cli_continue_effect_any (file : path) (c : CallState) (w : World) (sh : Shared) :
  let r := Cli.continue cfg isRetry file (c, w) sh in
  fs (world r.2)
  = match c with
    | Finished (RSuccess _) => after_record isRetry file (fs w)
    | _ => fs w
    end
  /\ success (results r.2)
     = match c with
       | Finished (RSuccess s) => success (results sh) ++ [s]
       | _ => success (results sh)
       end.
Proof.
  cbv zeta. destruct c as [wk|[s|f|]]; cbn [Cli.continue fst snd].
  - done.
  - apply (cli_record_success_fs file s (set_world w sh)).
  - cbn [Cli.record]. by rewrite say_if_fs, say_if_success.
  - cbn [Cli.record]. by rewrite say_if_fs, say_if_success.
Qed.

Lemma cli_resume_effect_any (wk : Worker) (sh : Shared) :
  let r := Cli.resume cfg adapter outputRoot isRetry wk sh in
  match wk with
  | AwaitNet file rc data =>
      let a := attempt_receive (Cli.env_of cfg) outputRoot file (length data)
                 (adapter file rc (fileTypeOf file) data) (world sh) in
      fs (world r.2)
      = match a.1 with
        | Ok _ => after_record isRetry file (fs a.2)
        | Throw _ => fs a.2
        end
      /\ success (results r.2)
         = match a.1 with
           | Ok s => success (results sh) ++ [s]
           | Throw _ => success (results sh)
           end
  | _ => fs (world r.2) = fs (world sh)
         /\ success (results r.2) = success (results sh)
  end.
Proof.
  cbv zeta. destruct wk as [file rc data|file rc| | |]; cbn [Cli.resume]; try done.
  - unfold after_net.
    destruct (attempt_receive _ _ _ _ _ _) as [[s|e] w1]; cbn [fst snd].
    + apply (cli_continue_effect_any file (Finished (RSuccess s)) w1 sh).
    + destruct (cli_continue_effect_any file (caught (Cli.env_of cfg) file rc e) w1 sh)
        as [H1 H2].
      rewrite H1, H2. unfold caught. by destruct (exhausted _ _ _ _).
  - destruct (enter_loop_fs (Cli.env_of cfg) file rc (world sh)) as [Hfs Hns].
    destruct (enter_loop _ _ _ _) as [c w1]. cbn [fst snd] in *.
    destruct (cli_continue_effect_any file c w1 sh) as [H1 H2].
    rewrite H1, H2.
    destruct c as [|[s| |]]; try done. by destruct (Hns s).
  - unfold Cli.loop_head. destruct (queue sh) as [|file rest]; [done|].
    set (sh1 := Cli.say_if _ _ _ _).
    assert (Hf1 : fs (world sh1) = fs (world sh)) by (unfold sh1; by rewrite say_if_fs).
    assert (Hs1 : success (results sh1) = success (results sh))
      by (unfold sh1; by rewrite say_if_success).
    destruct (enter_loop_fs (Cli.env_of cfg) file 0 (world sh1)) as [Hfs Hns].
    destruct (enter_loop _ _ _ _) as [c w1]. cbn [fst snd] in *.
    destruct (cli_continue_effect_any file c w1 sh1) as [H1 H2].
    rewrite H1, H2, Hs1. rewrite Hf1 in Hfs.
    destruct c as [|[s| |]]; try done. by destruct (Hns s).
Qed.

End CliAnyWorker.

Section CliAnyRun.

Variable cfg : Cli.Config.
Variable adapter : Adapter.
Variable outputRoot : path.
Variable isRetry : bool.
Variable files : list path.

Hypothesis files_distinct : NoDup files.

Variable P : node -> list Success -> Prop.

Hypothesis answer_keeps : forall w0 succ file size o,
  In file files -> ~ In file (map s_filePath succ) -> P (fs w0) succ ->
  match (attempt_receive (Cli.env_of cfg) outputRoot file size o w0).1 with
  | Ok s =>
      P (after_record isRetry file
           (fs (attempt_receive (Cli.env_of cfg) outputRoot file size o w0).2))
        (succ ++ [s])
  | Throw _ =>
      P (fs (attempt_receive (Cli.env_of cfg) outputRoot file size o w0).2) succ
  end.

Lemma cli_any_step (i : nat) (p : Pool) (wk : Worker) :
  workers p !! i = Some wk -> pending wk = true -> cli_inv files p ->
  P (fs (world (shared p))) (success (results (shared p))) ->
  P (fs (world (shared (step (Cli.resume cfg adapter outputRoot isRetry) i p))))
    (success (results (shared (step (Cli.resume cfg adapter outputRoot isRetry) i p)))).
Proof.
  intros Hl Hp (Hacc & _ & _) HP. unfold step. rewrite Hl.
  pose proof (cli_resume_effect_any cfg adapter outputRoot isRetry wk (shared p)) as Heff.
  destruct (Cli.resume cfg adapter outputRoot isRetry wk (shared p)) as [wk' sh'].
  cbn [fst snd shared] in *.
  destruct wk as [file rc data|file rc| | |];
    try (destruct Heff as [-> ->]; exact HP).
  cbv zeta in Heff. destruct Heff as [-> ->].
  assert (Hin : In file (concat (map in_flight (workers p))))
    by (eapply in_flight_in_concat; [exact Hl|by left]).
  assert (Hnd : NoDup (accounted (shared p) (workers p))) by (by rewrite Hacc).
  unfold accounted, recorded in Hnd, Hacc.
  assert (Hfile : In file files).
  { apply list_elem_of_In. rewrite <- Hacc. apply list_elem_of_In.
    apply in_or_app. right. apply in_or_app. by left. }
  assert (Hfresh : ~ In file (map s_filePath (success (results (shared p))))).
  { intros Hrec.
    apply NoDup_app in Hnd as (_ & _ & Hnd).
    apply NoDup_app in Hnd as (_ & Hdisj & _).
    apply (Hdisj file); [by apply list_elem_of_In|].
    apply list_elem_of_In. apply in_or_app. by left. }
  pose proof (answer_keeps (world (shared p)) _ file (length data)
                (adapter file rc (fileTypeOf file) data) Hfile Hfresh HP) as Hk.
  by destruct (attempt_receive _ _ _ _ _ _).1.
Qed.

Lemma cli_any_spawn (n : nat) (p : Pool) :
  fs (world (shared (spawn (Cli.loop_head cfg isRetry) n p))) = fs (world (shared p))
  /\ success (results (shared (spawn (Cli.loop_head cfg isRetry) n p)))
     = success (results (shared p)).
Proof.
  revert p. induction n as [|n IH]; intros p; [done|].
  cbn [spawn].
  pose proof (cli_resume_effect_any cfg adapter outputRoot isRetry AwaitTaskDelay (shared p))
    as Heff.
  cbn [Cli.resume] in Heff.
  destruct (Cli.loop_head cfg isRetry (shared p)) as [wk sh]. cbn [fst snd] in Heff.
  destruct Heff as [H1 H2].
  destruct (IH {| shared := sh; workers := workers p ++ [wk] |}) as [H3 H4].
  cbn [shared] in *. split; congruence.
Qed.

Lemma cli_any_run_rule (sched : nat -> nat) (w : World) :
  P (fs w) [] ->
  let r := Cli.run_workers cfg adapter sched outputRoot isRetry files w in
  P (fs (world (shared r.2))) (success (results (shared r.2))).
Proof.
  intros HP. unfold Cli.run_workers, await_all. cbv zeta.
  set (p0 := {| shared := _; workers := [] |}).
  set (p1 := spawn _ _ p0).
  set (p2 := run _ _ _ _ _ p1).
  destruct (cli_spawn_spec cfg adapter outputRoot isRetry files
              (Nat.min (length files) (Cli.MAX_CONCURRENT cfg)) p0)
    as [Hacc1 Hpend1]; [simpl; lia|unfold accounted; simpl; by rewrite app_nil_r|done|].
  fold p1 in Hacc1, Hpend1.
  assert (Hinv1 : cli_inv files p1).
  { split; [done|]. split.
    - eapply Forall_impl; [exact Hpend1|]. intros wk Hp e ->. done.
    - intros Hin. rewrite List.Forall_forall in Hpend1. by apply Hpend1 in Hin. }
  destruct (cli_any_spawn (Nat.min (length files) (Cli.MAX_CONCURRENT cfg)) p0)
    as [Hfs1 Hs1].
  fold p1 in Hfs1, Hs1. simpl in Hfs1, Hs1.
  assert (Hinv2 : cli_inv files p2
                  /\ P (fs (world (shared p2))) (success (results (shared p2)))).
  { apply (run_preserves (Cli.resume cfg adapter outputRoot isRetry)
             (fun p => cli_inv files p
                       /\ P (fs (world (shared p))) (success (results (shared p))))).
    - intros i p wk Hl Hp [Hinv HPp]. split.
      + by eapply cli_step_inv.
      + by eapply cli_any_step.
    - split; [done|]. by rewrite Hfs1, Hs1. }
  destruct Hinv2 as [_ HP2].
  by destruct (first_rejection (workers p2)).
Qed.

End CliAnyRun.

(** ** The recovery pass with the configuration as shipped *)

Lemma recovery_lands_on_the_quarantined_file (dirname : path) (cpus : nat)
    (name : string) :
  proper_path dirname -> proper_name name = true ->
  let cfg := Cli.CONFIG dirname cpus in
  Cli.SAVE_FAILED_TO cfg = dirname ++ ["failed_images"]
  /\ outputPathOf (Cli.env_of cfg) (Cli.OUTPUT_ROOT cfg) (Cli.SAVE_FAILED_TO cfg ++ [name])
     = Cli.SAVE_FAILED_TO cfg ++ [name].
Proof.
  intros Hd Hn. cbv zeta. unfold outputPathOf, Cli.CONFIG. simpl.
  rewrite !(path_join_proper dirname) by done.
  split; [done|].
  unfold path_basename, path_dirname.
  rewrite last_snoc, removelast_last. simpl.
  rewrite path_relative_common. simpl.
  unfold path_join. rewrite <- !app_assoc.
  rewrite normalize_onto_app_proper by done. simpl.
  unfold proper_name in Hn. apply bool_decide_eq_true in Hn as (H1 & H2 & H3).
  rewrite decide_False by done.
  rewrite decide_False by (intros [?|?]; done).
  rewrite app_nil_r, rev_involutive. by rewrite <- !app_assoc.
Qed.

(** An attempt whose output path is a name in a directory that exists. *)
Lemma attempt_receive_in_place (env : Env) (outputRoot filePath dir : path)
    (name : string) (es : list (string * node)) (size : nat) (o : NetOutcome) (w : World) :
  outputPathOf env outputRoot filePath = dir ++ [name] ->
  Fs.lookup (fs w) dir = Some (Dir es) ->
  match (attempt_receive env outputRoot filePath size o w).1 with
  | Ok s =>
      exists data,
        Fs.writeFileSync (dir ++ [name]) data (fs w)
        = Ok (fs (attempt_receive env outputRoot filePath size o w).2)
        /\ s_filePath s = filePath /\ s_outputPath s = dir ++ [name]
        /\ s_compressedSize s = length data
  | Throw _ => fs (attempt_receive env outputRoot filePath size o w).2 = fs w
  end.
Proof.
  intros Hout Hdir. unfold attempt_receive. rewrite Hout, dirname_snoc.
  unfold Fs.existsSync. rewrite Hdir.
  destruct o as [e|e|data]; cbn [fst snd fs set_fs]; [done|done|].
  destruct (Fs.writeFileSync (dir ++ [name]) data (fs w)) as [fs2|e] eqn:Hw;
    cbn [fst snd fs set_fs]; [|done].
  by exists data.
Qed.

Lemma diverge_names (dir : path) (a b : string) (x : path) :
  a <> b -> diverge (dir ++ [a]) (dir ++ b :: x) = true.
Proof.
  intros Hne. induction dir as [|s dir IH]; simpl.
  - by rewrite decide_False.
  - by rewrite decide_True.
Qed.

Lemma unlink_other (dir : path) (a b : string) (n n' : node) :
  a <> b -> Fs.unlinkSync (dir ++ [a]) n = Ok n' ->
  Fs.lookup n' (dir ++ [b]) = Fs.lookup n (dir ++ [b]).
Proof.
  intros Hne Hu. apply (unlink_frame _ _ _ _ Hu).
  - apply diverge_not_prefix. by apply diverge_names.
  - apply diverge_not_prefix. apply (diverge_names dir b a []). congruence.
Qed.

Lemma nodup_map_snoc (dir : path) (names : list string) :
  NoDup names -> NoDup (map (fun f => dir ++ [f]) names).
Proof.
  induction names as [|a names IH]; intros Hnd; [constructor|].
  apply NoDup_cons in Hnd as [Ha Hnd]. simpl. apply NoDup_cons. split; [|by apply IH].
  intros Hin. apply list_elem_of_In, in_map_iff in Hin as (b & Heq & Hb).
  apply app_inv_head in Heq. injection Heq as ->. apply Ha. by apply list_elem_of_In.
Qed.

Section CliRecoveryInPlace.

Variable cfg : Cli.Config.
Variable names : list string.
Variable fs0 : node.

Hypothesis lands : forall name,
  In name names ->
  outputPathOf (Cli.env_of cfg) (Cli.OUTPUT_ROOT cfg) (Cli.SAVE_FAILED_TO cfg ++ [name])
  = Cli.SAVE_FAILED_TO cfg ++ [name].

Lemma recovery_answer_keeps (w0 : World) (succ : list Success) (file : path)
    (size : nat) (o : NetOutcome) :
  In file (map (fun f => Cli.SAVE_FAILED_TO cfg ++ [f]) names) ->
  ~ In file (map s_filePath succ) ->
  recovered_in_place (Cli.SAVE_FAILED_TO cfg) names fs0 (fs w0) succ ->
  match (attempt_receive (Cli.env_of cfg) (Cli.OUTPUT_ROOT cfg) file size o w0).1 with
  | Ok s =>
      recovered_in_place (Cli.SAVE_FAILED_TO cfg) names fs0
        (after_record true file
           (fs (attempt_receive (Cli.env_of cfg) (Cli.OUTPUT_ROOT cfg) file size o w0).2))
        (succ ++ [s])
  | Throw _ =>
      recovered_in_place (Cli.SAVE_FAILED_TO cfg) names fs0
        (fs (attempt_receive (Cli.env_of cfg) (Cli.OUTPUT_ROOT cfg) file size o w0).2) succ
  end.
Proof.
  intros Hin Hfresh (Ha & (es & Hdir & Hnd) & Hb & Hc).
  apply in_map_iff in Hin as (name & <- & Hname).
  set (F := Cli.SAVE_FAILED_TO cfg) in *.
  pose proof (attempt_receive_in_place (Cli.env_of cfg) (Cli.OUTPUT_ROOT cfg)
                (F ++ [name]) F name es size o w0 (lands name Hname) Hdir) as Hplace.
  destruct (attempt_receive _ _ _ _ _ _) as [[s|e] w1]; cbn [fst snd] in *;
    [|rewrite Hplace; split; [done|]; split; [eauto|]; split; done].
  destruct Hplace as (data & Hw & Hsf & Hso & _).
  assert (Hfile : holds (fs w1) (F ++ [name]) = Some (Some data))
    by (rewrite (write_holds _ _ _ _ _ Hw); by rewrite decide_True).
  destruct (unlink_succeeds (F ++ [name]) (fs w1) data ltac:(by destruct F) Hfile)
    as [n' Hu].
  unfold after_record. rewrite Hu.
  pose proof (write_dir_entries F name data _ _ es Hdir Hw) as Hdir1.
  pose proof (unlink_dir_entries F name _ _ _ Hdir1 Hu) as Hdir2.
  destruct (assoc_del_keys name _ (assoc_set_keys name (File data) es Hnd))
    as [Hnd2 Hgone].
  assert (Hother : forall name', name' <> name ->
            holds n' (F ++ [name']) = holds (fs w0) (F ++ [name'])).
  { intros name' Hne.
    rewrite (holds_lookup _ _ _ (unlink_other F name name' _ _ ltac:(congruence) Hu)).
    rewrite (write_holds _ _ _ _ _ Hw). rewrite decide_False; [done|].
    intros Heq. apply app_inv_head in Heq. by injection Heq. }
  split; [|split; [|split]].
  - intros q Hq. rewrite <- (Ha q Hq).
    rewrite (unlink_frame _ _ _ q Hu).
    + apply (write_frame _ _ _ _ q Hw). by apply diverge_below.
    + by apply diverge_below.
    + apply diverge_not_prefix. rewrite diverge_sym. by apply diverge_app_l.
  - eauto.
  - intros name' x Hn' Hfresh' Hx.
    assert (Hne : name' <> name).
    { intros ->. apply Hfresh'. rewrite map_app. apply in_or_app. right.
      simpl. left. done. }
    rewrite (Hother name' Hne). apply Hb; [done| |done].
    intros Hold. apply Hfresh'. rewrite map_app. apply in_or_app. by left.
  - intros s' Hs'. apply in_app_or in Hs' as [Hs'|[<-|[]]].
    + destruct (Hc s' Hs') as (Heq & Hnone & name' & Hn' & Hp).
      split; [done|]. split; [|eauto].
      assert (Hne : name' <> name).
      { intros ->. apply Hfresh. apply in_map_iff. exists s'. by rewrite Hp. }
      rewrite Hp, (Hother name' Hne), <- Hp. done.
    + rewrite Hsf, Hso. split; [done|]. split; [|eauto].
      unfold holds. rewrite (lookup_below _ _ _ _ Hdir2). simpl. by rewrite Hgone.
Qed.

Lemma recovery_in_place_run (adapter : Adapter) (sched : nat -> nat) (w : World) :
  NoDup names ->
  recovered_in_place (Cli.SAVE_FAILED_TO cfg) names fs0 (fs w) [] ->
  let r := Cli.run_workers cfg adapter sched (Cli.OUTPUT_ROOT cfg) true
             (map (fun f => Cli.SAVE_FAILED_TO cfg ++ [f]) names) w in
  recovered_in_place (Cli.SAVE_FAILED_TO cfg) names fs0 (fs (world (shared r.2)))
    (success (results (shared r.2))).
Proof.
  intros Hnd Hinv.
  apply (cli_any_run_rule cfg adapter (Cli.OUTPUT_ROOT cfg) true _
           (nodup_map_snoc (Cli.SAVE_FAILED_TO cfg) names Hnd)
           (recovered_in_place (Cli.SAVE_FAILED_TO cfg) names fs0)); [|done].
  intros w0 succ file size o. apply recovery_answer_keeps.
Qed.

End CliRecoveryInPlace.

Lemma cli_run_workers_recorded (cfg : Cli.Config) (adapter : Adapter)
    (sched : nat -> nat) (outputRoot : path) (isRetry : bool) (files : list path)
    (w : World) :
  NoDup files ->
  let res := results (shared (Cli.run_workers cfg adapter sched outputRoot isRetry
                                files w).2) in
  NoDup (map s_filePath (success res) ++ map f_filePath (failed res))
  /\ forall x, In x (map s_filePath (success res) ++ map f_filePath (failed res)) ->
       In x files.
Proof.
  intros Hnd. cbv zeta.
  destruct (cli_run_workers_join cfg adapter outputRoot isRetry files sched w)
    as (_ & _ & _ & Hacc & _).
  assert (Hnd' : NoDup (accounted (shared (Cli.run_workers cfg adapter sched outputRoot
                                             isRetry files w).2)
                          (workers (Cli.run_workers cfg adapter sched outputRoot
                                      isRetry files w).2)))
    by (by rewrite Hacc).
  unfold accounted, recorded in Hnd', Hacc. split.
  - apply NoDup_app in Hnd' as (_ & _ & Hnd').
    by apply NoDup_app in Hnd' as (_ & _ & Hnd').
  - intros x Hx. apply list_elem_of_In. rewrite <- Hacc. apply list_elem_of_In.
    apply in_or_app. right. apply in_or_app. by right.
Qed.

Lemma recovery_as_shipped_inv (dirname : path) (cpus : nat) (ps : Pass) (w : World)
    (es : list (string * node)) :
  proper_path dirname ->
  let cfg := Cli.CONFIG dirname cpus in
  let names := filter (fun f => supported f = true) (map fst es) in
  Fs.lookup (fs w) (Cli.SAVE_FAILED_TO cfg) = Some (Dir es) ->
  proper_tree (Dir es) = true -> NoDup (map fst es) ->
  let r := Cli.retryFailedFolder cfg ps w in
  exists succ,
    recovered_in_place (Cli.SAVE_FAILED_TO cfg) names (fs w) (fs r.2) succ
    /\ forall res, r.1 = Ok (Some res) ->
         succ = success res
         /\ forall f, In f (failed res) ->
              exists name, In name names
                           /\ f_filePath f = Cli.SAVE_FAILED_TO cfg ++ [name]
                           /\ ~ In (f_filePath f) (map s_filePath (success res)).
Proof.
  intros Hd cfg names Hdir Htree Hnd. cbv zeta.
  assert (Hproper : forall name, In name names -> proper_name name = true).
  { intros name Hin. apply list_elem_of_In, list_elem_of_filter in Hin as [_ Hin].
    apply list_elem_of_In, in_map_iff in Hin as ([name' c] & <- & Hin).
    by destruct (proper_tree_entry es name' c Htree Hin). }
  assert (HF : proper_path (Cli.SAVE_FAILED_TO cfg)).
  { destruct (recovery_lands_on_the_quarantined_file dirname cpus "x" Hd eq_refl)
      as [HFeq _]. unfold cfg. rewrite HFeq. by apply proper_path_snoc. }
  assert (Hfiles : Cli.failedFiles cfg (map fst es)
                   = map (fun f => Cli.SAVE_FAILED_TO cfg ++ [f]) names).
  { unfold Cli.failedFiles. apply map_ext_in. intros name Hin.
    apply path_join_proper; [done|by apply Hproper]. }
  assert (Hnames : NoDup names) by (by apply NoDup_filter).
  assert (Hstart : recovered_in_place (Cli.SAVE_FAILED_TO cfg) names (fs w) (fs w) []).
  { split; [apply same_outside_refl|]. split; [eauto|]. split; [done|].
    by intros s []. }
  unfold Cli.retryFailedFolder. cbv zeta.
  unfold Fs.existsSync, Fs.readdirSync. rewrite Hdir. cbn [negb].
  rewrite Hfiles.
  destruct (map (fun f => Cli.SAVE_FAILED_TO cfg ++ [f]) names) as [|f0 fl] eqn:Hmap.
  { cbn [fst snd fs emit]. exists []. split; [done|]. by intros res [=]. }
  set (w1 := emit _ w).
  pose proof (recovery_in_place_run cfg names (fs w)
                (fun name Hin =>
                   proj2 (recovery_lands_on_the_quarantined_file dirname cpus name Hd
                            (Hproper name Hin)))
                (pass_adapter ps) (pass_sched ps) w1 Hnames Hstart) as Hrun.
  pose proof (cli_run_workers_recorded cfg (pass_adapter ps) (pass_sched ps)
                (Cli.OUTPUT_ROOT cfg) true _ w1
                (nodup_map_snoc (Cli.SAVE_FAILED_TO cfg) names Hnames)) as [Hrnd Hrin].
  cbv zeta in Hrun. rewrite Hmap in Hrun, Hrnd, Hrin.
  change (length (f0 :: fl)) with (length (A := path) (f0 :: fl)) in w1.
  match goal with
  | |- context [Cli.run_workers ?a ?b ?c ?d ?e ?f ?g] =>
      change (Cli.run_workers cfg (pass_adapter ps) (pass_sched ps) (Cli.OUTPUT_ROOT cfg)
                true (f0 :: fl) w1)
        with (Cli.run_workers a b c d e f g) in Hrun, Hrnd, Hrin;
      destruct (Cli.run_workers a b c d e f g) as [[u|e'] p]
  end; cbn [fst snd fs emit] in *.
  - exists (success (results (shared p))). split; [done|].
    intros res [= <-]. split; [done|]. intros f Hf.
    assert (Hin : In (f_filePath f)
                    (map (fun f => Cli.SAVE_FAILED_TO cfg ++ [f]) names)).
    { rewrite Hmap. apply Hrin. apply in_or_app. right. by apply in_map. }
    apply in_map_iff in Hin as (name & Heq & Hname).
    exists name. split; [done|]. split; [done|].
    intros Hs. apply NoDup_app in Hrnd as (_ & Hdisj & _).
    apply (Hdisj (f_filePath f)); [by apply list_elem_of_In|].
    apply list_elem_of_In. by apply in_map.
  - exists (success (results (shared p))). split; [done|]. by intros res [=].
Qed.

(** ** The recovery pass under the configuration as shipped *)

Lemma assoc_listed (s : string) (es : list (string * node)) :
  In s (map fst es) -> exists c, Fs.assoc s es = Some c.
Proof.
  induction es as [|[k v] es IH]; [done|]. simpl.
  intros [->|Hin].
  - rewrite decide_True by done. by exists v.
  - destruct (decide (k = s)); [by exists v|by apply IH].
Qed.

(** Under the configuration as shipped, a recovery pass over a failed-files
    directory changes nothing outside that directory, whatever the service
    answers and in whatever order the workers are resumed: every path that
    parts ways with [SAVE_FAILED_TO] holds afterwards what it held before.
    In particular nothing appears under [OUTPUT_ROOT], and nothing changes
    under [SOURCE_ROOT]. *)
Theorem recovery_as_shipped_stays_in_the_failed_directory (dirname : path) (cpus : nat)
    (ps : Pass) (w : World) (es : list (string * node)) :
  proper_path dirname ->
  let cfg := Cli.CONFIG dirname cpus in
  Fs.lookup (fs w) (Cli.SAVE_FAILED_TO cfg) = Some (Dir es) ->
  proper_tree (Dir es) = true -> NoDup (map fst es) ->
  let r := Cli.retryFailedFolder cfg ps w in
  (forall q, diverge (Cli.SAVE_FAILED_TO cfg) q = true ->
             Fs.lookup (fs r.2) q = Fs.lookup (fs w) q)
  /\ (forall rel, Fs.lookup (fs r.2) (Cli.OUTPUT_ROOT cfg ++ rel)
                  = Fs.lookup (fs w) (Cli.OUTPUT_ROOT cfg ++ rel))
  /\ (forall rel, Fs.lookup (fs r.2) (Cli.SOURCE_ROOT cfg ++ rel)
                  = Fs.lookup (fs w) (Cli.SOURCE_ROOT cfg ++ rel)).
Proof.
  intros Hd cfg Hdir Htree Hnd r.
  destruct (recovery_as_shipped_inv dirname cpus ps w es Hd Hdir Htree Hnd)
    as (succ & (Hout & _) & _).
  fold cfg in Hout. fold r in Hout.
  assert (HF : Cli.SAVE_FAILED_TO cfg = dirname ++ ["failed_images"]).
  { unfold cfg, Cli.CONFIG. simpl. by apply path_join_proper. }
  assert (HO : Cli.OUTPUT_ROOT cfg = dirname ++ ["compressed_results"]).
  { unfold cfg, Cli.CONFIG. simpl. by apply path_join_proper. }
  assert (HS : Cli.SOURCE_ROOT cfg = dirname ++ ["static"]).
  { unfold cfg, Cli.CONFIG. simpl. by apply path_join_proper. }
  split; [exact Hout|]. split; intros rel; apply Hout.
  - rewrite HF, HO, <- app_assoc. by apply diverge_names.
  - rewrite HF, HS, <- app_assoc. by apply diverge_names.
Qed.

Lemma recovery_as_shipped_stays_witness :
  let cfg := Cli.CONFIG ["app"] 4 in
  let w := {| fs := Dir [("app", Dir [("static", Dir [("a.png", File [x01; x02])]);
                                      ("compressed_results", Dir []);
                                      ("failed_images",
                                       Dir [("a.png", File [x01; x02]);
                                            ("b.jpg", File [x03; x04; x05]);
                                            ("notes.txt", File [x06])])])];
              trace := [] |} in
  let ps := {| pass_adapter := fun file _ _ src =>
                 if decide (path_basename file = "b.jpg") then UploadFailed AxiosRequest
                 else Downloaded (take 1 src);
               pass_sched := fun t => t;
               pass_stack := 8 |} in
  let r := Cli.retryFailedFolder cfg ps w in
  (forall q, diverge (Cli.SAVE_FAILED_TO cfg) q = true ->
             Fs.lookup (fs r.2) q = Fs.lookup (fs w) q)
  /\ (forall rel, Fs.lookup (fs r.2) (Cli.OUTPUT_ROOT cfg ++ rel)
                  = Fs.lookup (fs w) (Cli.OUTPUT_ROOT cfg ++ rel))
  /\ (forall rel, Fs.lookup (fs r.2) (Cli.SOURCE_ROOT cfg ++ rel)
                  = Fs.lookup (fs w) (Cli.SOURCE_ROOT cfg ++ rel)).
Proof.
  intros cfg w ps r.
  apply (recovery_as_shipped_stays_in_the_failed_directory ["app"] 4 ps w
           [("a.png", File [x01; x02]); ("b.jpg", File [x03; x04; x05]);
            ("notes.txt", File [x06])]).
  - repeat constructor.
  - reflexivity.
  - reflexivity.
  - apply (bool_decide_unpack _). vm_compute. reflexivity.
Defined.

(** Under the configuration as shipped, when a recovery pass returns its
    records: the output path of every success record is the quarantined file
    itself, and that file is gone when the pass ends, so no compressed
    artifact of a recovered file is left anywhere; every failure record
    names a file of the failed-files directory that has no success record
    and still holds exactly what it held before the pass. *)
Theorem recovery_as_shipped_deletes_what_it_recovers (dirname : path) (cpus : nat)
    (ps : Pass) (w : World) (es : list (string * node)) (res : Results) :
  proper_path dirname ->
  let cfg := Cli.CONFIG dirname cpus in
  Fs.lookup (fs w) (Cli.SAVE_FAILED_TO cfg) = Some (Dir es) ->
  proper_tree (Dir es) = true -> NoDup (map fst es) ->
  let r := Cli.retryFailedFolder cfg ps w in
  r.1 = Ok (Some res) ->
  (forall s, In s (success res) ->
     s_outputPath s = s_filePath s
     /\ holds (fs r.2) (s_filePath s) = None
     /\ exists name, In name (map fst es)
                     /\ supported name = true
                     /\ s_filePath s = Cli.SAVE_FAILED_TO cfg ++ [name])
  /\ (forall f, In f (failed res) ->
        holds (fs r.2) (f_filePath f) = holds (fs w) (f_filePath f)
        /\ ~ In (f_filePath f) (map s_filePath (success res))
        /\ exists name, In name (map fst es)
                        /\ supported name = true
                        /\ f_filePath f = Cli.SAVE_FAILED_TO cfg ++ [name]).
Proof.
  intros Hd cfg Hdir Htree Hnd r Hr.
  destruct (recovery_as_shipped_inv dirname cpus ps w es Hd Hdir Htree Hnd)
    as (succ & (Hout & _ & Hkept & Hgone) & Hres).
  fold cfg in Hout, Hkept, Hgone, Hres. fold r in Hout, Hkept, Hgone, Hres.
  destruct (Hres res Hr) as [-> Hfailed].
  set (names := filter (fun f => supported f = true) (map fst es)) in *.
  assert (Hnames : forall name, In name names ->
                     In name (map fst es) /\ supported name = true).
  { intros name Hin. apply list_elem_of_In, list_elem_of_filter in Hin as [Hs Hin].
    split; [by apply list_elem_of_In|done]. }
  split.
  - intros s Hs. destruct (Hgone s Hs) as (Hsame & Hnone & name & Hin & Hpath).
    split; [done|]. split; [done|]. exists name.
    destruct (Hnames name Hin). done.
  - intros f Hf. destruct (Hfailed f Hf) as (name & Hin & Hpath & Hnot).
    destruct (Hnames name Hin) as [Hes Hsup].
    split; [|split; [done|by exists name]].
    rewrite Hpath in *.
    assert (Hheld : exists x, holds (fs w) (Cli.SAVE_FAILED_TO cfg ++ [name]) = Some x).
    { unfold holds. rewrite (lookup_below _ _ _ _ Hdir).
      simpl. destruct (assoc_listed name es Hes) as [[d|sub] ->]; eauto. }
    destruct Hheld as [x Hx]. rewrite Hx. by apply Hkept.
Qed.

Lemma recovery_as_shipped_deletes_witness :
  let cfg := Cli.CONFIG ["app"] 4 in
  let failed_images := [("a.png", File [x01; x02]);
                        ("b.jpg", File [x03; x04; x05]);
                        ("notes.txt", File [x06])] in
  let w := {| fs := Dir [("app", Dir [("static", Dir []);
                                      ("compressed_results", Dir []);
                                      ("failed_images", Dir failed_images)])];
              trace := [] |} in
  let ps := {| pass_adapter := fun file _ _ src =>
                 if decide (path_basename file = "b.jpg") then UploadFailed AxiosRequest
                 else Downloaded (take 1 src);
               pass_sched := fun t => t;
               pass_stack := 8 |} in
  let r := Cli.retryFailedFolder cfg ps w in
  exists res,
    r.1 = Ok (Some res)
    /\ map s_filePath (success res) = [["app"; "failed_images"; "a.png"]]
    /\ map f_filePath (failed res) = [["app"; "failed_images"; "b.jpg"]]
    /\ (forall s, In s (success res) ->
          s_outputPath s = s_filePath s
          /\ holds (fs r.2) (s_filePath s) = None
          /\ exists name, In name (map fst failed_images)
                          /\ supported name = true
                          /\ s_filePath s = Cli.SAVE_FAILED_TO cfg ++ [name])
    /\ (forall f, In f (failed res) ->
          holds (fs r.2) (f_filePath f) = holds (fs w) (f_filePath f)
          /\ ~ In (f_filePath f) (map s_filePath (success res))
          /\ exists name, In name (map fst failed_images)
                          /\ supported name = true
                          /\ f_filePath f = Cli.SAVE_FAILED_TO cfg ++ [name]).
Proof.
  intros cfg failed_images w ps r.
  eexists. split; [vm_compute; reflexivity|].
  split; [reflexivity|]. split; [reflexivity|].
  apply (recovery_as_shipped_deletes_what_it_recovers ["app"] 4 ps w failed_images).
  - repeat constructor.
  - reflexivity.
  - reflexivity.
  - apply (bool_decide_unpack _). vm_compute. reflexivity.
  - vm_compute. reflexivity.
Defined.

(** ** The recovery pass, for any configuration *)

Lemma after_record_frame (isRetry : bool) (file : path) (n : node) (q : path) :
  ~ q `prefix_of` file -> ~ file `prefix_of` q ->
  Fs.lookup (after_record isRetry file n) q = Fs.lookup n q.
Proof.
  intros H1 H2. unfold after_record. destruct isRetry; [|done].
  destruct (Fs.unlinkSync file n) as [n'|e] eqn:Hu; [|done].
  by apply (unlink_frame _ _ _ _ Hu).
Qed.

Section CliRecoveryRule.

Variable cfg : Cli.Config.
Variable ps : Pass.
Variable w : World.
Variable es : list (string * node).

Hypothesis holding_proper : proper_path (Cli.SAVE_FAILED_TO cfg).
Hypothesis holding_dir : Fs.lookup (fs w) (Cli.SAVE_FAILED_TO cfg) = Some (Dir es).
Hypothesis holding_tree : proper_tree (Dir es) = true.
Hypothesis holding_distinct : NoDup (map fst es).

Variable P : node -> list Success -> Prop.

Hypothesis answer_keeps : forall w0 succ name size o,
  In name (filter (fun f => supported f = true) (map fst es)) ->
  proper_name name = true ->
  ~ In (Cli.SAVE_FAILED_TO cfg ++ [name]) (map s_filePath succ) -> P (fs w0) succ ->
  let a := attempt_receive (Cli.env_of cfg) (Cli.OUTPUT_ROOT cfg)
             (Cli.SAVE_FAILED_TO cfg ++ [name]) size o w0 in
  match a.1 with
  | Ok s => P (after_record true (Cli.SAVE_FAILED_TO cfg ++ [name]) (fs a.2)) (succ ++ [s])
  | Throw _ => P (fs a.2) succ
  end.

Hypothesis starts : P (fs w) [].

Lemma cli_retryFailedFolder_rule :
  let r := Cli.retryFailedFolder cfg ps w in
  exists succ,
    P (fs r.2) succ
    /\ forall res, r.1 = Ok (Some res) ->
         succ = success res
         /\ forall f, In f (failed res) ->
              exists name, In name (filter (fun f => supported f = true) (map fst es))
                           /\ f_filePath f = Cli.SAVE_FAILED_TO cfg ++ [name]
                           /\ ~ In (f_filePath f) (map s_filePath (success res)).
Proof.
  cbv zeta. set (names := filter (fun f => supported f = true) (map fst es)) in *.
  assert (Hproper : forall name, In name names -> proper_name name = true).
  { intros name Hin. apply list_elem_of_In, list_elem_of_filter in Hin as [_ Hin].
    apply list_elem_of_In, in_map_iff in Hin as ([name' c] & <- & Hin).
    by destruct (proper_tree_entry es name' c holding_tree Hin). }
  assert (Hfiles : Cli.failedFiles cfg (map fst es)
                   = map (fun f => Cli.SAVE_FAILED_TO cfg ++ [f]) names).
  { unfold Cli.failedFiles. apply map_ext_in. intros name Hin.
    apply path_join_proper; [done|by apply Hproper]. }
  assert (Hnames : NoDup names) by (by apply NoDup_filter).
  unfold Cli.retryFailedFolder. cbv zeta.
  unfold Fs.existsSync, Fs.readdirSync. rewrite holding_dir. cbn [negb].
  rewrite Hfiles.
  destruct (map (fun f => Cli.SAVE_FAILED_TO cfg ++ [f]) names) as [|f0 fl] eqn:Hmap.
  { cbn [fst snd fs emit]. exists []. split; [done|]. by intros res [=]. }
  set (w1 := emit _ w).
  assert (Hrun :
    let r := Cli.run_workers cfg (pass_adapter ps) (pass_sched ps) (Cli.OUTPUT_ROOT cfg)
               true (map (fun f => Cli.SAVE_FAILED_TO cfg ++ [f]) names) w1 in
    P (fs (world (shared r.2))) (success (results (shared r.2)))).
  { apply (cli_any_run_rule cfg (pass_adapter ps) (Cli.OUTPUT_ROOT cfg) true _
             (nodup_map_snoc (Cli.SAVE_FAILED_TO cfg) names Hnames) P); [|done].
    intros w0 succ file size o Hin Hfresh HP.
    apply in_map_iff in Hin as (name & <- & Hname).
    apply (answer_keeps w0 succ name size o Hname (Hproper name Hname) Hfresh HP). }
  pose proof (cli_run_workers_recorded cfg (pass_adapter ps) (pass_sched ps)
                (Cli.OUTPUT_ROOT cfg) true _ w1
                (nodup_map_snoc (Cli.SAVE_FAILED_TO cfg) names Hnames)) as [Hrnd Hrin].
  cbv zeta in Hrun. rewrite Hmap in Hrun, Hrnd, Hrin.
  change (length (f0 :: fl)) with (length (A := path) (f0 :: fl)) in w1.
  match goal with
  | |- context [Cli.run_workers ?a ?b ?c ?d ?e ?f ?g] =>
      change (Cli.run_workers cfg (pass_adapter ps) (pass_sched ps) (Cli.OUTPUT_ROOT cfg)
                true (f0 :: fl) w1)
        with (Cli.run_workers a b c d e f g) in Hrun, Hrnd, Hrin;
      destruct (Cli.run_workers a b c d e f g) as [[u|e'] p]
  end; cbn [fst snd fs emit] in *.
  - exists (success (results (shared p))). split; [done|].
    intros res [= <-]. split; [done|]. intros f Hf.
    assert (Hin : In (f_filePath f)
                    (map (fun f => Cli.SAVE_FAILED_TO cfg ++ [f]) names)).
    { rewrite Hmap. apply Hrin. apply in_or_app. right. by apply in_map. }
    apply in_map_iff in Hin as (name & Heq & Hname).
    exists name. split; [done|]. split; [done|].
    intros Hs. apply NoDup_app in Hrnd as (_ & Hdisj & _).
    apply (Hdisj (f_filePath f)); [by apply list_elem_of_In|].
    apply list_elem_of_In. by apply in_map.
  - exists (success (results (shared p))). split; [done|]. by intros res [=].
Qed.

End CliRecoveryRule.

(** ** The recovery pass without directory structure *)

Lemma output_path_flat (env : Env) (outputRoot dir : path) (name : string) :
  env_preserve env = false -> proper_path outputRoot -> proper_name name = true ->
  outputPathOf env outputRoot (dir ++ [name]) = outputRoot ++ [name].
Proof.
  intros Hflat Ho Hn. unfold outputPathOf. rewrite Hflat, basename_snoc.
  by apply path_join_proper.
Qed.

Section CliRecoveryFlat.

Variable cfg : Cli.Config.
Variable names : list string.
Variable fs0 : node.

Hypothesis flat : Cli.PRESERVE_DIR_STRUCTURE cfg = false.
Hypothesis output_proper : proper_path (Cli.OUTPUT_ROOT cfg).
Hypothesis apart : diverge (Cli.SAVE_FAILED_TO cfg) (Cli.OUTPUT_ROOT cfg) = true.

Lemma flat_answer_keeps (w0 : World) (succ : list Success) (name : string)
    (size : nat) (o : NetOutcome) :
  In name names -> proper_name name = true ->
  ~ In (Cli.SAVE_FAILED_TO cfg ++ [name]) (map s_filePath succ) ->
  recovered_flat (Cli.SAVE_FAILED_TO cfg) (Cli.OUTPUT_ROOT cfg) names fs0 (fs w0) succ ->
  let a := attempt_receive (Cli.env_of cfg) (Cli.OUTPUT_ROOT cfg)
             (Cli.SAVE_FAILED_TO cfg ++ [name]) size o w0 in
  match a.1 with
  | Ok s =>
      recovered_flat (Cli.SAVE_FAILED_TO cfg) (Cli.OUTPUT_ROOT cfg) names fs0
        (after_record true (Cli.SAVE_FAILED_TO cfg ++ [name]) (fs a.2)) (succ ++ [s])
  | Throw _ =>
      recovered_flat (Cli.SAVE_FAILED_TO cfg) (Cli.OUTPUT_ROOT cfg) names fs0 (fs a.2) succ
  end.
Proof.
  intros Hname Hproper Hfresh (Ha & (es & Hdir & Hnd) & Hb & Hc). cbv zeta.
  set (F := Cli.SAVE_FAILED_TO cfg) in *. set (O := Cli.OUTPUT_ROOT cfg) in *.
  destruct (attempt_receive_writes (Cli.env_of cfg) O (F ++ [name]) size o w0)
    as (Hframe & Hkeep & Hres).
  cbv zeta in Hframe, Hkeep, Hres.
  rewrite (output_path_flat (Cli.env_of cfg) O F name flat output_proper Hproper)
    in Hframe, Hkeep, Hres.
  set (a := attempt_receive (Cli.env_of cfg) O (F ++ [name]) size o w0) in *.
  assert (HFO : forall x y, diverge (F ++ x) (O ++ y) = true)
    by (intros x y; by apply diverge_app_l, diverge_app_r).
  assert (Hin_F : forall x, Fs.lookup (fs a.2) (F ++ x) = Fs.lookup (fs w0) (F ++ x)).
  { intros x. apply Hframe. apply diverge_not_prefix. rewrite diverge_sym. apply HFO. }
  assert (Hart : forall name' data, name' <> name ->
            Fs.readFileSync (fs w0) (O ++ [name']) = Ok data ->
            Fs.readFileSync (fs a.2) (O ++ [name']) = Ok data).
  { intros name' data Hne Hr. apply read_holds. apply Hkeep.
    - intros Heq. apply app_inv_head in Heq. by injection Heq.
    - by apply read_holds. }
  assert (Hattempt : recovered_flat F O names fs0 (fs a.2) succ).
  { split; [|split; [|split]].
    - intros q HqF HqO. rewrite <- (Ha q HqF HqO). apply Hframe. by apply diverge_below.
    - exists es. split; [|done]. rewrite <- Hdir. rewrite <- (app_nil_r F). apply Hin_F.
    - intros name' Hn' Hfresh'. rewrite <- (Hb name' Hn' Hfresh').
      apply holds_lookup, Hin_F.
    - intros s' Hs'.
      destruct (Hc s' Hs') as (name' & data & Hn' & Hp & Hop & Hsz & Hrd & Hgone).
      exists name', data.
      assert (Hne : name' <> name).
      { intros ->. apply Hfresh. apply in_map_iff. by exists s'. }
      split; [done|]. split; [done|]. split; [done|]. split; [done|].
      split; [by apply Hart|].
      intros d Hd. rewrite <- (Hgone d Hd). apply holds_lookup, Hin_F. }
  destruct (a.1) as [s|e] eqn:Ha1; [|exact Hattempt].
  destruct Hres as (data & _ & Hs & Hread).
  destruct Hattempt as (Ha' & (es' & Hdir' & Hnd') & Hb' & Hc').
  set (n1 := after_record true (F ++ [name]) (fs a.2)).
  assert (Hout_F : forall q, ~ q `prefix_of` F ++ [name] -> ~ (F ++ [name]) `prefix_of` q ->
            Fs.lookup n1 q = Fs.lookup (fs a.2) q)
    by (intros q; apply after_record_frame).
  assert (Hin_O : forall y, Fs.lookup n1 (O ++ y) = Fs.lookup (fs a.2) (O ++ y)).
  { intros y. apply Hout_F.
    - apply diverge_not_prefix. apply HFO.
    - apply diverge_not_prefix. rewrite diverge_sym. apply HFO. }
  assert (Hother : forall name', name' <> name ->
            Fs.lookup n1 (F ++ [name']) = Fs.lookup (fs a.2) (F ++ [name'])).
  { intros name' Hne. apply Hout_F.
    - apply diverge_not_prefix. by apply diverge_names.
    - apply diverge_not_prefix. apply (diverge_names F name' name []). congruence. }
  assert (Hdir1 : exists es1, Fs.lookup n1 F = Some (Dir es1) /\ NoDup (map fst es1)
                    /\ (forall d, holds (fs a.2) (F ++ [name]) = Some (Some d) ->
                                  holds n1 (F ++ [name]) = None)).
  { unfold n1, after_record.
    destruct (Fs.unlinkSync (F ++ [name]) (fs a.2)) as [n'|e] eqn:Hu.
    - pose proof (unlink_dir_entries F name _ _ _ Hdir' Hu) as Hdir2.
      destruct (assoc_del_keys name es' Hnd') as [Hnd2 Hgone].
      exists (Fs.assoc_del name es'). split; [done|]. split; [done|].
      intros d _. unfold holds. rewrite (lookup_below _ _ _ _ Hdir2). simpl.
      by rewrite Hgone.
    - exists es'. split; [done|]. split; [done|]. intros d Hd.
      destruct (unlink_succeeds (F ++ [name]) (fs a.2) d ltac:(by destruct F) Hd)
        as [n' Hn']. congruence. }
  destruct Hdir1 as (es1 & Hdir1 & Hnd1 & Hgone1).
  split; [|split; [|split]].
  - intros q HqF HqO. rewrite <- (Ha' q HqF HqO). apply Hout_F.
    + by apply diverge_below.
    + apply diverge_not_prefix. rewrite diverge_sym. by apply diverge_app_l.
  - eauto.
  - intros name' Hn' Hfresh'.
    assert (Hne : name' <> name).
    { intros ->. apply Hfresh'. rewrite map_app. apply in_or_app. right.
      rewrite Hs. simpl. by left. }
    rewrite (holds_lookup _ _ _ (Hother name' Hne)). apply Hb'; [done|].
    intros Hold. apply Hfresh'. rewrite map_app. apply in_or_app. by left.
  - intros s' Hs'. apply in_app_or in Hs' as [Hs'|[<-|[]]].
    + destruct (Hc' s' Hs') as (name' & data' & Hn' & Hp & Hop & Hsz & Hrd & Hgone).
      exists name', data'.
      assert (Hne : name' <> name).
      { intros ->. apply Hfresh. apply in_map_iff. by exists s'. }
      split; [done|]. split; [done|]. split; [done|]. split; [done|]. split.
      * unfold Fs.readFileSync. rewrite Hin_O. exact Hrd.
      * intros d Hd. rewrite (holds_lookup _ _ _ (Hother name' Hne)). by apply (Hgone d).
    + exists name, data. rewrite Hs. cbn [s_filePath s_outputPath s_compressedSize].
      split; [done|]. split; [done|]. split; [done|]. split; [done|]. split.
      * unfold Fs.readFileSync. rewrite Hin_O. exact Hread.
      * intros d Hd. apply (Hgone1 d). rewrite <- Hd. by apply Hb'.
Qed.

End CliRecoveryFlat.

(** With [PRESERVE_DIR_STRUCTURE] off and the output root apart from the
    failed-files directory, a recovery pass that returns its records has
    delivered every file it reports as a success: the artifact is in the
    output root under the name of the file, with the recorded compressed
    size, and the quarantined file, if it was a regular file when the pass
    started, is gone.  The files it reports as failures hold what they held,
    and nothing has changed at the paths that part ways with both
    directories. *)
Theorem flat_recovery_delivers_the_artifacts (cfg : Cli.Config) (ps : Pass) (w : World)
    (es : list (string * node)) (res : Results) :
  Cli.PRESERVE_DIR_STRUCTURE cfg = false ->
  proper_path (Cli.OUTPUT_ROOT cfg) -> proper_path (Cli.SAVE_FAILED_TO cfg) ->
  diverge (Cli.SAVE_FAILED_TO cfg) (Cli.OUTPUT_ROOT cfg) = true ->
  Fs.lookup (fs w) (Cli.SAVE_FAILED_TO cfg) = Some (Dir es) ->
  proper_tree (Dir es) = true -> NoDup (map fst es) ->
  let r := Cli.retryFailedFolder cfg ps w in
  r.1 = Ok (Some res) ->
  (forall s, In s (success res) ->
     exists name data,
       In name (map fst es) /\ supported name = true
       /\ s_filePath s = Cli.SAVE_FAILED_TO cfg ++ [name]
       /\ s_outputPath s = Cli.OUTPUT_ROOT cfg ++ [name]
       /\ s_compressedSize s = length data
       /\ Fs.readFileSync (fs r.2) (s_outputPath s) = Ok data
       /\ (forall d, holds (fs w) (s_filePath s) = Some (Some d) ->
                     holds (fs r.2) (s_filePath s) = None))
  /\ (forall f, In f (failed res) ->
        holds (fs r.2) (f_filePath f) = holds (fs w) (f_filePath f))
  /\ (forall q, diverge (Cli.SAVE_FAILED_TO cfg) q = true ->
                diverge (Cli.OUTPUT_ROOT cfg) q = true ->
                Fs.lookup (fs r.2) q = Fs.lookup (fs w) q).
Proof.
  intros Hflat HO HF Hapart Hdir Htree Hnd r Hr.
  set (names := filter (fun f => supported f = true) (map fst es)).
  destruct (cli_retryFailedFolder_rule cfg ps w es HF Hdir Htree Hnd
              (recovered_flat (Cli.SAVE_FAILED_TO cfg) (Cli.OUTPUT_ROOT cfg) names (fs w)))
    as (succ & (Hout & _ & Hkept & Hdone) & Hres).
  - intros w0 succ name size o. by apply flat_answer_keeps.
  - split; [done|]. split; [eauto|]. split; [done|]. by intros s [].
  - fold r in Hout, Hkept, Hdone, Hres.
    destruct (Hres res Hr) as [-> Hfailed].
    assert (Hnames : forall name, In name names ->
                       In name (map fst es) /\ supported name = true).
    { intros name Hin. apply list_elem_of_In, list_elem_of_filter in Hin as [Hs Hin].
      split; [by apply list_elem_of_In|done]. }
    split; [|split; [|exact Hout]].
    + intros s Hs.
      destruct (Hdone s Hs) as (name & data & Hn & Hp & Hop & Hsz & Hrd & Hgone).
      destruct (Hnames name Hn). exists name, data. rewrite Hp, Hop. done.
    + intros f Hf. destruct (Hfailed f Hf) as (name & Hn & Hp & Hnot).
      rewrite Hp in *. by apply Hkept.
Qed.

Lemma flat_recovery_witness :
  let cfg := {| Cli.SOURCE_ROOT := ["app"; "static"];
                Cli.OUTPUT_ROOT := ["app"; "compressed_results"];
                Cli.MAX_CONCURRENT := 3;
                Cli.MAX_RETRIES := 2;
                Cli.LOG_LEVEL := Normal;
                Cli.PRESERVE_DIR_STRUCTURE := false;
                Cli.SKIP_HIDDEN_DIRS := true;
                Cli.COPY_UNSUPPORTED_TO_OUTPUT := true;
                Cli.SAVE_FAILED_TO := ["app"; "failed_images"] |} in
  let failed_images := [("a.png", File [x01; x02]);
                        ("b.jpg", File [x03; x04; x05]);
                        ("notes.txt", File [x06])] in
  let w := {| fs := Dir [("app", Dir [("static", Dir []);
                                      ("failed_images", Dir failed_images)])];
              trace := [] |} in
  let ps := {| pass_adapter := fun file _ _ src =>
                 if decide (path_basename file = "b.jpg") then UploadFailed AxiosRequest
                 else Downloaded (take 1 src);
               pass_sched := fun t => t;
               pass_stack := 8 |} in
  let r := Cli.retryFailedFolder cfg ps w in
  exists res,
    r.1 = Ok (Some res)
    /\ map s_outputPath (success res) = [["app"; "compressed_results"; "a.png"]]
    /\ Fs.readFileSync (fs r.2) ["app"; "compressed_results"; "a.png"] = Ok [x01]
    /\ Fs.readdirSync (fs r.2) ["app"; "failed_images"] = Ok ["b.jpg"; "notes.txt"]
    /\ (forall s, In s (success res) ->
          exists name data,
            In name (map fst failed_images) /\ supported name = true
            /\ s_filePath s = Cli.SAVE_FAILED_TO cfg ++ [name]
            /\ s_outputPath s = Cli.OUTPUT_ROOT cfg ++ [name]
            /\ s_compressedSize s = length data
            /\ Fs.readFileSync (fs r.2) (s_outputPath s) = Ok data
            /\ (forall d, holds (fs w) (s_filePath s) = Some (Some d) ->
                          holds (fs r.2) (s_filePath s) = None))
    /\ (forall f, In f (failed res) ->
          holds (fs r.2) (f_filePath f) = holds (fs w) (f_filePath f))
    /\ (forall q, diverge (Cli.SAVE_FAILED_TO cfg) q = true ->
                  diverge (Cli.OUTPUT_ROOT cfg) q = true ->
                  Fs.lookup (fs r.2) q = Fs.lookup (fs w) q).
Proof.
  intros cfg failed_images w ps r.
  eexists. split; [vm_compute; reflexivity|].
  split; [reflexivity|]. split; [reflexivity|]. split; [reflexivity|].
  apply (flat_recovery_delivers_the_artifacts cfg ps w failed_images).
  - reflexivity.
  - repeat constructor.
  - repeat constructor.
  - reflexivity.
  - reflexivity.
  - reflexivity.
  - apply (bool_decide_unpack _). vm_compute. reflexivity.
  - vm_compute. reflexivity.
Defined.

(** ** What a pass of the extension leaves in the trace *)

Section ExtTrace.

Variable config : Ext.Config.
Variable adapter : Adapter.
Variable sourceRoot outputRoot : path.
Variable hasCallback : bool.

Lemma ext_continue_no_scan (file : path) (c : CallState * World) (sh : Shared) :
  no_scan_since (world sh) c.2 ->
  no_scan_since (world sh) (world (Ext.continue hasCallback file c sh).2).
Proof.
  intros Hc. destruct c as [[wk|r] w1]; simpl in *; [done|].
  destruct hasCallback; destruct r; exact Hc.
Qed.

Lemma ext_resume_no_scan (wk : Worker) (sh : Shared) :
  no_scan_since (world sh)
    (world (Ext.resume config adapter sourceRoot outputRoot hasCallback wk sh).2).
Proof.
  destruct wk as [file rc data|file rc| | |]; cbn [Ext.resume];
    try (by apply no_scan_refl).
  - apply ext_continue_no_scan, after_net_no_scan.
  - apply ext_continue_no_scan, enter_loop_no_scan.
  - unfold Ext.loop_head. destruct (queue sh) as [|file rest]; [by apply no_scan_refl|].
    apply (ext_continue_no_scan file _ (set_queue rest sh)), enter_loop_no_scan.
Qed.

End ExtTrace.

Lemma ext_run_workers_no_scan (config : Ext.Config) (adapter : Adapter)
    (sched : nat -> nat) (sourceDir outputDir : path) (files : list path) (w : World) :
  no_scan_since w
    (world (shared (Ext.run_workers config adapter sched sourceDir outputDir files w).2)).
Proof.
  unfold Ext.run_workers, await_all. cbv zeta.
  set (p0 := {| shared := _; workers := [] |}).
  set (I := fun p : Pool => no_scan_since w (world (shared p))).
  assert (H0 : I p0) by (by apply no_scan_refl).
  assert (Hspawn : forall n p, I p -> I (spawn (Ext.loop_head config sourceDir true) n p)).
  { induction n as [|n IH]; intros p Hp; [done|]. cbn [spawn].
    pose proof (ext_resume_no_scan config adapter sourceDir outputDir true
                  AwaitTaskDelay (shared p)) as Hs.
    cbn [Ext.resume] in Hs.
    destruct (Ext.loop_head config sourceDir true (shared p)) as [wk sh]. apply IH.
    unfold I in *. simpl in *. by eapply no_scan_trans. }
  assert (Hrun : forall p, I p ->
            I (run (Ext.resume config adapter sourceDir outputDir true) true sched 0
                 (pool_weight (Ext.maxRetries config) p) p)).
  { intros p Hp. apply run_preserves; [|done].
    intros i q wk Hl _ Hq. unfold step. rewrite Hl.
    pose proof (ext_resume_no_scan config adapter sourceDir outputDir true wk (shared q))
      as Hs.
    destruct (Ext.resume _ _ _ _ _ _ _) as [wk' sh']. unfold I in *. simpl in *.
    by eapply no_scan_trans. }
  destruct (first_rejection _); simpl; by apply Hrun, Hspawn.
Qed.

(** ** Further properties: the copy step of the extension *)

(** With at least one worker allowed, [compressFolder] of the extension
    never starts [copyUnsupportedFiles], whatever the folder holds and
    whatever [copyUnsupported] says: it returns before that step when no
    image is found, and [Promise.all] rejects before it otherwise. *)
Theorem extension_never_starts_the_copy_step (config : Ext.Config) (ps : Pass)
    (sourceDir : path) (w : World) :
  1 <= Ext.maxConcurrent config ->
  let r := Ext.compressFolder config ps sourceDir w in
  exists evs,
    trace r.2 = trace w ++ evs /\ Forall (fun e => is_copy_scan e = false) evs.
Proof.
  intros Hmax. cbv zeta. unfold Ext.compressFolder.
  destruct (Fs.lookup (fs w) sourceDir) as [n|];
    [|exists []; by rewrite app_nil_r].
  destruct (if Fs.existsSync (fs w) _ then Ok (fs w) else _) as [fs1|e];
    [|exists []; by rewrite app_nil_r].
  cbv zeta. cbn [fs emit set_fs].
  destruct (Ext.getAllImageFiles sourceDir _ _) as [|f0 fl] eqn:Hscan.
  { exists [Scan ScanImages sourceDir]. split; [done|]. by repeat constructor. }
  set (w1 := {| fs := fs1; trace := trace w ++ [Scan ScanImages sourceDir] |}).
  set (O := Ext.add_suffix sourceDir (Ext.outputSuffix config)).
  pose proof (ext_run_workers_spec config (pass_adapter ps) sourceDir O (f0 :: fl)
                (pass_sched ps) w1) as (_ & _ & Hres).
  pose proof (ext_run_workers_no_scan config (pass_adapter ps) (pass_sched ps) sourceDir
                O (f0 :: fl) w1) as (evs & Ht & Hevs).
  assert (Hn : exists m, Nat.min (length (f0 :: fl)) (Ext.maxConcurrent config) = S m).
  { destruct (Ext.maxConcurrent config) as [|c]; [lia|]. simpl. eauto. }
  destruct Hn as [m Hm]. rewrite Hm in Hres.
  destruct (Ext.run_workers _ _ _ _ _ _ _) as [[u|e] p]; cbn [fst snd] in *; [done|].
  exists (Scan ScanImages sourceDir :: evs). split.
  - rewrite Ht. unfold w1. simpl. by rewrite <- app_assoc.
  - constructor; [done|]. eapply Forall_impl; [exact Hevs|].
    intros ev Hev. by destruct ev.
Qed.

Lemma extension_copy_step_witness :
  let ps := {| pass_adapter := fun _ _ _ src => Downloaded (take 1 src);
               pass_sched := fun t => t; pass_stack := 8 |} in
  let w := {| fs := Dir [("w", Dir [("a.png", File [x01; x02]);
                                    ("logo.svg", File [x03])])];
              trace := [] |} in
  let r := Ext.compressFolder Ext.defaults ps ["w"] w in
  (exists evs,
     trace r.2 = trace w ++ evs /\ Forall (fun e => is_copy_scan e = false) evs)
  /\ Ext.copyUnsupported Ext.defaults = true
  /\ Fs.readdirSync (fs r.2) ["w_compressed"] = Ok ["a.png"].
Proof.
  intros ps w r. split; [|split; reflexivity].
  apply (extension_never_starts_the_copy_step Ext.defaults ps ["w"] w).
  simpl. lia.
Defined.

(** ** Writes and new directories *)

Lemma written_only_refl (W : path -> Prop) (n : node) : written_only W n n.
Proof. split; [done|]. split; [done|]. intros q d Hq. by exists d. Qed.

Lemma written_only_trans (W : path -> Prop) (n1 n2 n3 : node) :
  written_only W n1 n2 -> written_only W n2 n3 -> written_only W n1 n3.
Proof.
  intros (A1 & B1 & C1) (A2 & B2 & C2). split; [|split].
  - intros q d Hq. rewrite (A1 q d Hq). by apply A2.
  - intros q Hq. by apply B2, B1.
  - intros q d Hq. destruct (C1 q d Hq) as [d1 H1]. by apply (C2 q d1).
Qed.

Lemma written_only_weaken (W W' : path -> Prop) (n n' : node) :
  (forall p, W p -> W' p) -> written_only W n n' -> written_only W' n n'.
Proof.
  intros Hsub (A & B & C). split; [|split; [done|done]].
  intros q d Hq. apply A. intros HW. by apply Hq, Hsub.
Qed.

Lemma mkdir_written_only (W : path -> Prop) (p : path) (n n' : node) :
  Fs.mkdirSync p n = Ok n' -> written_only W n n'.
Proof.
  intros Hm. split; [|split].
  - intros q d _. split; [by apply (mkdir_keeps p)|by apply (mkdir_no_new_file p)].
  - intros q. by apply (mkdir_keeps p).
  - intros q d Hq. exists d. by apply (mkdir_keeps p n n').
Qed.

Lemma ensure_dir_written_only (W : path -> Prop) (dir : path) (n n' : node) :
  (if Fs.existsSync n dir then Ok n else Fs.mkdirSync dir n) = Ok n' ->
  written_only W n n'.
Proof.
  destruct (Fs.existsSync n dir).
  - intros [= <-]. apply written_only_refl.
  - apply mkdir_written_only.
Qed.

(** A write does not go through at a path that is a directory. *)
Lemma write_not_dir (p : path) :
  forall (d : bytes) (n n' : node),
    Fs.writeFileSync p d n = Ok n' -> holds n p <> Some None.
Proof.
  induction p as [|s p IH]; intros d n n' Hw; [done|].
  destruct n as [d0|es]; [destruct p; simpl in Hw; done|].
  destruct p as [|s' p'].
  - simpl in Hw. unfold holds. simpl.
    destruct (Fs.assoc s es) as [[d1|es1]|]; done.
  - change (match Fs.assoc s es with
            | Some c =>
                rbind (Fs.writeFileSync (s' :: p') d c)
                  (fun c' => Ok (Dir (Fs.assoc_set s c' es)))
            | None => Throw (Thrown "ENOENT")
            end = Ok n') in Hw.
    destruct (Fs.assoc s es) as [c|] eqn:Hc; [|done].
    destruct (Fs.writeFileSync (s' :: p') d c) as [c'|] eqn:Hwc; [|done].
    rewrite (holds_cons_eq _ _ _ c Hc). by apply (IH d c c').
Qed.

Lemma write_written_only (W : path -> Prop) (p : path) (d : bytes) (n n' : node) :
  W p -> Fs.writeFileSync p d n = Ok n' -> written_only W n n'.
Proof.
  intros HW Hw. split; [|split].
  - intros q d0 Hq. rewrite (write_holds _ _ _ _ q Hw).
    rewrite decide_False; [done|]. by intros ->.
  - intros q Hq. rewrite (write_holds _ _ _ _ q Hw).
    destruct (decide (q = p)) as [->|]; [|done].
    by destruct (write_not_dir _ _ _ _ Hw).
  - intros q d0 Hq. rewrite (write_holds _ _ _ _ q Hw).
    destruct (decide (q = p)); eauto.
Qed.

Lemma copy_written_only (W : path -> Prop) (src dst : path) (n n' : node) :
  W dst -> Fs.copyFileSync src dst n = Ok n' -> written_only W n n'.
Proof.
  intros HW. unfold Fs.copyFileSync.
  destruct (Fs.readFileSync n src) as [d|e]; [|done]. cbn [rbind].
  by apply write_written_only.
Qed.

(** ** Names a directory can hold *)

Lemma assoc_set_proper (s : string) (v : node) (es : list (string * node)) :
  proper_name s = true -> proper_tree v = true -> proper_tree (Dir es) = true ->
  proper_tree (Dir (Fs.assoc_set s v es)) = true.
Proof.
  intros Hs Hv. induction es as [|[k c] es IH]; intros Hes.
  - simpl. by rewrite Hs, Hv.
  - simpl in Hes. apply andb_prop in Hes as [Hkc Hrest].
    apply andb_prop in Hkc as [Hk Hc]. simpl.
    destruct (decide (k = s)) as [->|Hne].
    + simpl. by rewrite Hs, Hv, Hrest.
    + specialize (IH Hrest). simpl in IH |- *. by rewrite Hk, Hc, IH.
Qed.

Lemma assoc_proper (s : string) (es : list (string * node)) (c : node) :
  proper_tree (Dir es) = true -> Fs.assoc s es = Some c -> proper_tree c = true.
Proof.
  intros Hes Hc. apply assoc_In in Hc.
  by destruct (proper_tree_entry es s c Hes Hc).
Qed.

Lemma mkdir_proper (p : path) :
  forall (n n' : node),
    proper_path p -> proper_tree n = true -> Fs.mkdirSync p n = Ok n' ->
    proper_tree n' = true.
Proof.
  induction p as [|s p IH]; intros n n' Hp Hn Hm.
  - simpl in Hm. destruct n; [done|]. by injection Hm as <-.
  - destruct n as [d|es]; [done|]. simpl in Hm.
    destruct (Fs.mkdirSync p (default (Dir []) (Fs.assoc s es))) as [c'|] eqn:Hc;
      [|done].
    cbn [rbind] in Hm. injection Hm as <-.
    apply Forall_cons in Hp as [Hs Hp].
    apply assoc_set_proper; [done| |done].
    apply (IH _ _ Hp) in Hc; [done|].
    destruct (Fs.assoc s es) as [c|] eqn:Hl; [|done]. by apply (assoc_proper s es).
Qed.

Lemma write_proper (p : path) :
  forall (d : bytes) (n n' : node),
    proper_path p -> proper_tree n = true -> Fs.writeFileSync p d n = Ok n' ->
    proper_tree n' = true.
Proof.
  induction p as [|s p IH]; intros d n n' Hp Hn Hw; [done|].
  apply Forall_cons in Hp as [Hs Hp].
  destruct n as [d0|es]; [destruct p; simpl in Hw; done|].
  destruct p as [|s' p'].
  - simpl in Hw.
    assert (Hn' : n' = Dir (Fs.assoc_set s (File d) es)).
    { destruct (Fs.assoc s es) as [[d1|es1]|]; [|done|]; by injection Hw as <-. }
    subst n'. by apply assoc_set_proper.
  - change (match Fs.assoc s es with
            | Some c =>
                rbind (Fs.writeFileSync (s' :: p') d c)
                  (fun c' => Ok (Dir (Fs.assoc_set s c' es)))
            | None => Throw (Thrown "ENOENT")
            end = Ok n') in Hw.
    destruct (Fs.assoc s es) as [c|] eqn:Hc; [|done].
    destruct (Fs.writeFileSync (s' :: p') d c) as [c'|] eqn:Hwc; [|done].
    cbn [rbind] in Hw. injection Hw as <-.
    apply assoc_set_proper; [done| |done].
    apply (IH d c c' Hp); [by apply (assoc_proper s es)|done].
Qed.

Lemma ensure_dir_proper (dir : path) (n n' : node) :
  proper_path dir -> proper_tree n = true ->
  (if Fs.existsSync n dir then Ok n else Fs.mkdirSync dir n) = Ok n' ->
  proper_tree n' = true.
Proof.
  intros Hd Hn. destruct (Fs.existsSync n dir).
  - by intros [= <-].
  - by apply mkdir_proper.
Qed.

Lemma copy_proper (src dst : path) (n n' : node) :
  proper_path dst -> proper_tree n = true -> Fs.copyFileSync src dst n = Ok n' ->
  proper_tree n' = true.
Proof.
  intros Hd Hn. unfold Fs.copyFileSync.
  destruct (Fs.readFileSync n src) as [d|e]; [|done]. cbn [rbind].
  by apply write_proper.
Qed.

Lemma proper_path_removelast (p : path) : proper_path p -> proper_path (removelast p).
Proof.
  unfold proper_path. intros Hp. apply List.Forall_forall. intros s Hs.
  rewrite List.Forall_forall in Hp. apply Hp.
  clear -Hs. induction p as [|a p IH]; [done|]. simpl in Hs.
  destruct p as [|b p]; [done|]. destruct Hs as [<-|Hs]; [by left|right; by apply IH].
Qed.

(** ** The copy of the files that are not compressed, over any tree *)

Section CliCopyWalkAny.

Variable cfg : Cli.Config.

Hypothesis source_proper : proper_path (Cli.SOURCE_ROOT cfg).
Hypothesis output_proper : proper_path (Cli.OUTPUT_ROOT cfg).

(** One file copied: a directory is made sure of, then the file is written
    at its place below the output root, or nothing happens. *)
Lemma cli_copy_file_steps (rel0 : list string) (file : string) (w : World) :
  proper_path (rel0 ++ [file]) ->
  let r := cli_copy_file cfg (Cli.SOURCE_ROOT cfg ++ rel0) (Cli.OUTPUT_ROOT cfg) file w in
  let outputPath :=
    if Cli.PRESERVE_DIR_STRUCTURE cfg then Cli.OUTPUT_ROOT cfg ++ rel0 ++ [file]
    else Cli.OUTPUT_ROOT cfg ++ [file] in
  fs r.2 = fs w
  \/ (supported file = false
      /\ exists fs1,
           (if Fs.existsSync (fs w) (path_dirname outputPath) then Ok (fs w)
            else Fs.mkdirSync (path_dirname outputPath) (fs w)) = Ok fs1
           /\ (fs r.2 = fs1
               \/ Fs.copyFileSync (Cli.SOURCE_ROOT cfg ++ rel0 ++ [file]) outputPath fs1
                  = Ok (fs r.2))).
Proof.
  intros Hrel. cbv zeta.
  apply Forall_app in Hrel as Hrel'. destruct Hrel' as [Hrel0 Hfile].
  inversion Hfile as [|? ? Hname _]; subst.
  unfold cli_copy_file. cbv zeta.
  rewrite path_join_proper by (done || by apply Forall_app).
  destruct (supported file) eqn:Hsup; cbn [fst snd]; [by left|].
  rewrite dirname_snoc, path_relative_below.
  rewrite <- (app_assoc (Cli.SOURCE_ROOT cfg) rel0 [file]).
  set (outputPath := if Cli.PRESERVE_DIR_STRUCTURE cfg
                     then Cli.OUTPUT_ROOT cfg ++ rel0 ++ [file]
                     else Cli.OUTPUT_ROOT cfg ++ [file]).
  assert (Hout : (if Cli.PRESERVE_DIR_STRUCTURE cfg
                  then path_join (Cli.OUTPUT_ROOT cfg) (rel0 ++ [file])
                  else path_join (Cli.OUTPUT_ROOT cfg) [file]) = outputPath).
  { unfold outputPath. destruct (Cli.PRESERVE_DIR_STRUCTURE cfg);
      by rewrite path_join_proper_app. }
  rewrite Hout. clear Hout.
  destruct (if Fs.existsSync (fs w) _ then _ else _) as [fs1|e] eqn:Hd;
    cbn [fst snd]; [|by left].
  right. split; [done|]. exists fs1. split; [done|].
  destruct (Fs.copyFileSync _ outputPath fs1) as [fs2|e] eqn:Hc;
    cbn [fst snd fs set_fs]; [|by left].
  right. by destruct (Cli.is_verbose cfg).
Qed.

Lemma cli_copy_file_proper (rel0 : list string) (file : string) (w : World) :
  proper_path (rel0 ++ [file]) -> proper_tree (fs w) = true ->
  proper_tree
    (fs (cli_copy_file cfg (Cli.SOURCE_ROOT cfg ++ rel0) (Cli.OUTPUT_ROOT cfg) file w).2)
  = true.
Proof.
  intros Hrel Hw.
  assert (Hout : proper_path (if Cli.PRESERVE_DIR_STRUCTURE cfg
                              then Cli.OUTPUT_ROOT cfg ++ rel0 ++ [file]
                              else Cli.OUTPUT_ROOT cfg ++ [file])).
  { apply Forall_app in Hrel as Hrel'. destruct Hrel' as [_ Hfile].
    destruct (Cli.PRESERVE_DIR_STRUCTURE cfg); by apply Forall_app. }
  destruct (cli_copy_file_steps rel0 file w Hrel) as [->|(_ & fs1 & Hd & Hc)]; [done|].
  assert (H1 : proper_tree fs1 = true).
  { eapply ensure_dir_proper; [|exact Hw|exact Hd]. by apply proper_path_removelast. }
  destruct Hc as [->|Hc]; [done|]. by eapply copy_proper.
Qed.

(** One file copied: only a file whose name has no supported extension is
    written. *)
Lemma cli_copy_file_written_only (rel0 : list string) (file : string) (w : World) :
  proper_path (rel0 ++ [file]) ->
  written_only (fun p => supported (path_basename p) = false) (fs w)
    (fs (cli_copy_file cfg (Cli.SOURCE_ROOT cfg ++ rel0) (Cli.OUTPUT_ROOT cfg) file w).2).
Proof.
  intros Hrel.
  destruct (cli_copy_file_steps rel0 file w Hrel) as [->|(Hsup & fs1 & Hd & Hc)];
    [apply written_only_refl|].
  apply (written_only_trans _ _ fs1); [by eapply ensure_dir_written_only|].
  destruct Hc as [->|Hc]; [apply written_only_refl|].
  eapply copy_written_only; [|exact Hc]. cbv beta.
  destruct (Cli.PRESERVE_DIR_STRUCTURE cfg); by rewrite ?app_assoc, basename_snoc.
Qed.

(** A property of the file system that the copy of one file keeps. *)
Variable Q : node -> Prop.

Hypothesis copy_keeps : forall rel0 file w,
  proper_path (rel0 ++ [file]) -> supported file = false ->
  proper_tree (fs w) = true -> Q (fs w) ->
  Q (fs (cli_copy_file cfg (Cli.SOURCE_ROOT cfg ++ rel0) (Cli.OUTPUT_ROOT cfg) file w).2).

Lemma cli_copy_entries_any (depth : nat) :
  (forall rel0 w,
     proper_path rel0 -> proper_tree (fs w) = true -> Q (fs w) ->
     let r := Cli.copyUnsupportedFiles depth cfg (Cli.SOURCE_ROOT cfg ++ rel0)
                (Cli.OUTPUT_ROOT cfg) w in
     proper_tree (fs r.2) = true /\ Q (fs r.2)) ->
  forall rel0 names w,
    proper_path rel0 -> Forall (fun s => proper_name s = true) names ->
    proper_tree (fs w) = true -> Q (fs w) ->
    let r := cli_copy_entries depth cfg (Cli.SOURCE_ROOT cfg ++ rel0)
               (Cli.OUTPUT_ROOT cfg) names w in
    proper_tree (fs r.2) = true /\ Q (fs r.2).
Proof.
  intros Hwalk rel0 names. induction names as [|file names IH];
    intros w Hrel0 Hnames Hpt HQ; [done|].
  apply Forall_cons in Hnames as [Hname Hnames'].
  assert (Hrel : proper_path (rel0 ++ [file])) by (by apply proper_path_snoc).
  cbv zeta. cbn [cli_copy_entries].
  rewrite path_join_proper by (done || by apply Forall_app).
  rewrite <- (app_assoc (Cli.SOURCE_ROOT cfg) rel0 [file]).
  destruct (Fs.isDirectory (fs w) (Cli.SOURCE_ROOT cfg ++ rel0 ++ [file]))
    as [[|]|e]; [| |done].
  - destruct (Hwalk (rel0 ++ [file]) w Hrel Hpt HQ) as [Hpt1 HQ1].
    destruct (Cli.copyUnsupportedFiles _ _ _ _ _) as [[u|e] w1]; cbn [fst snd] in *;
      [|done].
    by apply IH.
  - pose proof (cli_copy_file_proper rel0 file w Hrel Hpt) as Hpt1.
    assert (HQ1 : Q (fs (cli_copy_file cfg (Cli.SOURCE_ROOT cfg ++ rel0)
                           (Cli.OUTPUT_ROOT cfg) file w).2)).
    { destruct (supported file) eqn:Hsup; [|by apply copy_keeps].
      destruct (cli_copy_file_steps rel0 file w Hrel) as [->|(Hno & _)]; [done|].
      by rewrite Hsup in Hno. }
    destruct (cli_copy_file _ _ _ _ _) as [[u|e] w1]; cbn [fst snd] in *; [|done].
    by apply IH.
Qed.

Lemma cli_copy_walk_any (depth : nat) :
  forall rel0 w,
    proper_path rel0 -> proper_tree (fs w) = true -> Q (fs w) ->
    let r := Cli.copyUnsupportedFiles depth cfg (Cli.SOURCE_ROOT cfg ++ rel0)
               (Cli.OUTPUT_ROOT cfg) w in
    proper_tree (fs r.2) = true /\ Q (fs r.2).
Proof.
  induction depth as [|depth IH]; intros rel0 w Hrel0 Hpt HQ; [done|].
  cbv zeta. rewrite cli_copy_dir.
  destruct (cli_turns_away cfg _); [done|].
  unfold Fs.readdirSync.
  destruct (Fs.lookup (fs w) (Cli.SOURCE_ROOT cfg ++ rel0)) as [[d|es]|] eqn:Hl;
    [done| |done].
  apply (cli_copy_entries_any depth IH); try done.
  destruct (lookup_proper (fs w) _ (Dir es) Hpt Hl) as [_ Hes].
  apply List.Forall_forall. intros name Hin.
  apply in_map_iff in Hin as ([name' c] & <- & Hin).
  by destruct (proper_tree_entry es name' c Hes Hin).
Qed.

End CliCopyWalkAny.

(** However the walk of [copyUnsupportedFiles] from the source root ends,
    it has only made directories and written files whose names have no
    supported extension, and it has changed nothing at the paths that part
    ways with the output root. *)
Lemma cli_copy_walk_written_only (cfg : Cli.Config) (depth : nat) (w : World) :
  proper_path (Cli.SOURCE_ROOT cfg) -> proper_path (Cli.OUTPUT_ROOT cfg) ->
  proper_tree (fs w) = true ->
  let r := Cli.copyUnsupportedFiles depth cfg (Cli.SOURCE_ROOT cfg)
             (Cli.OUTPUT_ROOT cfg) w in
  proper_tree (fs r.2) = true
  /\ written_only (fun p => supported (path_basename p) = false) (fs w) (fs r.2)
  /\ same_outside (Cli.OUTPUT_ROOT cfg) (fs w) (fs r.2).
Proof.
  intros HS HO Hpt.
  pose proof (cli_copy_walk_any cfg HS HO
                (fun n => written_only (fun p => supported (path_basename p) = false)
                            (fs w) n
                          /\ same_outside (Cli.OUTPUT_ROOT cfg) (fs w) n)) as Hrule.
  assert (Hgoal : let r := Cli.copyUnsupportedFiles depth cfg (Cli.SOURCE_ROOT cfg ++ [])
                             (Cli.OUTPUT_ROOT cfg) w in
            proper_tree (fs r.2) = true
            /\ written_only (fun p => supported (path_basename p) = false) (fs w) (fs r.2)
               /\ same_outside (Cli.OUTPUT_ROOT cfg) (fs w) (fs r.2));
    [|rewrite app_nil_r in Hgoal; exact Hgoal].
  apply Hrule; [|constructor|done|split; [apply written_only_refl|apply same_outside_refl]].
  clear Hrule. intros rel0 file w0 Hrel Hsup Hpt0 [Hwr Hout]. split.
  - eapply written_only_trans; [exact Hwr|]. by apply cli_copy_file_written_only.
  - destruct (cli_copy_file_effect cfg rel0 file w0 HS HO Hrel) as (Hframe & _).
    intros q Hq. rewrite Hframe; [by apply Hout|].
    destruct (Cli.PRESERVE_DIR_STRUCTURE cfg); by apply diverge_below.
Qed.

(** ** The normal pass keeps the names of the tree in order *)

Lemma attempt_receive_proper (env : Env) (outputRoot filePath : path) (size : nat)
    (o : NetOutcome) (w : World) :
  proper_path (outputPathOf env outputRoot filePath) -> proper_tree (fs w) = true ->
  proper_tree (fs (attempt_receive env outputRoot filePath size o w).2) = true.
Proof.
  intros Hout Hw. unfold attempt_receive.
  set (outputPath := outputPathOf env outputRoot filePath) in *.
  assert (Hdir : forall fs1,
            (if Fs.existsSync (fs w) (path_dirname outputPath) then Ok (fs w)
             else Fs.mkdirSync (path_dirname outputPath) (fs w)) = Ok fs1 ->
            proper_tree fs1 = true).
  { intros fs1 Hd. eapply ensure_dir_proper; [|exact Hw|exact Hd].
    by apply proper_path_removelast. }
  destruct o as [e|e|data]; [done| |].
  - destruct (if Fs.existsSync (fs w) _ then _ else _) as [fs1|e2] eqn:Hd;
      cbn [fst snd fs set_fs]; [by apply Hdir|done].
  - destruct (if Fs.existsSync (fs w) _ then _ else _) as [fs1|e2] eqn:Hd;
      cbn [fst snd fs set_fs]; [|done].
    destruct (Fs.writeFileSync outputPath data fs1) as [fs2|e3] eqn:Hw2;
      cbn [fst snd fs set_fs]; [|by apply Hdir].
    eapply write_proper; [exact Hout| |exact Hw2]. by apply Hdir.
Qed.

Lemma cli_run_workers_proper (cfg : Cli.Config) (adapter : Adapter) (sched : nat -> nat)
    (files : list path) (w : World) :
  proper_path (Cli.OUTPUT_ROOT cfg) ->
  NoDup files -> Forall (image_below (Cli.SOURCE_ROOT cfg)) files ->
  proper_tree (fs w) = true ->
  proper_tree
    (fs (world (shared (Cli.run_workers cfg adapter sched (Cli.OUTPUT_ROOT cfg) false
                          files w).2))) = true.
Proof.
  intros HO Hnd Himg Hw.
  apply (cli_normal_run_rule cfg adapter (Cli.OUTPUT_ROOT cfg) files Hnd
           (fun n _ => proper_tree n = true)); [|done].
  intros w0 succ file size o Hin _ Hw0. apply attempt_receive_proper; [|done].
  rewrite List.Forall_forall in Himg.
  destruct (Himg _ Hin) as (rel & name & -> & Hp & _).
  change (Cli.SOURCE_ROOT cfg) with (env_sourceRoot (Cli.env_of cfg)).
  rewrite output_path_below by done.
  apply Forall_app in Hp as Hp'. destruct Hp' as [_ Hname].
  destruct (env_preserve (Cli.env_of cfg)); by apply Forall_app.
Qed.

(** ** Step 5 of the normal pass, copy by copy *)

Lemma copy_failed_cons (cfg : Cli.Config) (f : Failure) (fl : list Failure) (w : World) :
  exists w1,
    Cli.copy_failed cfg (f :: fl) w = Cli.copy_failed cfg fl w1
    /\ match Fs.copyFileSync (f_filePath f)
               (path_join (Cli.SAVE_FAILED_TO cfg) [path_basename (f_filePath f)]) (fs w)
       with
       | Ok n' => fs w1 = n'
       | Throw _ => fs w1 = fs w
       end.
Proof.
  cbn [Cli.copy_failed]. cbv zeta.
  destruct (Fs.copyFileSync _ _ _) as [fs'|e] eqn:Hcopy.
  - eexists. split; [reflexivity|]. by destruct (Cli.is_verbose cfg).
  - eexists. split; [reflexivity|]. done.
Qed.

Lemma copy_failed_written_only (cfg : Cli.Config) (fl : list Failure) (w : World) :
  written_only
    (fun p => exists g, In g fl
                        /\ p = path_join (Cli.SAVE_FAILED_TO cfg)
                                 [path_basename (f_filePath g)])
    (fs w) (fs (Cli.copy_failed cfg fl w)).
Proof.
  revert w. induction fl as [|f fl IH]; intros w; [apply written_only_refl|].
  destruct (copy_failed_cons cfg f fl w) as (w1 & -> & Hw1).
  apply (written_only_trans _ _ (fs w1)).
  - destruct (Fs.copyFileSync _ _ _) as [n'|e] eqn:Hc;
      [|rewrite Hw1; apply written_only_refl].
    subst n'. eapply copy_written_only; [|exact Hc]. exists f. split; [by left|done].
  - eapply written_only_weaken; [|apply IH].
    intros p (g & Hg & ->). exists g. split; [by right|done].
Qed.

Lemma copy_failed_proper (cfg : Cli.Config) (fl : list Failure) (w : World) :
  Forall (fun g => proper_path (path_join (Cli.SAVE_FAILED_TO cfg)
                                  [path_basename (f_filePath g)])) fl ->
  proper_tree (fs w) = true ->
  proper_tree (fs (Cli.copy_failed cfg fl w)) = true.
Proof.
  revert w. induction fl as [|f fl IH]; intros w Hall Hw; [done|].
  apply Forall_cons in Hall as [Hf Hfl].
  destruct (copy_failed_cons cfg f fl w) as (w1 & -> & Hw1).
  apply IH; [done|].
  destruct (Fs.copyFileSync _ _ _) as [n'|e] eqn:Hc; [|by rewrite Hw1].
  subst n'. by eapply copy_proper.
Qed.

Lemma save_failed_proper (cfg : Cli.Config) (res : Results) (w : World)
    (files : list path) :
  proper_path (Cli.SAVE_FAILED_TO cfg) ->
  Forall (image_below (Cli.SOURCE_ROOT cfg)) files ->
  (forall g, In g (failed res) -> In (f_filePath g) files) ->
  proper_tree (fs w) = true ->
  proper_tree (fs (Cli.save_failed cfg res w).2) = true.
Proof.
  intros HF Hfiles Hin Hw. unfold Cli.save_failed.
  destruct (failed res) as [|g0 fl] eqn:Hfl; [done|].
  destruct (if Fs.existsSync (fs w) _ then _ else _) as [fs1|e] eqn:Hd; [|done].
  cbn [snd fs emit]. apply copy_failed_proper.
  - apply List.Forall_forall. intros g Hg.
    rewrite List.Forall_forall in Hfiles.
    destruct (image_below_basename _ _ (Hfiles _ (Hin g Hg))) as (_ & Hb & _).
    rewrite path_join_proper by done. by apply proper_path_snoc.
  - cbn [fs set_fs]. by eapply ensure_dir_proper.
Qed.

(** ** The normal pass, stage by stage *)

Lemma attempt_receive_written_only (env : Env) (outputRoot filePath : path) (size : nat)
    (o : NetOutcome) (w : World) :
  written_only (fun _ => True) (fs w)
    (fs (attempt_receive env outputRoot filePath size o w).2).
Proof.
  unfold attempt_receive.
  destruct o as [e|e|data]; [apply written_only_refl| |].
  - destruct (if Fs.existsSync (fs w) _ then _ else _) as [fs1|e2] eqn:Hd;
      cbn [fst snd fs set_fs]; [|apply written_only_refl].
    by eapply ensure_dir_written_only.
  - destruct (if Fs.existsSync (fs w) _ then _ else _) as [fs1|e2] eqn:Hd;
      cbn [fst snd fs set_fs]; [|apply written_only_refl].
    pose proof (ensure_dir_written_only (fun _ => True) _ _ _ Hd) as H1.
    destruct (Fs.writeFileSync _ data fs1) as [fs2|e3] eqn:Hw;
      cbn [fst snd fs set_fs]; [|done].
    eapply written_only_trans; [exact H1|]. by eapply write_written_only.
Qed.

Lemma cli_run_workers_written_only (cfg : Cli.Config) (adapter : Adapter)
    (sched : nat -> nat) (files : list path) (w : World) :
  NoDup files ->
  written_only (fun _ => True) (fs w)
    (fs (world (shared (Cli.run_workers cfg adapter sched (Cli.OUTPUT_ROOT cfg) false
                          files w).2))).
Proof.
  intros Hnd.
  apply (cli_normal_run_rule cfg adapter (Cli.OUTPUT_ROOT cfg) files Hnd
           (fun n _ => written_only (fun _ => True) (fs w) n));
    [|apply written_only_refl].
  intros w0 succ file size o _ _ Hw0.
  eapply written_only_trans; [exact Hw0|]. apply attempt_receive_written_only.
Qed.

(** What the scan returns: regular files below the source root, with
    supported names, none of them directly in the failed-files directory. *)
Lemma cli_scan_sources (cfg : Cli.Config) (tree : node) (allFiles : list path) (f : path) :
  proper_path (Cli.SOURCE_ROOT cfg) -> proper_tree tree = true ->
  distinct_names tree = true ->
  Cli.getAllImageFiles cfg (Cli.SOURCE_ROOT cfg) tree = Ok allFiles -> In f allFiles ->
  image_below (Cli.SOURCE_ROOT cfg) f
  /\ path_dirname f <> Cli.SAVE_FAILED_TO cfg
  /\ exists rel d, f = Cli.SOURCE_ROOT cfg ++ rel /\ Fs.lookup tree rel = Some (File d).
Proof.
  intros HS Htree Hd Hscan Hf.
  destruct (cli_scan_found cfg tree _ _ HS Htree Hd Hscan f Hf)
    as (rel & name & d & -> & Hl & Hsup & Hchain).
  split; [|split].
  - exists rel, name. split; [done|]. split; [|done].
    by destruct (lookup_proper tree _ _ Htree Hl).
  - rewrite app_assoc, dirname_snoc.
    rewrite List.Forall_forall in Hchain.
    destruct (Hchain (Cli.SOURCE_ROOT cfg ++ rel)) as [_ Hne]; [|done].
    by apply chain_prefix.
  - by exists (rel ++ [name]), d.
Qed.

(** A normal pass that returns a result object has gone through these
    stages: the scan, the output root made sure of, the pool, step 5, and
    the copy of the files that are not compressed. *)
Lemma cli_compressFolder_stages (cfg : Cli.Config) (ps : Pass) (w : World)
    (res : Results) (w' : World) :
  Cli.compressFolder cfg ps w = (Ok (Some res), w') ->
  exists tree allFiles w1 w5 w6 w7,
    Fs.lookup (fs w) (Cli.SOURCE_ROOT cfg) = Some tree
    /\ Cli.getAllImageFiles cfg (Cli.SOURCE_ROOT cfg) tree = Ok allFiles
    /\ (if Fs.existsSync (fs w) (Cli.OUTPUT_ROOT cfg) then Ok (fs w)
        else Fs.mkdirSync (Cli.OUTPUT_ROOT cfg) (fs w)) = Ok (fs w1)
    /\ w5 = world (shared (Cli.run_workers cfg (pass_adapter ps) (pass_sched ps)
                             (Cli.OUTPUT_ROOT cfg) false allFiles w1).2)
    /\ res = results (shared (Cli.run_workers cfg (pass_adapter ps) (pass_sched ps)
                                (Cli.OUTPUT_ROOT cfg) false allFiles w1).2)
    /\ Cli.save_failed cfg res w5 = (Ok tt, w6)
    /\ fs w7 = fs w6
    /\ fs w' = (if Cli.COPY_UNSUPPORTED_TO_OUTPUT cfg
                then fs (Cli.copyUnsupportedFiles (pass_stack ps) cfg (Cli.SOURCE_ROOT cfg)
                           (Cli.OUTPUT_ROOT cfg) w7).2
                else fs w7).
Proof.
  unfold Cli.compressFolder. cbv zeta. cbn [fs emit].
  destruct (Fs.lookup (fs w) (Cli.SOURCE_ROOT cfg)) as [tree|] eqn:Hsrc; [|done].
  destruct (Cli.getAllImageFiles cfg (Cli.SOURCE_ROOT cfg) tree) as [allFiles|e] eqn:Hscan;
    [|done].
  set (w0 := emit (Scan ScanImages _) _).
  destruct allFiles as [|f0 fl].
  { destruct (if Cli.COPY_UNSUPPORTED_TO_OUTPUT cfg then _ else _) as [[u|e] w3]; done. }
  unfold Cli.compress_images.
  destruct (if Fs.existsSync (fs w0) _ then _ else _) as [fs1|e] eqn:Hd;
    [|by destruct (Cli.COPY_UNSUPPORTED_TO_OUTPUT cfg)].
  destruct (Cli.run_workers cfg (pass_adapter ps) (pass_sched ps) (Cli.OUTPUT_ROOT cfg)
              false (f0 :: fl) (set_fs fs1 w0)) as [[u|e] p] eqn:Hrun; [|done].
  destruct (Cli.save_failed cfg (results (shared p)) (world (shared p)))
    as [[u'|e] w6] eqn:Hsave; [|done].
  set (w7 := emit (Scan ScanUnsupported (Cli.SOURCE_ROOT cfg))
               (Cli.report (results (shared p)) w6)).
  intros Hres.
  exists tree, (f0 :: fl), (set_fs fs1 w0), (world (shared p)), w6, w7.
  rewrite Hrun. cbn [fst snd].
  assert (Hres' : res = results (shared p)
                  /\ fs w' = (if Cli.COPY_UNSUPPORTED_TO_OUTPUT cfg
                              then fs (Cli.copyUnsupportedFiles (pass_stack ps) cfg
                                         (Cli.SOURCE_ROOT cfg) (Cli.OUTPUT_ROOT cfg) w7).2
                              else fs w7)).
  { destruct (Cli.COPY_UNSUPPORTED_TO_OUTPUT cfg).
    - fold w7 in Hres.
      destruct (Cli.copyUnsupportedFiles (pass_stack ps) cfg (Cli.SOURCE_ROOT cfg)
                  (Cli.OUTPUT_ROOT cfg) w7) as [[u2|e] w8]; [|done].
      by injection Hres as <- <-.
    - by injection Hres as <- <-. }
  destruct Hres' as [-> Hfs].
  split; [done|]. split; [done|]. split; [done|]. split; [done|]. split; [done|].
  destruct u'. split; [done|]. split; [done|]. exact Hfs.
Qed.

(** Step 5 and what follows it, seen from the end of the pass.  [f] is the
    last failure with its base name; when the pass ends the failed-files
    directory is a directory and the name of [f] is not taken there by a
    directory.  Then the copy of [f] went through, and nothing has replaced
    it since. *)
Lemma save_failed_last_wins (cfg : Cli.Config) (res : Results) (w5 w6 : World)
    (n_end : node) (before after : list Failure) (f : Failure) :
  proper_path (Cli.SAVE_FAILED_TO cfg) ->
  failed res = before ++ f :: after ->
  (forall g, In g (failed res) ->
     image_below (Cli.SOURCE_ROOT cfg) (f_filePath g)
     /\ path_dirname (f_filePath g) <> Cli.SAVE_FAILED_TO cfg) ->
  Forall (fun g => path_basename (f_filePath g) <> path_basename (f_filePath f)) after ->
  Cli.save_failed cfg res w5 = (Ok tt, w6) ->
  written_only (fun p => supported (path_basename p) = false) (fs w6) n_end ->
  (exists d0, holds (fs w5) (f_filePath f) = Some (Some d0)) ->
  holds n_end (Cli.SAVE_FAILED_TO cfg) = Some None ->
  holds n_end (Cli.SAVE_FAILED_TO cfg ++ [path_basename (f_filePath f)]) <> Some None ->
  exists d,
    holds n_end (f_filePath f) = Some (Some d)
    /\ holds n_end (Cli.SAVE_FAILED_TO cfg ++ [path_basename (f_filePath f)])
       = Some (Some d).
Proof.
  intros HF Hfl Hsrc Hafter Hsave Hwalk [d0 Hd0] HFdir Htnd.
  set (F := Cli.SAVE_FAILED_TO cfg) in *.
  set (target := F ++ [path_basename (f_filePath f)]) in *.
  assert (Hjoin : forall g, In g (failed res) ->
            path_join F [path_basename (f_filePath g)]
            = F ++ [path_basename (f_filePath g)]).
  { intros g Hg. destruct (Hsrc g Hg) as [Himg _].
    destruct (image_below_basename _ _ Himg) as (_ & Hb & _).
    by apply path_join_proper. }
  assert (Hf_in : In f (failed res)).
  { rewrite Hfl. apply in_or_app. right. by left. }
  assert (Hafter_in : forall g, In g after -> In g (failed res)).
  { intros g Hg. rewrite Hfl. apply in_or_app. right. by right. }
  destruct (Hsrc f Hf_in) as [Himg Hdirname].
  destruct (image_below_basename _ _ Himg) as (Hfne & Hbp & Hbs).
  (* the source of [f] and its target are not written by what comes later *)
  set (Wtail := fun p : path =>
         (exists g, In g after /\ p = path_join F [path_basename (f_filePath g)])
         \/ supported (path_basename p) = false).
  assert (Hsource_out : ~ Wtail (f_filePath f)).
  { intros [(g & Hg & Heq)|Hno]; [|by rewrite Hbs in Hno].
    rewrite (Hjoin g (Hafter_in g Hg)) in Heq.
    apply Hdirname. rewrite Heq. apply dirname_snoc. }
  assert (Htarget_out : ~ Wtail target).
  { intros [(g & Hg & Heq)|Hno].
    - rewrite (Hjoin g (Hafter_in g Hg)) in Heq. unfold target in Heq.
      apply app_inj_tail in Heq as [_ Heq].
      rewrite List.Forall_forall in Hafter. by apply (Hafter g Hg).
    - unfold target in Hno. rewrite basename_snoc in Hno. by rewrite Hbs in Hno. }
  assert (Hdiff : f_filePath f <> target).
  { intros Heq. apply Hdirname. rewrite Heq. apply dirname_snoc. }
  (* step 5 *)
  unfold Cli.save_failed in Hsave.
  destruct (failed res) as [|g0 fl0] eqn:Hfailed; [by destruct before|].
  rewrite Hfl in Hsave.
  destruct (if Fs.existsSync (fs w5) _ then _ else _) as [n1|e] eqn:Hd; [|done].
  injection Hsave as <-. cbn [fs emit] in Hwalk.
  rewrite (copy_failed_app cfg before (f :: after)) in Hwalk.
  set (wb := Cli.copy_failed cfg before (set_fs n1 w5)) in *.
  destruct (copy_failed_cons cfg f after wb) as (wf & Hcf & Hwf).
  rewrite Hcf in Hwalk. fold F in Hwf. rewrite (Hjoin f Hf_in) in Hwf.
  fold target in Hwf.
  (* from the pool to the copy of [f] *)
  assert (Hhead : written_only (fun _ => True) (fs w5) (fs wb)).
  { apply (written_only_trans _ _ n1); [by eapply ensure_dir_written_only|].
    eapply written_only_weaken; [|apply (copy_failed_written_only cfg before (set_fs n1 w5))].
    done. }
  (* from the copy of [f] to the end of the pass *)
  assert (Htail : written_only Wtail (fs wf) n_end).
  { apply (written_only_trans _ _ (fs (Cli.copy_failed cfg after wf))).
    - eapply written_only_weaken; [|apply copy_failed_written_only].
      intros p Hp. by left.
    - eapply written_only_weaken; [|exact Hwalk]. intros p Hp. by right. }
  destruct Htail as (Tfile & Tdir & Tstay).
  assert (Hstep : written_only (fun _ => True) (fs wb) (fs wf)).
  { destruct (Fs.copyFileSync _ _ (fs wb)) as [n'|e] eqn:Hc;
      [|rewrite Hwf; apply written_only_refl].
    subst n'. by eapply copy_written_only. }
  destruct Hstep as (_ & Sdir & Sstay).
  destruct Hhead as (_ & Hdir & Hstay).
  (* the failed-files directory is a directory when [f] is copied *)
  assert (HF1 : holds n1 F = Some None).
  { assert (Hex : holds n1 F <> None).
    { unfold Fs.existsSync in Hd.
      fold F in Hd.
      destruct (Fs.lookup (fs w5) F) as [c|] eqn:Hl; cbv iota in Hd.
      - injection Hd as <-. unfold holds. rewrite Hl. by destruct c.
      - rewrite (mkdir_makes _ _ _ Hd). done. }
    destruct (holds n1 F) as [[dF|]|] eqn:HnF; [|done|done].
    exfalso.
    assert (H1 : exists d', holds (fs wb) F = Some (Some d')).
    { pose proof (copy_failed_written_only cfg before (set_fs n1 w5)) as (_ & _ & C).
      by apply (C F dF). }
    destruct H1 as [d1 H1]. destruct (Sstay F d1 H1) as [d2 H2].
    destruct (Tstay F d2 H2) as [d3 H3]. by rewrite H3 in HFdir. }
  assert (HFb : holds (fs wb) F = Some None).
  { pose proof (copy_failed_written_only cfg before (set_fs n1 w5)) as (_ & B & _).
    by apply B. }
  assert (Htb : holds (fs wb) target <> Some None).
  { intros Ht. apply Htnd. by apply Tdir, Sdir. }
  (* the source of [f] is a file when [f] is copied *)
  destruct (Hstay _ _ Hd0) as [d Hsourceb].
  destruct (write_succeeds F (path_basename (f_filePath f)) d (fs wb) HFb Htb)
    as [n' Hw].
  fold target in Hw.
  assert (Hcopy : Fs.copyFileSync (f_filePath f) target (fs wb) = Ok n').
  { unfold Fs.copyFileSync. apply read_holds in Hsourceb. by rewrite Hsourceb. }
  rewrite Hcopy in Hwf.
  exists d. split.
  - apply (Tfile _ d Hsource_out). rewrite Hwf, (write_holds _ _ _ _ _ Hw).
    by rewrite decide_False.
  - apply (Tfile _ d Htarget_out). rewrite Hwf, (write_holds _ _ _ _ _ Hw).
    by rewrite decide_True.
Qed.

(** ** Claim 4: the failed files at the end of a normal pass *)

(** C4 (the claim as stated fails), in every way it does.  A copy that is
    already in the failed-files directory is not skipped but overwritten;
    and the source file of a failure is not copied at all when the
    failed-files directory is a regular file, or when its name is taken
    there by a directory: the pass still returns its result object. *)
Lemma C4_commit_overwrites_and_can_copy_nothing :
  let cfg := Cli.CONFIG ["app"] 4 in
  let ps := {| pass_adapter := fun _ _ _ _ => UploadFailed AxiosRequest;
               pass_sched := fun t => t; pass_stack := 8 |} in
  let w (holding : node) :=
    {| fs := Dir [("app", Dir [("static", Dir [("a.png", File [x02])]);
                               ("failed_images", holding)])];
       trace := [] |} in
  let r (holding : node) := Cli.compressFolder cfg ps (w holding) in
  let failures (holding : node) :=
    match (r holding).1 with
    | Ok (Some res) => map f_filePath (failed res)
    | _ => []
    end in
  let target := ["app"; "failed_images"; "a.png"] in
  (failures (Dir [("a.png", File [x01])]) = [["app"; "static"; "a.png"]]
   /\ Fs.readFileSync (fs (w (Dir [("a.png", File [x01])]))) target = Ok [x01]
   /\ Fs.readFileSync (fs (r (Dir [("a.png", File [x01])])).2) target = Ok [x02])
  /\ (failures (File [x07]) = [["app"; "static"; "a.png"]]
      /\ Fs.lookup (fs (r (File [x07])).2) ["app"; "failed_images"] = Some (File [x07])
      /\ Fs.lookup (fs (r (File [x07])).2) target = None)
  /\ (failures (Dir [("a.png", Dir [])]) = [["app"; "static"; "a.png"]]
      /\ Fs.lookup (fs (r (Dir [("a.png", Dir [])])).2) target = Some (Dir [])).
Proof. vm_compute. done. Qed.

(** At the end of a normal pass that returns its result object, the
    failed-files directory holds under the base name of [f], the last
    failure with that base name ([after] are the later failures), a copy of
    the source file of [f], provided the failed-files directory is a
    directory and the name is not taken there by a directory. *)
Lemma commit_last_failure_wins (cfg : Cli.Config) (ps : Pass)
    (w : World) (res : Results) (before after : list Failure) (f : Failure) :
  proper_path (Cli.SOURCE_ROOT cfg) -> proper_path (Cli.OUTPUT_ROOT cfg) ->
  proper_path (Cli.SAVE_FAILED_TO cfg) ->
  proper_tree (fs w) = true -> distinct_names (fs w) = true ->
  let r := Cli.compressFolder cfg ps w in
  let target := Cli.SAVE_FAILED_TO cfg ++ [path_basename (f_filePath f)] in
  r.1 = Ok (Some res) ->
  failed res = before ++ f :: after ->
  Forall (fun g => path_basename (f_filePath g) <> path_basename (f_filePath f)) after ->
  holds (fs r.2) (Cli.SAVE_FAILED_TO cfg) = Some None ->
  holds (fs r.2) target <> Some None ->
  exists d,
    Fs.readFileSync (fs r.2) (f_filePath f) = Ok d
    /\ Fs.readFileSync (fs r.2) target = Ok d.
Proof.
  intros HS HO HF Hpt Hdn r target Hr Hfl Hafter HFdir Htnd.
  subst r target.
  destruct (Cli.compressFolder cfg ps w) as [r1 w'] eqn:Hrun. cbn [fst snd] in *.
  subst r1.
  destruct (cli_compressFolder_stages cfg ps w res w' Hrun)
    as (tree & allFiles & w1 & w5 & w6 & w7 & Hsrc & Hscan & Hd & Hw5 & Hres & Hsave
        & H76 & Hend).
  destruct (lookup_proper (fs w) _ tree Hpt Hsrc) as [_ Htree].
  pose proof (lookup_distinct (fs w) _ tree Hdn Hsrc) as Hdist.
  destruct (cli_scan_images_below cfg tree allFiles HS Htree Hdist Hscan) as [Hnd Himg].
  assert (Hin : forall g, In g (failed res) -> In (f_filePath g) allFiles).
  { intros g Hg. rewrite Hres in Hg. by apply cli_run_workers_failed_in in Hg. }
  (* the names of the tree stay in order up to the walk *)
  pose proof (ensure_dir_proper _ _ _ HO Hpt Hd) as Hpt1.
  assert (Hpt5 : proper_tree (fs w5) = true).
  { rewrite Hw5. by apply cli_run_workers_proper. }
  assert (Hpt6 : proper_tree (fs w6) = true).
  { pose proof (save_failed_proper cfg res w5 allFiles HF Himg Hin Hpt5) as H6.
    by rewrite Hsave in H6. }
  (* the walk writes no file with a supported name *)
  assert (Hwalk : written_only (fun p => supported (path_basename p) = false)
                    (fs w6) (fs w')).
  { rewrite Hend. destruct (Cli.COPY_UNSUPPORTED_TO_OUTPUT cfg).
    - rewrite <- H76.
      apply (cli_copy_walk_written_only cfg (pass_stack ps) w7 HS HO). by rewrite H76.
    - rewrite H76. apply written_only_refl. }
  (* the source of [f] is a file when the pool has finished *)
  assert (Hf_in : In f (failed res)).
  { rewrite Hfl. apply in_or_app. right. by left. }
  assert (Hfile5 : exists d0, holds (fs w5) (f_filePath f) = Some (Some d0)).
  { destruct (cli_scan_sources cfg tree allFiles (f_filePath f) HS Htree Hdist Hscan
                (Hin f Hf_in)) as (_ & _ & rel & d & Heq & Hl).
    assert (H0 : holds (fs w) (f_filePath f) = Some (Some d)).
    { unfold holds. by rewrite Heq, (lookup_below _ _ _ _ Hsrc), Hl. }
    destruct (ensure_dir_written_only (fun _ => True) _ _ _ Hd) as (_ & _ & C1).
    destruct (C1 _ _ H0) as [d1 H1].
    destruct (cli_run_workers_written_only cfg (pass_adapter ps) (pass_sched ps)
                allFiles w1 Hnd) as (_ & _ & C5).
    rewrite <- Hw5 in C5. by apply (C5 _ d1). }
  destruct (save_failed_last_wins cfg res w5 w6 (fs w') before after f HF Hfl)
    as (d & H1 & H2); try done.
  - intros g Hg.
    by destruct (cli_scan_sources cfg tree allFiles (f_filePath g) HS Htree Hdist Hscan
                   (Hin g Hg)) as (? & ? & _).
  - exists d. split; by apply read_holds.
Qed.

(** Among the failures of a pass, the last one with the base name of a
    given one. *)
Lemma last_with_base_name (l : list Failure) :
  forall g, In g l ->
    exists before f after,
      l = before ++ f :: after
      /\ path_basename (f_filePath f) = path_basename (f_filePath g)
      /\ Forall (fun h => path_basename (f_filePath h) <> path_basename (f_filePath f))
           after.
Proof.
  induction l as [|a l IH]; intros g Hin; [done|].
  destruct (decide (Exists (fun h => path_basename (f_filePath h)
                                     = path_basename (f_filePath g)) l)) as [Hex|Hno].
  - apply Exists_exists in Hex as (h & Hh & Hkey).
    destruct (IH h) as (before & f & after & -> & Hk & Hall); [by apply list_elem_of_In|].
    exists (a :: before), f, after. split; [done|]. split; [congruence|done].
  - assert (Hnone : Forall (fun h => path_basename (f_filePath h)
                                     <> path_basename (f_filePath g)) l).
    { apply Forall_forall. intros h Hh Hk. apply Hno. apply Exists_exists. by exists h. }
    destruct Hin as [->|Hin].
    + by exists [], g, l.
    + exfalso. apply Hno. apply Exists_exists. exists g. split; [|done].
      by apply list_elem_of_In.
Qed.

(** C4 (amended): at the end of a normal pass that returns its result
    object, for every failure [g] of the pass the failed-files directory
    holds, under the base name of [g] only, a copy of the source file of
    the last failure with that base name, whatever was there under that
    name before, provided that, when the pass ends, the failed-files
    directory is a directory and the name is not taken there by a
    directory. *)
Theorem C4_commit_overwrites_last_failure_wins (cfg : Cli.Config) (ps : Pass)
    (w : World) (res : Results) (g : Failure) :
  proper_path (Cli.SOURCE_ROOT cfg) -> proper_path (Cli.OUTPUT_ROOT cfg) ->
  proper_path (Cli.SAVE_FAILED_TO cfg) ->
  proper_tree (fs w) = true -> distinct_names (fs w) = true ->
  let r := Cli.compressFolder cfg ps w in
  let target := Cli.SAVE_FAILED_TO cfg ++ [path_basename (f_filePath g)] in
  r.1 = Ok (Some res) -> In g (failed res) ->
  holds (fs r.2) (Cli.SAVE_FAILED_TO cfg) = Some None ->
  holds (fs r.2) target <> Some None ->
  exists before f after d,
    failed res = before ++ f :: after
    /\ path_basename (f_filePath f) = path_basename (f_filePath g)
    /\ Forall (fun h => path_basename (f_filePath h) <> path_basename (f_filePath g)) after
    /\ Fs.readFileSync (fs r.2) (f_filePath f) = Ok d
    /\ Fs.readFileSync (fs r.2) target = Ok d.
Proof.
  intros HS HO HF Hpt Hdn r target Hr Hg HFdir Htnd.
  destruct (last_with_base_name (failed res) g Hg)
    as (before & f & after & Hfl & Hk & Hafter).
  subst target. rewrite <- Hk in Htnd.
  destruct (commit_last_failure_wins cfg ps w res before after f HS HO HF Hpt Hdn Hr Hfl
              Hafter HFdir Htnd) as (d & H1 & H2).
  exists before, f, after, d. rewrite <- Hk.
  split; [done|]. split; [done|]. split; [done|]. split; done.
Qed.

Lemma C4_commit_witness :
  let cfg := Cli.CONFIG ["app"] 4 in
  let w := {| fs := Dir [("app", Dir [("static", Dir [("a.png", File [x02]);
                                                      ("b.png", File [x04]);
                                                      ("sub", Dir [("a.png", File [x03])])]);
                                      ("failed_images", Dir [("a.png", File [x01])])])];
              trace := [] |} in
  let ps := {| pass_adapter := fun file _ _ src =>
                 if decide (path_basename file = "a.png") then UploadFailed AxiosRequest
                 else Downloaded (take 1 src);
               pass_sched := fun t => t; pass_stack := 8 |} in
  let r := Cli.compressFolder cfg ps w in
  let fail p := {| f_fileName := Some "a.png"; f_filePath := p; f_error := NoResponse |} in
  let res := {| success := [{| s_filePath := ["app"; "static"; "b.png"];
                               s_outputPath := ["app"; "compressed_results"; "b.png"];
                               s_fileName := "b.png";
                               s_originalSize := 1;
                               s_compressedSize := 1 |}];
                failed := [fail ["app"; "static"; "a.png"];
                           fail ["app"; "static"; "sub"; "a.png"]] |} in
  let g := fail ["app"; "static"; "a.png"] in
  let target := ["app"; "failed_images"; "a.png"] in
  (r.1 = Ok (Some res) /\ Fs.readFileSync (fs r.2) target = Ok [x03])
  /\ exists before f after d,
       failed res = before ++ f :: after
       /\ path_basename (f_filePath f) = path_basename (f_filePath g)
       /\ Forall (fun h => path_basename (f_filePath h) <> path_basename (f_filePath g))
            after
       /\ Fs.readFileSync (fs r.2) (f_filePath f) = Ok d
       /\ Fs.readFileSync (fs r.2) target = Ok d.
Proof.
  intros cfg w ps r fail res g target.
  split; [split; vm_compute; reflexivity|].
  apply (C4_commit_overwrites_last_failure_wins cfg ps w res g).
  - repeat constructor.
  - repeat constructor.
  - repeat constructor.
  - reflexivity.
  - reflexivity.
  - vm_compute. reflexivity.
  - by left.
  - vm_compute. reflexivity.
  - vm_compute. discriminate.
Defined.

(** ** Further properties: what the normal pass leaves alone *)

(** A call of [copyUnsupportedFiles] on the source root, however it ends
    and wherever the output root is, changes nothing at the paths that
    part ways with the output root, and every path whose last name has a
    supported extension holds what it held; no file with such a name is
    created either: the compressed images are not written over.  When the
    output root is apart from the source root, the source tree is left as it
    was. *)
Theorem copy_step_leaves_the_rest_alone (cfg : Cli.Config) (depth : nat) (w : World) :
  proper_path (Cli.SOURCE_ROOT cfg) -> proper_path (Cli.OUTPUT_ROOT cfg) ->
  proper_tree (fs w) = true ->
  let r := Cli.copyUnsupportedFiles depth cfg (Cli.SOURCE_ROOT cfg)
             (Cli.OUTPUT_ROOT cfg) w in
  (forall q, diverge (Cli.OUTPUT_ROOT cfg) q = true ->
     Fs.lookup (fs r.2) q = Fs.lookup (fs w) q)
  /\ (forall q x, supported (path_basename q) = true ->
        holds (fs w) q = Some x -> holds (fs r.2) q = Some x)
  /\ (forall q d, supported (path_basename q) = true ->
        holds (fs r.2) q = Some (Some d) -> holds (fs w) q = Some (Some d))
  /\ (diverge (Cli.OUTPUT_ROOT cfg) (Cli.SOURCE_ROOT cfg) = true ->
      Fs.lookup (fs r.2) (Cli.SOURCE_ROOT cfg) = Fs.lookup (fs w) (Cli.SOURCE_ROOT cfg)).
Proof.
  intros HS HO Hpt. cbv zeta.
  destruct (cli_copy_walk_written_only cfg depth w HS HO Hpt)
    as (_ & (Hfile & Hdir & _) & Hout).
  split; [exact Hout|]. split; [|split].
  - intros q [d|] Hq Hx.
    + apply (Hfile q d); [by rewrite Hq|done].
    + by apply Hdir.
  - intros q d Hq Hx. apply (Hfile q d); [by rewrite Hq|done].
  - intros Hapart. by apply Hout.
Qed.

Lemma copy_step_rest_witness :
  let cfg := {| Cli.SOURCE_ROOT := ["app"; "static"];
                Cli.OUTPUT_ROOT := ["app"; "static"; "out"];
                Cli.MAX_CONCURRENT := 3;
                Cli.MAX_RETRIES := 2;
                Cli.LOG_LEVEL := Normal;
                Cli.PRESERVE_DIR_STRUCTURE := true;
                Cli.SKIP_HIDDEN_DIRS := true;
                Cli.COPY_UNSUPPORTED_TO_OUTPUT := true;
                Cli.SAVE_FAILED_TO := ["app"; "failed_images"] |} in
  let w := {| fs := Dir [("app", Dir [("static",
                                       Dir [("a.png", File [x01]);
                                            ("logo.svg", File [x02]);
                                            ("out", Dir [("a.png", File [x09])])]);
                                      ("index.js", File [x05])])];
              trace := [] |} in
  let r := Cli.copyUnsupportedFiles 5 cfg (Cli.SOURCE_ROOT cfg) (Cli.OUTPUT_ROOT cfg) w in
  Fs.readFileSync (fs r.2) ["app"; "static"; "out"; "logo.svg"] = Ok [x02]
  /\ (forall q, diverge (Cli.OUTPUT_ROOT cfg) q = true ->
        Fs.lookup (fs r.2) q = Fs.lookup (fs w) q)
  /\ (forall q x, supported (path_basename q) = true ->
        holds (fs w) q = Some x -> holds (fs r.2) q = Some x)
  /\ (forall q d, supported (path_basename q) = true ->
        holds (fs r.2) q = Some (Some d) -> holds (fs w) q = Some (Some d))
  /\ (diverge (Cli.OUTPUT_ROOT cfg) (Cli.SOURCE_ROOT cfg) = true ->
      Fs.lookup (fs r.2) (Cli.SOURCE_ROOT cfg) = Fs.lookup (fs w) (Cli.SOURCE_ROOT cfg)).
Proof.
  intros cfg w r. split; [reflexivity|].
  apply (copy_step_leaves_the_rest_alone cfg 5 w).
  - repeat constructor.
  - repeat constructor.
  - reflexivity.
Defined.

(** Whatever the service answers, in whatever order the workers resume,
    however the pass ends and wherever its directories are, the normal
    pass changes nothing at the paths that part ways with both the output
    root and the failed-files directory; when those two are apart from the
    source root, the source tree is after the pass what it was before. *)
Theorem normal_pass_changes_only_output_and_failed (cfg : Cli.Config) (ps : Pass)
    (w : World) :
  proper_path (Cli.SOURCE_ROOT cfg) -> proper_path (Cli.OUTPUT_ROOT cfg) ->
  proper_path (Cli.SAVE_FAILED_TO cfg) ->
  proper_tree (fs w) = true -> distinct_names (fs w) = true ->
  let r := Cli.compressFolder cfg ps w in
  (forall q, diverge (Cli.OUTPUT_ROOT cfg) q = true ->
             diverge (Cli.SAVE_FAILED_TO cfg) q = true ->
             Fs.lookup (fs r.2) q = Fs.lookup (fs w) q)
  /\ (diverge (Cli.OUTPUT_ROOT cfg) (Cli.SOURCE_ROOT cfg) = true ->
      diverge (Cli.SAVE_FAILED_TO cfg) (Cli.SOURCE_ROOT cfg) = true ->
      Fs.lookup (fs r.2) (Cli.SOURCE_ROOT cfg) = Fs.lookup (fs w) (Cli.SOURCE_ROOT cfg)).
Proof.
  intros HS HO HF Hpt Hdn. cbv zeta.
  set (T := fun (n : node) (_ : list Success) =>
              (forall q, diverge (Cli.OUTPUT_ROOT cfg) q = true ->
                         diverge (Cli.SAVE_FAILED_TO cfg) q = true ->
                         Fs.lookup n q = Fs.lookup (fs w) q)
              /\ proper_tree n = true).
  assert (Hall : exists succ, T (fs (Cli.compressFolder cfg ps w).2) succ).
  { destruct (Fs.lookup (fs w) (Cli.SOURCE_ROOT cfg)) as [tree|] eqn:Hsrc.
    2:{ exists []. unfold Cli.compressFolder. cbv zeta. cbn [fs emit].
        rewrite Hsrc. by split. }
    destruct (lookup_proper (fs w) _ tree Hpt Hsrc) as [_ Htree].
    pose proof (lookup_distinct (fs w) _ tree Hdn Hsrc) as Hdist.
    pose proof (cli_compressFolder_rule cfg ps w tree Hsrc T) as Hrule.
    assert (Hgoal : match Cli.compressFolder cfg ps w with
                    | (Ok (Some res), w') => T (fs w') (success res)
                    | (_, w') => exists succ, T (fs w') succ
                    end).
    { apply Hrule; clear Hrule.
      - by split.
      - intros n n' [HT Hn] Hd. split.
        + intros q Hq1 Hq2. rewrite <- (HT q Hq1 Hq2).
          eapply ensure_dir_frame; [exact Hd|]. by apply diverge_not_prefix.
        + exact (ensure_dir_proper _ _ _ HO Hn Hd).
      - intros allFiles w1 Hscan HT.
        destruct (cli_scan_images_below cfg tree allFiles HS Htree Hdist Hscan)
          as [Hnd Himg].
        apply (cli_normal_run_rule cfg (pass_adapter ps) (Cli.OUTPUT_ROOT cfg) allFiles
                 Hnd T); [|done].
        intros w0 succ file size o Hin _ [HT0 Hn0]. split.
        + intros q Hq1 Hq2. rewrite <- (HT0 q Hq1 Hq2). by eapply answer_outside.
        + apply attempt_receive_proper; [|done].
          rewrite List.Forall_forall in Himg.
          destruct (Himg _ Hin) as (rel & name & -> & Hp & _).
          change (Cli.SOURCE_ROOT cfg) with (env_sourceRoot (Cli.env_of cfg)).
          rewrite output_path_below by done.
          apply Forall_app in Hp as Hp'. destruct Hp' as [_ Hname].
          destruct (env_preserve (Cli.env_of cfg)); by apply Forall_app.
      - intros allFiles res w1 Hscan Hfailed [HT Hn].
        destruct (cli_scan_images_below cfg tree allFiles HS Htree Hdist Hscan)
          as [_ Himg].
        split.
        + intros q Hq1 Hq2. rewrite <- (HT q Hq1 Hq2).
          by apply (save_failed_outside cfg res w1 allFiles).
        + by apply (save_failed_proper cfg res w1 allFiles).
      - intros succ w1 [HT Hn].
        destruct (cli_copy_walk_written_only cfg (pass_stack ps) w1 HS HO Hn)
          as (Hn' & _ & Hout).
        split; [|done].
        intros q Hq1 Hq2. rewrite <- (HT q Hq1 Hq2). by apply Hout. }
    destruct (Cli.compressFolder cfg ps w) as [[[res|]|e] w']; cbn [snd]; eauto. }
  destruct Hall as [succ [HT _]]. split; [exact HT|].
  intros HOS HFS. by apply HT.
Qed.

Lemma normal_pass_frame_witness :
  let cfg := Cli.CONFIG ["app"] 4 in
  let tree := Dir [("a.png", File [x01; x02]);
                   ("b.jpg", File [x03]);
                   ("logo.svg", File [x04])] in
  let w := {| fs := Dir [("app", Dir [("static", tree); ("index.js", File [x05])])];
              trace := [] |} in
  let ps := {| pass_adapter := fun file _ _ src =>
                 if decide (path_basename file = "b.jpg") then UploadFailed AxiosRequest
                 else Downloaded (take 1 src);
               pass_sched := fun t => t;
               pass_stack := 8 |} in
  let r := Cli.compressFolder cfg ps w in
  (forall q, diverge (Cli.OUTPUT_ROOT cfg) q = true ->
             diverge (Cli.SAVE_FAILED_TO cfg) q = true ->
             Fs.lookup (fs r.2) q = Fs.lookup (fs w) q)
  /\ (diverge (Cli.OUTPUT_ROOT cfg) (Cli.SOURCE_ROOT cfg) = true ->
      diverge (Cli.SAVE_FAILED_TO cfg) (Cli.SOURCE_ROOT cfg) = true ->
      Fs.lookup (fs r.2) (Cli.SOURCE_ROOT cfg) = Fs.lookup (fs w) (Cli.SOURCE_ROOT cfg)).
Proof.
  intros cfg tree w ps r.
  apply (normal_pass_changes_only_output_and_failed cfg ps w).
  - repeat constructor.
  - repeat constructor.
  - repeat constructor.
  - reflexivity.
  - vm_compute. reflexivity.
Defined.
